(* ===== verification/_CoqProject ===== *)
-Q . S2P
Prelude.v
Tiling.v
Bytes.v
Config.v
RollupSource.v
Journal.v
Blobs.v
Precondition.v
Oracle.v
Executor.v
Archive.v
L1Chain.v
Core.v
Stitching.v
ProofTrees.v
DA.v
Witgen.v
Payload.v
HanaHost.v
Tasks.v
TasksSpec.v
Runs.v
Floats.v
Boundless.v
Transact.v
Backend.v
Canoe.v
Worker.v
BoundlessSpec.v
Bonsai.v
Prover.v
ProverSpec.v
Preflight.v
Deployment.v
Beacon.v
Proposal.v
Agent.v
FastTrack.v
Rpc.v
Validator.v
ValidatorSpec.v
Demo.v
Publish.v
PublishSpec.v
Requests.v
Args.v
Bench.v
Proposer.v
Faulty.v
Cli.v
