(* ===== verification/Prelude.v ===== *)
(** * Kailua: a verification library

    Kailua proves proposals of an OP Stack rollup with zero-knowledge proofs.  A
    guest program derives L2 blocks from L1 data (or checks traces of executed
    blocks), composes its own run with proofs of adjacent segments, and commits
    one journal.  On the host, a prover divides a request into tasks, generates
    their witnesses, and composes their proofs; an agent follows the dispute
    games on the chain and decides which proposals are correct and canonical.  A
    proposer extends the canonical chain and resolves it; a validator asks the
    prover for the proofs that decide a dispute and publishes them.  The prover
    may leave the proving to a market or a service, and a server tells which game
    covers a block.
    This library translates the code of those parts from [src/] into executable
    Rocq definitions and proves what the parts promise to each other.

    ** Files, in dependency order

    Shared:
    - [Prelude]: results of Rust code ([outcome]: [Ok], [Err] for [anyhow] and
      [Result] errors, [Panic] for everything that aborts), state passing ([St]),
      triples and invariants of runs ([triple], [always], [preserves]), machine
      integers of a target, lists as vectors, inversion tactics ([ok_inv],
      [st_inv], [bools]) and the hint database [kailua].
    - [Tiling]: segments of a range, jobs that stand for them, splitting, sorting.
    - [Bytes]: big-endian encodings, the [Digests] class, paths and UTF-8.
    - [Runs]: calls that may go on for ever, as functions of a fuel: loops, the
      retries of crates/sync/src/retry.rs, what holds whenever they end, that they
      end, how they fail.
    - [Floats]: [f64] with its casts.

    The guest (crates/kona, hana, hokulea and build/risczero):
    - [Config]: config.rs, the digest of the rollup configuration.
    - [RollupSource]: crates/sync/src/provider/optimism.rs and
      crates/prover/src/config.rs, where the configuration comes from.
    - [Journal]: journal.rs, boot.rs, the committed statement and its encoding.
    - [Blobs]: blobs.rs and crates/sync/src/blobs.rs, field elements, the preloaded
      provider, evaluation points of openings.
    - [Precondition]: precondition.rs, what a validity or fault proof presupposes.
    - [Oracle]: oracle/{vec,local,mod}.rs, the preimage oracles.
    - [Executor]: executor.rs, executions, their digests, the caching executor.
    - [Archive]: rkyv/{execution,optimism}.rs, executions in the host's frames.
    - [L1Chain]: kona.rs, the L1 chain provider.
    - [Core]: client/core.rs, one run of the client: a derivation, or a check of a
      trace of executions.
    - [Stitching]: client/{stitching,stateless}.rs, witness.rs and the guest's
      main function.
    - [ProofTrees]: trees of guest runs, what a receipt proves once every receipt
      below it is followed.
    - [DA]: the Celestia and EigenDA clients that wrap it, and their guests.

    The prover (crates/prover):
    - [Witgen]: client/{witgen,proving}.rs, {hana,hokulea}/witgen.rs, args.rs,
      kv.rs: recording a run and cutting its witness into frames.
    - [Payload]: client/payload.rs, filling the host's store beforehand.
    - [HanaHost]: hana/{handler,providers}.rs, what the Celestia source is served.
    - [Tasks], [TasksSpec]: tasks.rs, one proof and its division by executions.
    - [Backend]: proof.rs, risczero/{mod,zkvm}.rs, proof files and their provers.
    - [Canoe]: hokulea/canoe.rs and client/proving.rs, proofs of EigenDA
      certificates; the image ids of build/risczero.
    - [Worker]: tasks.rs ([compute_cached_proof]), client/{native,proving}.rs: one
      task from witness to saved proof.
    - [Prover], [ProverSpec]: prove.rs, a request, its jobs, their composition.
    - [Preflight]: preflight.rs, the precondition data and the native runs before.
    - [Boundless], [BoundlessSpec]: risczero/boundless.rs, the client of the market.
    - [Bonsai]: risczero/bonsai.rs, the client of the proving service.
    - [Args]: args.rs and the other [to_arg_vec]s, and create_proving_args of
      crates/validator/src/tasks.rs: the command line of a request.

    The agent (crates/sync):
    - [Deployment]: deployment.rs, provider/beacon.rs, stall.rs, lib.rs.
    - [Beacon]: provider/beacon.rs, how the provider of blobs is made.
    - [Proposal]: proposal.rs, fault.rs.
    - [Agent]: agent.rs, cursor.rs.
    - [Transact]: transact/{fillers,provider,safe,signer}.rs, fees, signers, sending.
    - [Rpc]: crates/rpc, the cache of games and the lookup that is served.

    The validator (crates/validator) and the proposer (crates/proposer):
    - [Validator], [ValidatorSpec]: proposals/{processing,dispatch,mod}.rs and
      requests.rs, which proofs are planned, queued and requested.
    - [Publish], [PublishSpec]: proposals/{receipts,trails,mod}.rs, the
      transactions, and one iteration of the loop.
    - [Requests]: requests.rs, tasks.rs, validate.rs, the tasks of the prover.
    - [Proposer]: propose.rs, resolve.rs, fetch.rs, one iteration of the loop.

    The command line (bin/cli/src):
    - [FastTrack]: fast_track.rs, the migration of a rollup.
    - [Demo], [Bench]: demo.rs and bench.rs, which ranges of blocks are proven.
    - [Faulty]: fault.rs, a proposal with a planted fault.
    - [Cli]: bonsai.rs, config.rs and export.rs, a proof that is fetched and filed, the
      report on a rollup, the programs that are written out.

    ** How the parts fit together

    The state of each component is a record with the fields of the Rust struct,
    and each method one definition with the method's name; a method that mutates
    [self] passes the record on.  [Stitching.guest_main] takes the frames that
    [Witgen.encode_witness_frames] produces
    ([Witgen.process_witness_reaches_guest]), on oracles that [Oracle] shows to
    return only authentic preimages.  [Worker.worker_pool] discharges the
    interface [TasksSpec.pool_ok] on which [TasksSpec] proves [compute_fpvm_proof]
    correct, and that in turn discharges [ProverSpec.jobs_ok], on which the main
    loop is proved.  The journal that a worker expects and the one that the
    guest commits are both computed by [Stitching.stitch_boot_info].
    The validator and the proposer each own an [Agent.SyncAgent], which they
    synchronize at the start of an iteration and only read afterwards, so that
    the invariant of [Agent] and the verdicts of [assess_correctness] carry over
    to what they send.  Between the validator and the prover stand a message, a
    task and the name of a proof file; [Requests.proof_file_agrees] shows that
    both compute the same name, by way of [Preflight.fetch_precondition_data] and
    [Worker.proof_file].  [BoundlessSpec.boundless_errors] and
    [Bonsai.bonsai_errors] show that the clients fail only in the ways that
    [Backend.services_ok] asks of a proving service, and [Bonsai.services_conform]
    discharges that interface with both of them.  [Rpc] runs [Agent.sync] and
    uses the invariant of the agent's store.

    ** What the theorems show

    - The guest: a committed journal spans exactly the main run and the attested
      segments around it; every execution it took from its cache is attested and
      checked; a receipt whose own receipts are followed down stands for runs of
      the client that lead without a gap from the agreed to the claimed root, each
      cached execution re-executed by one of them; its preimages hash to their keys; configurations, preconditions
      and executions with equal digests are equal (or a collision is at hand);
      preconditions hold of the output roots that were derived.
    - The prover: a recorded run replays in the guest; divisions tile their range
      in every order of events and end; the returned proof has the journal of
      the request; only the errors that the flags allow come out, and the one panic
      left is that of a trace without executions; the proof of a
      certificate comes from a file that was there before; what is restored
      from an archive is well formed; a command line carries its request.
    - The proving services: no proof is paid for twice; the search for a nonce
      ends, at the first free one; prices are the configured ones, through floats
      and 256-bit products; a receipt from the service is returned only if it
      verifies and comes from the session that was asked for it.
    - The agent: the verdict on a proposal is the comparison with the node's
      output roots; the store's invariant (canonical tip, parents, indices) is
      preserved by [sync] on every path; its loops end; the server only answers
      with the contract of a canonical game that covers the block, the lowest one;
      each attempt to send a transaction was tested on the block whose nonce it
      carries, at the filler's fees times the power of 1.1 of the attempt; a fetched
      configuration has the fork times of the L2 node that are strings.
    - The validator: exactly the faults that need it are challenged; a fault proof
      that is requested contradicts the proposal; every transaction rests on the
      agent's verdict and on a received proof; no request, task or proof is lost
      without a reason; later requests use later L1 heads.
    - The proposer: what it proposes matches the agent's outputs and is made in
      time; what it resolves is due; the search for a free counter ends.
    - The commands: a migration sends the transactions of one plan, in order, and
      the last one only when all of it is in place; a planted fault is the one that
      the validator finds; the demonstration covers the chain without gaps; the
      benchmark proves the busiest windows.
    The theorems that are less central, but kept, are stated beside their
    definitions (for example the errors of [config_hash] and [decode_packed], and
    the field elements of a blob).

    ** Conventions and bounds

    Words and hashes are [Z] with their widths stated ([in_width]); [host] is
    64-bit with overflow checks, [guest] 32-bit without ([arith] wraps there).
    Fuel is given where the code loops: [walk_back] has the header's number plus
    one, [sidecar_blobs] and [execution_jobs] the length of their list (plus one),
    [divide_loop] twice the number of executions, [derivation_jobs] and
    [prove_loop] one and two more than (twice) the claimed block number,
    [payload_loop] the claimed number plus one, [sync_loop] the delayed and new
    games plus one, [resolve_loop] the number of proposals plus two, [sync_outputs]
    its [sync_fuel].  The proposer's loops over prunings and duplication counters
    are bounded only by the chain: there the fuel is a parameter, running out is
    a result of its own, and [Proposer.find_dupe_counter_spec] says what it
    implies; so too for the commands that wait for others or count duplicates
    ([FastTrack], [Faulty]) and for the queue of [Demo], which
    [Demo.queue_proofs_ends] bounds.  Queues are lists in the order in which a heap is emptied.  The
    termination theorems show that these suffice, except for
    [derivation_jobs] on a request that contradicts the node, which does not end
    ([ProverSpec.requested_jobs_spec]).  The clients of [Boundless], [Bonsai] and
    the sending loop of [Transact] repeat calls until others answer; there every
    call is a function of the fuel that bounds each of its loops ([Runs.Run]):
    [Runs.run_mono] shows that more fuel does not change a result, safety holds
    for every fuel, and [BoundlessSpec.nonce_search_ends] gives a fuel under
    named conditions on the market.  Concurrency is a choice of which task or
    job ends next, left to a parameter; the theorems hold for every choice.

    ** Parameters

    Code outside [src/] is a class: [Digests] (SHA-256, Keccak), [Rlp], [Pot] and
    [Frames] (encodings), [PreimageKeys], [Kzg] (c-kzg), [Environment], [Executor],
    [L1Environment], [CoreEnvironment] (kona), [Zkvm], [Receipts], [ReceiptsRoot],
    [BootLoader], the Celestia and EigenDA classes of [DA], [Nodes], [OpNode],
    [L1Node], [L2Nodes], [ValidatorHost], [ProposerHost], [DeployHost], [DemoHost], [BenchHost] (RPC, clocks, sending),
    [ProverRuns] (the prover as a process, seen by the validator),
    [BeaconNode], [BonsaiSessions], [Programs], [ExportHost], [Recorder], [BlobSource], [ClientHost], [PayloadHost] (the kona host),
    [Backends] (risc0 and proving services), [CanoeHost], [HanaNode] and
    [HanaClients] (steel and the libraries of the two sources), [Market] and [BonsaiHost] (their
    client libraries), [TxNode] and [Signers] (alloy, when sending), [Codecs] (the formats of
    an archive), [ConfigSource] (registry, nodes and serde), [Display] (numbers
    and hashes as text), [Bindings] (encoded contract calls), [Pool], [Jobs] (the async runtime) and [Images] (image
    ids).  Their laws are named hypotheses, and each theorem that
    uses one has a witness at a concrete instance.

    ** Not modelled

    Logging, telemetry and tracing; locks (a call is atomic); retries outside the
    clients of the proving services (a query is repeated until it succeeds, so
    only its answer is modelled; [Runs.retry_res_timeout_flat] shows what the nested
    retries come to); the serialization formats (rkyv, RLP, bincode,
    pot) and the copies of fixed-size types for rkyv; HTTP and JSON-RPC transport;
    waiting for receipts (whether a transaction is confirmed is an answer of the
    host); the contracts; the hint handlers of kona, hana
    and hokulea (libraries); the devnet features; the command line's entry point; the parsing of arguments (a library: [Args] reads them
    with a reader of the usual option syntax); build scripts and tests. *)

From stdpp Require Export base tactics list gmap sets strings numbers option.
From Stdlib Require Export ZArith Lia.

Open Scope Z_scope.

(** ** Results of Rust code

    [anyhow::Result] and [Result<_, E>] are [Ok]/[Err]; a panic (a failed
    [assert!], an [unwrap] of nothing, an index out of bounds, an arithmetic
    overflow under overflow checks) is a third outcome that no caller
    catches.  [Err] carries the text of the root cause, which is what the
    callers look at ([err.root_cause().to_string().contains(..)]). *)
Inductive outcome (A : Type) : Type :=
| Ok (a : A)
| Err (e : string)
| Panic (why : string).
Arguments Ok {A} a.
Arguments Err {A} e.
Arguments Panic {A} why.

#[export] Instance outcome_eq_dec `{EqDecision A} : EqDecision (outcome A).
Proof. solve_decision. Defined.

#[export] Instance outcome_ret : MRet outcome := fun A a => Ok a.
#[export] Instance outcome_bind : MBind outcome := fun A B f m =>
  match m with Ok a => f a | Err e => Err e | Panic w => Panic w end.
#[export] Instance outcome_fmap : FMap outcome := fun A B f m =>
  match m with Ok a => Ok (f a) | Err e => Err e | Panic w => Panic w end.

(** [s.contains(sub)]. *)
Definition contains (sub s : string) : bool :=
  match String.index 0 sub s with Some _ => true | None => false end.

Definition is_ok {A} (o : outcome A) : bool :=
  match o with Ok _ => true | _ => false end.
Definition is_panic {A} (o : outcome A) : bool :=
  match o with Panic _ => true | _ => false end.

(** [.unwrap()] / [.expect(..)] on a [Result], and on an [Option]. *)
Definition expect {A} (why : string) (o : outcome A) : outcome A :=
  match o with Ok a => Ok a | Err _ => Panic why | Panic w => Panic w end.
Definition unwrap {A} (why : string) (o : option A) : outcome A :=
  match o with Some a => Ok a | None => Panic why end.
(** [.ok_or_else(|| anyhow!(..))?]. *)
Definition ok_or {A} (e : string) (o : option A) : outcome A :=
  match o with Some a => Ok a | None => Err e end.
(** [assert!(b)] and [bail!] under a condition. *)
Definition assert_ (b : bool) (why : string) : outcome unit :=
  if b then Ok tt else Panic why.
Definition ensure (b : bool) (e : string) : outcome unit :=
  if b then Ok tt else Err e.

(** Sequencing over a list, left to right, stopping at the first failure. *)
Fixpoint omap_m {A B} (f : A -> outcome B) (l : list A) : outcome (list B) :=
  match l with
  | [] => Ok []
  | x :: l => b ← f x; bs ← omap_m f l; Ok (b :: bs)
  end.
Fixpoint ofold {A S} (f : S -> A -> outcome S) (s : S) (l : list A) : outcome S :=
  match l with
  | [] => Ok s
  | x :: l => s' ← f s x; ofold f s' l
  end.

(** ** Stateful fallible code

    Code that mutates a state of type [S] and returns a [Result]: the state
    after the call is returned whether the call succeeds or not. *)
Definition St (S A : Type) : Type := S -> outcome A * S.
#[export] Instance St_ret S : MRet (St S) := fun A a s => (Ok a, s).
#[export] Instance St_bind S : MBind (St S) := fun A B f m s =>
  match m s with
  | (Ok a, s) => f a s
  | (Err e, s) => (Err e, s)
  | (Panic w, s) => (Panic w, s)
  end.
Definition lift {S A} (o : outcome A) : St S A := fun s => (o, s).
Definition get_st {S} : St S S := fun s => (Ok s, s).
Definition put_st {S} (s : S) : St S unit := fun _ => (Ok tt, s).
(** A call on the first part of the state, the second is a log or the like. *)
Definition on_fst {S T A} (m : St S A) : St (S * T) A := fun '(s, t) => let '(r, s) := m s in (r, (s, t)).
(** [.unwrap()] / [.expect(..)] on the result of a stateful call. *)
Definition expect_st {S A} (why : string) (m : St S A) : St S A := fun s =>
  let '(o, s) := m s in (expect why o, s).

Section outcome_lemmas.
Context {A B : Type}.

Lemma bind_Ok (m : outcome A) (f : A -> outcome B) b :
  m ≫= f = Ok b <-> exists a, m = Ok a /\ f a = Ok b.
Proof. destruct m; cbn; naive_solver. Qed.

Lemma bind_Err (m : outcome A) (f : A -> outcome B) e :
  m ≫= f = Err e <-> m = Err e \/ exists a, m = Ok a /\ f a = Err e.
Proof. destruct m; cbn; naive_solver. Qed.

Lemma bind_Panic (m : outcome A) (f : A -> outcome B) w :
  m ≫= f = Panic w <-> m = Panic w \/ exists a, m = Ok a /\ f a = Panic w.
Proof. destruct m; cbn; naive_solver. Qed.

Lemma expect_Ok why (m : outcome A) a : expect why m = Ok a <-> m = Ok a.
Proof. destruct m; cbn; naive_solver. Qed.

Lemma unwrap_Ok why (o : option A) a : unwrap why o = Ok a <-> o = Some a.
Proof. destruct o; cbn; naive_solver. Qed.

Lemma ok_or_Ok e (o : option A) a : ok_or e o = Ok a <-> o = Some a.
Proof. destruct o; cbn; naive_solver. Qed.
End outcome_lemmas.

Lemma St_bind_Ok {S A B} (m : St S A) (f : A -> St S B) s b s' :
  (m ≫= f) s = (Ok b, s') <-> exists a t, m s = (Ok a, t) /\ f a t = (Ok b, s').
Proof. unfold mbind, St_bind. destruct (m s) as [[] ?]; naive_solver. Qed.

Lemma lift_Ok {S A} (o : outcome A) (s : S) a s' :
  lift o s = (Ok a, s') <-> o = Ok a /\ s' = s.
Proof. unfold lift. naive_solver. Qed.

Lemma expect_st_Ok {S A} why (m : St S A) s a s' :
  expect_st why m s = (Ok a, s') <-> m s = (Ok a, s').
Proof. unfold expect_st. destruct (m s) as [[] ?]; cbn; naive_solver. Qed.

Lemma on_fst_Ok {S T A} (m : St S A) s (t : T) a w :
  on_fst m (s, t) = (Ok a, w) -> exists s', m s = (Ok a, s') /\ w = (s', t).
Proof. unfold on_fst. destruct (m s) as [r s']. intros [= -> <-]. by exists s'. Qed.

Lemma assert_Ok b why u : assert_ b why = Ok u <-> b = true.
Proof. destruct b, u; cbn; naive_solver. Qed.

Lemma ensure_Ok b e u : ensure b e = Ok u <-> b = true.
Proof. destruct b, u; cbn; naive_solver. Qed.

Lemma omap_m_Ok {A B} (f : A -> outcome B) l k :
  omap_m f l = Ok k <-> Forall2 (fun x y => f x = Ok y) l k.
Proof.
  revert k; induction l as [|x l IH]; intros k; cbn.
  - split; [intros [= <-]; constructor | by inversion 1].
  - rewrite bind_Ok. setoid_rewrite bind_Ok. setoid_rewrite IH. split.
    + intros (b & ? & bs & ? & [= <-]). by constructor.
    + inversion 1; subst; eauto 10.
Qed.

(** A failed traversal: the first element on which [f] fails decides. *)
Lemma omap_m_fail {A B} (f : A -> outcome B) l :
  match omap_m f l with
  | Ok k => Forall2 (fun x y => f x = Ok y) l k
  | Err e => exists pre x post ys, l = pre ++ x :: post /\
      Forall2 (fun x y => f x = Ok y) pre ys /\ f x = Err e
  | Panic w => exists pre x post ys, l = pre ++ x :: post /\
      Forall2 (fun x y => f x = Ok y) pre ys /\ f x = Panic w
  end.
Proof.
  induction l as [|x l IH]; cbn; [constructor|].
  destruct (f x) eqn:E; cbn; [|by exists [], x, l, []..].
  destruct (omap_m f l) eqn:El; cbn; [by constructor| |];
    destruct IH as (pre & y & post & ys & -> & ? & ?);
    exists (x :: pre), y, post, (a :: ys); split_and!; auto.
Qed.

Lemma omap_m_app {A B} (f : A -> outcome B) l k :
  omap_m f (l ++ k) = (xs ← omap_m f l; ys ← omap_m f k; Ok (xs ++ ys)).
Proof.
  induction l as [|x l IH]; cbn; [by destruct (omap_m f k)|].
  destruct (f x); cbn; [|done..]. rewrite IH. destruct (omap_m f l); cbn; [|done..].
  by destruct (omap_m f k).
Qed.

Lemma ofold_app {A S} (f : S -> A -> outcome S) s l k :
  ofold f s (l ++ k) = ofold f s l ≫= fun s' => ofold f s' k.
Proof. revert s; induction l; intros; cbn; [done|]. destruct (f s a); cbn; auto. Qed.

(** A loop of checks that carries no state. *)
Lemma ofold_checks {A} (f : A -> outcome unit) (u u' : unit) l :
  ofold (fun _ x => f x) u l = Ok u' <-> Forall (fun x => f x = Ok tt) l.
Proof.
  revert u. induction l as [|x l IH]; intros u; cbn.
  - destruct u, u'. split; [constructor|done].
  - rewrite bind_Ok, Forall_cons_iff. setoid_rewrite IH.
    split; [intros ([] & ? & ?)|intros [? ?]]; eauto.
Qed.

Lemma ofold_invariant {A S} (P : S -> Prop) (f : S -> A -> outcome S) l s s' :
  P s -> ofold f s l = Ok s' ->
  (forall t x t', P t -> x ∈ l -> f t x = Ok t' -> P t') -> P s'.
Proof.
  revert s; induction l as [|x l IH]; cbn; intros s Hs.
  - by intros [= <-].
  - intros (t & Hf & Hr)%bind_Ok Hstep. eapply (IH t); eauto.
    + eapply Hstep; eauto. left.
    + intros; eapply Hstep; eauto. by right.
Qed.

(** ** Hoare triples for stateful code

    From a state in [P], a successful run ends with a result and a state in [Q],
    a failed run in a state in [E]. *)
Definition triple {S A} (P : S -> Prop) (m : St S A) (Q : A -> S -> Prop) (E : S -> Prop) : Prop :=
  forall s, P s -> match m s with (Ok a, s') => Q a s' | (_, s') => E s' end.

Section triples.
Context {S A B : Type}.

Lemma triple_bind P (m : St S A) Q (f : A -> St S B) R E :
  triple P m Q E -> (forall a, triple (Q a) (f a) R E) -> triple P (m ≫= f) R E.
Proof.
  intros Hm Hf s Hs. specialize (Hm s Hs). unfold mbind, St_bind.
  destruct (m s) as [[a|e|w] s']; [|done..]. by apply Hf.
Qed.

Lemma triple_ret P (a : A) (Q : A -> S -> Prop) E : (forall s, P s -> Q a s) -> triple P (mret a) Q E.
Proof. intros H s. apply H. Qed.

Lemma triple_lift P (o : outcome A) (Q : A -> S -> Prop) (E : S -> Prop) :
  (forall s a, P s -> o = Ok a -> Q a s) -> (forall s, P s -> E s) -> triple P (lift o) Q E.
Proof. intros HQ HE s Hs. unfold lift. destruct o; eauto. Qed.

Lemma triple_conseq P P' (m : St S A) Q Q' E E' :
  triple P m Q E -> (forall s, P' s -> P s) -> (forall a s, Q a s -> Q' a s) ->
  (forall s, E s -> E' s) -> triple P' m Q' E'.
Proof.
  intros Hm HP HQ HE s Hs. specialize (Hm s (HP s Hs)). destruct (m s) as [[] ?]; auto.
Qed.

Lemma triple_if P (b : bool) (m n : St S A) Q E :
  (b = true -> triple P m Q E) -> (b = false -> triple P n Q E) -> triple P (if b then m else n) Q E.
Proof. destruct b; auto. Qed.

(** A run that keeps an invariant whatever its result. *)
Lemma triple_invariant P (m : St S A) s : triple P m (fun _ => P) P -> P s -> P (m s).2.
Proof. intros Hm Hs. specialize (Hm s Hs). by destruct (m s) as [[] ?]. Qed.
End triples.

(** ** What a run keeps

    A preorder between the states before and after a run, whatever its result. *)
Section always.
Context {S : Type} (Rel : S -> S -> Prop) `{!PreOrder Rel}.

Definition always {A} (m : St S A) : Prop := forall s, Rel s (m s).2.

Lemma always_bind {A B} (m : St S A) (f : A -> St S B) :
  always m -> (forall a, always (f a)) -> always (m ≫= f).
Proof.
  intros Hm Hf s. specialize (Hm s). unfold mbind, St_bind. destruct (m s) as [[a|?|?] t]; [|done..].
  etrans; [exact Hm|apply Hf].
Qed.

Lemma always_get : always get_st.
Proof. intros s. reflexivity. Qed.

Lemma always_lift {A} (o : outcome A) : always (lift o).
Proof. intros s. reflexivity. Qed.

Lemma always_ret {A} (a : A) : always (mret a).
Proof. intros s. reflexivity. Qed.

Lemma always_if {A} (b : bool) (m n : St S A) : always m -> always n -> always (if b then m else n).
Proof. by destruct b. Qed.

Lemma always_run {A} (m : St S A) s r s' : always m -> m s = (r, s') -> Rel s s'.
Proof. intros Hm E. specialize (Hm s). by rewrite E in Hm. Qed.
End always.

(** ** Invariants

    A call that preserves an invariant of the state, whatever its result. *)
Section invariants.
Context {S : Type} (Inv : S -> Prop).

Definition preserves {A} (m : St S A) : Prop := triple Inv m (fun _ => Inv) Inv.

Lemma preserves_bind {A B} (m : St S A) (f : A -> St S B) : preserves m -> (forall x, preserves (f x)) -> preserves (m ≫= f).
Proof. intros Hm Hf. eapply triple_bind; [exact Hm|exact Hf]. Qed.

Lemma preserves_ret {A} (x : A) : preserves (mret x).
Proof. by apply triple_ret. Qed.

(** The state that was read satisfies the invariant. *)
Lemma preserves_get {A} (f : S -> St S A) : (forall s, Inv s -> preserves (f s)) -> preserves (get_st ≫= f).
Proof. intros Hf s Hs. by apply Hf. Qed.

Lemma preserves_lift {A B} (o : outcome A) (f : A -> St S B) : (forall x, o = Ok x -> preserves (f x)) -> preserves (lift o ≫= f).
Proof. intros Hf s Hs. unfold mbind, St_bind, lift. destruct o; [by apply Hf|done..]. Qed.

Lemma preserves_fail {A} (o : outcome A) : preserves (lift o).
Proof. intros s Hs. unfold lift. by destruct o. Qed.
End invariants.

Lemma Ok_inj {A} (a b : A) : Ok a = Ok b -> a = b.
Proof. by intros [= ->]. Qed.

(** Case analysis of a successful run: every sequenced call succeeded. *)
Ltac ok_inv :=
  repeat match goal with
  | H : Ok ?a = Ok ?b |- _ => apply Ok_inj in H; first [subst a | subst b | idtac]
  | H : Err _ = Ok _ |- _ => discriminate H
  | H : Panic _ = Ok _ |- _ => discriminate H
  | H : mret _ = _ |- _ => unfold mret, outcome_ret in H
  | H : _ ≫= _ = Ok _ |- _ =>
      let x := fresh "x" in let E := fresh "E" in
      apply bind_Ok in H as (x & E & H)
  | H : assert_ _ _ = Ok ?u |- _ => apply assert_Ok in H; try clear u
  | H : ensure _ _ = Ok ?u |- _ => apply ensure_Ok in H; try clear u
  | H : expect _ _ = Ok _ |- _ => apply expect_Ok in H
  | H : unwrap _ _ = Ok _ |- _ => apply unwrap_Ok in H
  | H : ok_or _ _ = Ok _ |- _ => apply ok_or_Ok in H
  end.

(** The same for stateful code. *)
Ltac st_inv :=
  repeat match goal with
  | H : (_ ≫= _) _ = (Ok _, _) |- _ =>
      let x := fresh "x" in let s := fresh "s" in let E := fresh "E" in
      apply St_bind_Ok in H as (x & s & E & H)
  | H : lift _ _ = (Ok _, _) |- _ => apply lift_Ok in H as [H ?]; subst
  | H : expect_st _ _ _ = (Ok _, _) |- _ => apply expect_st_Ok in H
  | H : mret _ _ = _ |- _ => unfold mret, St_ret in H
  | H : (Ok _, _) = (Ok _, _) |- _ => apply pair_equal_spec in H as [H ?]; apply Ok_inj in H; subst
  | H : (Err _, _) = (Ok _, _) |- _ => discriminate H
  | H : (Panic _, _) = (Ok _, _) |- _ => discriminate H
  end.

(** Turns the boolean tests of the code into the propositions they decide. *)
Ltac bools :=
  repeat match goal with
  | H : _ && _ = true |- _ => apply andb_true_iff in H as [? ?]
  | H : _ || _ = true |- _ => apply orb_true_iff in H
  | H : _ && _ = false |- _ => apply andb_false_iff in H
  | H : _ || _ = false |- _ => apply orb_false_iff in H as [? ?]
  | H : negb _ = true |- _ => apply negb_true_iff in H
  | H : negb _ = false |- _ => apply negb_false_iff in H
  | H : bool_decide _ = true |- _ => apply bool_decide_eq_true in H
  | H : bool_decide _ = false |- _ => apply bool_decide_eq_false in H
  | H : (_ =? _) = true |- _ => apply Z.eqb_eq in H
  | H : (_ =? _) = false |- _ => apply Z.eqb_neq in H
  | H : (_ <? _) = true |- _ => apply Z.ltb_lt in H
  | H : (_ <? _) = false |- _ => apply Z.ltb_ge in H
  | H : (_ <=? _) = true |- _ => apply Z.leb_le in H
  | H : (_ <=? _) = false |- _ => apply Z.leb_gt in H
  end.

(** ** Compilation targets and machine integers

    The crates are compiled twice.  The host binaries use the workspace's
    release profile, which turns overflow checks on; the zkVM guests of
    build/risczero have a release profile of their own that does not, so the
    same [+] panics on the host and wraps in the guest.  A [usize] has 64 bits
    on the host and 32 in the guest. *)
Record target := { overflow_checks : bool; usize_bits : Z }.
Definition host : target := {| overflow_checks := true; usize_bits := 64 |}.
Definition guest : target := {| overflow_checks := false; usize_bits := 32 |}.

Definition in_width (w z : Z) : Prop := 0 <= z < 2 ^ w.
Abbreviation u64 := (in_width 64).
Abbreviation b256 := (in_width 256).
Abbreviation u32 := (in_width 32).
Abbreviation address := (in_width 160).

Definition fits (w z : Z) : bool := (0 <=? z) && (z <? 2 ^ w).

(** The value a w-bit [+], [-] or [*] has when the exact result is [z]. *)
Definition arith (t : target) (w z : Z) : outcome Z :=
  if fits w z then Ok z
  else if overflow_checks t then Panic "arithmetic overflow"
  else Ok (z `mod` 2 ^ w).
Definition u64_add t a b := arith t 64 (a + b).
Definition u64_sub t a b := arith t 64 (a - b).
Definition u64_mul t a b := arith t 64 (a * b).
Definition u64_div (a b : Z) : outcome Z :=
  if b =? 0 then Panic "attempt to divide by zero" else Ok (a / b).
Definition u64_rem (a b : Z) : outcome Z :=
  if b =? 0 then Panic "attempt to calculate the remainder with a divisor of zero"
  else Ok (a `mod` b).
(** [saturating_sub], [saturating_add] and an [as usize] cast. *)
Definition sat_sub (a b : Z) : Z := Z.max 0 (a - b).
Definition sat_add (w a b : Z) : Z := Z.min (2 ^ w - 1) (a + b).
Definition as_usize (t : target) (z : Z) : Z := z `mod` 2 ^ usize_bits t.

Lemma fits_spec w z : fits w z = true <-> in_width w z.
Proof. unfold fits, in_width. rewrite andb_true_iff, Z.leb_le, Z.ltb_lt. lia. Qed.

Lemma arith_fits t w z : in_width w z -> arith t w z = Ok z.
Proof. intros H%fits_spec. unfold arith. by rewrite H. Qed.

Lemma arith_Ok_width t w z r : 0 <= w -> arith t w z = Ok r -> in_width w r.
Proof.
  unfold arith. intros Hw. destruct (fits w z) eqn:E.
  - intros [= <-]. by apply fits_spec.
  - destruct (overflow_checks t); intros [= <-]. apply Z.mod_pos_bound. lia.
Qed.

Lemma arith_checked t w z r :
  overflow_checks t = true -> arith t w z = Ok r -> r = z /\ in_width w z.
Proof.
  intros Ht. unfold arith. rewrite Ht. destruct (fits w z) eqn:E; [|done].
  intros [= <-]. by apply fits_spec in E.
Qed.

Lemma in_width_mono w w' z : w <= w' -> in_width w z -> in_width w' z.
Proof. unfold in_width. intros ? [? ?]; split; [done|]. pose proof (Z.pow_le_mono_r 2 w w'). lia. Qed.

Create HintDb kailua.
Create Rewrite HintDb kailua.
#[export] Hint Resolve arith_fits in_width_mono : kailua.

(** ** Lists *)

(** [slice[a..b]]: panics unless [a <= b <= len]. *)
Definition slice {A} (l : list A) (a b : nat) : outcome (list A) :=
  if bool_decide (a ≤ b)%nat && bool_decide (b ≤ length l)%nat
  then Ok (take (b - a) (drop a l)) else Panic "range out of bounds".
(** [v[i]]. *)
Definition index {A} (l : list A) (i : nat) : outcome A :=
  unwrap "index out of bounds" (l !! i).

Lemma fmap_rev {A B} (f : A -> B) (l : list A) : f <$> rev l = rev (f <$> l).
Proof. induction l as [|x l IH]; [done|]. cbn. by rewrite fmap_app, IH. Qed.

Lemma elem_of_rev {A} (x : A) (l : list A) : x ∈ rev l <-> x ∈ l.
Proof. by rewrite !list_elem_of_In, <-in_rev. Qed.

Lemma elem_of_concat {A} (x : A) (ls : list (list A)) :
  x ∈ concat ls <-> exists l, x ∈ l /\ l ∈ ls.
Proof. rewrite list_elem_of_In, in_concat. setoid_rewrite list_elem_of_In. naive_solver. Qed.

Lemma rev_Permutation {A} (l : list A) : rev l ≡ₚ l.
Proof. symmetry. apply Permutation_rev. Qed.

(** [slice::last]. *)
Fixpoint list_last {A} (l : list A) : option A :=
  match l with [] => None | [x] => Some x | _ :: l => list_last l end.

Lemma list_last_snoc {A} (l : list A) x : list_last (l ++ [x]) = Some x.
Proof. induction l as [|y l IH]; [done|]. cbn. rewrite IH. by destruct l. Qed.

Lemma list_last_elem {A} (l : list A) x : list_last l = Some x -> x ∈ l.
Proof.
  destruct l as [|y l _] using rev_ind; [done|]. rewrite list_last_snoc. intros [= ->].
  apply elem_of_app. right. left.
Qed.

Lemma list_last_app {A} (l1 l2 : list A) x : list_last l2 = Some x -> list_last (l1 ++ l2) = Some x.
Proof.
  destruct l2 as [|y l2 _] using rev_ind; [done|]. by rewrite app_assoc, !list_last_snoc.
Qed.

(** A case that ends everything, met somewhere in a list or nowhere. *)
Lemma Forall_or {A} (Q : Prop) (P : A -> Prop) l :
  Forall (fun x => Q \/ P x) l -> Q \/ Forall P l.
Proof. induction 1 as [|x l [?|?] _ [?|?]]; auto. Qed.

(** [Vec::pop]: the last element and what remains. *)
Definition vec_pop {A} (l : list A) : option (A * list A) :=
  match rev l with [] => None | x :: r => Some (x, rev r) end.

Lemma vec_pop_snoc {A} (l : list A) x : vec_pop (l ++ [x]) = Some (x, l).
Proof. unfold vec_pop. rewrite rev_app_distr. cbn. by rewrite rev_involutive. Qed.

Lemma vec_pop_None {A} (l : list A) : vec_pop l = None <-> l = [].
Proof.
  unfold vec_pop. destruct (rev l) eqn:E; split; try done.
  - intros _. apply (f_equal (@rev A)) in E. by rewrite rev_involutive in E.
  - intros ->. done.
Qed.

Lemma vec_pop_Some {A} (l : list A) x r : vec_pop l = Some (x, r) <-> l = r ++ [x].
Proof.
  split; [|intros ->; apply vec_pop_snoc].
  unfold vec_pop. destruct (rev l) eqn:E; intros [= -> <-].
  apply (f_equal (@rev A)) in E. by rewrite rev_involutive in E.
Qed.

Lemma slice_Ok {A} (l : list A) a b r :
  slice l a b = Ok r <-> (a ≤ b ≤ length l)%nat /\ r = take (b - a) (drop a l).
Proof.
  unfold slice. do 2 case_bool_decide; cbn; split; try naive_solver lia.
Qed.

Lemma slice_length {A} (l : list A) a b r :
  slice l a b = Ok r -> length r = (b - a)%nat.
Proof. intros [? ->]%slice_Ok. rewrite length_take, length_drop. lia. Qed.

Lemma cons_inj {A} (x y : A) l k : x :: l = y :: k -> x = y /\ l = k.
Proof. by intros [= -> ->]. Qed.

Lemma take_drop_app_mid {A} (x y z : list A) a n :
  a = length x -> n = length y -> take n (drop a (x ++ y ++ z)) = y.
Proof. intros -> ->. by rewrite drop_app_length, take_app_length. Qed.

Lemma concat_chunks_inj {A} (n : nat) (xs ys : list (list A)) :
  (0 < n)%nat ->
  Forall (fun x => length x = n) xs -> Forall (fun x => length x = n) ys ->
  concat xs = concat ys -> xs = ys.
Proof.
  intros Hn Hx. revert ys. induction Hx as [|x xs Hxl Hxs IH]; intros ys Hy Heq.
  - destruct Hy as [|y ys Hyl]; [done|]. cbn in Heq. destruct y; cbn in *; [lia|done].
  - destruct Hy as [|y ys Hyl Hys]; cbn in Heq.
    + destruct x; cbn in *; [lia|done].
    + apply app_inj_1 in Heq as [-> Heq]; [|congruence]. f_equal; auto.
Qed.
