(* ===== verification/Tiling.v ===== *)
(** * Tilings

    Work on a range is divided into parts, the parts are worked on in any order
    and divided further, and in the end the results of all parts are put in
    order.  What is common to the schedulers of crates/prover/src/{prove,tasks}.rs:
    lists of consecutive segments of a range, the jobs that stand for them,
    splitting one of them, the number of results still to come, and sorting. *)

From S2P Require Import Prelude.
From stdpp Require Import sorting.
Open Scope Z_scope.

(** Lists of offsets and lengths that lead from one offset to another. *)
Fixpoint tiling (i : nat) (segs : list (nat * nat)) (j : nat) : Prop :=
  match segs with
  | [] => i = j
  | (i', k) :: segs => i' = i /\ (0 < k)%nat /\ tiling (i + k) segs j
  end.

Definition seg {A} (l : list A) (i k : nat) : list A := take k (drop i l).

Lemma seg_lookup {A} (l : list A) i k j : (j < k)%nat -> seg l i k !! j = l !! (i + j)%nat.
Proof. intros. unfold seg. rewrite lookup_take, decide_True by done. by rewrite lookup_drop. Qed.

Lemma seg_length {A} (l : list A) i k : (i + k ≤ length l)%nat -> length (seg l i k) = k.
Proof. intros. unfold seg. rewrite length_take, length_drop. lia. Qed.

Lemma seg_split {A} (l : list A) i k1 k2 :
  seg l i (k1 + k2) = seg l i k1 ++ seg l (i + k1) k2.
Proof. unfold seg. by rewrite <-drop_drop, <-take_take_drop. Qed.

Lemma tiling_app i segs1 segs2 j :
  tiling i (segs1 ++ segs2) j <-> exists m, tiling i segs1 m /\ tiling m segs2 j.
Proof.
  revert i. induction segs1 as [|[i' k] segs IH]; intros i; cbn; [naive_solver|].
  rewrite IH. naive_solver.
Qed.

Lemma tiling_le i segs j : tiling i segs j -> (i ≤ j)%nat.
Proof.
  revert i. induction segs as [|[i' k] segs IH]; intros i; cbn; [lia|].
  intros (-> & ? & ?%IH). lia.
Qed.

(** A tiling covers its range. *)
Lemma tiling_concat {A} (l : list A) i segs j :
  tiling i segs j -> concat ((fun '(i, k) => seg l i k) <$> segs) = seg l i (j - i).
Proof.
  revert i. induction segs as [|[i' k] segs IH]; intros i; cbn.
  - intros ->. unfold seg. by rewrite Nat.sub_diag.
  - intros (-> & ? & Ht). rewrite (IH _ Ht). pose proof (tiling_le _ _ _ Ht).
    replace (j - i)%nat with (k + (j - (i + k)))%nat by lia. by rewrite seg_split.
Qed.

(** Keyed sorting has one result. *)
Lemma sorted_by_key_unique {A} (key : A -> Z) (l1 l2 : list A) :
  l1 ≡ₚ l2 -> StronglySorted (fun x y => key x < key y) l1 ->
  StronglySorted (fun x y => key x <= key y) l2 -> l1 = l2.
Proof.
  revert l2. induction l1 as [|x l1 IH]; intros l2 Hp H1 H2.
  { by apply Permutation_nil in Hp as ->. }
  destruct l2 as [|y l2]; [by apply Permutation_sym, Permutation_nil_cons in Hp|].
  apply StronglySorted_inv in H1 as [H1 Hx], H2 as [H2 Hy].
  assert (x = y) as <-.
  { assert (Hyin : y ∈ x :: l1) by (rewrite Hp; by left).
    assert (Hxin : x ∈ y :: l2) by (rewrite <-Hp; by left).
    apply elem_of_cons in Hyin as [->|Hyin]; [done|].
    apply elem_of_cons in Hxin as [->|Hxin]; [done|].
    apply list_elem_of_In in Hyin, Hxin.
    pose proof (proj1 (List.Forall_forall _ _) Hx _ Hyin).
    pose proof (proj1 (List.Forall_forall _ _) Hy _ Hxin). cbn in *. lia. }
  f_equal. apply IH; [by apply Permutation_cons_inv in Hp|done|done].
Qed.
(** ** Jobs that tile a range *)

Section tiled.
Context {A : Type} (P : nat * nat -> A -> Prop) (n : nat).

(** [jobs] stand for consecutive segments that make up the range. *)
Definition tiled_by (jobs : list A) : Prop :=
  exists segs, tiling 0 segs n /\ Forall2 P segs jobs.

(** One job may be replaced by two for its halves. *)
Lemma tiled_split jobs c rest :
  tiled_by jobs -> jobs ≡ₚ c :: rest ->
  exists i k, P (i, k) c /\ forall k1 k2 lower upper,
    k = (k1 + k2)%nat -> (0 < k1)%nat -> (0 < k2)%nat ->
    P (i, k1) lower -> P ((i + k1)%nat, k2) upper ->
    exists jobs', tiled_by jobs' /\ jobs' ≡ₚ lower :: upper :: rest.
Proof.
  intros (segs & Ht & Hf) Hp.
  assert (Hin : c ∈ jobs) by (rewrite Hp; by left).
  apply list_elem_of_split in Hin as (t1 & t2 & ->).
  apply Forall2_app_inv_r in Hf as (s1 & s2' & Hf1 & Hf2 & ->).
  apply Forall2_cons_inv_r in Hf2 as ([i k] & s2 & Hc & Hf2 & ->).
  exists i, k. split; [done|]. intros k1 k2 lower upper -> Hk1 Hk2 Hl Hu.
  exists (t1 ++ lower :: upper :: t2). split.
  - exists (s1 ++ (i, k1) :: ((i + k1)%nat, k2) :: s2). split.
    + apply tiling_app in Ht as (m & Hm & Hr). apply tiling_app. exists m. split; [done|].
      cbn in Hr |- *. destruct Hr as (-> & _ & Hr). split_and!; [done..|by rewrite <-Nat.add_assoc].
    + apply Forall2_app; [done|]. by repeat constructor.
  - rewrite <-Permutation_middle in Hp. apply Permutation_cons_inv in Hp.
    by rewrite <-!Permutation_middle, Hp.
Qed.
End tiled.

(** A number for each job, added up. *)
Definition total_of {A} (weight : A -> nat) (l : list A) : nat := sum_list (weight <$> l).

Lemma total_cons {A} (weight : A -> nat) x l : total_of weight (x :: l) = (weight x + total_of weight l)%nat.
Proof. done. Qed.
Lemma total_app {A} (weight : A -> nat) l k :
  total_of weight (l ++ k) = (total_of weight l + total_of weight k)%nat.
Proof. induction l as [|x l IH]; [done|]. cbn [app]. rewrite !total_cons, IH. lia. Qed.
Lemma total_Permutation {A} (weight : A -> nat) l k : l ≡ₚ k -> total_of weight l = total_of weight k.
Proof. unfold total_of. induction 1; cbn in *; lia. Qed.
