(* ===== verification/Bytes.v ===== *)
(** * Byte strings

    Big-endian encodings ([to_be_bytes], [from_be_bytes]), the fixed-width
    words of alloy ([B256], [Address], [U256]) as integers, and the interface
    of the digests the program takes from other crates. *)

From coqutil Require Byte Word.LittleEndianList.
From S2P Require Import Prelude.

Import coqutil.Byte.

Abbreviation bytes := (list byte).

#[export] Instance byte_eq_dec : EqDecision byte := Byte.byte_eq_dec.

Definition zeros (n : nat) : bytes := replicate n Byte.x00.

(** [to_be_bytes] of an n-byte unsigned integer, and its inverse. *)
Definition be_bytes (n : nat) (z : Z) : bytes := rev (LittleEndianList.le_split n z).
Definition from_be_bytes (bs : bytes) : Z := LittleEndianList.le_combine (rev bs).

(** [x.as_slice()] of a [B256] and of an [Address]. *)
Definition b256_bytes (z : Z) : bytes := be_bytes 32 z.
Definition address_bytes (z : Z) : bytes := be_bytes 20 z.

Lemma length_be_bytes n z : length (be_bytes n z) = n.
Proof. unfold be_bytes. by rewrite length_rev, LittleEndianList.length_le_split. Qed.

Lemma from_be_bytes_bound bs : in_width (8 * Z.of_nat (length bs)) (from_be_bytes bs).
Proof.
  unfold from_be_bytes, in_width.
  pose proof (LittleEndianList.le_combine_bound (rev bs)). by rewrite length_rev in *.
Qed.

Lemma from_be_be n z : in_width (8 * Z.of_nat n) z -> from_be_bytes (be_bytes n z) = z.
Proof.
  intros H. unfold from_be_bytes, be_bytes. rewrite rev_involutive.
  rewrite LittleEndianList.le_combine_split. apply Z.mod_small.
  unfold in_width in H. by replace (Z.of_nat n * 8) with (8 * Z.of_nat n) by lia.
Qed.

Lemma be_from_be bs : be_bytes (length bs) (from_be_bytes bs) = bs.
Proof.
  unfold from_be_bytes, be_bytes. rewrite <-(length_rev bs).
  rewrite LittleEndianList.split_le_combine. apply rev_involutive.
Qed.

Lemma be_bytes_inj n a b :
  in_width (8 * Z.of_nat n) a -> in_width (8 * Z.of_nat n) b ->
  be_bytes n a = be_bytes n b -> a = b.
Proof. intros Ha Hb H. rewrite <-(from_be_be n a), <-(from_be_be n b); congruence. Qed.

(** Two concatenations of pieces of the same lengths agree piecewise. *)
Lemma app_be_inj (a b c d : bytes) :
  length a = length c -> a ++ b = c ++ d -> a = c /\ b = d.
Proof. intros. by apply app_inj_1. Qed.

#[export] Hint Rewrite length_be_bytes length_app @length_concat : kailua.
#[export] Hint Resolve length_be_bytes from_be_bytes_bound : kailua.

(** Splits an equation between two concatenations of fixed-width fields. *)
Ltac split_fields H :=
  repeat match type of H with
  | _ ++ _ = _ ++ _ =>
      let E := fresh "E" in
      apply app_be_inj in H as [E H];
      [| unfold b256_bytes, address_bytes; rewrite ?length_be_bytes;
         first [reflexivity | eauto with kailua]]
  end.

(** ** Digests

    SHA-256 comes from [risc0_zkvm::sha], Keccak-256 from [alloy_primitives]:
    only the width of their results is used. *)
Class Digests := {
  sha256 : bytes -> Z;
  keccak256 : bytes -> Z;
  sha256_width : forall bs, in_width 256 (sha256 bs);
  keccak256_width : forall bs, in_width 256 (keccak256 bs);
}.

(** A concrete instance, used where a statement is evaluated: the big-endian
    value of the input (plus a tag), reduced to 256 bits. *)
Definition demo_digest (tag : Z) (bs : bytes) : Z :=
  (from_be_bytes bs + (1 + Z.of_nat (length bs)) * tag) `mod` 2 ^ 256.

Lemma demo_digest_width tag bs : in_width 256 (demo_digest tag bs).
Proof. unfold demo_digest, in_width. apply Z.mod_pos_bound. reflexivity. Qed.

Definition demo_digests : Digests := {|
  sha256 := demo_digest 7; keccak256 := demo_digest 11;
  sha256_width := demo_digest_width 7; keccak256_width := demo_digest_width 11 |}.

(** Two different byte strings with the same image under [h]. *)
Definition collision (h : bytes -> Z) (x y : bytes) : Prop := x <> y /\ h x = h y.

Lemma hash_inj_or_collision (h : bytes -> Z) x y : h x = h y -> x = y \/ collision h x y.
Proof. intros H. destruct (decide (x = y)); [by left | by right]. Qed.

(** ** Paths

    A [PathBuf] holds any bytes; [to_str] gives the path as a string if they are
    UTF-8, which [str::from_utf8] decides: no overlong forms, no surrogates and
    nothing above U+10FFFF. *)
Abbreviation PathBuf := bytes.

Definition byte_in (lo hi : N) (b : byte) : bool := (lo <=? Byte.to_N b)%N && (Byte.to_N b <=? hi)%N.
Definition continuation : byte -> bool := byte_in 0x80 0xBF.
Definition utf8_head3 (a b : byte) : bool :=
  (byte_in 0xE0 0xE0 a && byte_in 0xA0 0xBF b) || (byte_in 0xE1 0xEC a && continuation b)
  || (byte_in 0xED 0xED a && byte_in 0x80 0x9F b) || (byte_in 0xEE 0xEF a && continuation b).
Definition utf8_head4 (a b : byte) : bool :=
  (byte_in 0xF0 0xF0 a && byte_in 0x90 0xBF b) || (byte_in 0xF1 0xF3 a && continuation b)
  || (byte_in 0xF4 0xF4 a && byte_in 0x80 0x8F b).
Fixpoint utf8 (l : bytes) : bool :=
  match l with
  | [] => true
  | a :: l =>
      if byte_in 0 0x7F a then utf8 l
      else match l with
           | b :: l =>
               if byte_in 0xC2 0xDF a && continuation b then utf8 l
               else match l with
                    | c :: l =>
                        if utf8_head3 a b && continuation c then utf8 l
                        else match l with
                             | d :: l => utf8_head4 a b && continuation c && continuation d && utf8 l
                             | [] => false
                             end
                    | [] => false
                    end
           | [] => false
           end
  end.

Definition to_str (path : PathBuf) : option string :=
  if utf8 path then Some (String.string_of_list_byte path) else None.
(** [PathBuf::from]. *)
Definition path_from (s : string) : PathBuf := String.list_byte_of_string s.

Lemma path_from_to_str path s : to_str path = Some s -> path_from s = path.
Proof.
  unfold to_str, path_from. destruct (utf8 path); [|done]. intros [= <-].
  apply String.list_byte_of_string_of_list_byte.
Qed.

Example utf8_boundaries :
  to_str [Byte.xc3; Byte.xa9] <> None /\ to_str [Byte.xed; Byte.x9f; Byte.xbf] <> None /\
  to_str [Byte.xf4; Byte.x8f; Byte.xbf; Byte.xbf] <> None /\ to_str [Byte.xff] = None /\
  to_str [Byte.xc0; Byte.x80] = None /\ to_str [Byte.xed; Byte.xa0; Byte.x80] = None /\ to_str [Byte.xe2; Byte.x82] = None.
Proof. repeat split; done. Qed.
