(* ===== verification/Config.v ===== *)
(** * crates/kona/src/config.rs

    The rollup configuration and the hash that commits a proof to it.  The
    structs are those of kona_genesis, with the fields [config_hash] reads;
    [safe_default] reserves one value of each optional field to stand for its
    absence and refuses a configuration that uses the reserved value. *)

From S2P Require Import Prelude Bytes.

Record SystemConfig := {
  batcher_address : Z; overhead : Z; scalar : Z; gas_limit : Z;
  base_fee_scalar : option Z; blob_base_fee_scalar : option Z;
  eip1559_denominator : option Z; eip1559_elasticity : option Z;
  operator_fee_scalar : option Z; operator_fee_constant : option Z;
}.

Record AltDAConfig := {
  ada_challenge_address : option Z; ada_challenge_window : option Z;
  ada_resolve_window : option Z; ada_commitment_type : option bytes;
}.

Record BlockNumHash := { bnh_hash : Z; bnh_number : Z }.

Record ChainGenesis := {
  genesis_l1 : BlockNumHash; genesis_l2 : BlockNumHash; l2_time : Z;
  system_config : option SystemConfig;
}.

Record BaseFeeConfig := {
  bf_denominator : Z; bf_elasticity : Z; bf_denominator_canyon : Z;
}.

Record HardForkConfig := {
  regolith_time : option Z; canyon_time : option Z; delta_time : option Z;
  ecotone_time : option Z; fjord_time : option Z; granite_time : option Z;
  holocene_time : option Z; isthmus_time : option Z; interop_time : option Z;
  pectra_blob_schedule_time : option Z;
}.

Record RollupConfig := {
  genesis : ChainGenesis; block_time : Z; max_sequencer_drift : Z;
  seq_window_size : Z; channel_timeout : Z; granite_channel_timeout : Z;
  l1_chain_id : Z; l2_chain_id : Z; hardforks : HardForkConfig;
  batch_inbox_address : Z; deposit_contract_address : Z;
  l1_system_config_address : Z; protocol_versions_address : Z;
  superchain_config_address : option Z; blobs_enabled_l1_timestamp : option Z;
  da_challenge_address : option Z; interop_message_expiry_window : Z;
  alt_da_config : option AltDAConfig; chain_op_config : BaseFeeConfig;
}.

#[export] Instance system_config_eq_dec : EqDecision SystemConfig.
Proof. solve_decision. Defined.
#[export] Instance alt_da_config_eq_dec : EqDecision AltDAConfig.
Proof. solve_decision. Defined.
#[export] Instance block_num_hash_eq_dec : EqDecision BlockNumHash.
Proof. solve_decision. Defined.
#[export] Instance chain_genesis_eq_dec : EqDecision ChainGenesis.
Proof. solve_decision. Defined.
#[export] Instance base_fee_config_eq_dec : EqDecision BaseFeeConfig.
Proof. solve_decision. Defined.
#[export] Instance hardfork_config_eq_dec : EqDecision HardForkConfig.
Proof. solve_decision. Defined.
#[export] Instance rollup_config_eq_dec : EqDecision RollupConfig.
Proof. solve_decision. Defined.

(** [SAFE_DEFAULT_ADDRESS], without the fpvm-v1 feature. *)
Definition SAFE_DEFAULT_ADDRESS : Z := 0x4bfa59be6b388d77d213ce997acb0370b55157df.
Definition u64_MAX : Z := 2 ^ 64 - 1.
Definition u32_MAX : Z := 2 ^ 32 - 1.

Definition safe_default {V} `{EqDecision V} (opt : option V) (default : V) : outcome V :=
  match opt with
  | Some v => if decide (v = default) then Err "Unsafe value!" else Ok v
  | None => Ok default
  end.

Section config.
Context `{Digests}.

Definition genesis_system_config_fields (c : SystemConfig) : outcome bytes :=
  base_fee_scalar ← safe_default (base_fee_scalar c) u64_MAX;
  blob_base_fee_scalar ← safe_default (blob_base_fee_scalar c) u64_MAX;
  denominator ← safe_default (eip1559_denominator c) u32_MAX;
  elasticity ← safe_default (eip1559_elasticity c) u32_MAX;
  operator_fee_scalar ← safe_default (operator_fee_scalar c) u32_MAX;
  operator_fee_constant ← safe_default (operator_fee_constant c) u64_MAX;
  Ok (address_bytes (batcher_address c) ++ be_bytes 32 (overhead c) ++
      be_bytes 32 (scalar c) ++ be_bytes 8 (gas_limit c) ++
      be_bytes 8 base_fee_scalar ++ be_bytes 8 blob_base_fee_scalar ++
      be_bytes 4 denominator ++ be_bytes 4 elasticity ++
      be_bytes 4 operator_fee_scalar ++ be_bytes 8 operator_fee_constant).

Definition genesis_system_config_hash (c : SystemConfig) : outcome Z :=
  fields ← genesis_system_config_fields c; Ok (sha256 fields).

Definition alt_da_config_fields (c : AltDAConfig) : outcome bytes :=
  challenge_address ← safe_default (ada_challenge_address c) SAFE_DEFAULT_ADDRESS;
  challenge_window ← safe_default (ada_challenge_window c) u64_MAX;
  resolve_window ← safe_default (ada_resolve_window c) u64_MAX;
  commitment_type ← safe_default (ada_commitment_type c) [];
  Ok (address_bytes challenge_address ++ be_bytes 8 challenge_window ++
      be_bytes 8 resolve_window ++ commitment_type).

Definition alt_da_config_hash (c : AltDAConfig) : outcome Z :=
  fields ← alt_da_config_fields c; Ok (sha256 fields).

(** [match o.map(f) { Some(result) => Some(result?), None => None }]. *)
Definition map_hash {A} (f : A -> outcome Z) (o : option A) : outcome (option Z) :=
  match o with Some a => h ← f a; Ok (Some h) | None => Ok None end.

Definition hardfork_bytes (f : HardForkConfig) : outcome bytes :=
  times ← omap_m (fun o => safe_default o u64_MAX)
    [regolith_time f; canyon_time f; delta_time f; ecotone_time f; fjord_time f;
     granite_time f; holocene_time f; isthmus_time f; interop_time f;
     pectra_blob_schedule_time f];
  Ok (concat (be_bytes 8 <$> times)).

Definition rollup_config_bytes (c : RollupConfig) : outcome bytes :=
  let g := genesis c in
  system_config_hash ← map_hash genesis_system_config_hash (system_config g);
  system_config_hash ← expect "infallible" (safe_default system_config_hash 0);
  hardforks ← hardfork_bytes (hardforks c);
  superchain ← safe_default (superchain_config_address c) SAFE_DEFAULT_ADDRESS;
  blobs_enabled ← safe_default (blobs_enabled_l1_timestamp c) u64_MAX;
  da_challenge ← safe_default (da_challenge_address c) SAFE_DEFAULT_ADDRESS;
  alt_da_hash ← map_hash alt_da_config_hash (alt_da_config c);
  alt_da_hash ← expect "infallible" (safe_default alt_da_hash 0);
  Ok (b256_bytes (bnh_hash (genesis_l1 g)) ++ be_bytes 8 (bnh_number (genesis_l1 g)) ++
      b256_bytes (bnh_hash (genesis_l2 g)) ++ be_bytes 8 (bnh_number (genesis_l2 g)) ++
      be_bytes 8 (l2_time g) ++ b256_bytes system_config_hash ++
      be_bytes 8 (block_time c) ++ be_bytes 8 (max_sequencer_drift c) ++
      be_bytes 8 (seq_window_size c) ++ be_bytes 8 (channel_timeout c) ++
      be_bytes 8 (granite_channel_timeout c) ++ be_bytes 8 (l1_chain_id c) ++
      be_bytes 8 (l2_chain_id c) ++ hardforks ++
      address_bytes (batch_inbox_address c) ++
      address_bytes (deposit_contract_address c) ++
      address_bytes (l1_system_config_address c) ++
      address_bytes (protocol_versions_address c) ++
      address_bytes superchain ++ be_bytes 8 blobs_enabled ++
      address_bytes da_challenge ++ be_bytes 8 (interop_message_expiry_window c) ++
      b256_bytes alt_da_hash ++
      be_bytes 8 (bf_denominator (chain_op_config c)) ++
      be_bytes 8 (bf_elasticity (chain_op_config c)) ++
      be_bytes 8 (bf_denominator_canyon (chain_op_config c))).

Definition config_hash (c : RollupConfig) : outcome Z :=
  rollup_config_bytes ← rollup_config_bytes c; Ok (sha256 rollup_config_bytes).

End config.

(** ** Well-formedness: every integer is in the range of its Rust type *)

Definition opt_width (w : Z) (o : option Z) : Prop := from_option (in_width w) True o.

Definition wf_system_config (c : SystemConfig) : Prop :=
  address (batcher_address c) /\ b256 (overhead c) /\ b256 (scalar c) /\
  u64 (gas_limit c) /\ opt_width 64 (base_fee_scalar c) /\
  opt_width 64 (blob_base_fee_scalar c) /\ opt_width 32 (eip1559_denominator c) /\
  opt_width 32 (eip1559_elasticity c) /\ opt_width 32 (operator_fee_scalar c) /\
  opt_width 64 (operator_fee_constant c).

Definition wf_alt_da_config (c : AltDAConfig) : Prop :=
  opt_width 160 (ada_challenge_address c) /\ opt_width 64 (ada_challenge_window c) /\
  opt_width 64 (ada_resolve_window c).

Definition wf_hardforks (f : HardForkConfig) : Prop :=
  opt_width 64 (regolith_time f) /\ opt_width 64 (canyon_time f) /\
  opt_width 64 (delta_time f) /\ opt_width 64 (ecotone_time f) /\
  opt_width 64 (fjord_time f) /\ opt_width 64 (granite_time f) /\
  opt_width 64 (holocene_time f) /\ opt_width 64 (isthmus_time f) /\
  opt_width 64 (interop_time f) /\ opt_width 64 (pectra_blob_schedule_time f).

Definition wf_config (c : RollupConfig) : Prop :=
  let g := genesis c in
  b256 (bnh_hash (genesis_l1 g)) /\ u64 (bnh_number (genesis_l1 g)) /\
  b256 (bnh_hash (genesis_l2 g)) /\ u64 (bnh_number (genesis_l2 g)) /\
  u64 (l2_time g) /\ from_option wf_system_config True (system_config g) /\
  u64 (block_time c) /\ u64 (max_sequencer_drift c) /\ u64 (seq_window_size c) /\
  u64 (channel_timeout c) /\ u64 (granite_channel_timeout c) /\
  u64 (l1_chain_id c) /\ u64 (l2_chain_id c) /\ wf_hardforks (hardforks c) /\
  address (batch_inbox_address c) /\ address (deposit_contract_address c) /\
  address (l1_system_config_address c) /\ address (protocol_versions_address c) /\
  opt_width 160 (superchain_config_address c) /\
  opt_width 64 (blobs_enabled_l1_timestamp c) /\
  opt_width 160 (da_challenge_address c) /\ u64 (interop_message_expiry_window c) /\
  from_option wf_alt_da_config True (alt_da_config c) /\
  u64 (bf_denominator (chain_op_config c)) /\ u64 (bf_elasticity (chain_op_config c)) /\
  u64 (bf_denominator_canyon (chain_op_config c)).

(** ** The encodings are injective *)

Lemma safe_default_Ok {V} `{EqDecision V} (o : option V) d v :
  safe_default o d = Ok v <-> (o = Some v /\ v <> d) \/ (o = None /\ v = d).
Proof. destruct o; cbn; [case_decide|]; naive_solver. Qed.

Lemma safe_default_spec {V} `{EqDecision V} (o : option V) d :
  (exists v, safe_default o d = Ok v) \/
  (o = Some d /\ safe_default o d = Err "Unsafe value!").
Proof. destruct o; cbn; [case_decide; subst|]; eauto. Qed.

Lemma safe_default_inj {V} `{EqDecision V} (o1 o2 : option V) d v :
  safe_default o1 d = Ok v -> safe_default o2 d = Ok v -> o1 = o2.
Proof. rewrite !safe_default_Ok. naive_solver. Qed.

Lemma safe_default_width w o d v :
  opt_width w o -> in_width w d -> safe_default o d = Ok v -> in_width w v.
Proof. rewrite safe_default_Ok. intros ?? [[-> ?]|[-> ->]]; done. Qed.

Lemma safe_field_inj n o1 o2 d v1 v2 :
  opt_width (8 * Z.of_nat n) o1 -> opt_width (8 * Z.of_nat n) o2 ->
  in_width (8 * Z.of_nat n) d ->
  safe_default o1 d = Ok v1 -> safe_default o2 d = Ok v2 ->
  be_bytes n v1 = be_bytes n v2 -> o1 = o2.
Proof.
  intros ????? E. apply be_bytes_inj in E; eauto using safe_default_width.
  subst. eauto using safe_default_inj.
Qed.

Lemma default_widths :
  in_width 64 u64_MAX /\ in_width 32 u32_MAX /\ in_width 160 SAFE_DEFAULT_ADDRESS.
Proof. repeat split; vm_compute; congruence. Qed.

(** Reads back every field of two equal encodings. *)
Ltac fields_inj H :=
  split_fields H; pose proof default_widths as (? & ? & ?);
  repeat match goal with
  | E : address_bytes _ = address_bytes _ |- _ => unfold address_bytes in E
  | E : b256_bytes _ = b256_bytes _ |- _ => unfold b256_bytes in E
  | E : be_bytes _ ?a = be_bytes _ ?b, H1 : safe_default ?o1 ?d = Ok ?a,
    H2 : safe_default ?o2 ?d = Ok ?b |- _ =>
      eapply safe_field_inj in E; [| | | |exact H1|exact H2]; [|assumption..]
  | E : be_bytes _ ?a = be_bytes _ ?b |- _ => apply be_bytes_inj in E; [|assumption..]
  end.

Section config_lemmas.
Context `{Digests}.

Lemma genesis_system_config_fields_inj c1 c2 bs :
  wf_system_config c1 -> wf_system_config c2 ->
  genesis_system_config_fields c1 = Ok bs ->
  genesis_system_config_fields c2 = Ok bs -> c1 = c2.
Proof.
  unfold wf_system_config, genesis_system_config_fields. intros. ok_inv. destruct_and?.
  match goal with E : _ ++ _ = _ ++ _ |- _ => fields_inj E end.
  destruct c1, c2; f_equal; assumption.
Qed.

Lemma alt_da_config_fields_inj c1 c2 bs :
  wf_alt_da_config c1 -> wf_alt_da_config c2 ->
  alt_da_config_fields c1 = Ok bs -> alt_da_config_fields c2 = Ok bs -> c1 = c2.
Proof.
  unfold wf_alt_da_config, alt_da_config_fields. intros. ok_inv. destruct_and?.
  match goal with E : _ ++ _ = _ ++ _ |- _ => fields_inj E end. subst.
  match goal with
  | H1 : safe_default (ada_commitment_type c1) _ = _,
    H2 : safe_default (ada_commitment_type c2) _ = _ |- _ =>
      pose proof (safe_default_inj _ _ _ _ H1 H2)
  end.
  destruct c1, c2; f_equal; assumption.
Qed.

Lemma hardfork_bytes_length f bs : hardfork_bytes f = Ok bs -> length bs = 80%nat.
Proof.
  unfold hardfork_bytes. intros. ok_inv.
  apply omap_m_Ok, Forall2_length in E. cbn in E.
  rewrite length_concat, <-list_fmap_compose.
  do 11 (destruct x as [|? x]; try discriminate). reflexivity.
Qed.

Lemma hardfork_bytes_inj f1 f2 bs :
  wf_hardforks f1 -> wf_hardforks f2 ->
  hardfork_bytes f1 = Ok bs -> hardfork_bytes f2 = Ok bs -> f1 = f2.
Proof.
  unfold wf_hardforks, hardfork_bytes. intros ????. cbn [omap_m] in *. ok_inv.
  destruct_and?. cbn [fmap list_fmap concat] in *.
  match goal with E : _ ++ _ = _ ++ _ |- _ => fields_inj E end.
  destruct f1, f2; f_equal; assumption.
Qed.

(** Where two encodings could be confused: a collision of SHA-256 between the
    encodings of the two nested structs. *)
Definition hash_collision {A} (fields : A -> outcome bytes) (o1 o2 : option A) : Prop :=
  exists a1 a2 b1 b2, o1 = Some a1 /\ o2 = Some a2 /\
    fields a1 = Ok b1 /\ fields a2 = Ok b2 /\ collision sha256 b1 b2.

Lemma map_hash_inj {A} (wf : A -> Prop) (fields : A -> outcome bytes) o1 o2 h1 h2 h :
  (forall a1 a2 bs, wf a1 -> wf a2 -> fields a1 = Ok bs -> fields a2 = Ok bs -> a1 = a2) ->
  from_option wf True o1 -> from_option wf True o2 ->
  map_hash (fun a => b ← fields a; Ok (sha256 b)) o1 = Ok h1 ->
  map_hash (fun a => b ← fields a; Ok (sha256 b)) o2 = Ok h2 ->
  safe_default h1 0 = Ok h -> safe_default h2 0 = Ok h ->
  o1 = o2 \/ hash_collision fields o1 o2.
Proof.
  intros Hinj W1 W2 M1 M2 S1 S2.
  pose proof (safe_default_inj _ _ _ _ S1 S2) as ->.
  destruct o1 as [a1|], o2 as [a2|]; cbn in *; ok_inv; simplify_eq; auto.
  match goal with Hh : sha256 _ = sha256 _ |- _ => destruct (hash_inj_or_collision _ _ _ Hh) end.
  - left. subst. f_equal; eauto.
  - right. unfold hash_collision. naive_solver.
Qed.

Lemma nested_hash_width {A} (f : A -> outcome bytes) o h v :
  map_hash (fun a => b ← f a; Ok (sha256 b)) o = Ok h ->
  safe_default h 0 = Ok v -> b256 v.
Proof.
  intros M [[-> _]|[_ ->]]%safe_default_Ok; [|unfold in_width; lia].
  destruct o; cbn in M; ok_inv; simplify_eq. apply sha256_width.
Qed.

Definition config_collision (c1 c2 : RollupConfig) : Prop :=
  hash_collision rollup_config_bytes (Some c1) (Some c2) \/
  hash_collision genesis_system_config_fields
    (system_config (genesis c1)) (system_config (genesis c2)) \/
  hash_collision alt_da_config_fields (alt_da_config c1) (alt_da_config c2).

Lemma rollup_config_bytes_inj c1 c2 bs :
  wf_config c1 -> wf_config c2 ->
  rollup_config_bytes c1 = Ok bs -> rollup_config_bytes c2 = Ok bs ->
  c1 = c2 \/ config_collision c1 c2.
Proof.
  unfold wf_config, rollup_config_bytes, genesis_system_config_hash, alt_da_config_hash.
  intros W1 W2 B1 B2. ok_inv. destruct_and?.
  repeat match goal with
  | M : map_hash _ _ = Ok ?h, S : safe_default ?h 0 = Ok ?v |- _ =>
      assert_fails (assert (b256 v) by assumption);
      pose proof (nested_hash_width _ _ _ _ M S)
  end.
  pose proof (hardfork_bytes_length _ _ E1). pose proof (hardfork_bytes_length _ _ E9).
  assert (length x1 = length x9) by congruence.
  match goal with E : _ ++ _ = _ ++ _ |- _ => fields_inj E end. subst.
  destruct (map_hash_inj wf_system_config genesis_system_config_fields
    (system_config (genesis c1)) (system_config (genesis c2)) _ _ _
    genesis_system_config_fields_inj ltac:(assumption) ltac:(assumption)
    ltac:(eassumption) ltac:(eassumption) ltac:(eassumption) ltac:(eassumption));
    [|unfold config_collision; tauto].
  destruct (map_hash_inj wf_alt_da_config alt_da_config_fields
    (alt_da_config c1) (alt_da_config c2) _ _ _
    alt_da_config_fields_inj ltac:(assumption) ltac:(assumption)
    ltac:(eassumption) ltac:(eassumption) ltac:(eassumption) ltac:(eassumption));
    [|unfold config_collision; tauto].
  assert (hardforks c1 = hardforks c2) by (eapply hardfork_bytes_inj; eassumption).
  left. destruct c1 as [[[] []]], c2 as [[[] []]]; cbn [genesis chain_op_config] in *.
  repeat match goal with c : BaseFeeConfig |- _ => destruct c end.
  f_equal; try assumption; f_equal; try assumption; f_equal; assumption.
Qed.
End config_lemmas.

(** ** Where [config_hash] fails *)

(** Runs the [safe_default] the goal is about to run, both ways. *)
Ltac run_safe_default :=
  let go o d :=
    (let E := fresh "E" in let F := fresh "F" in
    destruct (safe_default_spec o d) as [[? E]|[F E]]; (rewrite E; clear E; cbn [mbind outcome_bind])) in
  match goal with
  | |- context [safe_default ?o ?d ≫= _] =>
      lazymatch o with context [safe_default] => fail | _ => go o d end
  end.

Definition reserved_system_config (s : SystemConfig) : Prop :=
  base_fee_scalar s = Some u64_MAX \/ blob_base_fee_scalar s = Some u64_MAX \/
  eip1559_denominator s = Some u32_MAX \/ eip1559_elasticity s = Some u32_MAX \/
  operator_fee_scalar s = Some u32_MAX \/ operator_fee_constant s = Some u64_MAX.

Definition reserved_alt_da (a : AltDAConfig) : Prop :=
  ada_challenge_address a = Some SAFE_DEFAULT_ADDRESS \/
  ada_challenge_window a = Some u64_MAX \/ ada_resolve_window a = Some u64_MAX \/
  ada_commitment_type a = Some [].

Definition reserved_time (c : RollupConfig) : Prop :=
  let f := hardforks c in
  Some u64_MAX ∈ [regolith_time f; canyon_time f; delta_time f; ecotone_time f;
    fjord_time f; granite_time f; holocene_time f; isthmus_time f; interop_time f;
    pectra_blob_schedule_time f; blobs_enabled_l1_timestamp c].

(** Some optional field of the configuration holds its reserved value. *)
Definition reserved (c : RollupConfig) : Prop :=
  reserved_time c \/ superchain_config_address c = Some SAFE_DEFAULT_ADDRESS \/
  da_challenge_address c = Some SAFE_DEFAULT_ADDRESS \/
  (exists s, system_config (genesis c) = Some s /\ reserved_system_config s) \/
  (exists a, alt_da_config c = Some a /\ reserved_alt_da a).

Lemma genesis_fields_spec s :
  (exists f, genesis_system_config_fields s = Ok f) \/
  (reserved_system_config s /\ genesis_system_config_fields s = Err "Unsafe value!").
Proof.
  unfold genesis_system_config_fields, reserved_system_config.
  do 6 (run_safe_default; [|right; split; [tauto|reflexivity]]). eauto.
Qed.

Lemma alt_da_fields_spec a :
  (exists f, alt_da_config_fields a = Ok f) \/
  (reserved_alt_da a /\ alt_da_config_fields a = Err "Unsafe value!").
Proof.
  unfold alt_da_config_fields, reserved_alt_da.
  do 4 (run_safe_default; [|right; split; [tauto|reflexivity]]). eauto.
Qed.

Lemma hardfork_bytes_spec c :
  (exists f, hardfork_bytes (hardforks c) = Ok f) \/
  (reserved_time c /\ hardfork_bytes (hardforks c) = Err "Unsafe value!").
Proof.
  unfold hardfork_bytes, reserved_time. cbn [omap_m].
  do 10 (run_safe_default; [|right; split; [rewrite F; set_solver|reflexivity]]). eauto.
Qed.

(** The hash of a nested struct is computed, unless the struct holds a reserved
    value or its digest is the word reserved for its absence. *)
Lemma nested_hash_spec `{Digests} {A} (fields : A -> outcome bytes) (res : A -> Prop) o :
  (forall a, (exists f, fields a = Ok f) \/ (res a /\ fields a = Err "Unsafe value!")) ->
  (exists h v, map_hash (fun a => b ← fields a; Ok (sha256 b)) o = Ok h /\
     expect "infallible" (safe_default h 0) = Ok v) \/
  (map_hash (fun a => b ← fields a; Ok (sha256 b)) o = Err "Unsafe value!" /\
     exists a, o = Some a /\ res a) \/
  (exists h, map_hash (fun a => b ← fields a; Ok (sha256 b)) o = Ok h /\
     expect "infallible" (safe_default h 0) = Panic "infallible" /\
     exists a f, o = Some a /\ fields a = Ok f /\ sha256 f = 0).
Proof.
  intros Hf. destruct o as [a|]; cbn [map_hash]; [|by left; eauto].
  destruct (Hf a) as [[f E]|[R E]]; rewrite E; cbn [mbind outcome_bind]; [|by right; left; eauto].
  destruct (safe_default_spec (Some (sha256 f)) 0) as [[v Ev]|[F Ev]].
  - left. exists (Some (sha256 f)), v. by rewrite Ev.
  - right; right. exists (Some (sha256 f)). rewrite Ev. simplify_eq. eauto 10.
Qed.

(** ** Properties *)

(** C34. [config_hash] commits a proof to its rollup configuration: two
    well-formed configurations with the same hash are equal, unless the
    encodings hashed on the way exhibit a SHA-256 collision. In particular an
    absent optional field is never confused with a present one, because
    [safe_default] refuses the value that stands for absence. *)
Theorem config_hash_binding `{Digests} c1 c2 h :
  wf_config c1 -> wf_config c2 ->
  config_hash c1 = Ok h -> config_hash c2 = Ok h ->
  c1 = c2 \/ config_collision c1 c2.
Proof.
  unfold config_hash. intros W1 W2 H1 H2. ok_inv.
  match goal with Hh : sha256 _ = sha256 _ |- _ => destruct (hash_inj_or_collision _ _ _ Hh) end.
  - subst. eauto using rollup_config_bytes_inj.
  - right. left. unfold hash_collision. naive_solver.
Qed.

(** [config_hash] never panics on its own account and fails exactly on
    reserved values: the call on a configuration errs only if some optional
    field holds the value reserved for its absence, and panics only if the
    digest of a nested struct is the zero word. *)
Theorem config_hash_failures `{Digests} c :
  match config_hash c with
  | Ok _ => True
  | Err e => e = "Unsafe value!"%string /\ reserved c
  | Panic _ =>
      (exists s f, system_config (genesis c) = Some s /\
         genesis_system_config_fields s = Ok f /\ sha256 f = 0) \/
      (exists a f, alt_da_config c = Some a /\ alt_da_config_fields a = Ok f /\ sha256 f = 0)
  end.
Proof.
  unfold config_hash, rollup_config_bytes, reserved,
    genesis_system_config_hash, alt_da_config_hash.
  destruct (nested_hash_spec _ _ (system_config (genesis c)) genesis_fields_spec)
    as [(h & v & -> & Ev)|[[-> ?]|(h & -> & Ev & ?)]]; cbn [mbind outcome_bind];
    [rewrite Ev | by eauto 10 | rewrite Ev; cbn; by eauto 10]; cbn [mbind outcome_bind].
  destruct (hardfork_bytes_spec c) as [[? ->]|[? ->]]; cbn [mbind outcome_bind]; [|by eauto].
  run_safe_default; [|by eauto].
  run_safe_default; [|split; [done|]; left; unfold reserved_time; rewrite F; set_solver].
  run_safe_default; [|by eauto].
  destruct (nested_hash_spec _ _ (alt_da_config c) alt_da_fields_spec)
    as [(h' & v' & -> & Ev')|[[-> ?]|(h' & -> & Ev' & ?)]]; cbn [mbind outcome_bind];
    [rewrite Ev' | by eauto 10 | rewrite Ev'; cbn; by eauto 10]; done.
Qed.

Definition demo_system_config : SystemConfig := {|
  batcher_address := 1; overhead := 0; scalar := 2; gas_limit := 30000000;
  base_fee_scalar := Some 5; blob_base_fee_scalar := None; eip1559_denominator := Some 250;
  eip1559_elasticity := Some 6; operator_fee_scalar := None; operator_fee_constant := None |}.
Definition demo_config : RollupConfig := {|
  genesis := {| genesis_l1 := {| bnh_hash := 11; bnh_number := 12 |};
                genesis_l2 := {| bnh_hash := 13; bnh_number := 0 |};
                l2_time := 1700000000; system_config := Some demo_system_config |};
  block_time := 2; max_sequencer_drift := 600; seq_window_size := 3600;
  channel_timeout := 300; granite_channel_timeout := 50; l1_chain_id := 1; l2_chain_id := 10;
  hardforks := {| regolith_time := Some 0; canyon_time := Some 0; delta_time := Some 0;
    ecotone_time := Some 0; fjord_time := Some 0; granite_time := Some 0;
    holocene_time := None; isthmus_time := None; interop_time := None;
    pectra_blob_schedule_time := None |};
  batch_inbox_address := 21; deposit_contract_address := 22; l1_system_config_address := 23;
  protocol_versions_address := 24; superchain_config_address := Some 25;
  blobs_enabled_l1_timestamp := None; da_challenge_address := None;
  interop_message_expiry_window := 3600; alt_da_config := None;
  chain_op_config := {| bf_denominator := 50; bf_elasticity := 6; bf_denominator_canyon := 250 |} |}.

Lemma demo_config_wf : wf_config demo_config.
Proof. repeat split; vm_compute; congruence. Qed.

Definition demo_config_hash : Z :=
  Eval vm_compute in
    match @config_hash demo_digests demo_config with Ok h => h | _ => 0 end.

Lemma config_hash_binding_witness :
  demo_config = demo_config \/ @config_collision demo_digests demo_config demo_config.
Proof.
  apply (@config_hash_binding demo_digests demo_config demo_config demo_config_hash);
    [apply demo_config_wf | apply demo_config_wf | vm_compute; reflexivity ..].
Defined.
