(* ===== verification/RollupSource.v ===== *)
(** * crates/sync/src/provider/optimism.rs and crates/prover/src/config.rs

    Where the rollup configuration comes from: the registry of known chains, the
    nodes, or a file that the prover was given. *)

From S2P Require Import Prelude Bytes Config.
From stdpp Require Import pretty.
Open Scope Z_scope.

(** serde_json's [Value]; an object keeps one value for each key. *)
Inductive Value :=
| VNull
| VBool (b : bool)
| VNumber (n : Z)
| VString (s : string)
| VArray (l : list Value)
| VObject (fields : list (string * Value)).

Fixpoint get_field (fields : list (string * Value)) (key : string) : option Value :=
  match fields with
  | [] => None
  | (k, v) :: fields => if bool_decide (k = key) then Some v else get_field fields key
  end.
Fixpoint put_field (fields : list (string * Value)) (key : string) (v : Value) : list (string * Value) :=
  match fields with
  | [] => [(key, v)]
  | (k, w) :: fields => if bool_decide (k = key) then (k, v) :: fields else (k, w) :: put_field fields key v
  end.

(** [value[key]] to read: null if there is no such field. *)
Definition get (v : Value) (key : string) : Value :=
  match v with VObject fields => default VNull (get_field fields key) | _ => VNull end.
(** [value[key] = w]: null becomes an object, any other value panics. *)
Definition set_ (v : Value) (key : string) (w : Value) : outcome Value :=
  match v with
  | VObject fields => Ok (VObject (put_field fields key w))
  | VNull => Ok (VObject [(key, w)])
  | _ => Panic "cannot access key in JSON value"
  end.
Definition as_str (v : Value) : option string := match v with VString s => Some s | _ => None end.
Definition as_u64 (v : Value) : option Z :=
  match v with VNumber n => if fits 64 n then Some n else None | _ => None end.

(** The nodes and the registry. *)
Class ConfigSource (N : Type) := {
  load_registry_config : Z -> option RollupConfig;
  url_ok : string -> outcome unit;
  rollup_config : string -> N -> outcome Value * N;
  debug_chain_config : string -> N -> outcome Value * N;
  from_value : Value -> outcome RollupConfig;
}.

Definition forks : list string :=
  ["regolithTime"; "canyonTime"; "deltaTime"; "ecotoneTime"; "fjordTime"; "graniteTime";
   "holoceneTime"; "isthmusTime"; "interopTime"; "pectraBlobScheduleTime"]%string.

Section source.
Context {N : Type} `{ConfigSource N}.

(** A fork time that the L2 node reports as a string. *)
Definition merge_fork (chain_config : Value) (config : Value) (fork : string) : outcome Value :=
  match as_str (get chain_config fork) with
  | Some value => set_ config fork (VString value)
  | None => Ok config
  end.

Definition registered (bypass : bool) (chain_id : option Z) : option RollupConfig :=
  if negb bypass then chain_id ≫= load_registry_config else None.

Definition fetch_rollup_config (op_node_address l2_node_address : string) (chain_id : option Z)
    (bypass_chain_registry : bool) : St N RollupConfig :=
  match registered bypass_chain_registry chain_id with
  | Some config => mret config
  | None =>
      _ ← lift (url_ok op_node_address);
      _ ← lift (url_ok l2_node_address);
      config ← (fun n => rollup_config op_node_address n);
      match registered bypass_chain_registry (as_u64 (get config "l2_chain_id")) with
      | Some config => mret config
      | None =>
          chain_config ← (fun n => debug_chain_config l2_node_address n);
          merged ← lift (ofold (merge_fork chain_config) config forks);
          lift (from_value merged)
      end
  end.

(** The configuration file of a proof: what it holds, or nothing yet. *)
Context {File : Type} (serialize : RollupConfig -> outcome File) (parse : File -> outcome RollupConfig).

Definition generate_rollup_config_file (given : option File) (op_node_address l2_node_address : option string)
    (chain_id : option Z) (bypass_chain_registry : bool) (write : File -> N -> outcome unit * N)
    : St N (RollupConfig * option File) :=
  match given ≫= (fun f => match parse f with Ok c => Some c | _ => None end) with
  | Some config => mret (config, given)
  | None =>
      op ← lift (unwrap "op_node_address" op_node_address);
      l2 ← lift (unwrap "Missing l2-node-address" l2_node_address);
      config ← fetch_rollup_config op l2 chain_id bypass_chain_registry;
      file ← lift (serialize config);
      _ ← (fun n => write file n);
      config ← lift (parse file);
      mret (config, Some file)
  end.
End source.

(** ** What a merged configuration holds *)

Lemma get_put_field fields k v j :
  get_field (put_field fields k v) j = if bool_decide (k = j) then Some v else get_field fields j.
Proof.
  induction fields as [|[i w] fields IH]; cbn; [done|].
  destruct (bool_decide_reflect (i = k)) as [->|Hik]; cbn.
  - by destruct (bool_decide_reflect (k = j)).
  - rewrite IH. destruct (bool_decide_reflect (i = j)) as [->|]; [|done].
    destruct (bool_decide_reflect (k = j)) as [->|]; done.
Qed.

Lemma get_set v k w v' j : set_ v k w = Ok v' -> get v' j = if bool_decide (k = j) then w else get v j.
Proof.
  destruct v; cbn; intros [= <-]; cbn [get].
  - cbn. by destruct (bool_decide (k = j)).
  - rewrite get_put_field. by destruct (bool_decide (k = j)).
Qed.

Lemma merge_forks_spec chain_config l config merged j :
  ofold (merge_fork chain_config) config l = Ok merged ->
  get merged j = match as_str (get chain_config j) with
    | Some s => if bool_decide (j ∈ l) then VString s else get config j
    | None => get config j
    end.
Proof.
  revert config. induction l as [|k l IH]; intros config; cbn [ofold].
  { intros [= <-]. rewrite bool_decide_false by apply not_elem_of_nil. by destruct (as_str _). }
  intros E. ok_inv. rewrite (IH _ E). unfold merge_fork in E0.
  destruct (as_str (get chain_config k)) as [s|] eqn:Ek.
  - rewrite (get_set _ _ _ _ j E0). destruct (decide (k = j)) as [->|Hne].
    + rewrite Ek, (bool_decide_true (j = j)), (bool_decide_true (j ∈ j :: l)) by (done || left).
      by destruct (bool_decide _).
    + rewrite (bool_decide_false (k = j)) by done. destruct (as_str (get chain_config j)); [|done].
      rewrite (bool_decide_ext (j ∈ k :: l) (j ∈ l)); [done|]. rewrite elem_of_cons. naive_solver.
  - injection E0 as <-. destruct (as_str (get chain_config j)) eqn:Ej; [|done].
    rewrite (bool_decide_ext (j ∈ k :: l) (j ∈ l)); [done|]. rewrite elem_of_cons.
    split; [|naive_solver]. intros [->|]; [congruence|done].
Qed.

Section source_spec.
Context {N : Type} `{ConfigSource N}.

(** Which configuration is used. A fetched configuration is the registry's for the given chain,
    or the registry's for the chain that the op-node names, unless the registry is bypassed; otherwise
    it is decoded from the op-node's answer, in which exactly the fork times that the L2 node
    reports as strings were replaced, and no other field. *)
Theorem fetch_rollup_config_spec op l2 chain_id bypass (n : N) config n' :
  fetch_rollup_config op l2 chain_id bypass n = (Ok config, n') ->
  (bypass = false /\ exists id, chain_id = Some id /\ load_registry_config id = Some config /\ n' = n) \/
  (registered bypass chain_id = None /\ exists answer n1, rollup_config op n = (Ok answer, n1) /\
    ((bypass = false /\ exists id, as_u64 (get answer "l2_chain_id") = Some id /\ load_registry_config id = Some config) \/
     exists chain_config merged, debug_chain_config l2 n1 = (Ok chain_config, n') /\
       registered bypass (as_u64 (get answer "l2_chain_id")) = None /\ from_value merged = Ok config /\
       forall j, get merged j = match as_str (get chain_config j) with
         | Some s => if bool_decide (j ∈ forks) then VString s else get answer j
         | None => get answer j
         end)).
Proof.
  unfold fetch_rollup_config.
  assert (Hreg : forall id c, registered bypass id = Some c ->
    bypass = false /\ exists i, id = Some i /\ load_registry_config i = Some c).
  { intros id c. unfold registered. destruct bypass; [done|]. intros Hc. split; [done|].
    apply bind_Some in Hc as (i & -> & ?). eauto. }
  destruct (registered bypass chain_id) as [c|] eqn:E1.
  { intros [= <- <-]. left. apply Hreg in E1 as (-> & i & -> & ?). eauto. }
  intros E. right. split; [done|].
  apply St_bind_Ok in E as (? & s1 & [_ ->]%lift_Ok & E).
  apply St_bind_Ok in E as (? & s2 & [_ ->]%lift_Ok & E).
  apply St_bind_Ok in E as (answer & n1 & Ea & E). exists answer, n1. split; [done|].
  destruct (registered bypass (as_u64 _)) as [c|] eqn:E2.
  { injection E as <- <-. left. apply Hreg in E2 as (-> & i & -> & ?). eauto. }
  right. apply St_bind_Ok in E as (chain_config & n2 & Ec & E).
  apply St_bind_Ok in E as (merged & n3 & [Em ->]%lift_Ok & E). apply lift_Ok in E as [E ->].
  exists chain_config, merged. split_and!; try done. intros j. by apply merge_forks_spec.
Qed.

(** A fork time that the L2 node reports as a number is not used. *)
Lemma numeric_fork_ignored chain_config config fork t :
  get chain_config fork = VNumber t -> merge_fork chain_config config fork = Ok config.
Proof. unfold merge_fork. by intros ->. Qed.

(** The file that the prover writes is the configuration that it fetched. *)
Lemma generated_config {File} (serialize : RollupConfig -> outcome File) parse op l2 id bypass write (n : N) c f n' :
  (forall c f, serialize c = Ok f -> parse f = Ok c) ->
  generate_rollup_config_file serialize parse None op l2 id bypass write n = (Ok (c, f), n') ->
  exists op' l2' n1 file, op = Some op' /\ l2 = Some l2' /\
    fetch_rollup_config op' l2' id bypass n = (Ok c, n1) /\ serialize c = Ok file /\ f = Some file.
Proof.
  intros Hser. unfold generate_rollup_config_file. cbn [mbind option_bind].
  intros E. apply St_bind_Ok in E as (op' & s1 & [Eo%unwrap_Ok ->]%lift_Ok & E).
  apply St_bind_Ok in E as (l2' & s2 & [El%unwrap_Ok ->]%lift_Ok & E).
  apply St_bind_Ok in E as (c' & n1 & Ec & E). apply St_bind_Ok in E as (file & n2 & [Es ->]%lift_Ok & E).
  apply St_bind_Ok in E as (u & n3 & _ & E). apply St_bind_Ok in E as (c2 & n4 & [Ep ->]%lift_Ok & E).
  injection E as <- <- <-. rewrite (Hser _ _ Es) in Ep. injection Ep as <-.
  exists op', l2', n1, file. done.
Qed.
End source_spec.

(** ** A concrete source *)

#[local] Instance source_demo : ConfigSource unit := {|
  load_registry_config := fun id => if id =? 10 then Some demo_config else None;
  url_ok := fun _ => Ok tt;
  rollup_config := fun _ n => (Ok (VObject [("l2_chain_id", VNumber 11); ("canyonTime", VNumber 0)]), n);
  debug_chain_config := fun _ n => (Ok (VObject [("canyonTime", VString "5"); ("deltaTime", VNumber 6)]), n);
  from_value := fun v => if bool_decide (as_str (get v "canyonTime") = Some "5"%string) then Ok demo_config
                         else Err "canyonTime" |}.

Lemma fetch_rollup_config_spec_witness :
  exists merged : Value, from_value merged = Ok demo_config /\ get merged "canyonTime" = VString "5" /\
    get merged "deltaTime" = VNull.
Proof.
  assert (E : fetch_rollup_config "op" "l2" (Some 11) false tt = (Ok demo_config, tt)) by (vm_compute; reflexivity).
  destruct (fetch_rollup_config_spec "op" "l2" (Some 11) false tt demo_config tt E)
    as [(_ & id & Hid & Hl & _)|(_ & answer & n1 & Ha & Hm)].
  { injection Hid as <-. discriminate Hl. }
  injection Ha as <- <-. destruct Hm as [(_ & id & Hid & Hl)|(chain_config & merged & Hc & _ & Hv & Hget)].
  { injection Hid as <-. discriminate Hl. }
  injection Hc as <-. exists merged. split; [exact Hv|]. rewrite !Hget. vm_compute. done.
Defined.
