(* ===== verification/Journal.v ===== *)
(** * crates/kona/src/journal.rs and boot.rs

    The public statement of a proof ([ProofJournal]), its packed encoding of
    220 bytes, and the part of it that stitching threads through
    ([StitchedBootInfo]). *)

From S2P Require Import Prelude Bytes Config.

(** [kona_proof::BootInfo], with the fields the program reads and assigns. *)
Record BootInfo := {
  bi_l1_head : Z; bi_agreed_l2_output_root : Z; bi_claimed_l2_output_root : Z;
  bi_claimed_l2_block_number : Z; bi_chain_id : Z; bi_rollup_config : RollupConfig;
}.

Record StitchedBootInfo := {
  sb_l1_head : Z; sb_agreed_l2_output_root : Z;
  sb_claimed_l2_output_root : Z; sb_claimed_l2_block_number : Z;
}.

Record ProofJournal := {
  payout_recipient : Z; precondition_hash : Z; pj_l1_head : Z;
  pj_agreed_l2_output_root : Z; pj_claimed_l2_output_root : Z;
  pj_claimed_l2_block_number : Z; pj_config_hash : Z; fpvm_image_id : Z;
}.

#[export] Instance boot_info_eq_dec : EqDecision BootInfo.
Proof. solve_decision. Defined.
#[export] Instance stitched_boot_info_eq_dec : EqDecision StitchedBootInfo.
Proof. solve_decision. Defined.
#[export] Instance proof_journal_eq_dec : EqDecision ProofJournal.
Proof. solve_decision. Defined.

Definition journal_new `{Digests} (image payout precondition : Z) (boot_info : BootInfo)
    : outcome ProofJournal :=
  config_hash ← expect "config_hash" (config_hash (bi_rollup_config boot_info));
  Ok {| payout_recipient := payout; precondition_hash := precondition;
        pj_l1_head := bi_l1_head boot_info;
        pj_agreed_l2_output_root := bi_agreed_l2_output_root boot_info;
        pj_claimed_l2_output_root := bi_claimed_l2_output_root boot_info;
        pj_claimed_l2_block_number := bi_claimed_l2_block_number boot_info;
        pj_config_hash := config_hash; fpvm_image_id := image |}.

Definition new_stitched (image payout precondition config_hash : Z)
    (b : StitchedBootInfo) : ProofJournal :=
  {| payout_recipient := payout; precondition_hash := precondition;
     pj_l1_head := sb_l1_head b;
     pj_agreed_l2_output_root := sb_agreed_l2_output_root b;
     pj_claimed_l2_output_root := sb_claimed_l2_output_root b;
     pj_claimed_l2_block_number := sb_claimed_l2_block_number b;
     pj_config_hash := config_hash; fpvm_image_id := image |}.

Definition encode_packed (j : ProofJournal) : bytes :=
  concat [ address_bytes (payout_recipient j); b256_bytes (precondition_hash j);
    b256_bytes (pj_l1_head j); b256_bytes (pj_agreed_l2_output_root j);
    b256_bytes (pj_claimed_l2_output_root j); be_bytes 8 (pj_claimed_l2_block_number j);
    b256_bytes (pj_config_hash j); b256_bytes (fpvm_image_id j) ].

(** [encoded[a..b].try_into().unwrap()]: the slice has the width of the field. *)
Definition field (encoded : bytes) (a b : nat) : outcome Z :=
  s ← slice encoded a b; Ok (from_be_bytes s).

Definition decode_packed (encoded : bytes) : outcome ProofJournal :=
  payout ← field encoded 0 20;
  precondition ← field encoded 20 52;
  l1_head ← field encoded 52 84;
  agreed ← field encoded 84 116;
  claimed ← field encoded 116 148;
  number ← field encoded 148 156;
  config_hash ← field encoded 156 188;
  image ← field encoded 188 220;
  Ok {| payout_recipient := payout; precondition_hash := precondition;
        pj_l1_head := l1_head; pj_agreed_l2_output_root := agreed;
        pj_claimed_l2_output_root := claimed; pj_claimed_l2_block_number := number;
        pj_config_hash := config_hash; fpvm_image_id := image |}.

(** [StitchedBootInfo::from(ProofJournal)]. *)
Definition stitched_of_journal (j : ProofJournal) : StitchedBootInfo :=
  {| sb_l1_head := pj_l1_head j;
     sb_agreed_l2_output_root := pj_agreed_l2_output_root j;
     sb_claimed_l2_output_root := pj_claimed_l2_output_root j;
     sb_claimed_l2_block_number := pj_claimed_l2_block_number j |}.

Definition wf_journal (j : ProofJournal) : Prop :=
  address (payout_recipient j) /\ b256 (precondition_hash j) /\ b256 (pj_l1_head j) /\
  b256 (pj_agreed_l2_output_root j) /\ b256 (pj_claimed_l2_output_root j) /\
  u64 (pj_claimed_l2_block_number j) /\ b256 (pj_config_hash j) /\ b256 (fpvm_image_id j).

(** ** Lemmas *)

Lemma encode_packed_length j : length (encode_packed j) = 220%nat.
Proof. unfold encode_packed. rewrite length_concat. cbn. unfold address_bytes, b256_bytes. by rewrite !length_be_bytes. Qed.

Lemma field_spec bs a b :
  (a ≤ b)%nat ->
  (field bs a b = Panic "range out of bounds" /\ (length bs < b)%nat) \/
  (exists z, field bs a b = Ok z /\ (b ≤ length bs)%nat /\
     in_width (8 * Z.of_nat (b - a)) z /\
     be_bytes (b - a) z = take (b - a) (drop a bs)).
Proof.
  intros Hab. unfold field. destruct (slice bs a b) as [s| |] eqn:E.
  - right. exists (from_be_bytes s). pose proof (slice_length _ _ _ _ E) as Hl.
    apply slice_Ok in E as [? ->]. pose proof (be_from_be (take (b - a) (drop a bs))) as B.
    pose proof (from_be_bytes_bound (take (b - a) (drop a bs))) as W.
    rewrite Hl in B, W. split_and!; [done|lia|done|done].
  - unfold slice in E. by destruct (_ && _).
  - left. unfold slice in E. repeat (case_bool_decide; cbn in E); simplify_eq; (split; [done|lia]).
Qed.

Lemma encode_packed_inj j1 j2 :
  wf_journal j1 -> wf_journal j2 -> encode_packed j1 = encode_packed j2 -> j1 = j2.
Proof.
  unfold wf_journal, encode_packed. cbn [concat]. rewrite !app_nil_r. intros ?? E.
  destruct_and?. fields_inj E. destruct j1, j2. cbn in *. by subst.
Qed.

(** Reading back the i-th of some concatenated fields. *)
Lemma field_concat (fs : list bytes) tail i s a b :
  fs !! i = Some s -> a = length (concat (take i fs)) -> b = (a + length s)%nat ->
  field (concat fs ++ tail) a b = Ok (from_be_bytes s).
Proof.
  intros Hi -> ->. rewrite <-(take_drop_middle _ _ _ Hi) at 1.
  rewrite concat_app. cbn [concat]. rewrite <-!app_assoc.
  unfold field, slice. rewrite !length_app, !bool_decide_true by lia. cbn.
  by rewrite take_drop_app_mid by lia.
Qed.

Lemma take_cat {A} (l : list A) n m : take n l ++ take m (drop n l) = take (n + m) l.
Proof. revert l; induction n as [|n IH]; intros [|x l]; cbn; [done..| by rewrite take_nil|]. by f_equal. Qed.

(** ** Properties *)

(** Decoding a packed journal inverts encoding: for every journal whose
    fields are in range, [decode_packed] of its encoding, with any bytes after
    it, gives the journal back. *)
Theorem journal_roundtrip j tail :
  wf_journal j -> decode_packed (encode_packed j ++ tail) = Ok j.
Proof.
  intros (?&?&?&?&?&?&?&?). destruct j as [f1 f2 f3 f4 f5 f6 f7 f8].
  unfold encode_packed, decode_packed; cbn [payout_recipient precondition_hash pj_l1_head
    pj_agreed_l2_output_root pj_claimed_l2_output_root pj_claimed_l2_block_number
    pj_config_hash fpvm_image_id] in *.
  remember (address_bytes f1) as b1 eqn:E1. remember (b256_bytes f2) as b2 eqn:E2.
  remember (b256_bytes f3) as b3 eqn:E3. remember (b256_bytes f4) as b4 eqn:E4.
  remember (b256_bytes f5) as b5 eqn:E5. remember (be_bytes 8 f6) as b6 eqn:E6.
  remember (b256_bytes f7) as b7 eqn:E7. remember (b256_bytes f8) as b8 eqn:E8.
  assert (length b1 = 20 /\ length b2 = 32 /\ length b3 = 32 /\ length b4 = 32 /\
    length b5 = 32 /\ length b6 = 8 /\ length b7 = 32 /\ length b8 = 32)%nat
    as (?&?&?&?&?&?&?&?) by (subst; repeat split; apply length_be_bytes).
  set (fs := [b1; b2; b3; b4; b5; b6; b7; b8]).
  assert (R : forall i s a b, fs !! i = Some s -> a = length (concat (take i fs)) ->
    b = (a + length s)%nat -> field (concat fs ++ tail) a b = Ok (from_be_bytes s))
    by (intros; eapply field_concat; eauto).
  rewrite (R 0 b1 0 20)%nat, (R 1 b2 20 52)%nat, (R 2 b3 52 84)%nat, (R 3 b4 84 116)%nat,
    (R 4 b5 116 148)%nat, (R 5 b6 148 156)%nat, (R 6 b7 156 188)%nat, (R 7 b8 188 220)%nat
    by (try reflexivity; unfold fs; rewrite ?length_concat; cbn; lia).
  cbn [mbind outcome_bind]. subst.
  f_equal. unfold address_bytes, b256_bytes.
  f_equal; by apply from_be_be.
Qed.

(** [decode_packed] on arbitrary bytes: it panics exactly on fewer than
    220 bytes, and otherwise returns a well-formed journal whose encoding is
    the first 220 bytes of the input. Together with the round trip, the
    decoder accepts exactly the extensions of encodings. *)
Theorem decode_packed_spec bs :
  match decode_packed bs with
  | Ok j => (220 ≤ length bs)%nat /\ wf_journal j /\ encode_packed j = take 220 bs
  | Err _ => False
  | Panic _ => (length bs < 220)%nat
  end.
Proof.
  unfold decode_packed, wf_journal, encode_packed, address_bytes, b256_bytes.
  repeat match goal with
  | |- context [field bs ?a ?b ≫= _] =>
      destruct (field_spec bs a b) as [[-> ?]|(? & -> & ? & ? & ?)]; [lia| |];
      cbn [mbind outcome_bind]; [lia|]
  end.
  split; [lia|]. split; [cbn; repeat (split; [assumption|]); assumption|].
  cbn [concat payout_recipient precondition_hash pj_l1_head pj_agreed_l2_output_root
    pj_claimed_l2_output_root pj_claimed_l2_block_number pj_config_hash fpvm_image_id].
  cbn [Nat.sub] in *.
  repeat match goal with E : be_bytes _ _ = _ |- _ => rewrite E; clear E end.
  rewrite app_nil_r. rewrite drop_0, !app_assoc, !take_cat. reflexivity.
Qed.

Definition demo_journal : ProofJournal := {|
  payout_recipient := 0xb0; precondition_hash := 1; pj_l1_head := 2;
  pj_agreed_l2_output_root := 3; pj_claimed_l2_output_root := 4;
  pj_claimed_l2_block_number := 5; pj_config_hash := 6; fpvm_image_id := 7 |}.

Lemma journal_roundtrip_witness :
  decode_packed (encode_packed demo_journal ++ zeros 3) = Ok demo_journal.
Proof. apply (journal_roundtrip demo_journal (zeros 3)). repeat split; vm_compute; congruence. Defined.
