(* ===== verification/Blobs.v ===== *)
(** * crates/kona/src/blobs.rs and crates/sync/src/blobs.rs

    Blobs as byte strings of field elements: reading the field elements of a
    blob, the blob provider preloaded from a witness, and the evaluation points
    at which single field elements of a blob are opened. *)

From Stdlib Require Import Zpow_facts Znumtheory.
From S2P Require Import Prelude Bytes.

(** Values of alloy's EIP-4844 constants. *)
Definition BLS_MODULUS : Z :=
  52435875175126190479447740508185965837690552500527637822603658699938581184513.
Definition FIELD_ELEMENTS_PER_BLOB : Z := 4096.

(** [kona_protocol::BlockInfo] and [IndexedBlobHash]. *)
Record BlockInfo := {
  bk_hash : Z; bk_number : Z; bk_parent_hash : Z; bk_timestamp : Z }.
Record IndexedBlobHash := { ibh_index : Z; ibh_hash : Z }.

Record BlobFetchRequest := { block_ref : BlockInfo; blob_hash : IndexedBlobHash }.

#[export] Instance block_info_eq_dec : EqDecision BlockInfo.
Proof. solve_decision. Defined.
#[export] Instance indexed_blob_hash_eq_dec : EqDecision IndexedBlobHash.
Proof. solve_decision. Defined.
#[export] Instance blob_fetch_request_eq_dec : EqDecision BlobFetchRequest.
Proof. solve_decision. Defined.

(** The operations of c-kzg and alloy on blobs, commitments and proofs. *)
Class Kzg := {
  blob_to_kzg_commitment : bytes -> outcome bytes;
  compute_blob_kzg_proof : bytes -> bytes -> outcome bytes;
  verify_blob_kzg_proof_batch : list bytes -> list bytes -> list bytes -> outcome bool;
  kzg_to_versioned_hash : bytes -> Z;
  blob_from_bytes : bytes -> outcome bytes;
  compute_kzg_proof : bytes -> bytes -> outcome (bytes * bytes);
  verify_kzg_proof : bytes -> bytes -> bytes -> bytes -> outcome bool;
}.

Record BlobWitnessData := {
  blobs : list bytes; commitments : list bytes; proofs : list bytes }.

Definition blob_witness_default : BlobWitnessData :=
  {| blobs := []; commitments := []; proofs := [] |}.

(** One round of the loop of [BlobWitnessData::from]. *)
Definition push_blob `{Kzg} (result : BlobWitnessData) (blob : bytes)
    : outcome BlobWitnessData :=
  commitment ← expect "Failed to convert blob to commitment" (blob_to_kzg_commitment blob);
  proof ← expect "compute_blob_kzg_proof" (compute_blob_kzg_proof blob commitment);
  Ok {| blobs := blobs result ++ [blob];
        commitments := commitments result ++ [commitment];
        proofs := proofs result ++ [proof] |}.

Definition blob_witness_from `{Kzg} (bs : list bytes) : outcome BlobWitnessData :=
  ofold push_blob blob_witness_default bs.

(** A provider's state is its vector of entries, popped from the end. *)
Abbreviation entries := (list (Z * bytes)).

Definition preloaded_from `{Kzg} (value : BlobWitnessData) : outcome entries :=
  verified ← expect "Failed to batch validate kzg proofs"
    (verify_blob_kzg_proof_batch (blobs value) (commitments value) (proofs value));
  _ ← assert_ verified "Blob KZG proof batch verification failed";
  let hashes := kzg_to_versioned_hash <$> commitments value in
  Ok (rev (zip hashes (blobs value))).

(** [get_blobs] of [PreloadedBlobProvider]: the entries after the call, also
    when it fails, and the blobs. *)
Fixpoint preloaded_get_blobs (es : entries) (hashes : list IndexedBlobHash)
    : entries * outcome (list bytes) :=
  match hashes with
  | [] => (es, Ok [])
  | hash :: hashes =>
      match vec_pop es with
      | None => (es, Panic "called `Option::unwrap()` on a `None` value")
      | Some ((h, blob), es) =>
          if ibh_hash hash =? h
          then let '(es, r) := preloaded_get_blobs es hashes in (es, cons blob <$> r)
          else (es, Err "Expected entry with hash")
      end
  end.

(** [32 * i .. 32 * i + 32] of the blob as a big-endian word below the modulus. *)
Definition field_element (blob : bytes) (i : nat) : outcome Z :=
  s ← slice blob (32 * i) (32 * i + 32);
  let fe := from_be_bytes s in
  if fe <? BLS_MODULUS then Ok fe else Err "Invalid field element".

Definition field_elements (blob : bytes) (iterator : list nat) : outcome (list Z) :=
  omap_m (field_element blob) iterator.

Definition intermediate_outputs (blob : bytes) (blocks : nat) : outcome (list Z) :=
  field_elements blob (seq 0 blocks).
Definition trail_data (blob : bytes) (blocks : nat) : outcome (list Z) :=
  field_elements blob (seq blocks (Z.to_nat FIELD_ELEMENTS_PER_BLOB - blocks)).

Definition hash_to_fe (hash : Z) : Z := hash `mod` BLS_MODULUS.

(** ** Opening one field element (crates/sync/src/blobs.rs) *)

Definition PRIMITIVE_ROOT_OF_UNITY : Z := 7.
Definition FE_ORDER_PO2 : Z := 12.

(** [u128::reverse_bits], bit by bit. *)
Fixpoint rev_bits (w : nat) (x : Z) : Z :=
  match w with
  | O => 0
  | S w => Z.shiftl (Z.b2z (Z.odd x)) (Z.of_nat w) + rev_bits w (Z.shiftr x 1)
  end.

Definition reverse_bits (index order_po2 : Z) : Z :=
  Z.shiftr (rev_bits 128 index) (128 - order_po2).

Definition pow_mod (b e m : Z) : Z := Zpow_mod b e m.

Definition root : Z :=
  pow_mod PRIMITIVE_ROOT_OF_UNITY ((BLS_MODULUS - 1) / FIELD_ELEMENTS_PER_BLOB) BLS_MODULUS.

Definition root_of_unity (index : Z) : Z :=
  pow_mod root (reverse_bits index FE_ORDER_PO2) BLS_MODULUS.

Definition blob_fe_proof `{Kzg} (blob : bytes) (index : Z) : outcome (bytes * bytes) :=
  let z := be_bytes 32 (root_of_unity index) in
  c_kzg_blob ← blob_from_bytes blob;
  '(proof, value) ← compute_kzg_proof c_kzg_blob z;
  commitment ← blob_to_kzg_commitment c_kzg_blob;
  ok ← verify_kzg_proof commitment z value proof;
  if (ok : bool) then Ok (proof, value) else Err "Generated invalid kzg proof.".

(** ** Lemmas: bit reversal and roots of unity *)

Lemma rev_bits_bound w x : in_width (Z.of_nat w) (rev_bits w x).
Proof.
  unfold in_width. revert x; induction w as [|w IH]; intros x; [cbn; lia|].
  cbn [rev_bits]. specialize (IH (Z.shiftr x 1)).
  rewrite Z.shiftl_mul_pow2 by lia. rewrite Nat2Z.inj_succ, Z.pow_succ_r by lia.
  destruct (Z.odd x); cbn [Z.b2z]; lia.
Qed.

Lemma rev_bits_add a b x :
  rev_bits (a + b) x = rev_bits a x * 2 ^ Z.of_nat b + rev_bits b (Z.shiftr x (Z.of_nat a)).
Proof.
  revert x; induction a as [|a IH]; intros x; [cbn; by rewrite Z.shiftr_0_r|].
  cbn [rev_bits Nat.add]. rewrite IH, !Z.shiftl_mul_pow2, Z.shiftr_shiftr by lia.
  replace (1 + Z.of_nat a) with (Z.of_nat (S a)) by lia.
  replace (Z.of_nat (a + b)) with (Z.of_nat a + Z.of_nat b) by lia.
  rewrite Z.pow_add_r by lia. ring.
Qed.

Lemma rev_bits_0 w : rev_bits w 0 = 0.
Proof. induction w as [|w IH]; [done|]. cbn [rev_bits]. rewrite Z.shiftr_0_l, IH. cbn. by rewrite Z.shiftl_0_l. Qed.

Lemma rev_bits_snoc w x :
  rev_bits (w + 1) x = 2 * rev_bits w x + Z.b2z (Z.odd (Z.shiftr x (Z.of_nat w))).
Proof. rewrite rev_bits_add. cbn. rewrite Z.shiftl_0_r. change (Z.pow_pos 2 1) with 2. lia. Qed.

Lemma rev_bits_involutive w x : in_width (Z.of_nat w) x -> rev_bits w (rev_bits w x) = x.
Proof.
  unfold in_width. revert x; induction w as [|w IH]; intros x Hx; [cbn in *; lia|].
  replace (S w) with (w + 1)%nat at 2 by lia. rewrite rev_bits_snoc. cbn [rev_bits].
  set (b := Z.odd (Z.shiftr x (Z.of_nat w))).
  assert (Hq : Z.shiftr x (Z.of_nat w) = Z.b2z b).
  { unfold b. rewrite Z.shiftr_div_pow2 by lia.
    rewrite Nat2Z.inj_succ, Z.pow_succ_r in Hx by lia.
    assert (0 <= x / 2 ^ Z.of_nat w < 2).
    { split; [apply Z.div_pos; lia | apply Z.div_lt_upper_bound; lia]. }
    assert (x / 2 ^ Z.of_nat w = 0 \/ x / 2 ^ Z.of_nat w = 1) as [-> | ->] by lia; done. }
  set (y := x `mod` 2 ^ Z.of_nat w).
  assert (Hy : rev_bits w x = rev_bits w y).
  { unfold y. clear. revert x; induction w as [|w IH]; intros x; [done|]. cbn [rev_bits].
    assert (Z.odd (x `mod` 2 ^ Z.of_nat (S w)) = Z.odd x) as ->.
    { rewrite <-!Z.bit0_odd. apply Z.mod_pow2_bits_low. lia. }
    f_equal. rewrite IH, (IH (Z.shiftr (_ `mod` _) _)). f_equal.
    apply Z.bits_inj'. intros i Hi.
    destruct (Z.lt_ge_cases i (Z.of_nat w)).
    - rewrite !Z.mod_pow2_bits_low, !Z.shiftr_spec, Z.mod_pow2_bits_low by lia. done.
    - by rewrite !Z.mod_pow2_bits_high by lia. }
  rewrite Hy. assert (Z.odd (2 * rev_bits w y + Z.b2z b) = b) as ->.
  { rewrite Z.add_comm, Z.odd_add_mul_2. by destruct b. }
  assert (Z.shiftr (2 * rev_bits w y + Z.b2z b) 1 = rev_bits w y) as ->.
  { rewrite Z.shiftr_div_pow2 by lia. rewrite Z.mul_comm, Z.div_add_l by lia.
    rewrite (Z.div_small (Z.b2z b)); [lia|]. destruct b; cbn; lia. }
  rewrite IH by (apply Z.mod_pos_bound; lia).
  rewrite (Z.shiftl_mul_pow2 _ (Z.of_nat w)), <-Hq, Z.shiftr_div_pow2 by lia. unfold y.
  rewrite Z.mul_comm. symmetry. apply Z.div_mod. lia.
Qed.

Lemma reverse_bits_12 x : 0 <= x < 4096 -> reverse_bits x FE_ORDER_PO2 = rev_bits 12 x.
Proof.
  intros Hx. unfold reverse_bits, FE_ORDER_PO2. change 128%nat with (12 + 116)%nat.
  rewrite rev_bits_add. rewrite (Z.shiftr_div_pow2 x) by lia.
  rewrite (Z.div_small x) by (cbn; lia). rewrite rev_bits_0, Z.add_0_r.
  rewrite Z.shiftr_div_pow2 by lia. apply Z.div_mul. lia.
Qed.

Lemma odd_part d : 0 < d -> exists k m, 0 <= k /\ d = 2 ^ k * m /\ Z.Odd m.
Proof.
  intros Hd. revert Hd. pattern d. apply (well_founded_ind (Z.lt_wf 0)). clear d.
  intros d IH Hd. destruct (Z.Even_or_Odd d) as [[c ->]|Ho].
  - destruct (IH c) as (k & m & ? & -> & ?); [lia|lia|].
    exists (k + 1), m. split_and!; [lia| |done]. rewrite Z.pow_add_r by lia. lia.
  - exists 0, d. split_and!; [lia|lia|done].
Qed.

Lemma pow_mod_spec b e : 0 <= e -> pow_mod b e BLS_MODULUS = b ^ e `mod` BLS_MODULUS.
Proof. intros. unfold pow_mod. apply Zpow_mod_correct; done. Qed.

Lemma root_order : root ^ 2048 `mod` BLS_MODULUS = BLS_MODULUS - 1.
Proof. rewrite <-pow_mod_spec by lia. vm_compute. reflexivity. Qed.

#[local] Opaque root.

Lemma root_pow_4096 : root ^ 4096 `mod` BLS_MODULUS = 1.
Proof.
  change 4096 with (2048 * 2). rewrite Z.pow_mul_r by lia.
  rewrite Zpower_mod, root_order by done. vm_compute. reflexivity.
Qed.

(** Exponents that send [root] to one are multiples of 4096. *)
Lemma root_pow_one d : 0 < d < 4096 -> root ^ d `mod` BLS_MODULUS <> 1.
Proof.
  intros Hd H1. destruct (odd_part d) as (k & m & Hk & Hdm & [c Hc]); [lia|].
  assert (0 < 2 ^ k) by (apply Z.pow_pos_nonneg; lia).
  assert (Hm : 0 <= c) by nia.
  assert (Hk11 : k <= 11).
  { destruct (Z.le_gt_cases k 11); [done|]. exfalso.
    pose proof (Z.pow_le_mono_r 2 12 k ltac:(lia) ltac:(lia)) as Hp.
    change (2 ^ 12) with 4096 in Hp. nia. }
  assert (E : root ^ (2048 * m) `mod` BLS_MODULUS = 1).
  { replace (2048 * m) with (d * 2 ^ (11 - k)).
    - rewrite Z.pow_mul_r by (try apply Z.pow_nonneg; lia).
      rewrite Zpower_mod by done. rewrite H1, Z.pow_1_l by (apply Z.pow_nonneg; lia). done.
    - rewrite Hdm. replace 2048 with (2 ^ k * 2 ^ (11 - k)); [ring|].
      rewrite <-Z.pow_add_r by lia. by replace (k + (11 - k)) with 11 by lia. }
  rewrite Z.pow_mul_r in E by lia. rewrite Zpower_mod, root_order in E by done.
  rewrite Hc, Z.pow_add_r, Z.pow_1_r, Z.pow_mul_r in E by lia.
  rewrite Zmult_mod, (Zpower_mod (_ ^ 2)) in E by done.
  replace ((BLS_MODULUS - 1) ^ 2 `mod` BLS_MODULUS) with 1 in E by reflexivity.
  rewrite Z.pow_1_l in E by lia. vm_compute in E. discriminate E.
Qed.

Lemma root_pow_inj a b :
  0 <= a < 4096 -> 0 <= b < 4096 ->
  root ^ a `mod` BLS_MODULUS = root ^ b `mod` BLS_MODULUS -> a = b.
Proof.
  assert (W : forall a b, 0 <= a -> a < b -> b < 4096 ->
    root ^ a `mod` BLS_MODULUS <> root ^ b `mod` BLS_MODULUS).
  { clear a b. intros a b Ha Hab Hb E. apply (root_pow_one (b - a)); [lia|].
    transitivity ((root ^ b * root ^ (4096 - a)) `mod` BLS_MODULUS).
    - rewrite <-Z.pow_add_r by lia. replace (b + (4096 - a)) with (4096 + (b - a)) by lia.
      rewrite Z.pow_add_r, Zmult_mod, root_pow_4096, Z.mul_1_l, Zmod_mod by lia. done.
    - rewrite Zmult_mod, <-E, <-Zmult_mod, <-Z.pow_add_r by lia.
      replace (a + (4096 - a)) with 4096 by lia. apply root_pow_4096. }
  intros Ha Hb E. destruct (Z.lt_trichotomy a b) as [?|[?|?]]; [|done|]; exfalso.
  - eapply (W a b); [lia..|done].
  - eapply (W b a); [lia..|done].
Qed.

(** ** Lemmas: field elements *)

(** The bytes of the i-th field element. *)
Definition fe_bytes (blob : bytes) (i : nat) : bytes := take 32 (drop (32 * i) blob).

(** The blob that holds the given field elements. *)
Definition blob_of (fes : list Z) : bytes := concat (be_bytes 32 <$> fes).

Lemma field_element_spec blob i :
  field_element blob i =
    if bool_decide (32 * i + 32 ≤ length blob)%nat
    then if from_be_bytes (fe_bytes blob i) <? BLS_MODULUS
         then Ok (from_be_bytes (fe_bytes blob i)) else Err "Invalid field element"
    else Panic "range out of bounds".
Proof.
  unfold field_element, slice, fe_bytes. rewrite bool_decide_true by lia. cbn [andb].
  case_bool_decide; [|done]. cbn [mbind outcome_bind].
  by replace (32 * i + 32 - 32 * i)%nat with 32%nat by lia.
Qed.

Lemma length_blob_of fes : length (blob_of fes) = (32 * length fes)%nat.
Proof.
  unfold blob_of. induction fes as [|x fes IH]; [done|].
  cbn [fmap list_fmap concat]. rewrite length_app, length_be_bytes, IH. cbn. lia.
Qed.

Lemma fe_bytes_blob_of fes i fe :
  fes !! i = Some fe -> fe_bytes (blob_of fes) i = be_bytes 32 fe.
Proof.
  intros Hi. rewrite <-(take_drop_middle _ _ _ Hi) at 1. unfold blob_of, fe_bytes.
  rewrite fmap_app, concat_app. cbn [fmap list_fmap concat].
  apply take_drop_app_mid; [|by rewrite length_be_bytes].
  change (concat (be_bytes 32 <$> take i fes)) with (blob_of (take i fes)).
  rewrite length_blob_of, length_take. apply lookup_lt_Some in Hi. lia.
Qed.

Lemma field_elements_blob_of fes a n :
  (a + n ≤ length fes)%nat -> Forall (fun x => 0 <= x < BLS_MODULUS) fes ->
  field_elements (blob_of fes) (seq a n) = Ok (take n (drop a fes)).
Proof.
  intros Hlen Hfes. apply omap_m_Ok. apply Forall2_same_length_lookup_2.
  { rewrite length_seq, length_take, length_drop. lia. }
  intros k i fe Hk Hfe. apply lookup_seq in Hk as [-> ?].
  rewrite lookup_take_lt, lookup_drop in Hfe by lia.
  rewrite field_element_spec, length_blob_of, bool_decide_true by lia.
  rewrite (fe_bytes_blob_of _ _ _ Hfe).
  pose proof (proj1 (Forall_lookup _ _) Hfes _ _ Hfe) as Hb. cbv beta in Hb.
  rewrite from_be_be; [by rewrite (proj2 (Z.ltb_lt _ _)) by lia|].
  unfold in_width. assert (BLS_MODULUS < 2 ^ (8 * Z.of_nat 32)) by reflexivity. lia.
Qed.

Lemma hash_to_fe_bound h : 0 <= hash_to_fe h < BLS_MODULUS.
Proof. unfold hash_to_fe. by apply Z.mod_pos_bound. Qed.

Lemma hash_to_fe_width h : b256 (hash_to_fe h).
Proof. pose proof (hash_to_fe_bound h). unfold in_width. assert (BLS_MODULUS < 2 ^ 256) by done. lia. Qed.

Lemma hash_to_fe_idem h : hash_to_fe (hash_to_fe h) = hash_to_fe h.
Proof. unfold hash_to_fe. by apply Zmod_mod. Qed.

(** ** Lemmas: openings *)

(** A proof that opens a blob at its [idx]-th element, that is, at the power of
    the root of unity whose exponent has the 12 bits of the index reversed; the
    library accepts it for the blob's own commitment. *)
Definition opened_at `{Kzg} (blob : bytes) (idx : Z) (proof : bytes) : Prop :=
  exists c_kzg_blob value commitment,
    let z := be_bytes 32 (pow_mod root (rev_bits 12 idx) BLS_MODULUS) in
    blob_from_bytes blob = Ok c_kzg_blob /\ compute_kzg_proof c_kzg_blob z = Ok (proof, value) /\
    blob_to_kzg_commitment c_kzg_blob = Ok commitment /\ verify_kzg_proof commitment z value proof = Ok true.

Lemma blob_fe_proof_opened `{Kzg} blob idx proof :
  0 <= idx < 4096 -> (exists value, blob_fe_proof blob idx = Ok (proof, value)) <-> opened_at blob idx proof.
Proof.
  intros Hi. unfold blob_fe_proof, opened_at, root_of_unity. rewrite reverse_bits_12 by done. split.
  - intros [value Hp]. ok_inv. destruct x0 as [w v]. ok_inv. destruct x1; [|done].
    apply Ok_inj in Hp. simplify_eq. eauto 10.
  - intros (b & value & c & Hb & Hw & Hc & Hv). exists value.
    rewrite Hb. cbn [mbind outcome_bind]. rewrite Hw. cbn [mbind outcome_bind]. rewrite Hc.
    cbn [mbind outcome_bind]. by rewrite Hv.
Qed.

(** ** Lemmas: the preloaded provider *)

Lemma preloaded_get_blobs_prefix l hashes es bs :
  preloaded_get_blobs (rev l) hashes = (es, Ok bs) ->
  exists pre post, l = pre ++ post /\ es = rev post /\
    pre.*1 = ibh_hash <$> hashes /\ pre.*2 = bs.
Proof.
  revert l es bs; induction hashes as [|h hashes IH]; cbn; intros l es bs.
  - intros [= <- <-]. by exists [], l.
  - destruct (vec_pop (rev l)) as [[[h' blob] r]|] eqn:Ep; [|done].
    apply vec_pop_Some in Ep. apply (f_equal (@rev _)) in Ep.
    rewrite rev_involutive, rev_app_distr in Ep. cbn in Ep. subst l.
    destruct (ibh_hash h =? h') eqn:Eh; [|done]. apply Z.eqb_eq in Eh.
    rewrite <-(rev_involutive r).
    destruct (preloaded_get_blobs (rev (rev r)) hashes) as [es' o] eqn:Er.
    intros [= <- Ho]. destruct o; cbn in Ho; simplify_eq.
    destruct (IH _ _ _ Er) as (pre & post & Hl & -> & H1 & H2).
    exists ((ibh_hash h, blob) :: pre), post.
    split_and!; [by rewrite rev_involutive, Hl | done | by cbn; f_equal | by cbn; f_equal].
Qed.

Lemma preloaded_get_blobs_all l :
  forall hashes, l.*1 = ibh_hash <$> hashes ->
  preloaded_get_blobs (rev l) hashes = ([], Ok l.*2).
Proof.
  induction l as [|[h b] l IH]; intros [|ih hashes] Hl; try done. cbn in Hl. simplify_eq.
  cbn [preloaded_get_blobs rev]. rewrite vec_pop_snoc. rewrite Z.eqb_refl.
  by rewrite IH.
Qed.

Lemma blob_witness_from_spec `{Kzg} bs w :
  blob_witness_from bs = Ok w ->
  blobs w = bs /\ length (commitments w) = length bs /\ length (proofs w) = length bs /\
  Forall2 (fun b c => blob_to_kzg_commitment b = Ok c) bs (commitments w).
Proof.
  unfold blob_witness_from.
  assert (G : forall r, ofold push_blob r bs = Ok w ->
    exists cs ps, blobs w = blobs r ++ bs /\ commitments w = commitments r ++ cs /\
      proofs w = proofs r ++ ps /\ length ps = length bs /\
      Forall2 (fun b c => blob_to_kzg_commitment b = Ok c) bs cs).
  { induction bs as [|b bs IH]; cbn; intros r E.
    - ok_inv. exists [], []. by rewrite !app_nil_r.
    - unfold push_blob in E. ok_inv.
      destruct (IH _ E) as (cs & ps & H1 & H2 & H3 & H4 & H5). cbn in *.
      exists (x0 :: cs), (x1 :: ps). rewrite <-!app_assoc in *. cbn in *.
      split_and!; auto. }
  intros E. destruct (G _ E) as (cs & ps & -> & -> & -> & Hps & Hcs). cbn.
  apply Forall2_length in Hcs as Hl. split_and!; [done|by rewrite Hl|done|done].
Qed.

(** ** Properties *)

(** Reading field elements of a blob: on success every element is the
    big-endian value of its 32 bytes and below the BLS modulus; an error comes
    from the first requested element at or above the modulus; an element that
    reaches past the end of the blob makes the call panic. *)
Theorem field_elements_spec blob idx :
  match field_elements blob idx with
  | Ok fes => Forall2 (fun i fe => (32 * i + 32 ≤ length blob)%nat /\
      fe = from_be_bytes (fe_bytes blob i) /\ 0 <= fe < BLS_MODULUS) idx fes
  | Err _ => exists pre i post, idx = pre ++ i :: post /\ is_ok (field_elements blob pre) /\
      (32 * i + 32 ≤ length blob)%nat /\ BLS_MODULUS <= from_be_bytes (fe_bytes blob i)
  | Panic _ => exists pre i post, idx = pre ++ i :: post /\ is_ok (field_elements blob pre) /\
      (length blob < 32 * i + 32)%nat
  end.
Proof.
  unfold field_elements. pose proof (omap_m_fail (field_element blob) idx) as F.
  destruct (omap_m _ idx) as [fes|e|w].
  - revert F. apply Forall2_impl. intros i fe. cbn. rewrite field_element_spec.
    case_bool_decide; [|done]. destruct (_ <? _) eqn:E; [|done]. intros ?%Ok_inj; subst.
    apply Z.ltb_lt in E. split_and!; try done. apply from_be_bytes_bound.
  - destruct F as (pre & i & post & ys & -> & Hpre%omap_m_Ok & Hi). exists pre, i, post.
    rewrite Hpre. rewrite field_element_spec in Hi. case_bool_decide; [|done].
    destruct (_ <? _) eqn:E; [done|]. by apply Z.ltb_ge in E.
  - destruct F as (pre & i & post & ys & -> & Hpre%omap_m_Ok & Hi). exists pre, i, post.
    rewrite Hpre. rewrite field_element_spec in Hi. case_bool_decide; [|split_and!; [done..|lia]].
    by destruct (_ <? _).
Qed.

(** The blobs of a witness are served exactly once, in order: whatever a
    provider preloaded from a witness returns for a list of requested hashes is
    a prefix of the witness' blobs, the KZG batch verification accepted the
    witness, each blob's commitment hashes to the requested versioned hash, and
    the provider left behind serves the remaining blobs. *)
Theorem preloaded_provider_sound `{Kzg} w es hashes es' bs :
  preloaded_from w = Ok es ->
  length (commitments w) = length (blobs w) ->
  preloaded_get_blobs es hashes = (es', Ok bs) ->
  verify_blob_kzg_proof_batch (blobs w) (commitments w) (proofs w) = Ok true /\
  bs = take (length hashes) (blobs w) /\
  ibh_hash <$> hashes = kzg_to_versioned_hash <$> take (length hashes) (commitments w) /\
  es' = rev (zip (kzg_to_versioned_hash <$> drop (length hashes) (commitments w))
                 (drop (length hashes) (blobs w))).
Proof.
  unfold preloaded_from. intros Hes Hlen Hget. ok_inv. subst.
  apply preloaded_get_blobs_prefix in Hget as (pre & post & Hz & -> & H1 & H2).
  assert (Hl : length pre = length hashes) by (rewrite <-(length_fmap fst), H1, length_fmap; done).
  set (hs := kzg_to_versioned_hash <$> commitments w) in *.
  assert (Hh : hs = pre.*1 ++ post.*1).
  { rewrite <-fmap_app, <-Hz, fst_zip; [done|]. unfold hs. rewrite length_fmap. lia. }
  assert (Hb : blobs w = pre.*2 ++ post.*2).
  { rewrite <-fmap_app, <-Hz, snd_zip; [done|]. unfold hs. rewrite length_fmap. lia. }
  split; [exact E|]. rewrite Hb, <-Hl, <-H2, !fmap_take, !fmap_drop. fold hs. rewrite Hh.
  rewrite <-(length_fmap snd pre) at 1 4. rewrite <-(length_fmap fst pre), !take_app_length.
  rewrite <-H1, !drop_app_length. rewrite zip_fst_snd. done.
Qed.

(** Preloading the witness made from some blobs succeeds and serves exactly
    those blobs, in order, under the versioned hashes of their commitments,
    given that KZG proofs made for blobs verify in a batch. *)
Theorem preloaded_roundtrip `{Kzg} bs w hashes :
  (forall bs w, blob_witness_from bs = Ok w ->
     verify_blob_kzg_proof_batch (blobs w) (commitments w) (proofs w) = Ok true) ->
  blob_witness_from bs = Ok w ->
  Forall2 (fun b ih => exists c, blob_to_kzg_commitment b = Ok c /\
     ibh_hash ih = kzg_to_versioned_hash c) bs hashes ->
  exists es, preloaded_from w = Ok es /\ preloaded_get_blobs es hashes = ([], Ok bs).
Proof.
  intros Hcomplete Hw Hh. pose proof (Hcomplete _ _ Hw) as Hv.
  apply blob_witness_from_spec in Hw as (Hb & Hc & _ & Hcs).
  unfold preloaded_from. rewrite Hv. cbn. eexists; split; [done|]. rewrite Hb.
  assert (E : kzg_to_versioned_hash <$> commitments w = ibh_hash <$> hashes).
  { clear -Hcs Hh. revert hashes Hh. induction Hcs as [|b c bs cs Hbc Hcs IH]; intros hashes Hh.
    - by inversion Hh.
    - inversion Hh as [|? ih ? hs (c' & ? & Hi) ?]; subst. cbn. rewrite Hi.
      f_equal; [congruence|auto]. }
  rewrite preloaded_get_blobs_all.
  - rewrite snd_zip; [done|]. rewrite length_fmap. lia.
  - rewrite fst_zip; [done|]. rewrite length_fmap. lia.
Qed.

(** The points at which [blob_fe_proof] opens a blob: for indices below
    4096, [root_of_unity] is a 4096-th root of unity modulo the BLS modulus,
    and different indices have different roots, so that one opening never
    stands for two field elements. *)
Theorem root_of_unity_distinct i j :
  0 <= i < FIELD_ELEMENTS_PER_BLOB -> 0 <= j < FIELD_ELEMENTS_PER_BLOB ->
  pow_mod (root_of_unity i) FIELD_ELEMENTS_PER_BLOB BLS_MODULUS = 1 /\
  (root_of_unity i = root_of_unity j -> i = j).
Proof.
  unfold FIELD_ELEMENTS_PER_BLOB. intros Hi Hj. unfold root_of_unity.
  rewrite !reverse_bits_12 by done.
  pose proof (rev_bits_bound 12 i) as [? Bi]. pose proof (rev_bits_bound 12 j) as [? Bj].
  change (2 ^ Z.of_nat 12) with 4096 in *. rewrite !pow_mod_spec by lia. split.
  - rewrite <-Zpower_mod by done. rewrite <-Z.pow_mul_r, Z.mul_comm, Z.pow_mul_r by lia.
    rewrite Zpower_mod, root_pow_4096, Z.pow_1_l by done. reflexivity.
  - intros E%root_pow_inj; [|lia..].
    rewrite <-(rev_bits_involutive 12 i), <-(rev_bits_involutive 12 j), E by done. done.
Qed.

(** ** Witnesses *)

(** A scheme in which a blob is its own commitment. *)
Definition demo_kzg : Kzg := {|
  blob_to_kzg_commitment := Ok;
  compute_blob_kzg_proof := fun _ _ => Ok [];
  verify_blob_kzg_proof_batch := fun bs cs _ => Ok (bool_decide (bs = cs));
  kzg_to_versioned_hash := from_be_bytes;
  blob_from_bytes := Ok;
  compute_kzg_proof := fun _ z => Ok ([], z);
  verify_kzg_proof := fun _ _ _ _ => Ok true |}.

Lemma demo_kzg_complete bs w :
  @blob_witness_from demo_kzg bs = Ok w ->
  @verify_blob_kzg_proof_batch demo_kzg (blobs w) (commitments w) (proofs w) = Ok true.
Proof.
  intros (Hb & _ & _ & Hc)%(@blob_witness_from_spec demo_kzg).
  cbn in *. f_equal. apply bool_decide_eq_true. rewrite Hb.
  clear Hb. induction Hc; [done|]. naive_solver congruence.
Qed.

Definition demo_blobs : list bytes := [zeros 2; be_bytes 2 5].
Definition demo_witness_data : BlobWitnessData :=
  {| blobs := demo_blobs; commitments := demo_blobs; proofs := [[]; []] |}.
Definition demo_hashes : list IndexedBlobHash :=
  [{| ibh_index := 0; ibh_hash := 0 |}; {| ibh_index := 1; ibh_hash := 5 |}].

Lemma preloaded_provider_sound_witness :
  @verify_blob_kzg_proof_batch demo_kzg demo_blobs demo_blobs [[]; []] = Ok true /\
  [zeros 2] = take 1 demo_blobs /\
  ibh_hash <$> take 1 demo_hashes = from_be_bytes <$> take 1 demo_blobs /\
  [(5, be_bytes 2 5)] = rev (zip (from_be_bytes <$> drop 1 demo_blobs) (drop 1 demo_blobs)).
Proof.
  apply (@preloaded_provider_sound demo_kzg demo_witness_data
    [(5, be_bytes 2 5); (0, zeros 2)] (take 1 demo_hashes)); vm_compute; reflexivity.
Defined.

Lemma preloaded_roundtrip_witness :
  exists es, @preloaded_from demo_kzg demo_witness_data = Ok es /\
    preloaded_get_blobs es demo_hashes = ([], Ok demo_blobs).
Proof.
  apply (@preloaded_roundtrip demo_kzg); [exact demo_kzg_complete | vm_compute; reflexivity |].
  repeat constructor; eexists; (split; [reflexivity | vm_compute; reflexivity]).
Defined.

Lemma root_of_unity_distinct_witness :
  pow_mod (root_of_unity 3) FIELD_ELEMENTS_PER_BLOB BLS_MODULUS = 1 /\
  (root_of_unity 3 = root_of_unity 5 -> 3 = 5).
Proof. apply (root_of_unity_distinct 3 5); unfold FIELD_ELEMENTS_PER_BLOB; lia. Defined.
