(* ===== verification/Precondition.v ===== *)
(** * crates/kona/src/precondition.rs

    The precondition of a validity proof: the intermediate output roots of a
    proposal were published in blobs, one field element for every
    [output_block_span] blocks, and the proof checks the ones it derives. *)

From S2P Require Import Prelude Bytes Blobs.

Inductive PreconditionValidationData :=
| Validity (proposal_l2_head_number proposal_output_count output_block_span : Z)
    (blob_hashes : list BlobFetchRequest).

#[export] Instance precondition_validation_data_eq_dec : EqDecision PreconditionValidationData.
Proof. solve_decision. Defined.

(** [kona_preimage]'s keys.  The type is the key's first byte on the wire. *)
Inductive PreimageKeyType := Local | Keccak256 | GlobalGeneric | Sha256 | BlobKey | Precompile.
#[export] Instance preimage_key_type_eq_dec : EqDecision PreimageKeyType.
Proof. solve_decision. Defined.
Record PreimageKey := { key_data : Z; key_type : PreimageKeyType }.
#[export] Instance preimage_key_eq_dec : EqDecision PreimageKey.
Proof. solve_decision. Defined.

(** [PreimageKey::new]: a key of the given type made from a 32-byte value. *)
Class PreimageKeys := {
  key_new : Z -> PreimageKeyType -> PreimageKey;
  key_new_type : forall v t, key_type (key_new v t) = t;
}.

(** What a client program asks of its environment: preimages from an oracle
    ([CommsClient]) and blobs from a beacon ([BlobProvider]); both keep a state
    of their own inside [S]. *)
Class Environment (S : Type) := {
  oracle_get : PreimageKey -> St S bytes;
  beacon_get_blobs : BlockInfo -> list IndexedBlobHash -> St S (list bytes);
}.

(** The [pot] serialization of the precondition data. *)
Class Pot := {
  pot_to_vec : PreconditionValidationData -> outcome bytes;
  pot_from_slice : bytes -> outcome PreconditionValidationData;
}.

Definition blob_fetch_requests (d : PreconditionValidationData) : list BlobFetchRequest :=
  match d with Validity _ _ _ requests => requests end.

Section precondition.
Context `{Digests}.

Definition to_vec `{Pot} (d : PreconditionValidationData) : outcome bytes :=
  expect "pot::to_vec" (pot_to_vec d).

Definition precondition_data_hash `{Pot} (d : PreconditionValidationData) : outcome Z :=
  v ← to_vec d; Ok (sha256 v).

Definition blobs_hash (blob_hashes : list Z) : Z :=
  sha256 (concat (b256_bytes <$> blob_hashes)).

Definition request_hashes (rs : list BlobFetchRequest) : list Z :=
  (fun b => ibh_hash (blob_hash b)) <$> rs.

Definition pvd_blobs_hash (d : PreconditionValidationData) : Z :=
  blobs_hash (request_hashes (blob_fetch_requests d)).

Definition validity_precondition_hash
    (proposal_l2_head_number proposal_output_count output_block_span blobs_hash : Z) : Z :=
  sha256 (concat [be_bytes 8 proposal_l2_head_number; be_bytes 8 proposal_output_count;
                  be_bytes 8 output_block_span; b256_bytes blobs_hash]).

Definition pvd_precondition_hash (d : PreconditionValidationData) : Z :=
  match d with
  | Validity proposal_l2_head_number proposal_output_count output_block_span blobs =>
      validity_precondition_hash proposal_l2_head_number proposal_output_count
        output_block_span (blobs_hash (request_hashes blobs))
  end.

(** The loop of [load_precondition_data] over the fetch requests. *)
Fixpoint fetch_blobs {S} `{Environment S} (requests : list BlobFetchRequest)
    (blobs : list bytes) : St S (list bytes) :=
  match requests with
  | [] => mret blobs
  | request :: requests =>
      bs ← expect_st "get_blobs" (beacon_get_blobs (block_ref request) [blob_hash request]);
      b ← lift (index bs 0);
      fetch_blobs requests (blobs ++ [b])
  end.

Definition load_precondition_data {S} `{Environment S} `{Pot} `{PreimageKeys} (data_hash : Z)
    : St S (option (PreconditionValidationData * list bytes)) :=
  if data_hash =? 0 then mret None
  else
    slice ← oracle_get (key_new data_hash Sha256);
    data ← lift (pot_from_slice slice);
    blobs ← fetch_blobs (blob_fetch_requests data) [];
    mret (Some (data, blobs)).

(** The comparison of one published field element ([Ordering::Less]). *)
Definition check_field_element (blobs : list bytes) (blob_index blob_fe_index : nat)
    (output_hash : Z) : outcome unit :=
  blob ← index blobs blob_index;
  blob_fe_slice ← slice blob blob_fe_index (blob_fe_index + 32);
  let output_fe_bytes := be_bytes 32 (hash_to_fe output_hash) in
  if bool_decide (blob_fe_slice = output_fe_bytes) then Ok tt else Err "Bad fe".

(** The check of the last output ([Ordering::Equal]). *)
Definition check_trail (t : target) (proposal_output_count : Z) (blobs : list bytes)
    (blob_index blob_fe_index : nat) : outcome unit :=
  if 1 <? proposal_output_count then
    last ← arith t (usize_bits t) (Z.of_nat (length blobs) - 1);
    if negb (Z.of_nat blob_index =? last) then Err "Expected trail data to begin at blob"
    else
      blob ← index blobs blob_index;
      trail ← slice blob blob_fe_index (length blob);
      if existsb (fun b => negb (bool_decide (b = Byte.x00))) trail
      then Err "Found non-zero trail data in blob" else Ok tt
  else Ok tt.

(** One round of the loop of [validate_precondition]. *)
Definition check_output (t : target) (l2_head count span claim_number : Z)
    (blobs : list bytes) (proof_l2_head_number i output_hash : Z) : outcome unit :=
  n ← u64_add t proof_l2_head_number i;
  output_block_number ← u64_add t n 1;
  if claim_number <? output_block_number then Err "Output block > max block"
  else
    offset ← u64_sub t output_block_number l2_head;
    r ← u64_rem offset span;
    if negb (r =? 0) then Ok tt
    else
      q ← u64_div offset span;
      intermediate_output_offset ← u64_sub t q 1;
      let blob_index := Z.to_nat (as_usize t (intermediate_output_offset / FIELD_ELEMENTS_PER_BLOB)) in
      let fe_position := Z.to_nat (as_usize t (intermediate_output_offset `mod` FIELD_ELEMENTS_PER_BLOB)) in
      let blob_fe_index := (32 * fe_position)%nat in
      last ← u64_sub t count 1;
      match intermediate_output_offset ?= last with
      | Lt => check_field_element blobs blob_index blob_fe_index output_hash
      | Eq => check_trail t count blobs blob_index blob_fe_index
      | Gt => Panic "Output offset > output count"
      end.

Fixpoint check_outputs (t : target) (l2_head count span claim_number : Z)
    (blobs : list bytes) (proof_l2_head_number i : Z) (output_roots : list Z) : outcome unit :=
  match output_roots with
  | [] => Ok tt
  | output_hash :: rest =>
      _ ← check_output t l2_head count span claim_number blobs proof_l2_head_number i output_hash;
      check_outputs t l2_head count span claim_number blobs proof_l2_head_number (i + 1) rest
  end.

Definition validate_precondition (t : target) (d : PreconditionValidationData)
    (blobs : list bytes) (proof_l2_head_number : Z) (output_roots : list Z) : outcome Z :=
  let precondition_hash := pvd_precondition_hash d in
  match d with
  | Validity l2_head count span _ =>
      size ← u64_mul t count span;
      claim_number ← u64_add t l2_head size;
      if proof_l2_head_number <? l2_head
      then Err "Validity precondition proposal starting block > proof agreed l2 head"
      else if claim_number <? proof_l2_head_number
      then Err "Validity precondition proposal ending block < proof agreed l2 head"
      else if bool_decide (output_roots = []) then Ok precondition_hash
      else
        _ ← check_outputs t l2_head count span claim_number blobs proof_l2_head_number 0 output_roots;
        Ok precondition_hash
  end.
End precondition.

(** ** The specification of a validated precondition *)

(** What a validated precondition says of the output root of block [n]: it is
    the [j]-th published output of the proposal, or not a published one. *)
Definition output_published (l2_head count span : Z) (blobs : list bytes)
    (n output_hash : Z) : Prop :=
  forall j, n = l2_head + (j + 1) * span ->
  (j < count - 1 -> exists blob, blobs !! Z.to_nat (j / FIELD_ELEMENTS_PER_BLOB) = Some blob /\
     fe_bytes blob (Z.to_nat (j `mod` FIELD_ELEMENTS_PER_BLOB)) =
       be_bytes 32 (hash_to_fe output_hash)) /\
  (j = count - 1 -> 1 < count ->
     j / FIELD_ELEMENTS_PER_BLOB = Z.of_nat (length blobs) - 1 /\
     exists blob, blobs !! Z.to_nat (j / FIELD_ELEMENTS_PER_BLOB) = Some blob /\
       Forall (fun b => b = Byte.x00)
         (drop (32 * Z.to_nat (j `mod` FIELD_ELEMENTS_PER_BLOB)) blob)).

(** The arithmetic of the call stays within 64 bits, and the blob index within
    a [usize]. *)
Definition no_overflow (t : target) (l2_head count span proof_head len : Z) : Prop :=
  0 <= l2_head /\ 0 <= count <= FIELD_ELEMENTS_PER_BLOB * 2 ^ usize_bits t /\ 0 <= span /\
  l2_head + count * span < 2 ^ 64 /\ 0 <= proof_head /\ proof_head + len < 2 ^ 64 /\
  32 <= usize_bits t.

(** Blobs have 4096 field elements of 32 bytes. *)
Definition blob_sized (b : bytes) : Prop :=
  length b = (32 * Z.to_nat FIELD_ELEMENTS_PER_BLOB)%nat.

(** ** Lemmas *)

Lemma check_field_element_spec blobs k i h blob :
  blobs !! k = Some blob -> (32 * i + 32 ≤ length blob)%nat ->
  check_field_element blobs k (32 * i) h =
    if bool_decide (fe_bytes blob i = be_bytes 32 (hash_to_fe h)) then Ok tt else Err "Bad fe".
Proof.
  intros Hb Hi. unfold check_field_element, index. rewrite Hb. cbn [mbind outcome_bind unwrap].
  unfold slice. rewrite !bool_decide_true by lia. cbn [andb mbind outcome_bind].
  by replace (32 * i + 32 - 32 * i)%nat with 32%nat by lia.
Qed.

Lemma nonzero_existsb l :
  existsb (fun b => negb (bool_decide (b = Byte.x00))) l = false <-> Forall (fun b => b = Byte.x00) l.
Proof.
  induction l as [|b l IH]; cbn [existsb]; [by split|].
  case_bool_decide; cbn [negb orb].
  - rewrite IH. split; [by constructor | by inversion 1].
  - split; [done | by inversion 1].
Qed.

(** The position of a block that carries a published output. *)
Lemma published_position l2_head span n :
  l2_head < n -> 0 < span -> (n - l2_head) `mod` span = 0 ->
  let j := (n - l2_head) / span - 1 in
  n = l2_head + (j + 1) * span /\ 0 <= j /\
  forall j', n = l2_head + (j' + 1) * span -> j' = j.
Proof.
  intros Hn Hs Hm j. pose proof (Z.div_mod (n - l2_head) span) as Hd.
  rewrite Hm in Hd. assert (n = l2_head + (j + 1) * span) as Hj by (unfold j; lia).
  split_and!; [done|nia|]. intros j' Hj'. nia.
Qed.

Lemma unpublished_position l2_head count span blobs n h :
  0 < span -> (n - l2_head) `mod` span <> 0 ->
  output_published l2_head count span blobs n h.
Proof.
  intros Hs Hm j Hn. destruct Hm. replace (n - l2_head) with ((j + 1) * span) by lia.
  apply Z.mod_mul. lia.
Qed.

(** The trail check of the last output: it never panics when the blob is
    there, and succeeds exactly when the trail is where the specification says. *)
Lemma check_trail_spec t count blobs j :
  32 <= usize_bits t -> Z.of_nat (length blobs) < 2 ^ usize_bits t -> 0 <= j ->
  Forall blob_sized blobs ->
  let k := Z.to_nat (j / FIELD_ELEMENTS_PER_BLOB) in
  let i := Z.to_nat (j `mod` FIELD_ELEMENTS_PER_BLOB) in
  let o := check_trail t count blobs k (32 * i) in
  ((1 < count -> (k < length blobs)%nat) -> is_panic o = false) /\
  (o = Ok tt <-> (1 < count ->
     j / FIELD_ELEMENTS_PER_BLOB = Z.of_nat (length blobs) - 1 /\
     exists blob, blobs !! k = Some blob /\
       Forall (fun b => b = Byte.x00) (drop (32 * i) blob))).
Proof.
  intros Hb Hl Hj Hs k i. unfold check_trail.
  destruct (1 <? count) eqn:Hc; bools; [|cbn; split; [done|naive_solver lia]].
  assert (0 <= j / FIELD_ELEMENTS_PER_BLOB) by (apply Z.div_pos; [lia|done]).
  destruct (lookup_lt_is_Some blobs k) as [_ Hsome].
  destruct (blobs !! k) as [blob|] eqn:Hblob.
  - pose proof (lookup_lt_Some _ _ _ Hblob).
    rewrite arith_fits by (unfold in_width; lia). cbn [mbind outcome_bind].
    assert (Z.of_nat k = j / FIELD_ELEMENTS_PER_BLOB) as -> by (unfold k; lia).
    destruct (_ =? _) eqn:E; bools; cbn [negb]; [|cbn; naive_solver].
    unfold index. rewrite Hblob. cbn [mbind outcome_bind unwrap].
    assert (Hi : (i < Z.to_nat FIELD_ELEMENTS_PER_BLOB)%nat).
    { unfold i. pose proof (Z.mod_pos_bound j FIELD_ELEMENTS_PER_BLOB eq_refl). lia. }
    pose proof (proj1 (Forall_lookup _ _) Hs _ _ Hblob) as Hsz. unfold blob_sized in Hsz.
    unfold slice. rewrite !bool_decide_true by lia. cbn [andb mbind outcome_bind].
    rewrite (firstn_all2 (drop _ _)) by (rewrite length_drop; lia).
    pose proof (nonzero_existsb (drop (32 * i) blob)) as Hz.
    destruct (existsb _ _); cbn; (split; [done|]); (split; [try done|]).
    + intros F. destruct F as (_ & b & ? & Hf); [lia|]. simplify_eq. by apply Hz in Hf.
    + intros _ _. split; [done|]. exists blob. split; [done|by apply Hz].
    + done.
  - split; [intros F; destruct (Hsome (F Hc)); congruence|].
    split; [|intros F; destruct (F Hc) as (_ & b & Hb' & _); congruence].
    intros o. exfalso. ok_inv. destruct (negb _); [done|]. unfold index in o.
    rewrite Hblob in o. done.
Qed.

Section check_output.
Context (t : target) (l2_head count span proof_head len : Z) (blobs : list bytes).
Hypothesis Hno : no_overflow t l2_head count span proof_head len.
Hypothesis Hle : l2_head <= proof_head.
Hypothesis Hsized : Forall blob_sized blobs.
Hypothesis Hmem : Z.of_nat (length blobs) < 2 ^ usize_bits t.
Let claim_number := l2_head + count * span.

(** There is a blob for every output but the last. *)
Definition enough_blobs : Prop := 1 < count ->
  (count - 1) / FIELD_ELEMENTS_PER_BLOB < Z.of_nat (length blobs).

(** A round succeeds exactly on blocks up to the proposal's last one whose
    output root is the published one, and panics only for want of a blob. *)
Lemma check_output_spec i h :
  0 <= i < len ->
  let n := proof_head + i + 1 in
  let o := check_output t l2_head count span claim_number blobs proof_head i h in
  (enough_blobs -> is_panic o = false) /\
  (o = Ok tt <-> n <= claim_number /\ output_published l2_head count span blobs n h).
Proof.
  intros Hi n. destruct Hno as (H1 & [H2 H2'] & H3 & H4 & H5 & H6 & H7).
  unfold check_output, u64_add, u64_sub, u64_rem, u64_div.
  rewrite (arith_fits _ _ (proof_head + i)) by (unfold in_width; lia). cbn [mbind outcome_bind].
  rewrite (arith_fits _ _ (proof_head + i + 1)) by (unfold in_width; lia). cbn [mbind outcome_bind].
  fold n. destruct (claim_number <? n) eqn:Ec; bools; [cbn; split; [done|split; [done|lia]]|].
  assert (Hn : l2_head < n) by (unfold n; lia).
  assert (Hcs : 0 < count * span) by (unfold claim_number in *; lia).
  assert (Hs : 0 < span) by nia. assert (Hc : 0 < count) by nia.
  rewrite (arith_fits _ _ (n - l2_head)) by (unfold in_width, n in *; lia). cbn [mbind outcome_bind].
  rewrite (proj2 (Z.eqb_neq span 0)) by lia. cbn [mbind outcome_bind].
  destruct (_ =? 0) eqn:Em; bools; cbn [negb];
    [|cbn; split; [done|split; [|done]]; intros _; split; [done|by apply unpublished_position]].
  destruct (published_position l2_head span n Hn Hs Em) as (Hj & Hj0 & Hju).
  remember ((n - l2_head) / span - 1) as j eqn:Ej.
  assert (j <= count - 1) by (unfold claim_number in *; nia).
  assert (Hspan : n - l2_head = (j + 1) * span) by lia.
  rewrite (arith_fits _ _ j) by (unfold in_width; nia).
  cbn [mbind outcome_bind]. rewrite (arith_fits _ _ (count - 1)) by (unfold in_width; nia).
  cbn [mbind outcome_bind].
  assert (0 <= j / FIELD_ELEMENTS_PER_BLOB < 2 ^ usize_bits t) as Hk.
  { split; [apply Z.div_pos; [lia|done]|]. apply Z.div_lt_upper_bound; [done|lia]. }
  pose proof (Z.mod_pos_bound j FIELD_ELEMENTS_PER_BLOB eq_refl) as Hp.
  assert (FIELD_ELEMENTS_PER_BLOB < 2 ^ usize_bits t).
  { apply Z.lt_le_trans with (2 ^ 32); [done|]. apply Z.pow_le_mono_r; lia. }
  unfold as_usize. rewrite !(Z.mod_small _ (2 ^ usize_bits t)) by lia.
  destruct (Z.compare_spec j (count - 1)) as [Hl|Hl|Hl]; [| |lia].
  - destruct (check_trail_spec t count blobs j) as [Hnp Hiff]; [done..|].
    split; [intros He; apply Hnp; intros Hc'; specialize (He Hc'); rewrite <-Hl in He; lia|].
    rewrite Hiff. split.
    + intros Ht. split; [done|]. intros j' Hj'. apply Hju in Hj' as ->. split; [lia|]. auto.
    + intros [_ Hout]. apply (Hout j Hj); done.
  - assert (j / FIELD_ELEMENTS_PER_BLOB <= (count - 1) / FIELD_ELEMENTS_PER_BLOB)
      by (apply Z.div_le_mono; [done|lia]).
    destruct (blobs !! Z.to_nat (j / FIELD_ELEMENTS_PER_BLOB)) as [blob|] eqn:Hb.
    + pose proof (proj1 (Forall_lookup _ _) Hsized _ _ Hb) as Hsz. unfold blob_sized in Hsz.
      rewrite (check_field_element_spec _ _ _ _ _ Hb) by lia. case_bool_decide as Hfe.
      * split; [done|]. split; [|done]. intros _. split; [done|].
        intros j' Hj'. apply Hju in Hj' as ->. split; [eauto|lia].
      * split; [done|]. split; [done|]. intros [_ Hout].
        destruct (Hout j Hj) as [(b & ? & ?) _]; [done|]. simplify_eq.
    + split.
      * intros He. destruct (lookup_lt_is_Some_2 blobs (Z.to_nat (j / FIELD_ELEMENTS_PER_BLOB)));
          [specialize (He ltac:(lia)); lia|congruence].
      * unfold check_field_element, index. rewrite Hb. split; [done|]. intros [_ Hout].
        destruct (Hout j Hj) as [(b & ? & ?) _]; [done|]. congruence.
Qed.

Lemma check_outputs_spec outs i :
  0 <= i -> i + Z.of_nat (length outs) <= len ->
  let o := check_outputs t l2_head count span claim_number blobs proof_head i outs in
  (enough_blobs -> is_panic o = false) /\
  (o = Ok tt <-> forall k h, outs !! k = Some h ->
     let n := proof_head + (i + Z.of_nat k) + 1 in
     n <= claim_number /\ output_published l2_head count span blobs n h).
Proof.
  revert i. induction outs as [|h outs IH]; cbn [check_outputs length]; intros i Hi Hlen.
  - cbn. split; [done|]. split; [|done]. intros _ k h Hk. by rewrite lookup_nil in Hk.
  - destruct (check_output_spec i h) as [Hp Hiff]; [lia|].
    destruct (IH (i + 1)) as [Hp' Hiff']; [lia..|].
    destruct (check_output _ _ _ _ _ _ _ _ _) as [[]|e|w] eqn:E; cbn [mbind outcome_bind].
    + split; [done|]. rewrite Hiff'. split.
      * intros F [|k] h' Hk; cbn in Hk; simplify_eq.
        -- rewrite Z.add_0_r. by apply Hiff.
        -- specialize (F k h' Hk). cbv zeta in *.
           by replace (i + Z.of_nat (S k)) with (i + 1 + Z.of_nat k) by lia.
      * intros F k h' Hk. specialize (F (S k) h' Hk). cbv zeta in *.
        by replace (i + 1 + Z.of_nat k) with (i + Z.of_nat (S k)) by lia.
    + split; [done|]. split; [done|]. intros F. specialize (F 0%nat h eq_refl). cbv zeta in F.
      rewrite Z.add_0_r in F. by apply Hiff in F.
    + split; [done|]. split; [done|]. intros F. specialize (F 0%nat h eq_refl). cbv zeta in F.
      rewrite Z.add_0_r in F. by apply Hiff in F.
Qed.
End check_output.

(** ** The environment of the client programs

    An oracle with a state of its own, and the blob provider preloaded from the
    witness. *)
#[export] Instance preloaded_env (O : Type) (oget : PreimageKey -> St O bytes) :
    Environment (O * entries) := {|
  oracle_get := fun k s => let '(r, o) := oget k (fst s) in (r, (o, snd s));
  beacon_get_blobs := fun _ hs s =>
    let '(es, r) := preloaded_get_blobs (snd s) hs in (r, (fst s, es)) |}.

Lemma fetch_blobs_preloaded O oget requests acc (o : O) l bs s' :
  @fetch_blobs _ (preloaded_env O oget) requests acc (o, rev l) = (Ok bs, s') ->
  exists pre post, l = pre ++ post /\ s' = (o, rev post) /\
    bs = acc ++ pre.*2 /\ pre.*1 = request_hashes requests.
Proof.
  revert acc l. induction requests as [|r requests IH]; cbn [fetch_blobs]; intros acc l Hf.
  - unfold mret, St_ret in Hf. simplify_eq. exists [], l. by rewrite app_nil_r.
  - st_inv. unfold beacon_get_blobs, preloaded_env in E. cbn [fst snd] in E.
    destruct (preloaded_get_blobs (rev l) [blob_hash r]) as [es res] eqn:Eg. simplify_eq.
    apply preloaded_get_blobs_prefix in Eg as (pre & post & -> & -> & Hh & Hb).
    unfold index in E0. apply unwrap_Ok in E0.
    apply IH in Hf as (pre' & post' & -> & -> & -> & Hh').
    destruct pre as [|[h b] [|? ?]]; cbn in *; simplify_eq.
    change (Some b = Some x0) in E0. simplify_eq.
    exists ((ibh_hash (blob_hash r), x0) :: pre'), post'. split_and!; [done|done| |cbn; f_equal; exact Hh'].
    by rewrite <-app_assoc.
Qed.

Lemma b256_concat_inj xs ys :
  Forall (in_width 256) xs -> Forall (in_width 256) ys ->
  concat (b256_bytes <$> xs) = concat (b256_bytes <$> ys) -> xs = ys.
Proof.
  intros Hx Hy E. apply (concat_chunks_inj 32) in E; [|lia| |].
  - clear -Hx Hy E. revert ys Hy E. induction Hx as [|x xs Hx Hxs IH]; intros [|y ys] Hy E; try done.
    inversion Hy; subst. cbn [fmap list_fmap] in E. apply (f_equal tail) in E as E'. cbn [tail] in E'.
    apply (f_equal (fun l => hd [] l)) in E. cbn [hd] in E.
    apply be_bytes_inj in E; [|done..]. f_equal; auto.
  - apply Forall_fmap, Forall_true. intros. apply length_be_bytes.
  - apply Forall_fmap, Forall_true. intros. apply length_be_bytes.
Qed.

(** The preimages hashed by [precondition_hash]. *)
Definition blob_hashes_bytes (d : PreconditionValidationData) : bytes :=
  concat (b256_bytes <$> request_hashes (blob_fetch_requests d)).
Definition precondition_bytes `{Digests} (d : PreconditionValidationData) : bytes :=
  match d with Validity h c s rs =>
    concat [be_bytes 8 h; be_bytes 8 c; be_bytes 8 s; b256_bytes (blobs_hash (request_hashes rs))]
  end.

Definition wf_precondition (d : PreconditionValidationData) : Prop :=
  match d with Validity h c s rs =>
    u64 h /\ u64 c /\ u64 s /\ Forall (in_width 256) (request_hashes rs)
  end.

(** The part of the data that a precondition commits to. *)
Definition precondition_content (d : PreconditionValidationData) : Z * Z * Z * list Z :=
  match d with Validity h c s rs => (h, c, s, request_hashes rs) end.

(** ** Properties *)

(** C17. [validate_precondition] checks exactly the published outputs. With
    4096-element blobs and no 64-bit overflow, on either target, it returns the
    precondition hash if and only if the proof starts inside the proposal, no
    derived block lies beyond the proposal's last one, every derived output
    root at a multiple of the span equals (as a field element) the one
    published in the blobs, and the unused tail of the last blob is zero. With
    a blob for every published output it never panics: the [unreachable!]
    branch, the division by a zero span and the subtraction from a zero count
    are never reached. *)
Theorem validate_precondition_spec `{Digests} t l2_head count span reqs blobs proof_head outs :
  no_overflow t l2_head count span proof_head (Z.of_nat (length outs)) ->
  Forall blob_sized blobs -> Z.of_nat (length blobs) < 2 ^ usize_bits t ->
  let d := Validity l2_head count span reqs in
  let o := validate_precondition t d blobs proof_head outs in
  (enough_blobs count blobs -> is_panic o = false) /\
  (forall r, o = Ok r <->
     r = pvd_precondition_hash d /\ l2_head <= proof_head <= l2_head + count * span /\
     forall k h, outs !! k = Some h ->
       let n := proof_head + Z.of_nat k + 1 in
       n <= l2_head + count * span /\ output_published l2_head count span blobs n h).
Proof.
  intros Hno Hs Hm d o. pose proof Hno as (H1 & [H2 H2'] & H3 & H4 & H5 & H6 & H7).
  unfold o, d, validate_precondition, u64_mul, u64_add.
  rewrite (arith_fits _ _ (count * span)) by (unfold in_width; nia). cbn [mbind outcome_bind].
  rewrite arith_fits by (unfold in_width; nia). cbn [mbind outcome_bind].
  destruct (proof_head <? l2_head) eqn:E1; bools; [split; [done|split; [done|lia]]|].
  destruct (_ <? proof_head) eqn:E2; bools; [split; [done|split; [done|lia]]|].
  case_bool_decide as Hnil.
  - subst. split; [done|]. intros r. split; [|naive_solver].
    intros ?%Ok_inj. split_and!; [done|lia|lia|]. intros k h Hk. by rewrite lookup_nil in Hk.
  - destruct (check_outputs_spec t l2_head count span proof_head _ blobs Hno E1 Hs Hm outs 0)
      as [Hp Hiff]; [lia..|].
    destruct (check_outputs _ _ _ _ _ _ _ _ _) as [[]|e|w]; cbn [mbind outcome_bind].
    + split; [done|]. intros r. split; [|naive_solver].
      intros ?%Ok_inj. split_and!; [done|lia|lia|by apply Hiff].
    + split; [done|]. intros r. split; [done|]. intros (_ & _ & F). by apply Hiff in F.
    + split; [done|]. intros r. split; [done|]. intros (_ & _ & F). by apply Hiff in F.
Qed.

(** The precondition hash binds a proof to the proposal's starting block,
    output count, span and list of blob hashes: equal hashes mean equal
    contents, or a SHA-256 collision between the two hashed encodings or the
    two lists of blob hashes. *)
Theorem precondition_hash_binding `{Digests} d1 d2 :
  wf_precondition d1 -> wf_precondition d2 ->
  pvd_precondition_hash d1 = pvd_precondition_hash d2 ->
  precondition_content d1 = precondition_content d2 \/
  collision sha256 (precondition_bytes d1) (precondition_bytes d2) \/
  collision sha256 (blob_hashes_bytes d1) (blob_hashes_bytes d2).
Proof.
  destruct d1 as [h1 c1 s1 r1], d2 as [h2 c2 s2 r2]. intros (?&?&?&W1) (?&?&?&W2) E.
  destruct (hash_inj_or_collision _ _ _ E) as [E'|?]; [|by right; left].
  cbn [concat] in E'. rewrite !app_nil_r in E'. split_fields E'.
  apply be_bytes_inj in E0, E1, E2, E'; try assumption; try apply sha256_width. subst.
  destruct (hash_inj_or_collision _ _ _ E') as [E0|?]; [|by right; right].
  left. cbn. by rewrite (b256_concat_inj _ _ W1 W2 E0).
Qed.

(** The blobs handed to [validate_precondition] are the ones the
    precondition data names: with the blob provider preloaded from the witness,
    whatever [load_precondition_data] returns, its blobs are the next blobs of
    the provider, they carry the versioned hashes of the fetch requests, and
    the provider keeps the rest. *)
Theorem loaded_blobs_match `{Pot} `{PreimageKeys} O oget h (o : O) l d bs s' :
  @load_precondition_data _ (preloaded_env O oget) _ _ h (o, rev l) = (Ok (Some (d, bs)), s') ->
  h <> 0 /\
  exists o' pre post, l = pre ++ post /\ s' = (o', rev post) /\ pre.*2 = bs /\
    pre.*1 = request_hashes (blob_fetch_requests d).
Proof.
  unfold load_precondition_data. destruct (h =? 0) eqn:Eh; bools; [done|].
  intros Hl. split; [done|]. st_inv. unfold mret, St_ret in Hl. simplify_eq.
  unfold oracle_get, preloaded_env in E. cbn [fst snd] in E.
  destruct (oget _ o) as [r o'] eqn:Eo. simplify_eq.
  apply fetch_blobs_preloaded in E1 as (pre & post & -> & -> & -> & ?). eauto 10.
Qed.

(** ** Witnesses *)

Definition demo_blob : bytes := blob_of (hash_to_fe 77 :: replicate (Z.to_nat 4095) 0).

Lemma demo_blob_sized : blob_sized demo_blob.
Proof.
  unfold blob_sized, demo_blob. rewrite length_blob_of. cbn [length].
  rewrite length_replicate. unfold FIELD_ELEMENTS_PER_BLOB. lia.
Qed.

Lemma validate_precondition_spec_witness :
  is_panic (@validate_precondition demo_digests host (Validity 10 2 3 []) [demo_blob] 11 [5; 77]) = false.
Proof.
  apply (@validate_precondition_spec demo_digests host 10 2 3 [] [demo_blob] 11 [5; 77]).
  - unfold no_overflow, FIELD_ELEMENTS_PER_BLOB. cbn. lia.
  - constructor; [apply demo_blob_sized|constructor].
  - cbn. lia.
  - intros _. unfold FIELD_ELEMENTS_PER_BLOB. vm_compute. reflexivity.
Defined.

Definition demo_block : BlockInfo :=
  {| bk_hash := 3; bk_number := 4; bk_parent_hash := 2; bk_timestamp := 100 |}.
Definition demo_request : BlobFetchRequest :=
  {| block_ref := demo_block; blob_hash := {| ibh_index := 0; ibh_hash := 5 |} |}.
Definition demo_precondition : PreconditionValidationData := Validity 10 2 3 [demo_request].
Definition demo_pot : Pot := {|
  pot_to_vec := fun _ => Ok (zeros 1); pot_from_slice := fun _ => Ok demo_precondition |}.
Definition demo_keys : PreimageKeys := {|
  key_new := fun v t => {| key_data := v `mod` 2 ^ 248; key_type := t |};
  key_new_type := fun _ _ => eq_refl |}.

Lemma demo_precondition_wf : wf_precondition demo_precondition.
Proof. unfold wf_precondition, demo_precondition, in_width. cbn. split_and!; try lia. repeat constructor; cbn; lia. Qed.

Lemma precondition_hash_binding_witness :
  (10, 2, 3, [5]) = (10, 2, 3, [5]) \/
  collision (@sha256 demo_digests) (@precondition_bytes demo_digests demo_precondition)
    (@precondition_bytes demo_digests demo_precondition) \/
  collision (@sha256 demo_digests) (blob_hashes_bytes demo_precondition)
    (blob_hashes_bytes demo_precondition).
Proof.
  exact (@precondition_hash_binding demo_digests demo_precondition demo_precondition
    demo_precondition_wf demo_precondition_wf eq_refl).
Defined.

Lemma loaded_blobs_match_witness :
  9 <> 0 /\
  exists o' pre post, [(5, zeros 1)] = pre ++ post /\ (tt, []) = (o', rev post) /\
    pre.*2 = [zeros 1] /\ pre.*1 = request_hashes (blob_fetch_requests demo_precondition).
Proof.
  apply (@loaded_blobs_match demo_pot demo_keys unit (fun _ o => (Ok [], o)) 9 tt
    [(5, zeros 1)] demo_precondition [zeros 1] (tt, [])).
  vm_compute. reflexivity.
Defined.
