(* ===== verification/Oracle.v ===== *)
(** * crates/kona/src/oracle/{mod,vec,local}.rs

    The preimage oracle that a proof is replayed from.  [VecOracle] stores the
    preimages of a recorded run in the order in which they will be read and
    pops them; [LocalOnceOracle] makes local values answerable once. *)

From S2P Require Import Prelude Bytes Blobs Precondition.

#[export] Instance preimage_key_type_countable : Countable PreimageKeyType.
Proof.
  refine (inj_countable' (fun t => match t with
    | Local => 0 | Keccak256 => 1 | GlobalGeneric => 2 | Sha256 => 3
    | BlobKey => 4 | Precompile => 5 end)
    (fun z => if z =? 0 then Local else if z =? 1 then Keccak256
      else if z =? 2 then GlobalGeneric else if z =? 3 then Sha256
      else if z =? 4 then BlobKey else Precompile) _).
  by intros [].
Defined.
#[export] Instance preimage_key_countable : Countable PreimageKey.
Proof.
  refine (inj_countable' (fun k => (key_data k, key_type k))
    (fun '(d, t) => {| key_data := d; key_type := t |}) _).
  by intros [].
Defined.

Definition needs_validation (t : PreimageKeyType) : bool :=
  match t with Local | GlobalGeneric => false | _ => true end.

Definition validate_preimage `{Digests} `{PreimageKeys} (key : PreimageKey) (value : bytes)
    : outcome unit :=
  image ← match key_type key with
    | Keccak256 => Ok (Some (keccak256 value))
    | Sha256 => Ok (Some (sha256 value))
    | Precompile => Panic "Precompile acceleration is not yet supported."
    | BlobKey => Panic "Blob key types should not be loaded."
    | Local | GlobalGeneric => Ok None
    end;
  match image with
  | Some image => if bool_decide (key = key_new image (key_type key)) then Ok tt
                  else Err "InvalidPreimageKey"
  | None => Ok tt
  end.

(** ** VecOracle *)

Abbreviation pointer := (option (nat * nat)).
Abbreviation IndexedPreimage := (PreimageKey * bytes * option (nat * nat))%type.
Abbreviation PreimageVecEntry := (list IndexedPreimage).

Definition ip_key (x : IndexedPreimage) : PreimageKey := x.1.1.
Definition ip_value (x : IndexedPreimage) : bytes := x.1.2.
Definition ip_pair (x : IndexedPreimage) : PreimageKey * bytes := x.1.

(** The preimages of the oracle, the process-wide [QUEUE], and, on the zkvm
    target, the shards still to be read from the environment. *)
Record VecOracle := {
  preimages : list PreimageVecEntry; queue : list IndexedPreimage;
  frames : list PreimageVecEntry;
}.

Section vec.
Context `{Digests} `{PreimageKeys}.

(** The test of one element in [validate]. *)
Definition validate_element (preimages : list PreimageVecEntry) (e p : nat)
    (x : IndexedPreimage) : outcome unit :=
  let '(key, value, prev) := x in
  if negb (needs_validation (key_type key)) then Ok tt
  else match prev with
  | Some (i, j) =>
      if (e <? i)%nat then Err "Attempted to validate preimage against future vec entry."
      else if (e =? i)%nat && (p <=? j)%nat
      then Err "Attempted to validate preimage against future preimage in vec entry."
      else
        entry ← index preimages i;
        cached ← index entry j;
        if negb (bool_decide (key = ip_key cached)) then Err "Cached preimage key comparison failed"
        else if negb (bool_decide (value = ip_value cached))
        then Err "Cached preimage value comparison failed"
        else Ok tt
  | None => validate_preimage key value
  end.

Definition enumerate {A} (l : list A) : list (nat * A) := imap pair l.

Definition validate (preimages : list PreimageVecEntry) : outcome unit :=
  ofold (fun _ '(e, entry) =>
    ofold (fun _ '(p, x) => validate_element preimages e p x) tt (enumerate entry))
    tt (enumerate preimages).

Definition preimage_count (s : VecOracle) : nat := sum_list (length <$> preimages s).

Definition insert_preimage (s : VecOracle) (key : PreimageKey) (value : bytes)
    : outcome VecOracle :=
  _ ← expect "Attempted to save invalid preimage" (validate_preimage key value);
  let ps := if bool_decide (preimages s = []) then [[]] else preimages s in
  '(last, front) ← unwrap "last_mut" (vec_pop ps);
  Ok {| preimages := front ++ [last ++ [(key, value, None)]];
        queue := queue s; frames := frames s |}.

(** The sharding loop: the finished shards, the open one and its size. *)
Fixpoint shard_loop (shard_size : nat) (done : list PreimageVecEntry)
    (open : PreimageVecEntry) (size : nat) (l : list IndexedPreimage)
    : list PreimageVecEntry :=
  match l with
  | [] => done ++ [open]
  | x :: l =>
      if (shard_size <? length (ip_value x) + size)%nat && (0 <? size)%nat
      then shard_loop shard_size (done ++ [open]) [x] (length (ip_value x)) l
      else shard_loop shard_size done (open ++ [x]) (size + length (ip_value x)) l
  end.

(** The pointer loop over one shard. *)
Fixpoint point_entry (cache : gmap PreimageKey (nat * nat)) (i j : nat)
    (entry : PreimageVecEntry) : gmap PreimageKey (nat * nat) * PreimageVecEntry :=
  match entry with
  | [] => (cache, [])
  | (key, value, ptr) :: entry =>
      let '(cache', ptr') :=
        if negb (needs_validation (key_type key)) then (cache, ptr)
        else (<[key := (i, j)]> cache,
              match cache !! key with Some prev => Some prev | None => ptr end) in
      let '(cache', entry) := point_entry cache' i (S j) entry in
      (cache', (key, value, ptr') :: entry)
  end.

Fixpoint point_entries (cache : gmap PreimageKey (nat * nat)) (i : nat)
    (l : list PreimageVecEntry) : list PreimageVecEntry :=
  match l with
  | [] => []
  | entry :: l =>
      let '(cache, entry) := point_entry cache i 0 entry in
      entry :: point_entries cache (S i) l
  end.

Definition finalize_preimages (s : VecOracle) (shard_size : nat) (with_validation_ptrs : bool)
    : outcome VecOracle :=
  _ ← expect "Failed to validate preimages during finalization" (validate (preimages s));
  let flat_vec := rev (concat (preimages s)) in
  let sharded_vec := shard_loop shard_size [] [] 0 flat_vec in
  Ok {| preimages := if with_validation_ptrs then point_entries ∅ 0 sharded_vec else sharded_vec;
        queue := queue s; frames := frames s |}.

(** The inner loop of [get] on the elements of one entry, last first: what is
    popped before the key is found goes to the front of the queue. *)
Fixpoint seek (key : PreimageKey) (rentry : list IndexedPreimage) (queue : list IndexedPreimage)
    : option (bytes * list IndexedPreimage) * list IndexedPreimage :=
  match rentry with
  | [] => (None, queue)
  | (last_key, value, _) :: rentry =>
      if decide (key = last_key) then (Some (value, rentry), queue)
      else seek key rentry ((last_key, value, None) :: queue)
  end.

(** The outer loop on the entries, last first: the value and the remaining
    entries, or the queue once every entry is exhausted. *)
Fixpoint seek_store (key : PreimageKey) (rstore : list PreimageVecEntry)
    (queue : list IndexedPreimage)
    : option (bytes * list PreimageVecEntry) * list IndexedPreimage :=
  match rstore with
  | [] => (None, queue)
  | entry :: rstore =>
      match seek key (rev entry) queue with
      | (Some (value, rentry), queue) => (Some (value, (rev rentry ++ queue) :: rstore), [])
      | (None, queue) => seek_store key rstore queue
      end
  end.

(** On the zkvm target an exhausted store is refilled from the environment. *)
Fixpoint seek_frames (key : PreimageKey) (frames : list PreimageVecEntry)
    (queue : list IndexedPreimage) : outcome bytes * VecOracle :=
  match frames with
  | [] => (Panic "Failed to deserialize shard",
           {| preimages := []; queue := queue; frames := [] |})
  | shard :: frames =>
      match expect "Failed to validate streamed preimages" (validate [shard]) with
      | Ok _ =>
          match seek_store key [shard] queue with
          | (Some (value, rstore), queue) =>
              (Ok value, {| preimages := rev rstore; queue := queue; frames := frames |})
          | (None, queue) => seek_frames key frames queue
          end
      | Err e | Panic e => (Panic e, {| preimages := [shard]; queue := queue; frames := frames |})
      end
  end.

Definition vec_get (zkvm : bool) (key : PreimageKey) : St VecOracle bytes := fun s =>
  match seek_store key (rev (preimages s)) (queue s) with
  | (Some (value, rstore), queue) =>
      (Ok value, {| preimages := rev rstore; queue := queue; frames := frames s |})
  | (None, queue) =>
      if zkvm then seek_frames key (frames s) queue
      else (Panic "Exhausted VecOracle", {| preimages := []; queue := queue; frames := frames s |})
  end.
End vec.

(** ** The oracle interface and LocalOnceOracle *)

(** [buf.copy_from_slice(value)] for a buffer of the given length. *)
Definition copy_from_slice (len : nat) (value : bytes) : outcome bytes :=
  if (length value =? len)%nat then Ok value
  else Panic "copy_from_slice: source slice length does not match destination slice length".

Class PreimageOracle (O : Type) := {
  get : PreimageKey -> St O bytes;
  get_exact : PreimageKey -> nat -> St O bytes;
}.

#[export] Instance vec_oracle `{Digests} `{PreimageKeys} (zkvm : bool) : PreimageOracle VecOracle := {|
  get := vec_get zkvm;
  get_exact := fun key len => value ← vec_get zkvm key; lift (copy_from_slice len value) |}.

Record LocalOnceOracle (O : Type) := { oracle : O; cache : gmap PreimageKey bytes }.
Arguments oracle {O}. Arguments cache {O}.

Definition local_once_new {O} (o : O) : LocalOnceOracle O := {| oracle := o; cache := ∅ |}.

Section local.
Context {O : Type} `{PreimageOracle O}.

Definition is_local (key : PreimageKey) : bool := bool_decide (key_type key = Local).

(** A call on the wrapped oracle. *)
Definition forward {A} (m : St O A) : St (LocalOnceOracle O) A := fun s =>
  let '(r, o) := m (oracle s) in (r, {| oracle := o; cache := cache s |}).

Definition cache_insert (key : PreimageKey) (value : bytes) : St (LocalOnceOracle O) unit :=
  fun s => (Ok tt, {| oracle := oracle s; cache := <[key := value]> (cache s) |}).

Definition local_get (key : PreimageKey) : St (LocalOnceOracle O) bytes :=
  if negb (is_local key) then forward (get key)
  else
    s ← get_st;
    match cache s !! key with
    | Some value => mret value
    | None =>
        result ← forward (get key);
        _ ← cache_insert key result;
        mret result
    end.

Definition local_get_exact (key : PreimageKey) (len : nat) : St (LocalOnceOracle O) bytes :=
  if negb (is_local key) then forward (get_exact key len)
  else
    s ← get_st;
    match cache s !! key with
    | Some value => lift (copy_from_slice len value)
    | None =>
        result ← forward (get_exact key len);
        _ ← cache_insert key result;
        mret result
    end.

#[export] Instance local_once_oracle : PreimageOracle (LocalOnceOracle O) := {|
  get := local_get; get_exact := local_get_exact |}.
End local.

(** [shard_witness_data]: the entries, in order, leaving empty ones behind
    (the serialization of an entry is not modelled, a frame is the entry). *)
Definition shard_witness_data (data : list PreimageVecEntry)
    : list PreimageVecEntry * list PreimageVecEntry := (data, (fun _ => []) <$> data).

(** The streamed half of [encode_witness_frames]: the frames in the order in
    which the guest reads them, and the oracle left in the main frame. *)
Definition stream_witness (s : VecOracle) : VecOracle :=
  let '(streams, _) := shard_witness_data (preimages s) in
  {| preimages := []; queue := queue s; frames := rev streams |}.

(** The loop of the guest's main function: every entry left empty in the main
    frame is replaced by the next shard read from the environment. *)
Fixpoint load_shards (entries shards : list PreimageVecEntry)
    : outcome (list PreimageVecEntry * list PreimageVecEntry) :=
  match entries with
  | [] => Ok ([], shards)
  | entry :: entries =>
      if bool_decide (entry = []) then
        match shards with
        | shard :: shards =>
            '(entries, shards) ← load_shards entries shards; Ok (shard :: entries, shards)
        | [] => Panic "Failed to deserialize shard"
        end
      else '(entries, shards) ← load_shards entries shards; Ok (entry :: entries, shards)
  end.

(** The preloaded half of the witness, as it arrives in the guest. *)
Definition preload_witness (s : VecOracle) : outcome VecOracle :=
  let '(shards, emptied) := shard_witness_data (preimages s) in
  '(entries, _) ← load_shards emptied shards;
  Ok {| preimages := entries; queue := queue s; frames := frames s |}.

(** A call on an oracle, as a client makes it. *)
Inductive request := Get (key : PreimageKey) | GetExact (key : PreimageKey) (len : nat).

Definition run_request {S : Type} `{PreimageOracle S} (r : request) : St S bytes :=
  match r with Get key => get key | GetExact key len => get_exact key len end.

(** The state after some calls, whatever they return. *)
Definition run_requests {S : Type} `{PreimageOracle S} (rs : list request) (s : S) : S :=
  foldl (fun s r => (run_request r s).2) s rs.

(** ** The abstract content of an oracle

    Pointers only speed validation up, so the abstract oracle is a list of
    key-value pairs, the next one to be read last. *)
Abbreviation pairs l := (ip_pair <$> l).
Definition stored (s : VecOracle) : list (PreimageKey * bytes) :=
  pairs (concat (preimages s)) ++ pairs (queue s).
Definition total (s : VecOracle) : list (PreimageKey * bytes) :=
  pairs (concat (rev (frames s))) ++ stored s.

(** Reads the keys one after the other. *)
Fixpoint get_all {S : Type} `{PreimageOracle S} (keys : list PreimageKey) : St S (list bytes) :=
  match keys with
  | [] => mret []
  | k :: keys => v ← get k; vs ← get_all keys; mret (v :: vs)
  end.

Definition vec_oracle_default : VecOracle := {| preimages := []; queue := []; frames := [] |}.

(** A recorded run: its reads, in order. *)
Definition record_all `{Digests} `{PreimageKeys} (reads : list (PreimageKey * bytes))
    : outcome VecOracle :=
  ofold (fun s '(k, v) => insert_preimage s k v) vec_oracle_default reads.

Definition authentic `{Digests} `{PreimageKeys} (kv : PreimageKey * bytes) : Prop :=
  needs_validation (key_type kv.1) = true -> validate_preimage kv.1 kv.2 = Ok tt.

(** ** Lemmas: seeking *)

Lemma seek_spec key rentry q :
  match seek key rentry q with
  | (Some (v, rest), q') => exists pre p, rentry = pre ++ (key, v, p) :: rest /\
      key ∉ (pairs pre).*1 /\ pairs q' = rev (pairs pre) ++ pairs q
  | (None, q') => key ∉ (pairs rentry).*1 /\ pairs q' = rev (pairs rentry) ++ pairs q
  end.
Proof.
  revert q; induction rentry as [|[[k v] p] rentry IH]; intros q; cbn [seek].
  - split; [|done]. apply not_elem_of_nil.
  - case_decide as Hk; [subst; exists [], p; split_and!; [done|apply not_elem_of_nil|done]|].
    specialize (IH ((k, v, None) :: q)). destruct (seek _ _ _) as [[[v' rest]|] q'].
    + destruct IH as (pre & p' & -> & Hn & Hq). exists ((k, v, p) :: pre), p'.
      split_and!; [done|cbn; rewrite not_elem_of_cons; done|].
      rewrite Hq. cbn. by rewrite <-app_assoc.
    + destruct IH as [Hn Hq]. split; [cbn; rewrite not_elem_of_cons; done|].
      rewrite Hq. cbn. by rewrite <-app_assoc.
Qed.

Lemma pairs_rev (l : list IndexedPreimage) : pairs (rev l) = rev (pairs l).
Proof. apply fmap_rev. Qed.

Lemma seek_store_spec key rstore q :
  match seek_store key rstore q with
  | (Some (v, rstore'), q') => exists A B,
      pairs (concat (rev rstore)) = A ++ (key, v) :: B /\ key ∉ B.*1 /\
      pairs (concat (rev rstore')) = A ++ B ++ pairs q /\ q' = []
  | (None, q') => key ∉ (pairs (concat (rev rstore))).*1 /\
      pairs q' = pairs (concat (rev rstore)) ++ pairs q
  end.
Proof.
  revert q; induction rstore as [|entry rstore IH]; intros q; cbn [seek_store rev concat].
  - split; [apply not_elem_of_nil|done].
  - pose proof (seek_spec key (rev entry) q) as Hs.
    rewrite concat_app. cbn [concat]. rewrite app_nil_r, fmap_app.
    destruct (seek _ _ _) as [[[v rest]|] q'].
    + destruct Hs as (pre & p & He & Hn & Hq).
      apply (f_equal (@rev _)) in He. rewrite rev_involutive, rev_app_distr in He. cbn in He. subst entry.
      exists (pairs (concat (rev rstore)) ++ pairs (rev rest)), (pairs (rev pre)).
      cbn [rev concat]. rewrite concat_app. cbn [concat].
      rewrite app_nil_r, !fmap_app, !pairs_rev, Hq, <-!app_assoc. split_and!; [done| |done|done].
      rewrite fmap_rev. by rewrite elem_of_rev.
    + destruct Hs as [Hn Hq]. specialize (IH q').
      rewrite pairs_rev, rev_involutive in Hq. rewrite pairs_rev, fmap_rev, elem_of_rev in Hn.
      destruct (seek_store _ _ _) as [[[v rstore']|] q''].
      * destruct IH as (A & B & HA & HB & HC & ->). exists A, (B ++ pairs entry).
        rewrite HA, HC, Hq, <-!app_assoc. split_and!; [done| |done|done].
        rewrite fmap_app, elem_of_app. tauto.
      * destruct IH as [Hn' Hq']. rewrite Hq', Hq, <-!app_assoc. split; [|done].
        rewrite fmap_app, elem_of_app. tauto.
Qed.

Section vec_lemmas.
Context `{Digests} `{PreimageKeys}.

(** What a read does to the abstract content. *)
Definition read_spec (ready : VecOracle -> Prop) (key : PreimageKey)
    (content : list (PreimageKey * bytes)) (r : outcome bytes * VecOracle) : Prop :=
  match r with
  | (Ok v, s') => exists A B, content = A ++ (key, v) :: B /\ key ∉ B.*1 /\
      total s' = A ++ B /\ ready s'
  | (Err _, _) => False
  | (Panic _, _) => key ∉ content.*1
  end.

(** Between two reads the queue is empty, and the shards still to be streamed
    pass validation (there are none on the host). *)
Definition ready (zkvm : bool) (s : VecOracle) : Prop :=
  queue s = [] /\
  if zkvm then Forall (fun shard => validate [shard] = Ok tt) (frames s) else frames s = [].

Lemma seek_frames_spec key fs q :
  Forall (fun shard => validate [shard] = Ok tt) fs -> key ∉ (pairs q).*1 ->
  read_spec (ready true) key (pairs (concat (rev fs)) ++ pairs q) (seek_frames key fs q).
Proof.
  intros Hv. revert q. induction Hv as [|f fs Hf Hv IH]; cbn [seek_frames]; intros q Hq; [done|].
  rewrite Hf. cbn [expect].
  pose proof (seek_store_spec key [f] q) as Hs. cbn [rev app concat] in *.
  rewrite app_nil_r in Hs. rewrite concat_app, fmap_app. cbn [concat]. rewrite app_nil_r, <-app_assoc.
  destruct (seek_store _ _ _) as [[[v' rstore]|] q'].
  - destruct Hs as (A & B & HA & HB & HC & ->). cbn.
    exists (pairs (concat (rev fs)) ++ A), (B ++ pairs q). unfold total, stored, ready. cbn.
    rewrite HA, HC, !app_nil_r, <-!app_assoc. split_and!; [done| |done|done|done].
    rewrite fmap_app, elem_of_app. tauto.
  - destruct Hs as [Hn Hq']. rewrite <-Hq'. apply IH.
    rewrite Hq', fmap_app, elem_of_app. tauto.
Qed.

(** A read from a ready oracle, on either target, removes the last occurrence
    of its key; it fails only for want of one. *)
Lemma vec_get_ready zkvm key s :
  ready zkvm s -> read_spec (ready zkvm) key (total s) (vec_get zkvm key s).
Proof.
  intros [Hq Hf]. unfold vec_get, total, stored. rewrite Hq.
  pose proof (seek_store_spec key (rev (preimages s)) []) as Hs.
  rewrite rev_involutive in Hs. rewrite !app_nil_r.
  destruct (seek_store _ _ _) as [[[v' rstore]|] q'].
  - destruct Hs as (A & B & HA & HB & HC & ->). cbn.
    exists (pairs (concat (rev (frames s))) ++ A), B. unfold total, stored, ready. cbn.
    rewrite HA, HC, !app_nil_r, <-!app_assoc. split_and!; done.
  - destruct Hs as [Hn Hq']. rewrite app_nil_r in Hq'. destruct zkvm.
    + rewrite <-Hq'. apply seek_frames_spec; [done|]. by rewrite Hq'.
    + rewrite Hf. cbn. done.
Qed.

(** Reads keep the store authentic, also when the streamed shards are not
    known to be: each one is validated before it is read from. *)
Lemma seek_store_authentic key rstore q :
  Forall authentic (pairs (concat (rev rstore))) -> Forall authentic (pairs q) ->
  match seek_store key rstore q with
  | (Some (v, rstore'), q') => authentic (key, v) /\
      Forall authentic (pairs (concat (rev rstore'))) /\ q' = []
  | (None, q') => Forall authentic (pairs q')
  end.
Proof.
  intros Hr Hq. pose proof (seek_store_spec key rstore q) as Hs.
  destruct (seek_store _ _ _) as [[[v' rstore']|] q'].
  - destruct Hs as (A & B & HA & HB & HC & ->). rewrite HA in Hr. rewrite HC.
    apply Forall_app in Hr as [HrA HrB]. apply Forall_cons_iff in HrB as [? ?].
    split_and!; [done| |done]. repeat (apply Forall_app; split; try done).
  - destruct Hs as [_ ->]. by apply Forall_app.
Qed.

Lemma last_occurrence {K V} (l A B : list (K * V)) k v v' :
  l ++ [(k, v)] = A ++ (k, v') :: B -> k ∉ B.*1 -> A = l /\ v' = v /\ B = [].
Proof.
  intros E HB. destruct B as [|x B _] using rev_ind.
  - apply app_inj_2 in E as [-> E]; [|done]. by simplify_eq.
  - rewrite app_comm_cons, app_assoc in E. apply app_inj_2 in E as [_ E]; [|done]. simplify_eq.
    destruct HB. rewrite fmap_app, elem_of_app. right. apply list_elem_of_singleton. done.
Qed.

Lemma get_all_in_order zkvm reads s :
  ready zkvm s -> total s = rev reads ->
  exists s', @get_all _ (vec_oracle zkvm) reads.*1 s = (Ok reads.*2, s') /\
    total s' = [] /\ ready zkvm s'.
Proof.
  revert s. induction reads as [|[k v] reads IH]; intros s Hq Hs; [by exists s|].
  cbn [get_all fmap list_fmap fst snd]. pose proof (vec_get_ready zkvm k s Hq) as Hg.
  unfold mbind, St_bind, get, vec_oracle.
  cbn [rev] in Hs. unfold read_spec in Hg. destruct (vec_get zkvm k s) as [[v'|e|w] s1]; [|done|].
  - destruct Hg as (A & B & HA & HB & HC & Hq1). rewrite Hs in HA.
    apply last_occurrence in HA as (-> & -> & ->); [|done]. rewrite app_nil_r in HC.
    destruct (IH s1 Hq1 HC) as (s' & Hg & Hs' & Hq').
    unfold mbind, St_bind, get, vec_oracle in Hg. rewrite Hg. by exists s'.
  - destruct Hg. rewrite Hs, fmap_app, elem_of_app. right. by apply list_elem_of_singleton.
Qed.

Lemma get_all_reordered zkvm keys s :
  ready zkvm s -> keys ≡ₚ (total s).*1 ->
  exists vs s', @get_all _ (vec_oracle zkvm) keys s = (Ok vs, s') /\
    length vs = length keys /\ zip keys vs ≡ₚ total s /\ total s' = [] /\ ready zkvm s'.
Proof.
  revert s. induction keys as [|k keys IH]; intros s Hq Hs.
  - exists [], s. apply Permutation_nil_l, eq_sym, fmap_nil_inv in Hs. by rewrite Hs.
  - cbn [get_all]. pose proof (vec_get_ready zkvm k s Hq) as Hg.
    unfold mbind, St_bind, get, vec_oracle.
    unfold read_spec in Hg. destruct (vec_get zkvm k s) as [[v|e|w] s1]; [|done|].
    + destruct Hg as (A & B & HA & HB & HC & Hq1).
      destruct (IH s1 Hq1) as (vs & s' & Hg & Hl & Hz & Hs' & Hq').
      { rewrite HA, fmap_app in Hs. cbn in Hs. rewrite <-Permutation_middle in Hs.
        apply Permutation_cons_inv in Hs. by rewrite HC, fmap_app. }
      unfold mbind, St_bind, get, vec_oracle in Hg. rewrite Hg. exists (v :: vs), s'.
      split_and!; [done|cbn; congruence| |done|done].
      cbn [zip zip_with]. rewrite HA, <-Permutation_middle, Hz, HC. done.
    + destruct Hg. rewrite <-Hs. by left.
Qed.

(** ** Lemmas: recording and finalizing *)

Lemma validate_preimage_no_err_panic key value u :
  validate_preimage key value = Ok u -> u = tt.
Proof. by destruct u. Qed.

Lemma insert_preimage_stored s k v s' :
  insert_preimage s k v = Ok s' -> queue s = [] ->
  stored s' = stored s ++ [(k, v)] /\ queue s' = [] /\ frames s' = frames s /\
  validate_preimage k v = Ok tt /\
  (Forall (fun x => x.2 = None) (concat (preimages s)) ->
   Forall (fun x => x.2 = None) (concat (preimages s'))).
Proof.
  unfold insert_preimage. intros Hi Hq. ok_inv. destruct x0 as [last front]. ok_inv.
  apply vec_pop_Some in E0. unfold stored. cbn. rewrite Hq, !app_nil_r.
  assert (Hc : concat (preimages s) = concat front ++ last).
  { assert (concat (front ++ [last]) = concat front ++ last) as <-
      by (rewrite concat_app; cbn; by rewrite app_nil_r).
    rewrite <-E0. case_bool_decide as Hn; [by rewrite Hn|done]. }
  rewrite Hc, concat_app. cbn. rewrite app_nil_r, !fmap_app, <-!app_assoc.
  destruct x. split_and!; try done. rewrite !Forall_app. repeat constructor; naive_solver.
Qed.

Lemma record_all_stored reads s :
  record_all reads = Ok s ->
  stored s = reads /\ queue s = [] /\ Forall (fun kv => validate_preimage kv.1 kv.2 = Ok tt) reads /\
  Forall (fun x => x.2 = None) (concat (preimages s)).
Proof.
  unfold record_all.
  assert (G : forall s0, queue s0 = [] -> Forall (fun x => x.2 = None) (concat (preimages s0)) ->
    ofold (fun s '(k, v) => insert_preimage s k v) s0 reads = Ok s ->
    stored s = stored s0 ++ reads /\ queue s = [] /\
    Forall (fun kv => validate_preimage kv.1 kv.2 = Ok tt) reads /\
    Forall (fun x => x.2 = None) (concat (preimages s))).
  { induction reads as [|[k v] reads IH]; cbn [ofold]; intros s0 Hq Hp Hr.
    - ok_inv. rewrite app_nil_r. split_and!; [done..|constructor|done].
    - ok_inv. apply insert_preimage_stored in E as (Hs & Hq' & _ & Hv & Hp'); [|done].
      destruct (IH x Hq' (Hp' Hp) Hr) as (-> & ? & ? & ?). rewrite Hs, <-app_assoc.
      split_and!; [done|done|constructor; done|done]. }
  intros Hr. apply (G vec_oracle_default); [done|constructor|done].
Qed.

Lemma shard_loop_concat n ds open size l :
  concat (shard_loop n ds open size l) = concat ds ++ open ++ l.
Proof.
  revert ds open size. induction l as [|x l IH]; intros ds open size; cbn [shard_loop].
  - rewrite concat_app. cbn. by rewrite !app_nil_r.
  - destruct (_ && _); rewrite IH.
    + rewrite concat_app. cbn. by rewrite app_nil_r, <-app_assoc.
    + by rewrite <-app_assoc.
Qed.

Definition entry_size (l : list (PreimageKey * bytes)) : nat := sum_list (length ∘ snd <$> l).

(** A shard holds at most [n] bytes, except for one whose last preimage is the
    only non-empty one. *)
Definition shard_ok (n : nat) (l : list (PreimageKey * bytes)) : Prop :=
  (entry_size l ≤ n)%nat \/
  exists pre big, l = pre ++ [big] /\ Forall (fun x => x.2 = []) pre.

Lemma entry_size_snoc l x : entry_size (l ++ [x]) = (entry_size l + length x.2)%nat.
Proof. unfold entry_size. rewrite fmap_app. induction l; cbn in *; lia. Qed.

Lemma entry_size_0 l : entry_size l = 0%nat -> Forall (fun x => x.2 = []) l.
Proof.
  unfold entry_size. induction l as [|x l IH]; cbn; [constructor|]. intros E.
  constructor; [apply nil_length_inv; lia|apply IH; lia].
Qed.

Lemma shard_loop_ok n ds open l :
  Forall (fun sh => shard_ok n (pairs sh)) ds -> shard_ok n (pairs open) ->
  Forall (fun sh => shard_ok n (pairs sh)) (shard_loop n ds open (entry_size (pairs open)) l).
Proof.
  revert ds open. induction l as [|x l IH]; intros ds open Hd Ho; cbn [shard_loop].
  - apply Forall_app. split; [done|]. by constructor.
  - change (ip_value x) with ((ip_pair x).2). destruct (_ && _) eqn:E.
    + replace (length (ip_pair x).2) with (entry_size (pairs [x])) by (unfold entry_size; cbn; lia).
      apply IH; [apply Forall_app; split; [done|by constructor]|].
      right. exists [], (ip_pair x). split; [done|constructor].
    + rewrite <-entry_size_snoc. change [ip_pair x] with (pairs [x]). rewrite <-fmap_app.
      apply IH; [done|]. rewrite fmap_app. cbn.
      apply andb_false_iff in E as [E|E]; apply Nat.ltb_ge in E.
      * left. rewrite entry_size_snoc. lia.
      * right. exists (pairs open), (ip_pair x). split; [done|]. apply entry_size_0. lia.
Qed.

Lemma ofold_unit_Ok {A} (f : A -> outcome unit) l :
  ofold (fun _ x => f x) tt l = Ok tt <-> Forall (fun x => f x = Ok tt) l.
Proof.
  induction l as [|x l IH]; cbn; [by split; constructor|].
  rewrite Forall_cons_iff, <-IH. destruct (f x) as [[]| |]; cbn; naive_solver.
Qed.

Lemma Forall_enumerate {A} (P : nat * A -> Prop) l :
  Forall P (enumerate l) <-> forall i x, l !! i = Some x -> P (i, x).
Proof.
  unfold enumerate. rewrite Forall_lookup. setoid_rewrite list_lookup_imap_Some. split.
  - intros F i x Hx. apply (F i). eauto.
  - intros F i [j y] (x & Hx & E). simplify_eq. auto.
Qed.

(** [validate] accepts a store exactly when every element passes its test. *)
Lemma validate_Ok ps :
  validate ps = Ok tt <-> forall e entry p x,
    ps !! e = Some entry -> entry !! p = Some x -> validate_element ps e p x = Ok tt.
Proof.
  unfold validate.
  transitivity (ofold (fun _ x => ofold (fun _ y => validate_element ps x.1 y.1 y.2) tt
    (enumerate x.2)) tt (enumerate ps) = Ok tt).
  { assert (Hf : forall l u, ofold (fun _ '(e, entry) =>
      ofold (fun _ '(p, x) => validate_element ps e p x) tt (enumerate entry)) u l =
      ofold (fun _ x => ofold (fun _ y => validate_element ps x.1 y.1 y.2) tt (enumerate x.2)) u l).
    { intros l. induction l as [|[e entry] l IH]; intros u; cbn [ofold fst snd]; [done|].
      assert (forall k u, ofold (fun _ '(p, x) => validate_element ps e p x) u k =
        ofold (fun _ y => validate_element ps e y.1 y.2) u k) as ->.
      { intros k. induction k as [|[p x] k IHk]; intros u'; cbn; [done|].
        destruct (validate_element ps e p x); cbn; auto. }
      destruct (ofold _ _ (enumerate entry)); cbn; auto. }
    by rewrite Hf. }
  rewrite (ofold_unit_Ok (fun x => ofold (fun _ y => validate_element ps x.1 y.1 y.2) tt
    (enumerate x.2))).
  rewrite Forall_enumerate. cbn. setoid_rewrite ofold_unit_Ok.
  setoid_rewrite Forall_enumerate. cbn. naive_solver.
Qed.

Lemma validate_element_prev ps e p key value i j :
  needs_validation (key_type key) = true ->
  validate_element ps e p (key, value, Some (i, j)) = Ok tt <->
  (i < e \/ i = e /\ j < p)%nat /\
  exists entry cached, ps !! i = Some entry /\ entry !! j = Some cached /\
    ip_key cached = key /\ ip_value cached = value.
Proof.
  intros Hn. unfold validate_element. rewrite Hn. cbn [negb].
  destruct (e <? i)%nat eqn:E1; [apply Nat.ltb_lt in E1; split; [done|lia]|].
  apply Nat.ltb_ge in E1.
  destruct ((e =? i)%nat && (p <=? j)%nat) eqn:E2.
  { apply andb_true_iff in E2 as [?%Nat.eqb_eq ?%Nat.leb_le]. split; [done|lia]. }
  assert (i < e \/ i = e /\ j < p)%nat.
  { apply andb_false_iff in E2 as [?%Nat.eqb_neq|?%Nat.leb_gt]; lia. }
  unfold index. destruct (ps !! i) as [entry|] eqn:Ei; cbn; [|naive_solver].
  destruct (entry !! j) as [cached|] eqn:Ej; cbn; [|naive_solver].
  do 2 (case_bool_decide; cbn; [|naive_solver]). naive_solver.
Qed.
(** A validated store holds only authentic preimages: following the pointers
    backwards ends at an element that was checked against its hash. *)
Lemma validate_authentic ps :
  validate ps = Ok tt -> Forall (fun x => authentic (ip_pair x)) (concat ps).
Proof.
  rewrite validate_Ok. intros Hv.
  assert (G : forall e p entry x, ps !! e = Some entry -> entry !! p = Some x -> authentic (ip_pair x)).
  { intros e. induction (lt_wf e) as [e _ IHe]. intros p. induction (lt_wf p) as [p _ IHp].
    intros entry [[key value] prev] He Hp Hn. specialize (Hv _ _ _ _ He Hp).
    destruct prev as [[i j]|].
    - apply validate_element_prev in Hv as (Hpos & entry' & [[k v] pr] & Hi & Hj & <- & <-); [|done].
      destruct Hpos as [Hlt|[-> Hlt]].
      + exact (IHe i Hlt j entry' _ Hi Hj Hn).
      + exact (IHp j Hlt entry' _ Hi Hj Hn).
    - unfold validate_element in Hv. cbn in Hn, Hv. by rewrite Hn in Hv. }
  apply Forall_forall. intros x (entry & He%list_elem_of_In & Hx%list_elem_of_In)%in_concat.
  apply list_elem_of_lookup in Hx as [p Hp]. apply list_elem_of_lookup in He as [e He]. eauto.
Qed.

Definition pos_lt (i j e p : nat) : Prop := (i < e \/ i = e /\ j < p)%nat.

(** A position of the store that holds a preimage for the key. *)
Definition holds (ps : list PreimageVecEntry) (i j : nat) (k : PreimageKey) : Prop :=
  exists entry x, ps !! i = Some entry /\ entry !! j = Some x /\ ip_key x = k.

Definition cache_ok (ps : list PreimageVecEntry) (cache : gmap PreimageKey (nat * nat)) (e p : nat) : Prop :=
  forall k i j, cache !! k = Some (i, j) -> pos_lt i j e p /\ holds ps i j k.

Definition pointer_ok (ps : list PreimageVecEntry) (e p : nat) (x : IndexedPreimage) : Prop :=
  forall i j, x.2 = Some (i, j) -> pos_lt i j e p /\ holds ps i j (ip_key x).

Lemma cache_ok_empty ps e p : cache_ok ps ∅ e p.
Proof. intros k i j Hk. by rewrite lookup_empty in Hk. Qed.

Lemma point_entry_spec ps e pre entry cache cache' entry' :
  ps !! e = Some (pre ++ entry) -> cache_ok ps cache e (length pre) ->
  Forall (fun x => x.2 = None) entry ->
  point_entry cache e (length pre) entry = (cache', entry') ->
  cache_ok ps cache' e (length (pre ++ entry)) /\ pairs entry' = pairs entry /\
  (forall q x, entry' !! q = Some x -> pointer_ok ps e (length pre + q) x).
Proof.
  revert pre cache cache' entry'. induction entry as [|[[k v] ptr] entry IH];
    intros pre cache cache' entry' He Hc Hn; cbn [point_entry].
  - intros [= <- <-]. rewrite app_nil_r. done.
  - apply Forall_cons_iff in Hn as [Hptr Hn]. cbn in Hptr. subst ptr.
    set (c1 := if needs_validation (key_type k) then <[k:=(e, length pre)]> cache else cache).
    set (p1 := if needs_validation (key_type k)
      then match cache !! k with Some prev => Some prev | None => None end else None).
    assert ((if negb (needs_validation (key_type k)) then (cache, None)
      else (<[k:=(e, length pre)]> cache, match cache !! k with Some prev => Some prev | None => None end))
      = (c1, p1)) as -> by (unfold c1, p1; by destruct (needs_validation _)).
    destruct (point_entry c1 e (S (length pre)) entry) as [c2 en2] eqn:Ep. intros [= <- <-].
    replace (S (length pre)) with (length (pre ++ [(k, v, None : pointer)])) in Ep
      by (rewrite length_app; cbn; lia).
    rewrite cons_middle, app_assoc in He.
    apply IH in Ep as (Hc2 & Hpairs & Hptrs); [|done| |done].
    + rewrite <-app_assoc in Hc2. split_and!; [done|cbn; congruence|].
      intros [|q] x Hx; cbn in Hx.
      * simplify_eq. intros i j Hij. rewrite Nat.add_0_r. apply Hc.
        unfold p1 in Hij. cbn in Hij. destruct (needs_validation _); [|done].
        cbn. by destruct (cache !! k).
      * replace (length pre + S q)%nat with (length (pre ++ [(k, v, None : pointer)]) + q)%nat
          by (rewrite length_app; cbn; lia). auto.
    + intros k' i j Hk. rewrite length_app. cbn. unfold c1 in Hk.
      assert (Hold : cache !! k' = Some (i, j) -> pos_lt i j e (length pre + 1) /\ holds ps i j k').
      { intros [Hlt ?]%Hc. split; [|done]. unfold pos_lt in *. lia. }
      destruct (needs_validation _); [|auto]. destruct (decide (k' = k)) as [->|].
      * rewrite lookup_insert_eq in Hk. simplify_eq. split; [unfold pos_lt; lia|].
        eexists _, (k, v, None). split_and!; [exact He| |done].
        rewrite <-app_assoc. cbn. by apply list_lookup_middle.
      * rewrite lookup_insert_ne in Hk by done. auto.
Qed.

Lemma point_entries_spec ps pre l cache :
  ps = pre ++ l -> cache_ok ps cache (length pre) 0 ->
  Forall (fun x => x.2 = None) (concat l) ->
  Forall2 (fun en en' => pairs en' = pairs en) l (point_entries cache (length pre) l) /\
  (forall e en p x, point_entries cache (length pre) l !! e = Some en -> en !! p = Some x ->
     pointer_ok ps (length pre + e) p x).
Proof.
  intros Hps. revert pre cache Hps. induction l as [|en l IH]; intros pre cache Hps Hc Hn;
    cbn [point_entries concat] in *; [split; [constructor|done]|].
  apply Forall_app in Hn as [Hn1 Hn2].
  destruct (point_entry cache (length pre) 0 en) as [c1 en1] eqn:Ep.
  apply (point_entry_spec ps (length pre) []) in Ep as (Hc1 & Hpairs & Hptr);
    [| by rewrite Hps, list_lookup_middle | done | done].
  replace (S (length pre)) with (length (pre ++ [en])) by (rewrite length_app; cbn; lia).
  destruct (IH (pre ++ [en]) c1) as [IH1 IH2]; [by rewrite <-app_assoc| |done|].
  { intros k i j [Hlt ?]%Hc1. split; [|done]. rewrite length_app. unfold pos_lt in *. cbn in *. lia. }
  split; [by constructor|]. intros [|e] en' p x He Hx; cbn in He.
  - simplify_eq. rewrite Nat.add_0_r. by apply (Hptr p).
  - replace (length pre + S e)%nat with (length (pre ++ [en]) + e)%nat
      by (rewrite length_app; cbn; lia). eauto.
Qed.
(** Two different values recorded for one authenticated key: a collision. *)
Definition consistent (l : list (PreimageKey * bytes)) : Prop :=
  forall k v1 v2, needs_validation (key_type k) = true ->
    (k, v1) ∈ l -> (k, v2) ∈ l -> v1 = v2.

Lemma pairs_concat (l l' : list PreimageVecEntry) :
  Forall2 (fun en en' => pairs en' = pairs en) l l' -> pairs (concat l') = pairs (concat l).
Proof. induction 1 as [|en en' l l' E _ IH]; [done|]. cbn. by rewrite !fmap_app, E, IH. Qed.

Lemma element_stored ps e p en x :
  ps !! e = Some en -> en !! p = Some x -> ip_pair x ∈ pairs (concat ps).
Proof.
  intros He Hp. apply list_elem_of_fmap_2, elem_of_concat.
  exists en. split; eauto using list_elem_of_lookup_2.
Qed.

(** Pointing a store of authentic preimages back at itself keeps it valid. *)
Lemma point_entries_valid ps :
  Forall (fun x => x.2 = None) (concat ps) ->
  Forall authentic (pairs (concat ps)) -> consistent (pairs (concat ps)) ->
  validate (point_entries ∅ 0 ps) = Ok tt.
Proof.
  intros Hn Ha Hc.
  destruct (point_entries_spec ps [] ps ∅) as [Hpairs Hptr]; [done|apply cache_ok_empty|done|].
  cbn in Hpairs, Hptr. set (R := point_entries ∅ 0 ps) in *.
  assert (HR : pairs (concat R) = pairs (concat ps)) by by apply pairs_concat.
  apply validate_Ok. intros e en p [[key value] ptr] He Hp.
  pose proof (element_stored _ _ _ _ _ He Hp) as Hin. rewrite HR in Hin. cbn in Hin.
  destruct (needs_validation (key_type key)) eqn:Hnv; [|cbn; by rewrite Hnv].
  destruct ptr as [[i j]|].
  - apply validate_element_prev; [done|].
    destruct (Hptr e en p _ He Hp i j eq_refl) as (Hlt & eni & x & Hi & Hj & Hk). cbn in Hk.
    split; [done|]. destruct (Forall2_lookup_l _ _ _ _ _ Hpairs Hi) as (enR & HiR & Hen).
    assert (Hx : pairs enR !! j = Some (ip_pair x)) by (by rewrite Hen, list_lookup_fmap, Hj).
    apply list_lookup_fmap_Some in Hx as (y & Hy & HjR).
    exists enR, y. split_and!; [done|done| |].
    + unfold ip_key, ip_pair in *. congruence.
    + symmetry. eapply (Hc key); [done|done|].
      pose proof (element_stored _ _ _ _ _ HiR HjR) as Hin'. rewrite HR in Hin'.
      destruct y as [[ky vy] py]. unfold ip_pair, ip_key in *. cbn in *. destruct x as [[? ?] ?].
      cbn in *. simplify_eq. done.
  - cbn. rewrite Hnv. cbn. apply (proj1 (List.Forall_forall _ _) Ha (key, value)); [|done].
    by apply list_elem_of_In.
Qed.

Lemma unpointed_valid ps :
  Forall (fun x => x.2 = None) (concat ps) -> Forall authentic (pairs (concat ps)) ->
  validate ps = Ok tt.
Proof.
  intros Hn Ha. apply validate_Ok. intros e en p [[key value] ptr] He Hp.
  assert (Hin : (key, value, ptr) ∈ concat ps)
    by (apply elem_of_concat; exists en; split; eauto using list_elem_of_lookup_2).
  pose proof (proj1 (List.Forall_forall _ _) Hn _ (proj1 (list_elem_of_In _ _) Hin)) as Hp0.
  cbn in Hp0. subst ptr. cbn. destruct (needs_validation _) eqn:Hnv; [|done]. cbn.
  apply (proj1 (List.Forall_forall _ _) Ha (key, value)); [|done].
  apply list_elem_of_In. by apply (list_elem_of_fmap_2 ip_pair _ (key, value, None)).
Qed.

Lemma shard_loop_unpointed n l :
  Forall (fun x : IndexedPreimage => x.2 = None) l ->
  Forall (fun x => x.2 = None) (concat (shard_loop n [] [] 0 l)).
Proof. by rewrite shard_loop_concat. Qed.

(** Finalizing a recorded run. *)
Lemma finalize_recorded reads s n ptrs :
  record_all reads = Ok s ->
  exists s', finalize_preimages s n ptrs = Ok s' /\
    stored s' = rev reads /\ queue s' = [] /\ frames s' = frames s /\
    Forall (fun sh => shard_ok n (pairs sh)) (preimages s') /\
    (consistent reads -> validate (preimages s') = Ok tt).
Proof.
  intros (Hs & Hq & Hv & Hn)%record_all_stored.
  unfold stored in Hs. rewrite Hq, app_nil_r in Hs.
  assert (Ha : Forall authentic (pairs (concat (preimages s)))).
  { rewrite Hs. revert Hv. apply List.Forall_impl. by intros [k v] ? _. }
  unfold finalize_preimages. rewrite (unpointed_valid _ Hn Ha). cbn [expect mbind outcome_bind].
  eexists; split; [done|]. unfold stored. cbn [preimages queue frames]. rewrite Hq, app_nil_r.
  set (S := shard_loop n [] [] 0 (rev (concat (preimages s)))).
  assert (HS : concat S = rev (concat (preimages s))) by (unfold S; by rewrite shard_loop_concat).
  assert (HnS : Forall (fun x => x.2 = None) (concat S)).
  { rewrite HS. by apply Forall_rev. }
  assert (HpS : pairs (concat S) = rev reads) by (rewrite HS, fmap_rev; congruence).
  assert (HaS : Forall authentic (pairs (concat S))).
  { rewrite HpS, <-Hs. by apply Forall_rev. }
  split_and!; [|done|done| |].
  - destruct ptrs; [|done]. rewrite <-HpS. apply pairs_concat.
    apply (point_entries_spec S [] S ∅); [done|apply cache_ok_empty|done].
  - assert (Hok : Forall (fun sh => shard_ok n (pairs sh)) S).
    { apply (shard_loop_ok n [] []); [constructor|]. left. unfold entry_size. cbn. lia. }
    destruct ptrs; [|done].
    destruct (point_entries_spec S [] S ∅) as [Hp _]; [done|apply cache_ok_empty|done|].
    clear -Hok Hp. cbn [length] in Hp. revert Hp. generalize (point_entries ∅ 0 S).
    intros R Hp. induction Hp as [|en en' l l' E _ IH]; [constructor|].
    apply Forall_cons_iff in Hok as [? ?]. constructor; [by rewrite E|auto].
  - intros Hc. destruct ptrs; [|by apply unpointed_valid].
    apply point_entries_valid; [done|done|]. rewrite HpS.
    intros k v1 v2 Hk H1 H2. rewrite !elem_of_rev in *. eauto.
Qed.
Lemma recorded_ready reads s n ptrs s' zkvm :
  record_all reads = Ok s -> finalize_preimages s n ptrs = Ok s' ->
  ready zkvm s' /\ total s' = rev reads.
Proof.
  intros Hr Hf. destruct (finalize_recorded reads s n ptrs Hr) as (t & Ht & Hs & Hq & Hfr & _).
  rewrite Hf in Ht. apply Ok_inj in Ht as <-.
  assert (Hf0 : frames s = []).
  { clear -Hr. unfold record_all in Hr.
    refine (ofold_invariant (fun s => frames s = []) _ _ _ _ _ Hr _); [done|].
    intros t [k v] t' Ht _ Hi. unfold insert_preimage in Hi. ok_inv. destruct x0. ok_inv. done. }
  rewrite Hf0 in Hfr. unfold ready, total. rewrite Hfr, Hs. split; [|done].
  split; [done|]. by destruct zkvm.
Qed.

Lemma streamed_ready reads s n s' :
  record_all reads = Ok s -> finalize_preimages s n false = Ok s' ->
  ready true (stream_witness s') /\ total (stream_witness s') = rev reads.
Proof.
  intros Hr Hf. pose proof (record_all_stored _ _ Hr) as (Hst & Hq & Hv & Hn).
  unfold stored in Hst. rewrite Hq, app_nil_r in Hst.
  unfold finalize_preimages in Hf. ok_inv. unfold ready, total, stored, stream_witness.
  cbn [shard_witness_data preimages queue frames concat].
  rewrite Hq, rev_involutive, shard_loop_concat. cbn [concat app fmap list_fmap].
  rewrite app_nil_r, fmap_rev, Hst.
  split; [|done]. split; [done|]. apply Forall_rev.
  set (S := shard_loop n [] [] 0 (rev (concat (preimages s)))).
  assert (HS : concat S = rev (concat (preimages s))) by (unfold S; by rewrite shard_loop_concat).
  assert (HnS : Forall (fun x => x.2 = None) (concat S)) by (rewrite HS; by apply Forall_rev).
  assert (HaS : Forall authentic (pairs (concat S))).
  { rewrite HS, fmap_rev, Hst. apply Forall_rev. revert Hv. apply List.Forall_impl. by intros [k v] ? _. }
  clear -HnS HaS. induction S as [|en S IH]; [constructor|]. cbn [concat] in *.
  rewrite fmap_app in HaS. apply Forall_app in HnS as [? ?], HaS as [? ?].
  constructor; [apply unpointed_valid; cbn; by rewrite app_nil_r|auto].
Qed.

Lemma load_shards_emptied (shards : list PreimageVecEntry) :
  load_shards ((fun _ => []) <$> shards) shards = Ok (shards, []).
Proof. induction shards as [|sh shards IH]; [done|]. cbn in *. by rewrite IH. Qed.

Lemma preload_witness_id s : preload_witness s = Ok s.
Proof.
  unfold preload_witness, shard_witness_data. rewrite load_shards_emptied. by destruct s.
Qed.

(** ** Properties *)

(** C16. A witness that passes validation is authentic: in a store accepted by
    [validate], every preimage under a hash key is a preimage of its key, also
    when it was only compared with an earlier copy through its pointer, and no
    key is of the blob or precompile type. *)
Theorem validate_sound ps key value :
  validate ps = Ok tt -> (key, value) ∈ pairs (concat ps) ->
  match key_type key with
  | Keccak256 => key = key_new (keccak256 value) Keccak256
  | Sha256 => key = key_new (sha256 value) Sha256
  | BlobKey | Precompile => False
  | Local | GlobalGeneric => True
  end.
Proof.
  intros Hv%validate_authentic Hin. apply list_elem_of_fmap in Hin as (x & Hx & Hin).
  rewrite List.Forall_forall in Hv. specialize (Hv x (proj1 (list_elem_of_In _ _) Hin)).
  rewrite <-Hx in Hv. unfold authentic, validate_preimage in Hv. cbn in Hv.
  destruct (key_type key) eqn:Et; cbn in Hv; try done.
  - specialize (Hv eq_refl). by case_bool_decide.
  - specialize (Hv eq_refl). by case_bool_decide.
  - by specialize (Hv eq_refl).
  - by specialize (Hv eq_refl).
Qed.

(** What [VecOracle::get] does: on either target, between two reads, it
    removes the last stored occurrence of the requested key, keeps everything
    else in order (the preimages skipped on the way come back from the queue),
    returns its value and leaves the queue empty; it never returns an error,
    and it panics only if no preimage of the key is left, neither in the store
    nor (in the zkVM) in the shards to be streamed. *)
Theorem vec_get_spec zkvm key s :
  ready zkvm s -> read_spec (ready zkvm) key (total s) (vec_get zkvm key s).
Proof. apply vec_get_ready. Qed.

(** Streaming preimages into the zkVM is safe whatever the host streams: if
    the store and the queue hold only authentic preimages, so they do after any
    successful read, and the value returned is authentic. *)
Theorem streamed_get_authentic key s v s' :
  Forall authentic (stored s) -> vec_get true key s = (Ok v, s') ->
  authentic (key, v) /\ Forall authentic (stored s').
Proof.
  unfold stored. intros [Hp Hq]%Forall_app. unfold vec_get.
  pose proof (seek_store_authentic key (rev (preimages s)) (queue s)) as Hs.
  rewrite rev_involutive in Hs. specialize (Hs Hp Hq).
  destruct (seek_store _ _ _) as [[[v' rstore]|] q].
  - intros E. simplify_eq. cbn. destruct Hs as (? & ? & ->). by rewrite app_nil_r.
  - clear Hp Hq. revert q Hs. induction (frames s) as [|f fs IH]; intros q Hq; cbn [seek_frames]; [done|].
    destruct (validate [f]) as [[]|e|w] eqn:Ef; cbn [expect]; [|done..].
    pose proof (validate_authentic _ Ef) as Hfa. cbn [concat] in Hfa. rewrite app_nil_r in Hfa.
    pose proof (seek_store_authentic key [f] q) as Hsf.
    cbn [rev app concat] in Hsf. rewrite app_nil_r in Hsf.
    specialize (Hsf ltac:(by apply Forall_fmap) Hq).
    destruct (seek_store key [f] q) as [[[v' rstore]|] q'].
    + intros E. simplify_eq. cbn. destruct Hsf as (? & ? & ->). by rewrite app_nil_r.
    + by apply IH.
Qed.

(** Replaying a recorded run: when the recorder inserted the preimages of a
    run in the order in which they were read, finalized them with any shard
    size, with or without pointers, and the guest reloaded the shards, the same
    reads in the same order return the recorded values and use the witness up. *)
Theorem witness_replay zkvm reads s n ptrs :
  record_all reads = Ok s ->
  exists s1 s2 s3, finalize_preimages s n ptrs = Ok s1 /\ preload_witness s1 = Ok s2 /\
    @get_all _ (vec_oracle zkvm) reads.*1 s2 = (Ok reads.*2, s3) /\ total s3 = [].
Proof.
  intros Hr. destruct (finalize_recorded reads s n ptrs Hr) as (s1 & Hf & _).
  destruct (recorded_ready _ _ _ _ _ zkvm Hr Hf) as [Hrd Ht].
  destruct (get_all_in_order zkvm reads s1 Hrd Ht) as (s3 & Hg & Hs3 & _).
  exists s1, s1, s3. split_and!; [done|apply preload_witness_id|done|done].
Qed.

(** Replaying tolerates reordered reads: hash-map iteration may reorder the
    reads of a run, and with the witness streamed shard by shard into the zkVM
    any permutation of the recorded keys is still served without a panic; the
    key-value pairs returned are the recorded ones, each exactly once. *)
Theorem streamed_replay_reordered reads s n s1 keys :
  record_all reads = Ok s -> finalize_preimages s n false = Ok s1 -> keys ≡ₚ reads.*1 ->
  exists vs s2, @get_all _ (vec_oracle true) keys (stream_witness s1) = (Ok vs, s2) /\
    length vs = length keys /\ zip keys vs ≡ₚ reads /\ total s2 = [].
Proof.
  intros Hr Hf Hk. destruct (streamed_ready _ _ _ _ Hr Hf) as [Hrd Ht].
  destruct (get_all_reordered true keys _ Hrd) as (vs & s2 & Hg & Hl & Hz & Hs2 & _).
  { rewrite Ht, fmap_rev, rev_Permutation. done. }
  exists vs, s2. rewrite Ht, rev_Permutation in Hz. done.
Qed.

(** Finalizing a recorded run never panics, reverses the order of the
    preimages without losing one, respects the shard size (a shard exceeds it
    only by a single preimage larger than the limit), and the pointers it adds
    pass validation, unless one key was recorded with two values. *)
Theorem finalize_preimages_spec reads s n ptrs :
  record_all reads = Ok s ->
  exists s', finalize_preimages s n ptrs = Ok s' /\ total s' = rev reads /\
    Forall (fun shard => shard_ok n (pairs shard)) (preimages s') /\
    (consistent reads -> validate (preimages s') = Ok tt).
Proof.
  intros Hr. destruct (finalize_recorded reads s n ptrs Hr) as (s' & Hf & _ & _ & _ & Hok & Hv).
  destruct (recorded_ready _ _ _ _ _ false Hr Hf) as [_ Ht]. eauto 10.
Qed.
End vec_lemmas.

Section local_lemmas.
Context {O : Type} `{PreimageOracle O}.

(** No call changes an answer that is already cached. *)
Lemma run_request_cache r (s : LocalOnceOracle O) key v :
  cache s !! key = Some v -> cache (run_request r s).2 !! key = Some v.
Proof.
  intros Hc. destruct r as [k|k len]; cbn; unfold local_get, local_get_exact, forward;
    (destruct (is_local k); cbn [negb];
      [|by match goal with |- context [let '(_, _) := ?m in _] => destruct m end]);
    unfold mbind, St_bind, get_st; (destruct (cache s !! k) as [v'|] eqn:Ek; [done|]);
    match goal with
    | |- context [get ?a (oracle s)] => destruct (get a (oracle s)) as [[r|e|w] o]
    | |- context [get_exact ?a ?n (oracle s)] => destruct (get_exact a n (oracle s)) as [[r|e|w] o]
    end;
    unfold cache_insert, mret, St_ret; cbn [snd cache]; try done;
    rewrite lookup_insert_ne; congruence.
Qed.

Lemma run_requests_cache rs (s : LocalOnceOracle O) key v :
  cache s !! key = Some v -> cache (run_requests rs s) !! key = Some v.
Proof.
  unfold run_requests. revert s. induction rs as [|r rs IH]; intros s Hc; [done|].
  cbn. by apply IH, run_request_cache.
Qed.

Lemma local_get_caches key (s : LocalOnceOracle O) v s' :
  is_local key = true -> local_get key s = (Ok v, s') -> cache s' !! key = Some v.
Proof.
  unfold local_get. intros ->. cbn [negb]. unfold mbind, St_bind, get_st.
  destruct (cache s !! key) as [v'|] eqn:Ek.
  - unfold mret, St_ret. intros E. by simplify_eq.
  - unfold forward, cache_insert, mret, St_ret. destruct (get key (oracle s)) as [[r|e|w] o];
      cbn [cache oracle]; intros E; simplify_eq. cbn [cache]. by rewrite lookup_insert_eq.
Qed.

(** The prover cannot answer a local key twice differently: once
    [LocalOnceOracle] has returned a value for a local key, then after any
    further calls, whatever the wrapped oracle does in them, the key has the
    same value, and reading it does not ask the wrapped oracle again. *)
Theorem local_once_stable key (s : LocalOnceOracle O) v s1 rs :
  is_local key = true -> get key s = (Ok v, s1) ->
  let s2 := run_requests rs s1 in
  get key s2 = (Ok v, s2) /\ get_exact key (length v) s2 = (Ok v, s2).
Proof.
  intros Hl Hg s2. cbn in Hg. apply local_get_caches in Hg; [|done].
  assert (Hc : cache s2 !! key = Some v) by by apply run_requests_cache.
  cbn. unfold local_get, local_get_exact. rewrite Hl. cbn [negb].
  unfold mbind, St_bind, get_st. rewrite Hc. unfold lift, copy_from_slice.
  by rewrite Nat.eqb_refl.
Qed.
End local_lemmas.

(** ** Witnesses *)

Definition demo_hash_key (v : bytes) : PreimageKey :=
  @key_new demo_keys (@keccak256 demo_digests v) Keccak256.
Definition demo_local_key : PreimageKey := @key_new demo_keys 1 Local.
Definition demo_reads : list (PreimageKey * bytes) :=
  [(demo_local_key, zeros 2); (demo_hash_key (zeros 3), zeros 3);
   (demo_hash_key (zeros 1), zeros 1); (demo_hash_key (zeros 3), zeros 3)].
Definition demo_oracle (zkvm : bool) := @vec_oracle demo_digests demo_keys zkvm.
Definition demo_recorded : VecOracle :=
  {| preimages := [(fun kv => (kv, None)) <$> demo_reads]; queue := []; frames := [] |}.
Definition demo_finalized : outcome VecOracle :=
  @finalize_preimages demo_digests demo_keys demo_recorded 4 false.

Lemma validate_sound_witness :
  demo_hash_key (zeros 3) = @key_new demo_keys (@keccak256 demo_digests (zeros 3)) Keccak256.
Proof.
  apply (@validate_sound demo_digests demo_keys
    [[(demo_hash_key (zeros 3), zeros 3, None)];
     [(demo_local_key, [], None); (demo_hash_key (zeros 3), zeros 3, Some (0, 0)%nat)]]
    (demo_hash_key (zeros 3)) (zeros 3)); [vm_compute; reflexivity|]. by left.
Defined.

Lemma vec_get_spec_witness :
  @read_spec (@ready demo_digests demo_keys true) demo_local_key (total demo_recorded)
    (@vec_get demo_digests demo_keys true demo_local_key demo_recorded).
Proof. apply (@vec_get_spec demo_digests demo_keys true). split; [reflexivity|constructor]. Defined.

Lemma streamed_get_authentic_witness :
  @authentic demo_digests demo_keys (demo_hash_key (zeros 3), zeros 3) /\
  Forall (@authentic demo_digests demo_keys) [(demo_local_key, zeros 2)].
Proof.
  apply (@streamed_get_authentic demo_digests demo_keys (demo_hash_key (zeros 3))
    {| preimages := []; queue := [];
       frames := [[(demo_local_key, zeros 2, None); (demo_hash_key (zeros 3), zeros 3, None)]] |}
    (zeros 3) {| preimages := [[(demo_local_key, zeros 2, None)]]; queue := []; frames := [] |}).
  - constructor.
  - vm_compute. reflexivity.
Defined.

Lemma witness_replay_witness :
  exists s1 s2 s3, @finalize_preimages demo_digests demo_keys demo_recorded 4 true = Ok s1 /\
    preload_witness s1 = Ok s2 /\
    @get_all _ (demo_oracle false) demo_reads.*1 s2 = (Ok demo_reads.*2, s3) /\ total s3 = [].
Proof. apply (@witness_replay demo_digests demo_keys false). vm_compute. reflexivity. Defined.

Lemma streamed_replay_reordered_witness :
  exists vs s2, @get_all _ (demo_oracle true) (rev demo_reads.*1)
      (stream_witness match demo_finalized with Ok s => s | _ => demo_recorded end) = (Ok vs, s2) /\
    length vs = length (rev demo_reads.*1) /\ zip (rev demo_reads.*1) vs ≡ₚ demo_reads /\ total s2 = [].
Proof.
  apply (@streamed_replay_reordered demo_digests demo_keys demo_reads demo_recorded 4).
  - vm_compute. reflexivity.
  - vm_compute. reflexivity.
  - apply rev_Permutation.
Defined.

Lemma finalize_preimages_spec_witness :
  exists s', @finalize_preimages demo_digests demo_keys demo_recorded 4 true = Ok s' /\
    total s' = rev demo_reads /\
    Forall (fun shard => shard_ok 4 (pairs shard)) (preimages s') /\
    (consistent demo_reads -> @validate demo_digests demo_keys (preimages s') = Ok tt).
Proof. apply (@finalize_preimages_spec demo_digests demo_keys). vm_compute. reflexivity. Defined.

(** An oracle that answers every call differently. *)
Definition fickle_oracle : PreimageOracle nat := {|
  get := fun _ n => (Ok (zeros n), S n); get_exact := fun _ len n => (Ok (zeros len), S n) |}.

Lemma local_once_stable_witness :
  let s := {| oracle := 5%nat; cache := ∅ |} in
  let s1 := {| oracle := 6%nat; cache := {[ demo_local_key := zeros 5 ]} |} in
  let s2 := @run_requests _ (@local_once_oracle _ fickle_oracle)
    [Get (demo_hash_key []); Get demo_local_key] s1 in
  @get _ (@local_once_oracle _ fickle_oracle) demo_local_key s2 = (Ok (zeros 5), s2) /\
  @get_exact _ (@local_once_oracle _ fickle_oracle) demo_local_key 5 s2 = (Ok (zeros 5), s2).
Proof.
  intros s s1 s2.
  apply (@local_once_stable nat fickle_oracle demo_local_key s (zeros 5) s1
    [Get (demo_hash_key []); Get demo_local_key]); vm_compute; reflexivity.
Defined.
