(* ===== verification/Executor.v ===== *)
(** * crates/kona/src/executor.rs

    Executions of L2 blocks: what they record, the hashes that commit to them,
    the executor that replays cached ones, and the recovery of a trace from a
    collecting run ([recover_collected_executions] of client/core.rs). *)

From S2P Require Import Prelude Bytes Config.

(** alloy's [Withdrawal], op-alloy's [OpPayloadAttributes] and kona's
    [BlockBuildingOutcome]; what the program only compares is a byte string. *)
Record Withdrawal := {
  wd_index : Z; wd_validator_index : Z; wd_address : Z; wd_amount : Z }.

Record OpPayloadAttributes := {
  timestamp : Z; prev_randao : Z; suggested_fee_recipient : Z;
  withdrawals : option (list Withdrawal); parent_beacon_block_root : option Z;
  transactions : option (list bytes); no_tx_pool : option bool;
  attr_gas_limit : option Z; eip_1559_params : option Z;
}.

(** [Sealed<Header>]: a header next to its claimed hash. *)
Record SealedHeader := {
  hdr_hash : Z; hdr_number : Z; hdr_receipts_root : Z; hdr_gas_used : Z; hdr_rest : bytes }.

Record BlockExecutionResult := {
  receipts : list bytes; requests : list bytes; er_gas_used : Z }.

Record BlockBuildingOutcome := { header : SealedHeader; execution_result : BlockExecutionResult }.

Record Execution := {
  agreed_output : Z; attributes : OpPayloadAttributes;
  artifacts : BlockBuildingOutcome; claimed_output : Z;
}.

#[export] Instance withdrawal_eq_dec : EqDecision Withdrawal.
Proof. solve_decision. Defined.
#[export] Instance payload_attributes_eq_dec : EqDecision OpPayloadAttributes.
Proof. solve_decision. Defined.
#[export] Instance sealed_header_eq_dec : EqDecision SealedHeader.
Proof. solve_decision. Defined.
#[export] Instance block_execution_result_eq_dec : EqDecision BlockExecutionResult.
Proof. solve_decision. Defined.
#[export] Instance block_building_outcome_eq_dec : EqDecision BlockBuildingOutcome.
Proof. solve_decision. Defined.
#[export] Instance execution_eq_dec : EqDecision Execution.
Proof. solve_decision. Defined.

(** [alloy_rlp::encode] of a list of transactions. *)
Class Rlp := { rlp_encode : list bytes -> bytes }.

Section hashes.
Context `{Digests} `{Rlp}.

Definition withdrawal_bytes (w : Withdrawal) : bytes :=
  concat [be_bytes 8 (wd_index w); be_bytes 8 (wd_validator_index w);
          address_bytes (wd_address w); be_bytes 8 (wd_amount w)].

Definition withdrawals_hash (wds : list Withdrawal) : Z :=
  sha256 (concat (withdrawal_bytes <$> wds)).

Definition transactions_hash (txs : list bytes) : Z := sha256 (rlp_encode txs).

Definition attributes_bytes (a : OpPayloadAttributes) : outcome bytes :=
  wds ← expect "infallible" (safe_default (withdrawals_hash <$> withdrawals a) 0);
  root ← safe_default (parent_beacon_block_root a) 0;
  txs ← expect "infallible" (safe_default (transactions_hash <$> transactions a) 0);
  pool ← expect "infallible" (safe_default (Z.b2z <$> no_tx_pool a) 0xff);
  gas_limit ← safe_default (attr_gas_limit a) u64_MAX;
  params ← safe_default (eip_1559_params a) u64_MAX;
  Ok (be_bytes 8 (timestamp a) ++ b256_bytes (prev_randao a) ++
      address_bytes (suggested_fee_recipient a) ++ b256_bytes wds ++ b256_bytes root ++
      b256_bytes txs ++ be_bytes 1 pool ++ be_bytes 8 gas_limit ++ be_bytes 8 params).

Definition attributes_hash (a : OpPayloadAttributes) : outcome Z :=
  hashed_bytes ← attributes_bytes a; Ok (sha256 hashed_bytes).

Definition execution_bytes (e : Execution) : outcome bytes :=
  attr ← expect "Unhashable attributes." (attributes_hash (attributes e));
  Ok (concat [b256_bytes (agreed_output e); b256_bytes attr;
              b256_bytes (hdr_hash (header (artifacts e))); b256_bytes (claimed_output e)]).

Definition exec_precondition_hash (executions : list Execution) : outcome Z :=
  chunks ← omap_m execution_bytes executions;
  Ok (sha256 (concat chunks)).
End hashes.

(** ** The cached executor *)

(** kona's [Executor] trait. *)
Class Executor (E : Type) := {
  update_safe_head : SealedHeader -> E -> E;
  execute_payload : OpPayloadAttributes -> St E BlockBuildingOutcome;
  compute_output_root : St E Z;
}.

(** The collection target is shared with the caller, who reads it back when the
    executor is gone. *)
Record CachedExecutor (E : Type) := {
  exec_cache : list Execution; executor : E; collection_target : option (list Execution) }.
Arguments exec_cache {E}. Arguments executor {E}. Arguments collection_target {E}.

Section cached.
Context {E : Type} `{Executor E}.

(** A call on the wrapped executor. *)
Definition inner {A} (m : St E A) : St (CachedExecutor E) A := fun s =>
  let '(r, e) := m (executor s) in
  (r, {| exec_cache := exec_cache s; executor := e; collection_target := collection_target s |}).

Definition set_cache (c : list Execution) : St (CachedExecutor E) unit := fun s =>
  (Ok tt, {| exec_cache := c; executor := executor s; collection_target := collection_target s |}).
Definition push_target (x : Execution) : St (CachedExecutor E) unit := fun s =>
  (Ok tt, {| exec_cache := exec_cache s; executor := executor s;
             collection_target := (fun l => l ++ [x]) <$> collection_target s |}).

Definition cached_update_safe_head (h : SealedHeader) (s : CachedExecutor E) : CachedExecutor E :=
  {| exec_cache := exec_cache s; executor := update_safe_head h (executor s);
     collection_target := collection_target s |}.
Definition cached_compute_output_root : St (CachedExecutor E) Z := inner compute_output_root.

(** [execute_payload] once the cache has been found not to apply. *)
Definition execute_uncached (agreed : Z) (attrs : OpPayloadAttributes)
    : St (CachedExecutor E) BlockBuildingOutcome :=
  s ← get_st;
  match collection_target s with
  | Some _ =>
      arts ← inner (execute_payload attrs);
      _ ← push_target {| agreed_output := agreed; attributes := attrs;
                         artifacts := arts; claimed_output := 0 |};
      mret arts
  | None => inner (execute_payload attrs)
  end.

Definition cached_execute_payload (attrs : OpPayloadAttributes)
    : St (CachedExecutor E) BlockBuildingOutcome :=
  agreed ← cached_compute_output_root;
  s ← get_st;
  match vec_pop (exec_cache s) with
  | Some (e, rest) =>
      if bool_decide (agreed = agreed_output e) && bool_decide (attrs = attributes e)
      then
        _ ← set_cache rest;
        s ← get_st;
        _ ← put_st (cached_update_safe_head (header (artifacts e)) s);
        mret (artifacts e)
      else execute_uncached agreed attrs
  | None => execute_uncached agreed attrs
  end.

#[export] Instance cached_executor : Executor (CachedExecutor E) := {|
  update_safe_head := cached_update_safe_head;
  execute_payload := cached_execute_payload;
  compute_output_root := cached_compute_output_root |}.
End cached.

(** The loop of [recover_collected_executions]:
    [executions[i - 1].claimed_output = executions[i].agreed_output]. *)
Definition with_claimed (e : Execution) (claimed : Z) : Execution :=
  {| agreed_output := agreed_output e; attributes := attributes e;
     artifacts := artifacts e; claimed_output := claimed |}.

Fixpoint recover_collected_executions (executions : list Execution)
    (claimed_l2_output_root : Z) : list Execution :=
  match executions with
  | [] => []
  | [last] => [with_claimed last claimed_l2_output_root]
  | e :: ((e' :: _) as rest) =>
      with_claimed e (agreed_output e') ::
      recover_collected_executions rest claimed_l2_output_root
  end.

(** ** Well-formedness and the preimages of the hashes *)

Definition wf_withdrawal (w : Withdrawal) : Prop :=
  u64 (wd_index w) /\ u64 (wd_validator_index w) /\ address (wd_address w) /\ u64 (wd_amount w).

Definition wf_attributes (a : OpPayloadAttributes) : Prop :=
  u64 (timestamp a) /\ b256 (prev_randao a) /\ address (suggested_fee_recipient a) /\
  from_option (Forall wf_withdrawal) True (withdrawals a) /\
  opt_width 256 (parent_beacon_block_root a) /\ opt_width 64 (attr_gas_limit a) /\
  opt_width 64 (eip_1559_params a).

Definition wf_execution (e : Execution) : Prop :=
  b256 (agreed_output e) /\ wf_attributes (attributes e) /\
  b256 (hdr_hash (header (artifacts e))) /\ b256 (claimed_output e).

(** Two different optional values confused by their nested hash. *)
Definition encoding_collision `{Digests} {A} (enc : A -> bytes) (o1 o2 : option A) : Prop :=
  exists a1 a2, o1 = Some a1 /\ o2 = Some a2 /\ a1 <> a2 /\
    (enc a1 = enc a2 \/ collision sha256 (enc a1) (enc a2)).

Definition attributes_collision `{Digests} `{Rlp} (a1 a2 : OpPayloadAttributes) : Prop :=
  (exists b1 b2, attributes_bytes a1 = Ok b1 /\ attributes_bytes a2 = Ok b2 /\
     collision sha256 b1 b2) \/
  encoding_collision (fun wds => concat (withdrawal_bytes <$> wds)) (withdrawals a1) (withdrawals a2) \/
  encoding_collision rlp_encode (transactions a1) (transactions a2).

(** What a proof's precondition says of an execution: everything but the parts
    of the outcome that the header hash does not cover. *)
Definition committed (e : Execution) : Z * OpPayloadAttributes * Z * Z :=
  (agreed_output e, attributes e, hdr_hash (header (artifacts e)), claimed_output e).

(** ** Lemmas: the hashes *)

Lemma withdrawal_bytes_inj w1 w2 :
  wf_withdrawal w1 -> wf_withdrawal w2 -> withdrawal_bytes w1 = withdrawal_bytes w2 -> w1 = w2.
Proof.
  unfold wf_withdrawal, withdrawal_bytes. cbn [concat]. rewrite !app_nil_r. intros ?? E.
  destruct_and?. fields_inj E. destruct w1, w2. f_equal; assumption.
Qed.

Lemma length_withdrawal_bytes w : length (withdrawal_bytes w) = 44%nat.
Proof. unfold withdrawal_bytes. rewrite length_concat. cbn. unfold address_bytes. by rewrite !length_be_bytes. Qed.

(** Concatenations of fixed-size injective encodings are injective. *)
Lemma concat_map_inj {A} (P : A -> Prop) (enc : A -> bytes) n xs ys :
  (0 < n)%nat -> (forall x, length (enc x) = n) ->
  (forall x y, P x -> P y -> enc x = enc y -> x = y) ->
  Forall P xs -> Forall P ys -> concat (enc <$> xs) = concat (enc <$> ys) -> xs = ys.
Proof.
  intros Hn Hl Hinj Hx Hy E. apply (concat_chunks_inj n) in E; [|lia| |].
  - revert ys Hy E. induction Hx as [|x xs Px _ IH]; intros [|y ys] Hy E; try done.
    cbn in E. apply cons_inj in E as [E1 E2]. apply Forall_cons_iff in Hy as [Py Hy].
    f_equal; auto.
  - apply Forall_fmap, Forall_true. intros. apply Hl.
  - apply Forall_fmap, Forall_true. intros. apply Hl.
Qed.

Lemma nested_inj `{Digests} {A} `{EqDecision A} (enc : A -> bytes) (o1 o2 : option A) h :
  expect "infallible" (safe_default ((fun a => sha256 (enc a)) <$> o1) 0) = Ok h ->
  expect "infallible" (safe_default ((fun a => sha256 (enc a)) <$> o2) 0) = Ok h ->
  o1 = o2 \/ encoding_collision enc o1 o2.
Proof.
  rewrite !expect_Ok. intros S1 S2. pose proof (safe_default_inj _ _ _ _ S1 S2) as E.
  destruct o1 as [a1|], o2 as [a2|]; cbn in E; simplify_eq; [|by left].
  destruct (decide (a1 = a2)) as [->|Hne]; [by left|right]. exists a1, a2.
  split_and!; [done..|]. by apply hash_inj_or_collision.
Qed.

Lemma nested_width `{Digests} {A} (enc : A -> bytes) (o : option A) h :
  expect "infallible" (safe_default ((fun a => sha256 (enc a)) <$> o) 0) = Ok h -> b256 h.
Proof.
  rewrite expect_Ok. intros [[E _]|[_ ->]]%safe_default_Ok; [|unfold in_width; lia].
  destruct o; cbn in E; simplify_eq. apply sha256_width.
Qed.

Lemma attributes_bytes_inj `{Digests} `{Rlp} a1 a2 bs :
  wf_attributes a1 -> wf_attributes a2 ->
  attributes_bytes a1 = Ok bs -> attributes_bytes a2 = Ok bs ->
  a1 = a2 \/ attributes_collision a1 a2.
Proof.
  unfold wf_attributes, attributes_bytes, attributes_collision, withdrawals_hash, transactions_hash.
  intros W1 W2 B1 B2. repeat (apply bind_Ok in B1 as (? & ? & B1)).
  repeat (apply bind_Ok in B2 as (? & ? & B2)). apply Ok_inj in B1, B2. subst bs.
  destruct_and?.
  repeat match goal with
  | X : expect _ (safe_default ((fun a => sha256 (@?e a)) <$> _) 0) = Ok ?v |- _ =>
      assert_fails (assert (b256 v) by assumption); pose proof (nested_width _ _ _ X)
  | X : expect _ (safe_default (Z.b2z <$> _) _) = Ok _ |- _ => rewrite expect_Ok in X
  end.
  assert (Hb : forall o, opt_width (8 * Z.of_nat 1) (Z.b2z <$> o)).
  { intros [[]|]; cbn; unfold in_width; lia. }
  assert (in_width (8 * Z.of_nat 1) 0xff) by (unfold in_width; cbn; lia).
  assert (in_width 256 0) by (unfold in_width; lia).
  pose proof (Hb (no_tx_pool a1)). pose proof (Hb (no_tx_pool a2)).
  symmetry in B2. fields_inj B2. subst.
  repeat match goal with
  | X : expect _ (safe_default ((fun a => sha256 (@?e a)) <$> ?o1) 0) = Ok ?v,
    Y : expect _ (safe_default ((fun a => sha256 (@?e a)) <$> ?o2) 0) = Ok ?v |- _ =>
      destruct (nested_inj _ _ _ _ X Y); [clear X|tauto]
  end.
  assert (no_tx_pool a1 = no_tx_pool a2).
  { match goal with X : _ <$> no_tx_pool a1 = _ <$> no_tx_pool a2 |- _ =>
      destruct (no_tx_pool a1) as [[]|], (no_tx_pool a2) as [[]|]; cbn in X; congruence end. }
  left. destruct a1, a2; f_equal; assumption.
Qed.

Lemma attributes_hash_inj `{Digests} `{Rlp} a1 a2 h :
  wf_attributes a1 -> wf_attributes a2 ->
  attributes_hash a1 = Ok h -> attributes_hash a2 = Ok h ->
  a1 = a2 \/ attributes_collision a1 a2.
Proof.
  unfold attributes_hash. intros W1 W2 (b1 & E1 & H1)%bind_Ok (b2 & E2 & H2)%bind_Ok.
  apply Ok_inj in H1, H2. subst h.
  destruct (hash_inj_or_collision _ _ _ H2) as [->|Hc].
  - by eapply attributes_bytes_inj.
  - right. left. exists b1, b2. split_and!; [done|done|]. by destruct Hc.
Qed.

Lemma attributes_hash_width `{Digests} `{Rlp} a h : attributes_hash a = Ok h -> b256 h.
Proof. unfold attributes_hash. intros (b & _ & E)%bind_Ok. apply Ok_inj in E as <-. apply sha256_width. Qed.

Lemma execution_bytes_inj `{Digests} `{Rlp} e1 e2 bs :
  wf_execution e1 -> wf_execution e2 ->
  execution_bytes e1 = Ok bs -> execution_bytes e2 = Ok bs ->
  committed e1 = committed e2 \/ attributes_collision (attributes e1) (attributes e2).
Proof.
  unfold wf_execution, execution_bytes. intros (?&Wa1&?&?) (?&Wa2&?&?).
  intros (h1 & E1 & B1)%bind_Ok (h2 & E2 & B2)%bind_Ok. apply Ok_inj in B1, B2. subst bs.
  apply expect_Ok in E1, E2.
  pose proof (attributes_hash_width _ _ E1). pose proof (attributes_hash_width _ _ E2).
  cbn [concat] in B2. rewrite !app_nil_r in B2. fields_inj B2. subst.
  destruct (attributes_hash_inj _ _ h1 Wa1 Wa2 E1 E2); [|tauto].
  left. unfold committed. congruence.
Qed.

Lemma length_execution_bytes `{Digests} `{Rlp} e bs :
  execution_bytes e = Ok bs -> length bs = 128%nat.
Proof.
  unfold execution_bytes. intros (h & _ & B)%bind_Ok. apply Ok_inj in B as <-.
  rewrite length_concat. cbn. unfold b256_bytes. by rewrite !length_be_bytes.
Qed.

Definition executions_collision `{Digests} `{Rlp} (l1 l2 : list Execution) : Prop :=
  (exists c1 c2, omap_m execution_bytes l1 = Ok c1 /\ omap_m execution_bytes l2 = Ok c2 /\
     collision sha256 (concat c1) (concat c2)) \/
  (exists x y, x ∈ l1 /\ y ∈ l2 /\ attributes_collision (attributes x) (attributes y)).

Lemma execution_chunks_inj `{Digests} `{Rlp} l1 l2 cs :
  Forall wf_execution l1 -> Forall wf_execution l2 ->
  Forall2 (fun e c => execution_bytes e = Ok c) l1 cs ->
  Forall2 (fun e c => execution_bytes e = Ok c) l2 cs ->
  committed <$> l1 = committed <$> l2 \/
  (exists x y, x ∈ l1 /\ y ∈ l2 /\ attributes_collision (attributes x) (attributes y)).
Proof.
  intros W1 W2 F1. revert l2 W2. induction F1 as [|e1 c l1 cs E1 F1 IH]; intros l2 W2 F2.
  - inversion F2; subst. by left.
  - inversion F2 as [|e2 ? l2' ? E2 F2']; subst.
    apply Forall_cons_iff in W1 as [We1 W1], W2 as [We2 W2].
    destruct (execution_bytes_inj _ _ _ We1 We2 E1 E2) as [Hc|Hc].
    + destruct (IH W1 l2' W2 F2') as [IHc|(x & y & ? & ? & ?)].
      * left. cbn. by rewrite Hc, IHc.
      * right. exists x, y. split_and!; [by right|by right|done].
    + right. exists e1, e2. split_and!; [by left|by left|done].
Qed.

(** ** Lemmas: the cached executor *)

Section cached_lemmas.
Context {E : Type} `{Executor E}.

(** The entry that a call would take from the cache. *)
Definition cache_hit (agreed : Z) (attrs : OpPayloadAttributes) (s : CachedExecutor E) : option (Execution * list Execution) :=
  match vec_pop (exec_cache s) with
  | Some (e, rest) =>
      if bool_decide (agreed = agreed_output e) && bool_decide (attrs = attributes e)
      then Some (e, rest) else None
  | None => None
  end.

(** A collecting target grows by the execution that was just done. *)
Definition collected (agreed : Z) (attrs : OpPayloadAttributes) (r : outcome BlockBuildingOutcome)
    (target : option (list Execution)) : option (list Execution) :=
  match r with
  | Ok arts => (fun l => l ++ [{| agreed_output := agreed; attributes := attrs;
                                  artifacts := arts; claimed_output := 0 |}]) <$> target
  | _ => target
  end.

Lemma cached_execute_payload_eq attrs s :
  cached_execute_payload attrs s =
  let '(root, x) := compute_output_root (executor s) in
  match root with
  | Ok agreed =>
      match cache_hit agreed attrs s with
      | Some (e, rest) =>
          (Ok (artifacts e), {| exec_cache := rest;
             executor := update_safe_head (header (artifacts e)) x;
             collection_target := collection_target s |})
      | None =>
          let '(r, y) := execute_payload attrs x in
          (r, {| exec_cache := exec_cache s; executor := y;
                 collection_target := collected agreed attrs r (collection_target s) |})
      end
  | Err e => (Err e, {| exec_cache := exec_cache s; executor := x; collection_target := collection_target s |})
  | Panic w => (Panic w, {| exec_cache := exec_cache s; executor := x; collection_target := collection_target s |})
  end.
Proof.
  assert (Hm : forall agreed x t, execute_uncached agreed attrs
      {| exec_cache := exec_cache s; executor := x; collection_target := t |} =
    let '(r, y) := execute_payload attrs x in
    (r, {| exec_cache := exec_cache s; executor := y; collection_target := collected agreed attrs r t |})).
  { intros agreed x [l|]; unfold execute_uncached, mbind, St_bind, get_st, inner, push_target;
      cbn; destruct (execute_payload attrs x) as [[]]; done. }
  unfold cached_execute_payload, cached_compute_output_root, cache_hit, mbind, St_bind, get_st.
  unfold inner at 1. destruct (compute_output_root (executor s)) as [[agreed|e|w] x]; [|done..].
  cbn [exec_cache]. destruct (vec_pop (exec_cache s)) as [[e rest]|]; [|apply Hm].
  destruct (_ && _); [done|apply Hm].
Qed.

(** One step of a driver: execute the payload, adopt the new block. *)
Definition drive {X} `{Executor X} (attrs : OpPayloadAttributes) : St X BlockBuildingOutcome :=
  arts ← execute_payload attrs;
  s ← get_st;
  _ ← put_st (update_safe_head (header arts) s);
  mret arts.

Fixpoint drive_all {X} `{Executor X} (l : list OpPayloadAttributes) : St X (list BlockBuildingOutcome) :=
  match l with
  | [] => mret []
  | a :: l => arts ← drive a; rest ← drive_all l; mret (arts :: rest)
  end.

(** The output root an executor reports. *)
Definition root_of (e : E) : outcome Z := (compute_output_root e).1.

(** Once a header is adopted the output root is that of its state. *)
Definition root_by_header : Prop := forall h e1 e2,
  root_of (update_safe_head h e1) = root_of (update_safe_head h e2).

Lemma drive_Ok {X} `{Executor X} a (s : X) arts s' :
  drive a s = (Ok arts, s') <->
  exists t, execute_payload a s = (Ok arts, t) /\ s' = update_safe_head (header arts) t.
Proof.
  unfold drive, mbind, St_bind, get_st, put_st, mret, St_ret.
  destruct (execute_payload a s) as [[r|e|w] t]; naive_solver.
Qed.

Lemma drive_all_cons {X} `{Executor X} a l (s : X) x s1 xs s2 :
  drive a s = (Ok x, s1) -> drive_all l s1 = (Ok xs, s2) ->
  drive_all (a :: l) s = (Ok (x :: xs), s2).
Proof. intros H1 H2. cbn [drive_all]. unfold mbind, St_bind. by rewrite H1, H2. Qed.

(** The wrapped executor after a replay: it was asked for its output root and
    given the header of each outcome, by the cached executor and by the driver,
    and executed nothing. *)
Definition replayed (e : E) (outcomes : list BlockBuildingOutcome) : E :=
  fold_left (fun e o => update_safe_head (header o) (update_safe_head (header o) (compute_output_root e).2)) outcomes e.

(** A collecting run records what a cached run needs. *)
Lemma collect_then_replay attrs : forall (s : CachedExecutor E) arts s' l0,
  root_by_header ->
  exec_cache s = [] -> collection_target s = Some l0 ->
  drive_all attrs s = (Ok arts, s') ->
  exists trace, collection_target s' = Some (l0 ++ trace) /\
    attributes <$> trace = attrs /\ artifacts <$> trace = arts /\
    forall e0 more, root_of e0 = root_of (executor s) ->
    drive_all attrs {| exec_cache := more ++ rev trace; executor := e0; collection_target := None |} =
      (Ok arts, {| exec_cache := more; executor := replayed e0 arts; collection_target := None |}) /\
      root_of (replayed e0 arts) = root_of (executor s').
Proof.
  induction attrs as [|a attrs IH]; intros s arts s' l0 Hroot Hc Ht Hd; cbn [drive_all] in Hd.
  - unfold mret, St_ret in Hd. simplify_eq. exists []. rewrite app_nil_r. split_and!; [done..|].
    intros e0 more He0. cbn [rev drive_all]. by rewrite app_nil_r.
  - apply St_bind_Ok in Hd as (ar & s1 & Hda & Hd). apply St_bind_Ok in Hd as (rest & s2 & Hdl & Hd).
    unfold mret, St_ret in Hd. apply pair_equal_spec in Hd as [Hd ->]. apply Ok_inj in Hd. subst arts.
    apply drive_Ok in Hda as (t & He & ->). cbn in He. rewrite cached_execute_payload_eq in He.
    destruct (compute_output_root (executor s)) as [[agreed|?|?] x] eqn:Eroot; [|done..].
    unfold cache_hit in He. rewrite Hc in He. cbn in He.
    destruct (execute_payload a x) as [r y] eqn:Ex. apply pair_equal_spec in He as [-> <-].
    cbn [collected] in Hdl. rewrite Ht in Hdl. cbn in Hdl.
    apply IH with (l0 := l0 ++ [{| agreed_output := agreed; attributes := a; artifacts := ar; claimed_output := 0 |}])
      in Hdl as (trace & Htr & Hattr & Hart & Hrep); [|done|done|done].
    eexists (_ :: trace). rewrite <-app_assoc in Htr. split; [exact Htr|].
    split; [by rewrite fmap_cons, Hattr|]. split; [by rewrite fmap_cons, Hart|].
    intros e0 more He0. cbn [rev drive_all]. cbn in Hrep.
    destruct (compute_output_root e0) as [o e0'] eqn:Ec0.
    unfold root_of in He0. rewrite Eroot, Ec0 in He0. cbn in He0. subst o.
    destruct (Hrep (update_safe_head (header ar) (update_safe_head (header ar) e0')) more) as (Hrun & Hr1);
      [apply Hroot|].
    assert (Hre : replayed e0 (ar :: rest) =
      replayed (update_safe_head (header ar) (update_safe_head (header ar) e0')) rest)
      by (unfold replayed; cbn [fold_left]; by rewrite Ec0).
    rewrite Hre. split.
    + eapply drive_all_cons; [|exact Hrun]. apply drive_Ok.
      cbn [execute_payload cached_executor]. rewrite cached_execute_payload_eq. cbn [executor].
      rewrite Ec0. unfold cache_hit. cbn [exec_cache].
      rewrite app_assoc, vec_pop_snoc. cbn [agreed_output attributes].
      rewrite !bool_decide_true by done. cbn [andb collection_target artifacts].
      eexists. split; [done|done].
    + done.
Qed.
End cached_lemmas.

Lemma exec_precondition_hash_inj `{Digests} `{Rlp} l1 l2 h :
  Forall wf_execution l1 -> Forall wf_execution l2 ->
  exec_precondition_hash l1 = Ok h -> exec_precondition_hash l2 = Ok h ->
  committed <$> l1 = committed <$> l2 \/ executions_collision l1 l2.
Proof.
  unfold exec_precondition_hash. intros W1 W2 (c1 & E1 & H1)%bind_Ok (c2 & E2 & H2)%bind_Ok.
  apply Ok_inj in H1, H2. subst h.
  destruct (hash_inj_or_collision _ _ _ H2) as [Hc|Hc].
  - apply omap_m_Ok in E1, E2.
    assert (Hl : forall l cs, Forall2 (fun e c => execution_bytes e = Ok c) l cs ->
      Forall (fun c => length c = 128%nat) cs).
    { induction 1; constructor; eauto using length_execution_bytes. }
    apply (concat_chunks_inj 128) in Hc; [|lia|eauto..]. subst c2.
    destruct (execution_chunks_inj _ _ _ W1 W2 E1 E2); [by left|by right; right].
  - right. left. exists c1, c2. split_and!; [done|done|]. by destruct Hc.
Qed.

(** A continuous trace from one output root to another. *)
Fixpoint chain (start : Z) (l : list Execution) (fin : Z) : Prop :=
  match l with
  | [] => start = fin
  | e :: l => agreed_output e = start /\ chain (claimed_output e) l fin
  end.

(** ** Properties *)

(** An execution proof's precondition commits to the whole trace: two
    lists of well-formed executions with the same precondition hash have the
    same length and agree, position by position, on the starting output root,
    the payload attributes, the resulting header's hash and the ending output
    root, unless the hashed encodings exhibit a SHA-256 collision (or two
    transaction lists with the same RLP encoding). *)
Theorem exec_precondition_binding `{Digests} `{Rlp} l1 l2 h :
  Forall wf_execution l1 -> Forall wf_execution l2 ->
  exec_precondition_hash l1 = Ok h -> exec_precondition_hash l2 = Ok h ->
  committed <$> l1 = committed <$> l2 \/ executions_collision l1 l2.
Proof.
  apply exec_precondition_hash_inj.
Qed.

(** [CachedExecutor::execute_payload] on every branch: a failure to compute
    the current output root is returned and changes nothing; otherwise, when
    the last cached execution starts from that root with the same attributes,
    it is removed from the cache, its header adopted, and its outcome returned
    without executing anything; in every other case the wrapped executor runs,
    and a collecting target grows by exactly the execution that succeeded. *)
Theorem cached_execute_payload_spec {E} `{Executor E} attrs (s : CachedExecutor E) :
  execute_payload attrs s =
  let '(root, x) := compute_output_root (executor s) in
  match root with
  | Ok agreed =>
      match cache_hit agreed attrs s with
      | Some (e, rest) =>
          (Ok (artifacts e), {| exec_cache := rest;
             executor := update_safe_head (header (artifacts e)) x;
             collection_target := collection_target s |})
      | None =>
          let '(r, y) := execute_payload attrs x in
          (r, {| exec_cache := exec_cache s; executor := y;
                 collection_target := collected agreed attrs r (collection_target s) |})
      end
  | Err e => (Err e, {| exec_cache := exec_cache s; executor := x; collection_target := collection_target s |})
  | Panic w => (Panic w, {| exec_cache := exec_cache s; executor := x; collection_target := collection_target s |})
  end.
Proof. apply cached_execute_payload_eq. Qed.

(** C31. Replaying a trace from the cache is equivalent to executing it. Assume an executor whose
    output root, after it adopts a header, depends on that header only. When a driver runs some
    payloads collecting their executions, the trace has those payloads and their outcomes, and
    a cached executor that is loaded with it (in reverse, as [run_core_client] does), at the same output
    root, returns the same outcomes for the same payloads, uses the trace up, and ends at the same output
    root. It executes none of them: the wrapped executor goes through nothing but questions for its
    output root and the headers of the outcomes. *)
Theorem cached_replay {E} `{Executor E} attrs (e : E) outcomes s' e0 :
  root_by_header (E := E) -> root_of e0 = root_of e ->
  drive_all attrs {| exec_cache := []; executor := e; collection_target := Some [] |}
    = (Ok outcomes, s') ->
  exists trace, collection_target s' = Some trace /\
    attributes <$> trace = attrs /\ artifacts <$> trace = outcomes /\
    let e1 := fold_left (fun e o =>
      update_safe_head (header o) (update_safe_head (header o) (compute_output_root e).2)) outcomes e0 in
    drive_all attrs {| exec_cache := rev trace; executor := e0; collection_target := None |} =
      (Ok outcomes, {| exec_cache := []; executor := e1; collection_target := None |}) /\
    root_of e1 = root_of (executor s').
Proof.
  intros Hroot He0 Hd.
  destruct (collect_then_replay attrs
    {| exec_cache := []; executor := e; collection_target := Some [] |} outcomes s' [] Hroot
    eq_refl eq_refl Hd) as (trace & Ht & Hattr & Hart & Hrep).
  exists trace. split_and!; [done..|]. apply (Hrep e0 [] He0).
Qed.

(** [recover_collected_executions] turns a collected trace into a
    continuous one: from the first recorded starting root to the claimed root,
    each execution ends where the next one starts, and nothing else in the
    trace changes. *)
Theorem recover_chain l claimed :
  let r := recover_collected_executions l claimed in
  (forall e rest, l = e :: rest -> chain (agreed_output e) r claimed) /\
  (fun e => (agreed_output e, attributes e, artifacts e)) <$> r =
  (fun e => (agreed_output e, attributes e, artifacts e)) <$> l.
Proof.
  induction l as [|e [|e' l] IH]; intros r; [done| |].
  - split; [|done]. intros e0 rest [= <- <-]. done.
  - destruct IH as [IH1 IH2]. split.
    + intros e0 rest [= <- <-]. split; [done|]. exact (IH1 e' l eq_refl).
    + unfold r. cbn [recover_collected_executions fmap list_fmap].
      f_equal. exact IH2.
Qed.

(** ** Witnesses *)

(** RLP replaced by an injective encoding: 1 before every byte, 0 at the end
    of every string. *)
Definition demo_rlp : Rlp := {|
  rlp_encode := fun txs =>
    concat ((fun tx => concat ((fun b => [Byte.x01; b]) <$> tx) ++ [Byte.x00]) <$> txs) |}.

Definition demo_attributes (n : Z) : OpPayloadAttributes := {|
  timestamp := 1700000000 + 2 * n; prev_randao := 5; suggested_fee_recipient := 6;
  withdrawals := Some []; parent_beacon_block_root := Some 7; transactions := Some [zeros 1];
  no_tx_pool := Some true; attr_gas_limit := Some 30000000; eip_1559_params := None |}.
Definition demo_header (n : Z) : SealedHeader :=
  {| hdr_hash := 1000 + n; hdr_number := n; hdr_receipts_root := 0; hdr_gas_used := 21000;
     hdr_rest := [] |}.
Definition demo_result : BlockExecutionResult :=
  {| receipts := []; requests := []; er_gas_used := 21000 |}.
Definition demo_execution (n : Z) : Execution := {|
  agreed_output := 2000 + n; attributes := demo_attributes n;
  artifacts := {| header := demo_header (n + 1); execution_result := demo_result |};
  claimed_output := 2001 + n |}.

(** An executor whose state is the number of its head block. *)
Definition demo_executor : Executor Z := {|
  update_safe_head := fun h _ => hdr_number h;
  execute_payload := fun _ n => (Ok {| header := demo_header (n + 1); execution_result := demo_result |}, n);
  compute_output_root := fun n => (Ok (2000 + n), n) |}.

Lemma demo_execution_wf n : 0 <= n < 1000 -> wf_execution (demo_execution n).
Proof.
  intros Hn. unfold wf_execution, wf_attributes, opt_width, in_width. cbn.
  split_and!; try lia. constructor.
Qed.

Lemma exec_precondition_binding_witness :
  committed <$> [demo_execution 1; demo_execution 2] = committed <$> [demo_execution 1; demo_execution 2] \/
  @executions_collision demo_digests demo_rlp
    [demo_execution 1; demo_execution 2] [demo_execution 1; demo_execution 2].
Proof.
  assert (W : Forall wf_execution [demo_execution 1; demo_execution 2])
    by (constructor; [|constructor; [|constructor]]; apply demo_execution_wf; lia).
  destruct (@exec_precondition_hash demo_digests demo_rlp [demo_execution 1; demo_execution 2])
    as [h|e|w] eqn:E; [|vm_compute in E; discriminate E..].
  exact (@exec_precondition_binding demo_digests demo_rlp _ _ h W W E E).
Defined.

Lemma cached_replay_witness :
  exists trace,
    Some [with_claimed (demo_execution 4) 0; with_claimed (demo_execution 5) 0] = Some trace /\
    @drive_all _ (@cached_executor Z demo_executor) [demo_attributes 4; demo_attributes 5]
      {| exec_cache := rev trace; executor := 4; collection_target := None |} =
      (Ok [artifacts (demo_execution 4); artifacts (demo_execution 5)],
       {| exec_cache := []; executor := 6; collection_target := None |}) /\
    @root_of Z demo_executor 6 = Ok 2006.
Proof.
  destruct (@cached_replay Z demo_executor [demo_attributes 4; demo_attributes 5] 4
    [artifacts (demo_execution 4); artifacts (demo_execution 5)]
    {| exec_cache := []; executor := 6; collection_target :=
         Some [with_claimed (demo_execution 4) 0; with_claimed (demo_execution 5) 0] |} 4)
    as (trace & Ht & _ & _ & Hrun & _); [intros h e1 e2; reflexivity|reflexivity|vm_compute; reflexivity|].
  exists trace. split; [exact Ht|]. split; [exact Hrun|reflexivity].
Defined.
