(* ===== verification/Archive.v ===== *)
(** * crates/kona/src/rkyv/{execution,optimism}.rs

    How executions travel in the frames of a witness: the adapters that turn the
    attributes and the outcome of a block into fields that rkyv can archive, with
    RLP inside, and back. *)

From S2P Require Import Prelude Bytes Config Executor.
Open Scope Z_scope.

(** A header without its hash, and the encodings of alloy: RLP of headers, of
    lists of byte strings (receipts, requests, transactions) and of withdrawals,
    and rkyv's own archive of a block's result inside the outer one. *)
Record Header := { h_number : Z; h_receipts_root : Z; h_gas_used : Z; h_rest : bytes }.
Definition unseal (h : SealedHeader) : Header :=
  {| h_number := hdr_number h; h_receipts_root := hdr_receipts_root h;
     h_gas_used := hdr_gas_used h; h_rest := hdr_rest h |}.

Class Codecs := {
  hash_slow : Header -> Z;
  encode_header : Header -> bytes; decode_header : bytes -> outcome Header;
  encode_strings : list bytes -> bytes; decode_strings : bytes -> outcome (list bytes);
  encode_withdrawals : list Withdrawal -> bytes; decode_withdrawals : bytes -> outcome (list Withdrawal);
  to_bytes : bytes * bytes * Z -> bytes; access : bytes -> outcome (bytes * bytes * Z);
}.

(** Decoding inverts encoding. *)
Class CodecLaws `{Codecs} : Prop := {
  decode_encode_header : forall h, decode_header (encode_header h) = Ok h;
  decode_encode_strings : forall l, decode_strings (encode_strings l) = Ok l;
  decode_encode_withdrawals : forall l, decode_withdrawals (encode_withdrawals l) = Ok l;
  access_to_bytes : forall x, access (to_bytes x) = Ok x;
}.

Section archive.
Context `{Codecs}.

(** [seal_slow]: the hash is computed. *)
Definition seal_slow (h : Header) : SealedHeader :=
  {| hdr_hash := hash_slow h; hdr_number := h_number h; hdr_receipts_root := h_receipts_root h;
     hdr_gas_used := h_gas_used h; hdr_rest := h_rest h |}.

(** ** Attributes *)

Record OpPayloadAttributesRkyv := {
  r_timestamp : Z; r_prev_randao : Z; r_suggested_fee_recipient : Z;
  r_withdrawals : option bytes; r_parent_beacon_block_root : option Z;
  r_transactions : option bytes; r_no_tx_pool : option bool;
  r_gas_limit : option Z; r_eip_1559_params : option Z;
}.

Definition attributes_to_rkyv (value : OpPayloadAttributes) : OpPayloadAttributesRkyv :=
  {| r_timestamp := timestamp value; r_prev_randao := prev_randao value;
     r_suggested_fee_recipient := suggested_fee_recipient value;
     r_withdrawals := encode_withdrawals <$> withdrawals value;
     r_parent_beacon_block_root := parent_beacon_block_root value;
     r_transactions := encode_strings <$> transactions value;
     r_no_tx_pool := no_tx_pool value; r_gas_limit := attr_gas_limit value;
     r_eip_1559_params := eip_1559_params value |}.

(** [.map(|x| decode_exact(x).unwrap())]. *)
Definition map_decode {A} (decode : bytes -> outcome A) (o : option bytes) : outcome (option A) :=
  match o with Some b => a ← expect "decode_exact" (decode b); Ok (Some a) | None => Ok None end.

Definition attributes_from_rkyv (value : OpPayloadAttributesRkyv) : outcome OpPayloadAttributes :=
  wds ← map_decode decode_withdrawals (r_withdrawals value);
  txs ← map_decode decode_strings (r_transactions value);
  Ok {| timestamp := r_timestamp value; prev_randao := r_prev_randao value;
        suggested_fee_recipient := r_suggested_fee_recipient value; withdrawals := wds;
        parent_beacon_block_root := r_parent_beacon_block_root value; transactions := txs;
        no_tx_pool := r_no_tx_pool value; attr_gas_limit := r_gas_limit value;
        eip_1559_params := r_eip_1559_params value |}.

(** ** Outcomes *)

Definition result_to_rkyv (field : BlockExecutionResult) : bytes * bytes * Z :=
  (encode_strings (receipts field), encode_strings (requests field), er_gas_used field).
Definition result_from_rkyv (field : bytes * bytes * Z) : outcome BlockExecutionResult :=
  let '(rs, qs, gas) := field in
  receipts ← expect "decode_exact" (decode_strings rs);
  requests ← expect "decode_exact" (decode_strings qs);
  Ok {| receipts := receipts; requests := requests; er_gas_used := gas |}.

Definition outcome_to_rkyv (field : BlockBuildingOutcome) : bytes * bytes :=
  (encode_header (unseal (header field)), to_bytes (result_to_rkyv (execution_result field))).
Definition outcome_from_rkyv (field : bytes * bytes) : outcome BlockBuildingOutcome :=
  h ← expect "decode_exact" (decode_header field.1);
  a ← access field.2;
  result ← result_from_rkyv a;
  Ok {| header := seal_slow h; execution_result := result |}.

(** ** Executions *)

(** The fields of an archived [Execution]. *)
Record ArchivedExecution := {
  ar_agreed_output : Z; ar_attributes : OpPayloadAttributesRkyv; ar_artifacts : bytes * bytes;
  ar_claimed_output : Z;
}.
Definition archive_execution (e : Execution) : ArchivedExecution :=
  {| ar_agreed_output := agreed_output e; ar_attributes := attributes_to_rkyv (attributes e);
     ar_artifacts := outcome_to_rkyv (artifacts e); ar_claimed_output := claimed_output e |}.
Definition restore_execution (a : ArchivedExecution) : outcome Execution :=
  attributes ← attributes_from_rkyv (ar_attributes a);
  artifacts ← outcome_from_rkyv (ar_artifacts a);
  Ok {| agreed_output := ar_agreed_output a; attributes := attributes; artifacts := artifacts;
        claimed_output := ar_claimed_output a |}.

(** The seal of an execution's header is the hash of the header. *)
Definition sealed (e : Execution) : Prop :=
  hdr_hash (header (artifacts e)) = hash_slow (unseal (header (artifacts e))).

Lemma unseal_seal h : unseal (seal_slow h) = h.
Proof. by destruct h. Qed.

Lemma seal_unseal h : hdr_hash h = hash_slow (unseal h) -> seal_slow (unseal h) = h.
Proof. destruct h as [hash n r g rest]. unfold seal_slow, unseal. cbn. by intros ->. Qed.

(** Whatever bytes a frame holds: nobody can give a header another hash. *)
Lemma restore_execution_sealed a e : restore_execution a = Ok e -> sealed e.
Proof.
  unfold restore_execution, outcome_from_rkyv. intros E. ok_inv. unfold sealed. cbn.
  by rewrite unseal_seal.
Qed.

Section laws.
Context `{!CodecLaws}.

Lemma attributes_roundtrip a : attributes_from_rkyv (attributes_to_rkyv a) = Ok a.
Proof.
  unfold attributes_from_rkyv, attributes_to_rkyv. destruct a as [? ? ? wds ? txs ? ? ?]. cbn.
  assert (Hd : forall A (encode : A -> bytes) decode (o : option A), (forall x, decode (encode x) = Ok x) ->
    map_decode decode (encode <$> o) = Ok o).
  { intros A encode decode [x|] Hx; cbn; [|done]. by rewrite Hx. }
  rewrite !Hd; [done|apply decode_encode_withdrawals|apply decode_encode_strings].
Qed.

Lemma outcome_restored o :
  outcome_from_rkyv (outcome_to_rkyv o) =
    Ok {| header := seal_slow (unseal (header o)); execution_result := execution_result o |}.
Proof.
  unfold outcome_from_rkyv, outcome_to_rkyv, result_from_rkyv, result_to_rkyv. cbn.
  rewrite decode_encode_header, access_to_bytes. cbn. rewrite !decode_encode_strings. cbn.
  by destruct (execution_result o).
Qed.

(** An execution whose header is sealed anew. *)
Definition resealed (e : Execution) : Execution :=
  {| agreed_output := agreed_output e; attributes := attributes e;
     artifacts := {| header := seal_slow (unseal (header (artifacts e)));
                     execution_result := execution_result (artifacts e) |};
     claimed_output := claimed_output e |}.

Lemma restore_archive e : restore_execution (archive_execution e) = Ok (resealed e).
Proof.
  unfold restore_execution, archive_execution. cbn. rewrite attributes_roundtrip. cbn.
  by rewrite outcome_restored.
Qed.

Lemma resealed_sealed e : sealed e -> resealed e = e.
Proof. intros He. unfold resealed. rewrite seal_unseal by done. by destruct e as [? ? []]. Qed.

(** C20. Executions survive the archive, with one exception. Restoring an archived execution gives
    the execution back if and only if the seal of its header is the hash of the header; in every
    case it gives an execution with the same attributes, results and output roots, whose header has
    the same content and a seal that was computed from it. *)
Theorem execution_roundtrip e :
  exists e', restore_execution (archive_execution e) = Ok e' /\ sealed e' /\ (e' = e <-> sealed e) /\
    attributes e' = attributes e /\ execution_result (artifacts e') = execution_result (artifacts e) /\
    unseal (header (artifacts e')) = unseal (header (artifacts e)) /\
    agreed_output e' = agreed_output e /\ claimed_output e' = claimed_output e.
Proof.
  exists (resealed e). pose proof (restore_execution_sealed _ _ (restore_archive e)) as Hs.
  split; [apply restore_archive|]. split; [done|].
  split; [split; [by intros <-|apply resealed_sealed]|]. split_and!; done.
Qed.

(** C21. The guest only ever sees executions of one shape. Whatever an archive holds (the host that
    wrote it is not trusted), what is restored from it is well formed: the hash of its header is
    that of its content, so that no hash and content that do not belong together can be passed in;
    and it is in normal form: archiving and restoring it again gives the same execution. *)
Theorem restored_well_formed a e :
  restore_execution a = Ok e -> sealed e /\ restore_execution (archive_execution e) = Ok e.
Proof.
  intros He%restore_execution_sealed. split; [done|]. by rewrite restore_archive, resealed_sealed.
Qed.
End laws.
End archive.

(** ** A concrete encoding

    Any countable type can be written as the bits of its code. *)
Module ArchiveDemo.
Fixpoint bits (p : positive) : bytes :=
  match p with xH => [] | xO p => Byte.x00 :: bits p | xI p => Byte.x01 :: bits p end.
Fixpoint of_bits (b : bytes) : positive :=
  match b with [] => xH | Byte.x00 :: b => xO (of_bits b) | _ :: b => xI (of_bits b) end.
Lemma of_bits_bits p : of_bits (bits p) = p.
Proof. induction p; cbn; congruence. Qed.

#[export] Instance byte_eq : EqDecision Byte.byte.
Proof. exact Byte.byte_eq_dec. Defined.
#[export] Program Instance byte_countable : Countable Byte.byte := inj_countable Byte.to_N Byte.of_N _.
Next Obligation. intros b. apply Byte.of_to_N. Qed.
#[export] Instance header_eq : EqDecision Header.
Proof. solve_decision. Defined.
#[export] Program Instance header_countable : Countable Header :=
  inj_countable' (fun h => (h_number h, h_receipts_root h, h_gas_used h, h_rest h))
    (fun '(n, r, g, b) => {| h_number := n; h_receipts_root := r; h_gas_used := g; h_rest := b |}) _.
Next Obligation. by intros []. Qed.
#[export] Program Instance withdrawal_countable : Countable Withdrawal :=
  inj_countable' (fun w => (wd_index w, wd_validator_index w, wd_address w, wd_amount w))
    (fun '(i, v, a, n) => {| wd_index := i; wd_validator_index := v; wd_address := a; wd_amount := n |}) _.
Next Obligation. by intros []. Qed.

Definition write `{Countable A} (x : A) : bytes := bits (encode x).
Definition read `{Countable A} (b : bytes) : outcome A := ok_or "decode" (decode (of_bits b)).
Lemma read_write `{Countable A} (x : A) : read (write x) = Ok x.
Proof. unfold read, write. by rewrite of_bits_bits, decode_encode. Qed.

#[export] Instance codecs : Codecs := {|
  hash_slow := fun h => 1000 + h_number h;
  encode_header := write; decode_header := read; encode_strings := write; decode_strings := read;
  encode_withdrawals := write; decode_withdrawals := read; to_bytes := write; access := read |}.
#[export] Instance laws : CodecLaws.
Proof. split; intros; apply read_write. Qed.
End ArchiveDemo.
Import ArchiveDemo.

(** An execution with a true seal comes back; one with a false seal does not. *)
Lemma execution_roundtrip_witness :
  restore_execution (archive_execution (demo_execution 1)) = Ok (demo_execution 1) /\
  sealed (demo_execution 1).
Proof.
  destruct (execution_roundtrip (demo_execution 1)) as (e' & E & Hs & [_ Hback] & _).
  assert (He : sealed (demo_execution 1)) by reflexivity.
  rewrite (Hback He) in E. by split.
Defined.

(** An archive with a false seal: it cannot be told from one with a true seal. *)
Definition forged : Execution :=
  let e := demo_execution 1 in
  {| agreed_output := agreed_output e; attributes := attributes e;
     artifacts := {| header := {| hdr_hash := 7; hdr_number := hdr_number (header (artifacts e));
                                  hdr_receipts_root := hdr_receipts_root (header (artifacts e));
                                  hdr_gas_used := hdr_gas_used (header (artifacts e));
                                  hdr_rest := hdr_rest (header (artifacts e)) |};
                     execution_result := execution_result (artifacts e) |};
     claimed_output := claimed_output e |}.
Lemma restored_well_formed_witness :
  restore_execution (archive_execution forged) = Ok (demo_execution 1) /\ forged <> demo_execution 1 /\
  sealed (demo_execution 1).
Proof.
  assert (E : restore_execution (archive_execution forged) = Ok (demo_execution 1)) by (vm_compute; reflexivity).
  split; [done|]. split; [discriminate|]. exact (proj1 (restored_well_formed _ _ E)).
Defined.
