(* ===== verification/L1Chain.v ===== *)
(** * crates/kona/src/kona.rs

    The L1 chain provider of the client program: headers fetched by hash from
    the streamed oracle, walked back from the L1 head, and the receipts and
    transactions below a header's roots. *)

From S2P Require Import Prelude Bytes Blobs Precondition Oracle.

(** The fields of an L1 [Header] that the provider reads. *)
Record Header := {
  h_number : Z; h_parent_hash : Z; h_timestamp : Z;
  h_receipts_root : Z; h_transactions_root : Z;
}.

Inductive HintType := L1BlockHeader | L1Receipts | L1Transactions | StartingL2Output.

(** The environment of the provider: the preimage oracle with hints, the RLP
    and EIP-2718 decoders, and the trie walker of kona_mpt, which asks its
    provider for nodes by hash. *)
Class L1Environment (S TrieNode Receipt Tx : Type) := {
  l1_get : PreimageKey -> St S bytes;
  send_hint : HintType -> Z -> St S unit;
  header_decode : bytes -> outcome Header;
  node_decode : bytes -> outcome TrieNode;
  walk_trie : (Z -> St S TrieNode) -> Z -> St S (list bytes);
  receipt_decode : bytes -> outcome Receipt;
  tx_decode : bytes -> outcome Tx;
}.

Section l1.
Context {S TrieNode Receipt Tx : Type} `{L1Environment S TrieNode Receipt Tx} `{PreimageKeys}.

(** The provider's own fields; a sealed header is a hash and a header. *)
Record L1Chain := { headers : list (Z * Header); headers_map : gmap Z nat }.

(** A computation of the oracle inside one of the provider. *)
Definition on_oracle {A} (m : St S A) : St (S * L1Chain) A := fun s =>
  let '(r, o) := m (fst s) in (r, (o, snd s)).
Definition push_chain (hash : Z) (h : Header) (c : L1Chain) : L1Chain :=
  {| headers := headers c ++ [(hash, h)];
     headers_map := <[hash := length (headers c)]> (headers_map c) |}.
Definition push_header (hash : Z) (h : Header) : St (S * L1Chain) unit := fun s =>
  (Ok tt, (fst s, push_chain hash h (snd s))).

(** The fetch of a header both constructors and readers use. *)
Definition fetch_header (hash : Z) : St S Header :=
  _ ← send_hint L1BlockHeader hash;
  header_rlp ← l1_get (key_new hash Keccak256);
  lift (header_decode header_rlp).

Definition l1_new (l1_head : Z) : St S L1Chain :=
  if l1_head =? 0 then mret {| headers := []; headers_map := ∅ |}
  else
    l1_header ← fetch_header l1_head;
    mret {| headers := [(l1_head, l1_header)]; headers_map := {[ l1_head := 0%nat ]} |}.

Definition header_by_hash (hash : Z) : St (S * L1Chain) Header :=
  s ← get_st;
  match headers_map (snd s) !! hash with
  | Some i => h ← lift (index (headers (snd s)) i); mret (snd h)
  | None => on_oracle (fetch_header hash)
  end.

Definition block_info_of (h : Z * Header) : BlockInfo := {|
  bk_hash := h.1; bk_number := h_number h.2;
  bk_parent_hash := h_parent_hash h.2; bk_timestamp := h_timestamp h.2 |}.

(** The walk back to a header index, at most [fuel] headers further. *)
Fixpoint walk_back (fuel : nat) (header_index : nat) : St (S * L1Chain) unit :=
  s ← get_st;
  if (header_index <? size (headers_map (snd s)))%nat then mret tt
  else match fuel with
  | O => lift (Panic "the walk back does not end")
  | Datatypes.S fuel =>
      h ← lift (index (headers (snd s)) (size (headers_map (snd s)) - 1));
      let header_hash := h_parent_hash (snd h) in
      header ← header_by_hash header_hash;
      _ ← push_header header_hash header;
      walk_back fuel header_index
  end.

Definition block_info_by_number (t : target) (block_number : Z) : St (S * L1Chain) BlockInfo :=
  s ← get_st;
  head ← lift (index (headers (snd s)) 0);
  let head_number := h_number (snd head) in
  if head_number <? block_number then lift (Err "BlockNumberPastHead")
  else
    let header_index := Z.to_nat (as_usize t (head_number - block_number)) in
    _ ← walk_back (Datatypes.S header_index) header_index;
    s ← get_st;
    header ← lift (index (headers (snd s)) header_index);
    mret (block_info_of header).

Definition trie_node_by_hash (key : Z) : St S TrieNode :=
  node ← l1_get (key_new key Keccak256); lift (node_decode node).

Definition receipts_by_hash (hash : Z) : St (S * L1Chain) (list Receipt) :=
  header ← header_by_hash hash;
  _ ← on_oracle (send_hint L1Receipts hash);
  leaves ← on_oracle (walk_trie trie_node_by_hash (h_receipts_root header));
  lift (omap_m receipt_decode leaves).

Definition block_info_and_transactions_by_hash (hash : Z)
    : St (S * L1Chain) (BlockInfo * list Tx) :=
  header ← header_by_hash hash;
  _ ← on_oracle (send_hint L1Transactions hash);
  leaves ← on_oracle (walk_trie trie_node_by_hash (h_transactions_root header));
  transactions ← lift (omap_m tx_decode leaves);
  mret (block_info_of (hash, header), transactions).

(** ** The invariant of the provider *)

(** A header was fetched by its hash from the oracle. *)
Definition fetched (x : Z * Header) : Prop :=
  exists s s', fetch_header x.1 s = (Ok x.2, s').

(** The headers form a chain of parents from the L1 head, and the map indexes
    them by their distinct hashes. *)
Record chain_inv (l1_head : Z) (c : L1Chain) : Prop := {
  inv_head : exists h, headers c !! 0%nat = Some (l1_head, h);
  inv_linked : forall i x y, headers c !! i = Some x -> headers c !! (i + 1)%nat = Some y ->
    h_parent_hash x.2 = y.1;
  inv_size : size (headers_map c) = length (headers c);
  inv_map : forall h i, headers_map c !! h = Some i -> exists hd, headers c !! i = Some (h, hd);
  inv_fetched : Forall fetched (headers c);
}.

Lemma l1_new_inv l1_head s c s' :
  l1_head <> 0 -> l1_new l1_head s = (Ok c, s') -> chain_inv l1_head c.
Proof.
  intros Hz. unfold l1_new. rewrite (proj2 (Z.eqb_neq _ _)) by done. intros Hn.
  apply St_bind_Ok in Hn as (h & s1 & Hf & Hn). unfold mret, St_ret in Hn. simplify_eq. constructor.
  - by exists h.
  - intros [|i] x y Hx Hy; cbn in *; simplify_eq.
  - cbn. apply map_size_singleton.
  - intros k i Hk. cbn in Hk. apply lookup_singleton_Some in Hk as [<- <-]. by exists h.
  - constructor; [|constructor]. exists s, s'. done.
Qed.

Lemma header_by_hash_cached c hash i o :
  headers_map c !! hash = Some i -> (exists hd, headers c !! i = Some (hash, hd)) ->
  exists hd, headers c !! i = Some (hash, hd) /\ header_by_hash hash (o, c) = (Ok hd, (o, c)).
Proof.
  intros Hm [hd Hi]. exists hd. split; [done|].
  unfold header_by_hash, mbind, St_bind, get_st, lift, index. cbn. by rewrite Hm, Hi.
Qed.

Lemma header_by_hash_fetch c hash o :
  headers_map c !! hash = None ->
  header_by_hash hash (o, c) = let '(r, o') := fetch_header hash o in (r, (o', c)).
Proof.
  intros Hm. unfold header_by_hash, mbind, St_bind, get_st, on_oracle. cbn. by rewrite Hm.
Qed.

Lemma walk_back_step fuel idx o c x :
  (size (headers_map c) ≤ idx)%nat -> headers c !! (size (headers_map c) - 1)%nat = Some x ->
  walk_back (Datatypes.S fuel) idx (o, c) =
  (header ← header_by_hash (h_parent_hash x.2);
   _ ← push_header (h_parent_hash x.2) header; walk_back fuel idx) (o, c).
Proof.
  intros Hs Hx. cbn [walk_back]. unfold mbind at 1, St_bind at 1, get_st. cbn [snd].
  rewrite (proj2 (Nat.ltb_ge _ _)) by done. unfold mbind at 1, St_bind at 1, lift, index.
  by rewrite Hx.
Qed.

(** Once a header's parent is already in the map, the walk back goes nowhere. *)
Lemma walk_back_stuck fuel idx o c x :
  (size (headers_map c) ≤ idx)%nat -> headers c !! (size (headers_map c) - 1)%nat = Some x ->
  (exists i hd, headers_map c !! h_parent_hash x.2 = Some i /\ headers c !! i = Some (h_parent_hash x.2, hd)) ->
  is_panic (walk_back fuel idx (o, c)).1 = true.
Proof.
  revert c. induction fuel as [|fuel IH]; intros c Hs Hx (i & hd & Hm & Hi).
  - cbn [walk_back]. unfold mbind, St_bind, get_st. cbn [snd]. by rewrite (proj2 (Nat.ltb_ge _ _)).
  - rewrite (walk_back_step _ _ _ _ x) by done.
    destruct (header_by_hash_cached c _ i o Hm) as (hd' & Hi' & Hh); [eauto|].
    unfold mbind at 1, St_bind at 1. rewrite Hh. unfold mbind at 1, St_bind at 1, push_header. cbn [fst snd].
    assert (Hsz : size (headers_map (push_chain (h_parent_hash x.2) hd' c)) = size (headers_map c)).
    { cbn. by rewrite map_size_insert, Hm. }
    apply IH; rewrite ?Hsz.
    + done.
    + cbn. rewrite lookup_app_l; [done|]. by eapply lookup_lt_Some.
    + exists (length (headers c)), hd'. cbn. rewrite lookup_insert_eq, list_lookup_middle; done.
Qed.

Lemma chain_inv_push l1_head c x hd :
  chain_inv l1_head c -> headers c !! (length (headers c) - 1)%nat = Some x ->
  headers_map c !! h_parent_hash x.2 = None -> fetched (h_parent_hash x.2, hd) ->
  chain_inv l1_head (push_chain (h_parent_hash x.2) hd c).
Proof.
  intros [(h0 & H1) H2 H3 H4 H5] Hx Hm Hf. pose proof (lookup_lt_Some _ _ _ H1) as Hlt. constructor; cbn.
  - exists h0. by rewrite lookup_app_l.
  - intros i a b Ha Hb. apply lookup_lt_Some in Hb as Hlb. rewrite length_app in Hlb. cbn in Hlb.
    rewrite lookup_app_l in Ha by lia.
    destruct (decide (i + 1 = length (headers c))%nat) as [He|].
    + rewrite He, list_lookup_middle in Hb by done. simplify_eq. cbn.
      replace (length (headers c) - 1)%nat with i in Hx by lia. by simplify_eq.
    + rewrite lookup_app_l in Hb by lia. eauto.
  - rewrite map_size_insert, Hm, length_app. cbn. lia.
  - intros k i. destruct (decide (k = h_parent_hash x.2)) as [->|].
    + rewrite lookup_insert_eq. intros [= <-]. exists hd. by rewrite list_lookup_middle.
    + rewrite lookup_insert_ne by done. intros (y & Hy)%H4. exists y.
      rewrite lookup_app_l; [done|]. by eapply lookup_lt_Some.
  - apply Forall_app. split; [done|]. by constructor.
Qed.

(** Whatever a walk back returns short of a panic, the invariant holds after
    it, the headers known before are kept, and a success reaches the index. *)
Lemma walk_back_inv fuel idx o l1_head c r o' c' :
  chain_inv l1_head c -> walk_back fuel idx (o, c) = (r, (o', c')) -> is_panic r = false ->
  chain_inv l1_head c' /\ headers c `prefix_of` headers c' /\
  (is_ok r -> (idx < length (headers c'))%nat).
Proof.
  revert o c. induction fuel as [|fuel IH]; intros o c Hinv Hw Hr.
  - cbn [walk_back] in Hw. unfold mbind, St_bind, get_st in Hw. cbn [snd] in Hw.
    unfold mret, St_ret, lift in Hw.
    destruct (_ <? _)%nat eqn:E; simplify_eq.
    apply Nat.ltb_lt in E. rewrite (inv_size _ _ Hinv) in E. done.
  - destruct (Nat.lt_ge_cases idx (size (headers_map c))) as [Hlt|Hge].
    + cbn [walk_back] in Hw. unfold mbind, St_bind, get_st in Hw. cbn [snd] in Hw.
      rewrite (proj2 (Nat.ltb_lt _ _)) in Hw by done. unfold mret, St_ret in Hw. simplify_eq.
      rewrite (inv_size _ _ Hinv) in Hlt. done.
    + pose proof (inv_size _ _ Hinv) as Hsz. destruct (inv_head _ _ Hinv) as [h0 Hh0].
      pose proof (lookup_lt_Some _ _ _ Hh0).
      destruct (lookup_lt_is_Some_2 (headers c) (length (headers c) - 1)) as [x Hx]; [lia|].
      destruct (headers_map c !! h_parent_hash x.2) as [i|] eqn:Hm.
      { exfalso. destruct (inv_map _ _ Hinv _ _ Hm) as [hd Hi].
        pose proof (walk_back_stuck (Datatypes.S fuel) idx o c x) as Hst.
        rewrite Hsz in *. rewrite Hw in Hst. cbn in Hst. rewrite Hst in Hr; [done|done|done|eauto]. }
      rewrite (walk_back_step _ _ _ _ x) in Hw by (rewrite Hsz in *; done).
      unfold mbind at 1, St_bind at 1 in Hw. rewrite header_by_hash_fetch in Hw by done.
      destruct (fetch_header (h_parent_hash x.2) o) as [[hd|e|w] o1] eqn:Ef; simplify_eq; [|done].
      unfold mbind at 1, St_bind at 1, push_header in Hw. cbn [fst snd] in Hw.
        apply IH in Hw as (Hi & Hp & Hl); [|eapply chain_inv_push; eauto; by exists o, o1|done].
      split_and!; [done| |done]. etrans; [|done]. by apply prefix_app_r.
Qed.

(** An honest oracle answers every header request with the same header, and a
    parent's number is one less. *)
Definition honest (H : Z -> Header) : Prop :=
  (forall hash s, exists s', fetch_header hash s = (Ok (H hash), s')) /\
  (forall hash, 0 < h_number (H hash) ->
     h_number (H (h_parent_hash (H hash))) = h_number (H hash) - 1).

Definition known (H : Z -> Header) (c : L1Chain) : Prop := Forall (fun x => x.2 = H x.1) (headers c).

Lemma known_numbers Hd l1_head c i x :
  honest Hd -> chain_inv l1_head c -> known Hd c ->
  Z.of_nat (length (headers c)) <= h_number (Hd l1_head) + 1 ->
  headers c !! i = Some x -> h_number x.2 = h_number (Hd l1_head) - Z.of_nat i /\ x.2 = Hd x.1.
Proof.
  intros [_ Hnum] Hinv Hk Hlen. revert x. induction i as [|i IH]; intros x Hx.
  - destruct (inv_head _ _ Hinv) as [h Hh]. rewrite Hh in Hx. simplify_eq.
    pose proof (proj1 (Forall_lookup _ _) Hk _ _ Hh) as Hkx. cbn in *. subst. split; [lia|done].
  - pose proof (lookup_lt_Some _ _ _ Hx).
    destruct (lookup_lt_is_Some_2 (headers c) i) as [y Hy]; [lia|].
    destruct (IH y Hy) as [Hn Hyk].
    pose proof (proj1 (Forall_lookup _ _) Hk _ _ Hx) as Hkx. cbv beta in Hkx.
    pose proof (inv_linked _ _ Hinv i y x Hy) as Hl. rewrite Nat.add_1_r in Hl. specialize (Hl Hx).
    split; [|done]. rewrite Hkx, <-Hl, Hyk, Hnum; rewrite <-Hyk; lia.
Qed.

(** Along an honest chain no hash repeats, so the walk back ends. *)
Lemma walk_back_honest Hd fuel idx o l1_head c :
  honest Hd -> chain_inv l1_head c -> known Hd c ->
  Z.of_nat idx <= h_number (Hd l1_head) ->
  Z.of_nat (length (headers c)) <= h_number (Hd l1_head) + 1 ->
  (idx < fuel + length (headers c))%nat ->
  exists o' c', walk_back fuel idx (o, c) = (Ok tt, (o', c')) /\ known Hd c' /\
    Z.of_nat (length (headers c')) <= h_number (Hd l1_head) + 1.
Proof.
  intros Hh. pose proof Hh as [Hfetch Hnum].
  revert o c. induction fuel as [|fuel IH]; intros o c Hinv Hk Hidx Hlen Hfuel.
  - pose proof (inv_size _ _ Hinv) as Hsz. exists o, c. cbn [walk_back].
    unfold mbind, St_bind, get_st. cbn [snd]. rewrite (proj2 (Nat.ltb_lt _ _)) by lia. done.
  - pose proof (inv_size _ _ Hinv) as Hsz.
    destruct (Nat.lt_ge_cases idx (size (headers_map c))) as [Hlt|Hge].
    + exists o, c. cbn [walk_back]. unfold mbind, St_bind, get_st. cbn [snd].
      by rewrite (proj2 (Nat.ltb_lt _ _)) by done.
    + destruct (inv_head _ _ Hinv) as [h0 Hh0]. pose proof (lookup_lt_Some _ _ _ Hh0).
      destruct (lookup_lt_is_Some_2 (headers c) (length (headers c) - 1)) as [x Hx]; [lia|].
      destruct (known_numbers _ _ _ _ _ Hh Hinv Hk Hlen Hx) as [Hxn Hxk].
      assert (Hpn : h_number (Hd (h_parent_hash x.2)) = h_number (Hd l1_head) - Z.of_nat (length (headers c))).
      { rewrite Hxk, Hnum; rewrite <-Hxk; lia. }
      assert (Hm : headers_map c !! h_parent_hash x.2 = None).
      { destruct (headers_map c !! h_parent_hash x.2) as [i|] eqn:Em; [|done].
        destruct (inv_map _ _ Hinv _ _ Em) as [hd Hi].
        destruct (known_numbers _ _ _ _ _ Hh Hinv Hk Hlen Hi) as [Hin Hik]. cbn in Hin, Hik.
        rewrite Hik, Hpn in Hin. apply lookup_lt_Some in Hi. lia. }
      rewrite (walk_back_step _ _ _ _ x) by (rewrite Hsz in *; done).
      unfold mbind at 1, St_bind at 1. rewrite header_by_hash_fetch by done.
      destruct (Hfetch (h_parent_hash x.2) o) as [o1 Ho1]. rewrite Ho1.
      unfold mbind at 1, St_bind at 1, push_header. cbn [fst snd].
      apply IH.
      * eapply chain_inv_push; eauto. by exists o, o1.
      * unfold known. cbn. apply Forall_app. split; [done|]. by constructor.
      * done.
      * cbn. rewrite length_app. cbn. lia.
      * cbn. rewrite length_app. cbn. lia.
Qed.

(** ** Properties *)

(** [block_info_by_number] only ever answers with an ancestor of the L1
    head: from a provider whose headers form a chain of parents fetched from
    the oracle (as [new] makes it), whatever it returns short of a panic, the
    headers still form such a chain extending the old one, and a successful
    answer is the header at distance [head number - requested number] from the
    L1 head in it, with the hash under which it was fetched. *)
Theorem block_info_by_number_sound t l1_head n o c r o' c' :
  chain_inv l1_head c -> block_info_by_number t n (o, c) = (r, (o', c')) -> is_panic r = false ->
  chain_inv l1_head c' /\ headers c `prefix_of` headers c' /\
  forall b, r = Ok b -> exists head x,
    headers c' !! 0%nat = Some (l1_head, head) /\ n <= h_number head /\
    headers c' !! Z.to_nat (as_usize t (h_number head - n)) = Some x /\
    b = block_info_of x /\ fetched x.
Proof.
  intros Hinv. unfold block_info_by_number. unfold mbind at 1, St_bind at 1, get_st. cbn [snd].
  destruct (inv_head _ _ Hinv) as [h0 Hh0].
  unfold mbind at 1, St_bind at 1, lift at 1, index at 1. rewrite Hh0. cbn [unwrap snd].
  destruct (h_number h0 <? n) eqn:En; bools.
  { intros E Hp. unfold lift in E. simplify_eq. done. }
  set (idx := Z.to_nat (as_usize t (h_number h0 - n))).
  unfold mbind at 1, St_bind at 1.
  destruct (walk_back (Datatypes.S idx) idx (o, c)) as [rw [o1 c1]] eqn:Ew.
  intros E Hp. assert (Hpw : is_panic rw = false) by (destruct rw; [done|done|]; simplify_eq; done).
  destruct (walk_back_inv _ _ _ _ _ _ _ _ Hinv Ew Hpw) as (Hi1 & Hpre & Hlen).
  destruct rw as [[]|e|w]; simplify_eq; [|done].
  unfold mbind, St_bind, get_st, lift, index in E. cbn [snd] in E.
  destruct (lookup_lt_is_Some_2 (headers c1) idx) as [x Hx]; [by apply Hlen|].
  rewrite Hx in E. unfold mret, St_ret in E. cbn in E. simplify_eq.
  split_and!; [done|done|]. intros b [= <-]. exists h0, x.
  assert (headers c' !! 0%nat = Some (l1_head, h0)).
  { destruct Hpre as [k Hk]. rewrite Hk, lookup_app_l; [done|]. by eapply lookup_lt_Some. }
  split_and!; [done|lia|done|done|]. exact (proj1 (Forall_lookup _ _) (inv_fetched _ _ Hi1) _ _ Hx).
Qed.

(** [block_info_by_number] ends and finds the block: against an oracle that
    answers honestly, a freshly made provider returns, for every number up to
    the head's, a block with exactly that number (the walk back needs at most
    one fetch per block), provided the distance fits the target's [usize]. *)
Theorem block_info_by_number_total t Hd l1_head s c s' n :
  honest Hd -> l1_head <> 0 -> l1_new l1_head s = (Ok c, s') ->
  0 <= n <= h_number (Hd l1_head) -> h_number (Hd l1_head) - n < 2 ^ usize_bits t ->
  exists b s2, block_info_by_number t n (s', c) = (Ok b, s2) /\ bk_number b = n.
Proof.
  intros Hh Hz Hnew Hn Ht. pose proof (l1_new_inv _ _ _ _ Hz Hnew) as Hinv.
  assert (Hc : headers c = [(l1_head, Hd l1_head)]).
  { unfold l1_new in Hnew. rewrite (proj2 (Z.eqb_neq _ _)) in Hnew by done.
    apply St_bind_Ok in Hnew as (h & s1 & Hf & Hnew). unfold mret, St_ret in Hnew. simplify_eq.
    destruct Hh as [Hf' _]. destruct (Hf' l1_head s) as [s2 Hs2]. rewrite Hs2 in Hf. by simplify_eq. }
  assert (Hk : known Hd c) by (unfold known; rewrite Hc; by constructor).
  unfold block_info_by_number. unfold mbind at 1, St_bind at 1, get_st. cbn [snd].
  unfold mbind at 1, St_bind at 1, lift at 1, index at 1. rewrite Hc. cbn [unwrap snd].
  change ([(l1_head, Hd l1_head)] !! 0%nat) with (Some (l1_head, Hd l1_head)). cbn [unwrap snd].
  rewrite (proj2 (Z.ltb_ge _ _)) by lia.
  unfold as_usize. rewrite Z.mod_small by lia. set (idx := Z.to_nat (h_number (Hd l1_head) - n)).
  destruct (walk_back_honest Hd (Datatypes.S idx) idx s' l1_head c) as (o1 & c1 & Hw & Hk1 & Hl1);
    [done|done|done|lia|rewrite Hc; cbn; lia|lia|].
  destruct (walk_back_inv _ _ _ _ _ _ _ _ Hinv Hw eq_refl) as (Hi1 & _ & Hlen).
  unfold mbind, St_bind, get_st, lift, index. rewrite Hw. cbn [snd].
  destruct (lookup_lt_is_Some_2 (headers c1) idx) as [x Hx]; [by apply Hlen|]. rewrite Hx.
  eexists _, _. split; [done|]. cbn.
  destruct (known_numbers _ _ _ _ _ Hh Hi1 Hk1 Hl1 Hx) as [-> _]. lia.
Qed.
End l1.

(** ** Witnesses *)

(** An oracle for a chain in which a block's hash is its number. *)
Definition demo_l1_header (n : Z) : Header := {|
  h_number := n `mod` 2 ^ 248; h_parent_hash := n `mod` 2 ^ 248 - 1; h_timestamp := 12 * n;
  h_receipts_root := 0; h_transactions_root := 0 |}.
Definition demo_l1 : L1Environment unit bytes bytes bytes := {|
  l1_get := fun k s => (Ok (be_bytes 32 (key_data k)), s);
  send_hint := fun _ _ s => (Ok tt, s);
  header_decode := fun bs => Ok (demo_l1_header (from_be_bytes bs));
  node_decode := Ok; walk_trie := fun _ _ s => (Ok [], s);
  receipt_decode := Ok; tx_decode := Ok |}.

Definition demo_l1_of (hash : Z) : Header := demo_l1_header (hash `mod` 2 ^ 248).

Lemma demo_l1_honest : @honest _ _ _ _ demo_l1 demo_keys demo_l1_of.
Proof.
  split.
  - intros hash s. exists s. unfold fetch_header, mbind, St_bind, lift. cbn -[be_bytes Z.pow].
    rewrite from_be_be; [done|]. pose proof (Z.mod_pos_bound hash (2 ^ 248) eq_refl) as Hb.
    unfold in_width. replace (8 * Z.of_nat 32) with 256 by lia.
    assert (2 ^ 248 < 2 ^ 256) by reflexivity. lia.
  - intros hash Hn. unfold demo_l1_of, demo_l1_header in *. cbn [h_number h_parent_hash] in *.
    rewrite !Zmod_mod in *. pose proof (Z.mod_pos_bound hash (2 ^ 248) eq_refl) as Hb.
    rewrite Z.mod_small; lia.
Qed.

Definition demo_chain : L1Chain :=
  {| headers := [(9, demo_l1_of 9)]; headers_map := {[ 9 := 0%nat ]} |}.

Lemma demo_chain_inv : @chain_inv _ _ _ _ demo_l1 demo_keys 9 demo_chain.
Proof.
  apply (@l1_new_inv _ _ _ _ demo_l1 demo_keys 9 tt demo_chain tt); [done|].
  vm_compute. reflexivity.
Qed.

Lemma block_info_by_number_sound_witness :
  let c' := {| headers := [(9, demo_l1_of 9); (8, demo_l1_of 8); (7, demo_l1_of 7)];
               headers_map := {[ 9 := 0%nat; 8 := 1%nat; 7 := 2%nat ]} |} in
  @chain_inv _ _ _ _ demo_l1 demo_keys 9 c' /\ headers demo_chain `prefix_of` headers c' /\
  forall b, Ok (block_info_of (7, demo_l1_of 7)) = Ok b -> exists head x,
    headers c' !! 0%nat = Some (9, head) /\ 7 <= h_number head /\
    headers c' !! Z.to_nat (as_usize host (h_number head - 7)) = Some x /\
    b = block_info_of x /\ @fetched _ _ _ _ demo_l1 demo_keys x.
Proof.
  intros c'. apply (@block_info_by_number_sound _ _ _ _ demo_l1 demo_keys host 9 7 tt demo_chain
    (Ok (block_info_of (7, demo_l1_of 7))) tt c'); [exact demo_chain_inv|vm_compute; reflexivity|reflexivity].
Defined.

Lemma block_info_by_number_total_witness :
  exists b s2, @block_info_by_number _ _ _ _ demo_l1 demo_keys host 4 (tt, demo_chain) = (Ok b, s2) /\
    bk_number b = 4.
Proof.
  apply (@block_info_by_number_total _ _ _ _ demo_l1 demo_keys host demo_l1_of 9 tt demo_chain tt 4).
  - exact demo_l1_honest.
  - lia.
  - vm_compute. reflexivity.
  - vm_compute. split; congruence.
  - vm_compute. reflexivity.
Defined.
