(* ===== verification/Core.v ===== *)
(** * crates/kona/src/client/core.rs (and [new_execution_cursor] of executor.rs)

    One run of the client program: it boots, loads the agreed safe head, and
    then either re-executes a given trace or derives the L2 blocks up to the
    claim from L1 data, and compares the result with the claimed output root. *)

From S2P Require Import Prelude Bytes Config Journal Blobs Precondition Oracle Executor L1Chain.

Definition L1_HEAD_INSUFFICIENT : string := "Expected zero claim hash.".

(** kona's [L2BlockInfo] and [TipCursor]. *)
Record L2BlockInfo := { l2_block_info : BlockInfo; l2_l1_origin : Z * Z; l2_seq_num : Z }.
Record TipCursor := { tip_info : L2BlockInfo; tip_header : SealedHeader; tip_root : Z }.

Definition block_info_default : BlockInfo :=
  {| bk_hash := 0; bk_number := 0; bk_parent_hash := 0; bk_timestamp := 0 |}.

(** The parts of kona that the client drives.  [S] is the whole environment:
    the oracles and the blob provider, the L2 chain provider, the executor and,
    once started, the driver with its pipeline and its cached executor. *)
Class CoreEnvironment (S Cursor : Type) := {
  boot_load : St S BootInfo;
  core_hint : HintType -> Z -> St S unit;
  core_get_exact : PreimageKey -> nat -> St S bytes;
  l2_header_by_hash : Z -> St S SealedHeader;
  l2_block_info_by_number : Z -> St S L2BlockInfo;
  channel_timeout : RollupConfig -> Z -> Z;
  cursor_new : Z -> BlockInfo -> Cursor;
  cursor_advance : BlockInfo -> TipCursor -> Cursor -> Cursor;
  set_cursor : Cursor -> St S unit;
  kona_executor_new : RollupConfig -> St S unit;
  new_oracle_pipeline_cursor : RollupConfig -> SealedHeader -> L1Chain -> St S (Cursor * L1Chain);
  pipeline_new : RollupConfig -> Cursor -> L1Chain -> St S unit;
  driver_new : Cursor -> list Execution -> option (list Execution) -> St S unit;
  advance_to_target : RollupConfig -> option Z -> St S (Z * Z);
}.

Section core.
Context {S Cursor TrieNode Receipt Tx : Type}.
Context `{Digests} `{Rlp} `{Pot} `{PreimageKeys}.
Context `{Environment S} `{Executor S} `{CoreEnvironment S Cursor}.
Context `{L1Environment S TrieNode Receipt Tx}.

(** [kona_executor.update_safe_head(..)]. *)
Definition adopt (h : SealedHeader) : St S unit :=
  s ← get_st; put_st (update_safe_head h s).

Definition new_execution_cursor (rollup_config : RollupConfig) (safe_header : SealedHeader)
    : St S Cursor :=
  safe_head_info ← l2_block_info_by_number (hdr_number safe_header);
  let timeout := channel_timeout rollup_config (bk_timestamp (l2_block_info safe_head_info)) in
  let cursor := cursor_new timeout block_info_default in
  let tip := {| tip_info := safe_head_info; tip_header := safe_header; tip_root := 0 |} in
  mret (cursor_advance block_info_default tip cursor).

Definition fetch_safe_head_hash (agreed_l2_output_root : Z) : St S Z :=
  _ ← core_hint StartingL2Output agreed_l2_output_root;
  output_preimage ← core_get_exact (key_new agreed_l2_output_root Keccak256) 128;
  hash ← lift (slice output_preimage 96 128);
  mret (from_be_bytes hash).

(** One round of the execution-only loop: re-execute and compare. *)
Definition verify_execution (latest_output_root : Z) (e : Execution) : St S Z :=
  _ ← lift (assert_ (agreed_output e =? latest_output_root) "agreed_output");
  executor_result ← execute_payload (attributes e);
  _ ← lift (assert_ (bool_decide (header (artifacts e) = header executor_result)) "header");
  _ ← lift (assert_ (bool_decide (execution_result (artifacts e) = execution_result executor_result))
              "execution_result");
  _ ← adopt (header (artifacts e));
  latest_output_root ← compute_output_root;
  _ ← lift (assert_ (claimed_output e =? latest_output_root) "claimed_output");
  mret latest_output_root.

Fixpoint verify_executions (latest_output_root : Z) (l : list Execution) : St S Z :=
  match l with
  | [] => mret latest_output_root
  | e :: l => root ← verify_execution latest_output_root e; verify_executions root l
  end.

(** The execution-only branch. *)
Definition run_execution_only (boot : BootInfo) (safe_head : SealedHeader)
    (expected_output_count : Z) (execution_cache : list Execution) : St S (Z * option Z) :=
  cursor ← new_execution_cursor (bi_rollup_config boot) safe_head;
  _ ← set_cursor cursor;
  _ ← kona_executor_new (bi_rollup_config boot);
  _ ← adopt safe_head;
  _ ← lift (assert_ (expected_output_count =? Z.of_nat (length execution_cache)) "block count");
  _ ← lift (assert_ (negb (bool_decide (execution_cache = []))) "empty execution trace");
  precondition_hash ← lift (exec_precondition_hash execution_cache);
  last ← lift (unwrap "last" (list_last execution_cache));
  _ ← lift (assert_ (hdr_number (header (artifacts last)) =? bi_claimed_l2_block_number boot)
              "terminating block number");
  latest_output_root ← verify_executions (bi_agreed_l2_output_root boot) execution_cache;
  mret (precondition_hash, Some latest_output_root).

(** The derivation loop over [starting_block ..], [count] blocks at most. *)
Fixpoint derive_outputs (config : RollupConfig) (starting_block : Z) (count : nat)
    (output_roots : list Z) : St S (list Z) :=
  match count with
  | O => mret output_roots
  | Datatypes.S count =>
      '(output_number, output_root) ← advance_to_target config (Some (starting_block + 1));
      if output_number =? starting_block then mret output_roots
      else derive_outputs config (starting_block + 1) count (output_roots ++ [output_root])
  end.

(** [precondition_data.map(..).unwrap_or(Ok(B256::ZERO))]. *)
Definition epilogue_precondition (t : target)
    (precondition_data : option (PreconditionValidationData * list bytes))
    (safe_head_number : Z) (output_roots : list Z) : outcome Z :=
  match precondition_data with
  | Some (data, blobs) => validate_precondition t data blobs safe_head_number output_roots
  | None => Ok 0
  end.

(** The output root that the epilogue reports for the claimed block. *)
Definition epilogue_output (boot : BootInfo) (expected_output_count : Z) (output_roots : list Z)
    : option Z :=
  if negb (Z.of_nat (length output_roots) =? expected_output_count) then None
  else if bool_decide (output_roots = []) then Some (bi_agreed_l2_output_root boot)
  else list_last output_roots.

(** The derivation branch. *)
Definition run_derivation (t : target) (precondition_validation_data_hash : Z) (boot : BootInfo)
    (safe_head : SealedHeader) (l1_provider : L1Chain) (expected_output_count : Z)
    (execution_cache : list Execution) (collection_target : option (list Execution))
    : St S (Z * option Z) :=
  precondition_data ← load_precondition_data precondition_validation_data_hash;
  '(cursor, l1_provider) ←
    new_oracle_pipeline_cursor (bi_rollup_config boot) safe_head l1_provider;
  _ ← set_cursor cursor;
  _ ← pipeline_new (bi_rollup_config boot) cursor l1_provider;
  _ ← kona_executor_new (bi_rollup_config boot);
  _ ← driver_new cursor (rev execution_cache) collection_target;
  output_roots ← derive_outputs (bi_rollup_config boot) (hdr_number safe_head)
    (Z.to_nat (bi_claimed_l2_block_number boot - hdr_number safe_head)) [];
  precondition_hash ← lift (epilogue_precondition t precondition_data
    (hdr_number safe_head) output_roots);
  mret (precondition_hash, epilogue_output boot expected_output_count output_roots).

(** [Sealed::new_unchecked]. *)
Definition new_unchecked (h : SealedHeader) (hash : Z) : SealedHeader :=
  {| hdr_hash := hash; hdr_number := hdr_number h; hdr_receipts_root := hdr_receipts_root h;
     hdr_gas_used := hdr_gas_used h; hdr_rest := hdr_rest h |}.

(** The async block of [run_core_client]. *)
Definition run_client_body (t : target) (precondition_validation_data_hash : Z)
    (execution_cache : list Execution) (collection_target : option (list Execution))
    : St S (BootInfo * Z * option Z) :=
  boot ← boot_load;
  _ ← lift (assert_ (bi_chain_id boot =? l2_chain_id (bi_rollup_config boot)) "chain_id");
  safe_head_hash ← fetch_safe_head_hash (bi_agreed_l2_output_root boot);
  l1_provider ← l1_new (bi_l1_head boot);
  header ← l2_header_by_hash safe_head_hash;
  let safe_head := new_unchecked header safe_head_hash in
  let number := hdr_number safe_head in
  if bi_claimed_l2_block_number boot <? number then lift (Err "Invalid claim")
  else
    let expected_output_count := as_usize t (bi_claimed_l2_block_number boot - number) in
    '(precondition_hash, output_hash) ←
      (if bi_l1_head boot =? 0
       then run_execution_only boot safe_head expected_output_count execution_cache
       else run_derivation t precondition_validation_data_hash boot safe_head l1_provider
              expected_output_count execution_cache collection_target);
    mret (boot, precondition_hash, output_hash).

(** The comparison with the claim that ends [run_core_client]. *)
Definition check_claim (claimed_l2_output_root : Z) (output_hash : option Z) : outcome unit :=
  match output_hash with
  | Some computed_output => assert_ (claimed_l2_output_root =? computed_output) "claimed_l2_output_root"
  | None => if negb (claimed_l2_output_root =? 0) then Err L1_HEAD_INSUFFICIENT else Ok tt
  end.

Definition run_core_client (t : target) (precondition_validation_data_hash : Z)
    (execution_cache : list Execution) (collection_target : option (list Execution))
    : St S (BootInfo * Z) :=
  '(boot, precondition_hash, output_hash) ←
    run_client_body t precondition_validation_data_hash execution_cache collection_target;
  _ ← lift (check_claim (bi_claimed_l2_output_root boot) output_hash);
  mret (boot, precondition_hash).

(** ** What the two branches establish *)

(** The executor, started in state [x], produces exactly the given trace. *)
Inductive executes : S -> list Execution -> S -> Prop :=
| executes_nil x : executes x [] x
| executes_cons x e y z l x' :
    execute_payload (attributes e) x = (Ok (artifacts e), y) ->
    compute_output_root (update_safe_head (header (artifacts e)) y) = (Ok (claimed_output e), z) ->
    executes z l x' -> executes x (e :: l) x'.

(** The driver, asked for the blocks after [start] one by one, produced these
    output roots. *)
Inductive derives (config : RollupConfig) : Z -> list Z -> S -> S -> Prop :=
| derives_nil start x : derives config start [] x x
| derives_cons start n root roots x y z :
    advance_to_target config (Some (start + 1)) x = (Ok (n, root), y) -> n <> start ->
    derives config (start + 1) roots y z -> derives config start (root :: roots) x z.

(** The driver has nothing to add after [start]. *)
Definition halts (config : RollupConfig) (start : Z) (x : S) : Prop :=
  exists root y, advance_to_target config (Some (start + 1)) x = (Ok (start, root), y).

(** The start of a run: the boot information is read, and the agreed output root
    is opened; the last 32 of the 128 bytes behind it are the hash of the safe
    head, whose header is fetched by that hash. *)
Definition boots (s : S) (boot : BootInfo) (safe_head : SealedHeader) (l1 : L1Chain) (x : S) : Prop :=
  exists preimage h s1 s2 s3 s4,
    boot_load s = (Ok boot, s1) /\
    core_hint StartingL2Output (bi_agreed_l2_output_root boot) s1 = (Ok tt, s2) /\
    core_get_exact (key_new (bi_agreed_l2_output_root boot) Keccak256) 128 s2 = (Ok preimage, s3) /\
    l1_new (bi_l1_head boot) s3 = (Ok l1, s4) /\
    l2_header_by_hash (hdr_hash safe_head) s4 = (Ok h, x) /\
    (128 <= length preimage)%nat /\ hdr_hash safe_head = from_be_bytes (take 32 (drop 96 preimage)) /\
    safe_head = {| hdr_hash := hdr_hash safe_head; hdr_number := hdr_number h;
      hdr_receipts_root := hdr_receipts_root h; hdr_gas_used := hdr_gas_used h; hdr_rest := hdr_rest h |}.

(** The executor is started for the configuration, with a cursor at the safe head. *)
Definition executor_ready (config : RollupConfig) (safe_head : SealedHeader) (x y : S) : Prop :=
  exists info x1 x2,
    l2_block_info_by_number (hdr_number safe_head) x = (Ok info, x1) /\
    set_cursor (cursor_advance block_info_default {| tip_info := info; tip_header := safe_head; tip_root := 0 |}
      (cursor_new (channel_timeout config (bk_timestamp (l2_block_info info))) block_info_default)) x1 = (Ok tt, x2) /\
    kona_executor_new config x2 = (Ok tt, y).

(** The driver is started on the pipeline from the safe head, with the cached
    executions (the next one last). *)
Definition driver_ready (config : RollupConfig) (safe_head : SealedHeader) (l1 : L1Chain)
    (cache : list Execution) (target : option (list Execution)) (x y : S) : Prop :=
  exists cursor l1' x1 x2 x3 x4,
    new_oracle_pipeline_cursor config safe_head l1 x = (Ok (cursor, l1'), x1) /\
    set_cursor cursor x1 = (Ok tt, x2) /\ pipeline_new config cursor l1' x2 = (Ok tt, x3) /\
    kona_executor_new config x3 = (Ok tt, x4) /\ driver_new cursor (rev cache) target x4 = (Ok tt, y).

(** ** Lemmas *)

Lemma adopt_Ok h x u y : adopt h x = (Ok u, y) <-> y = update_safe_head h x.
Proof. destruct u. unfold adopt, mbind, St_bind, get_st, put_st. naive_solver. Qed.

Lemma verify_execution_Ok root e x root' x' :
  verify_execution root e x = (Ok root', x') ->
  agreed_output e = root /\ claimed_output e = root' /\
  exists y, execute_payload (attributes e) x = (Ok (artifacts e), y) /\
    compute_output_root (update_safe_head (header (artifacts e)) y) = (Ok (claimed_output e), x').
Proof.
  unfold verify_execution. intros Hv. st_inv. ok_inv. bools.
  apply adopt_Ok in E3 as ->. split_and!; [done..|]. exists s0. rewrite E5. split; [|done].
  rewrite E0. destruct (artifacts e), x1. cbn in *. by subst.
Qed.

Lemma verify_executions_Ok l root x root' x' :
  verify_executions root l x = (Ok root', x') -> chain root l root' /\ executes x l x'.
Proof.
  revert root x. induction l as [|e l IH]; intros root x Hv; cbn [verify_executions] in Hv.
  - st_inv. split; [done|constructor].
  - st_inv. apply verify_execution_Ok in E as (<- & <- & y & He & Hr).
    apply IH in Hv as [Hc Hx]. split; [done|]. by econstructor.
Qed.

Lemma derive_outputs_Ok config start count acc x roots x' :
  derive_outputs config start count acc x = (Ok roots, x') ->
  exists new y, roots = acc ++ new /\ (length new ≤ count)%nat /\ derives config start new x y /\
    ((length new < count)%nat -> halts config (start + Z.of_nat (length new)) y).
Proof.
  revert start acc x. induction count as [|count IH]; intros start acc x Hd; cbn [derive_outputs] in Hd.
  - st_inv. exists [], x'. rewrite app_nil_r. split_and!; [done|done|constructor|lia].
  - st_inv. destruct x0 as [n root]. destruct (n =? start) eqn:En; bools.
    + unfold mret, St_ret in Hd. simplify_eq. exists [], x. rewrite app_nil_r.
      split_and!; [done|cbn; lia|constructor|]. intros _. rewrite Z.add_0_r. by exists root, x'.
    + apply IH in Hd as (new & y & -> & Hl & Hder & Hh). exists (root :: new), y.
      rewrite <-app_assoc. split_and!; [done|cbn; lia|by econstructor|].
      cbn [length]. intros ?. replace (start + Z.of_nat (Datatypes.S (length new)))
        with (start + 1 + Z.of_nat (length new)) by lia. apply Hh. lia.
Qed.

Lemma check_claim_Ok claim o u :
  check_claim claim o = Ok u <-> (forall c, o = Some c -> claim = c) /\ (o = None -> claim = 0).
Proof.
  destruct u, o as [c|]; cbn.
  - rewrite assert_Ok, Z.eqb_eq. naive_solver.
  - destruct (claim =? 0) eqn:E; bools; naive_solver.
Qed.

(** The facts every successful run establishes before it branches. *)
Lemma run_core_client_Ok t pvh cache target s boot ph s' :
  run_core_client t pvh cache target s = (Ok (boot, ph), s') ->
  exists safe_head l1 out x,
    boots s boot safe_head l1 x /\ bi_chain_id boot = l2_chain_id (bi_rollup_config boot) /\
    hdr_number safe_head <= bi_claimed_l2_block_number boot /\
    let expected := as_usize t (bi_claimed_l2_block_number boot - hdr_number safe_head) in
    (if bi_l1_head boot =? 0
     then run_execution_only boot safe_head expected cache x
     else run_derivation t pvh boot safe_head l1 expected cache target x) = (Ok (ph, out), s') /\
    (forall c, out = Some c -> bi_claimed_l2_output_root boot = c) /\
    (out = None -> bi_claimed_l2_output_root boot = 0).
Proof.
  unfold run_core_client. intros Hr. st_inv. destruct x as [[boot' ph'] out].
  st_inv. unfold mret, St_ret in Hr. simplify_eq. apply check_claim_Ok in E0 as [Hc1 Hc2].
  unfold run_client_body in E. st_inv. ok_inv. bools.
  destruct (bi_claimed_l2_block_number x0 <? hdr_number _) eqn:En; bools; [done|].
  apply St_bind_Ok in E as ([ph' out'] & s5 & Hbr & E). st_inv. simplify_eq.
  unfold fetch_safe_head_hash in E2. st_inv.
  match goal with X : slice _ _ _ = Ok _ |- _ => apply slice_Ok in X as ((_ & Hl) & ->) end.
  eexists (new_unchecked _ _), _, out, _. split_and!; [|done|done| |done|done];
    [|by destruct (bi_l1_head boot =? 0)].
  match goal with X : core_hint _ _ _ = (Ok ?u, _) |- _ => destruct u end.
  unfold boots. cbn. do 6 eexists. split_and!; done.
Qed.

Lemma new_execution_cursor_Ok config safe_head x cursor y :
  new_execution_cursor config safe_head x = (Ok cursor, y) ->
  exists info, l2_block_info_by_number (hdr_number safe_head) x = (Ok info, y) /\
    cursor = cursor_advance block_info_default {| tip_info := info; tip_header := safe_head; tip_root := 0 |}
      (cursor_new (channel_timeout config (bk_timestamp (l2_block_info info))) block_info_default).
Proof. unfold new_execution_cursor. intros Hc. st_inv. simplify_eq. eauto. Qed.

Lemma run_execution_only_Ok boot safe_head expected cache x ph out x' :
  run_execution_only boot safe_head expected cache x = (Ok (ph, out), x') ->
  expected = Z.of_nat (length cache) /\ exec_precondition_hash cache = Ok ph /\
  (exists e, list_last cache = Some e /\
     hdr_number (header (artifacts e)) = bi_claimed_l2_block_number boot) /\
  exists root y, out = Some root /\ executor_ready (bi_rollup_config boot) safe_head x y /\
    chain (bi_agreed_l2_output_root boot) cache root /\
    executes (update_safe_head safe_head y) cache x'.
Proof.
  unfold run_execution_only. intros Hr. st_inv. ok_inv. bools. simplify_eq.
  match goal with X : adopt _ _ = _ |- _ => apply adopt_Ok in X as -> end.
  match goal with X : verify_executions _ _ _ = _ |- _ => apply verify_executions_Ok in X as [? ?] end.
  match goal with X : new_execution_cursor _ _ _ = _ |- _ => apply new_execution_cursor_Ok in X as (info & ? & ->) end.
  repeat match goal with u : unit |- _ => destruct u end.
  split_and!; eauto. do 2 eexists. split_and!; [done| |done|done]. unfold executor_ready. eauto 10.
Qed.

(** The precondition data behind a hash, with the blobs that it names. *)
Definition data_loaded (pvh : Z) (data : option (PreconditionValidationData * list bytes)) (x y : S) : Prop :=
  match data with
  | None => pvh = 0 /\ y = x
  | Some (d, blobs) => pvh <> 0 /\ exists slice x1,
      oracle_get (key_new pvh Sha256) x = (Ok slice, x1) /\ pot_from_slice slice = Ok d /\
      fetch_blobs (blob_fetch_requests d) [] x1 = (Ok blobs, y)
  end.

Lemma load_precondition_data_Ok pvh x data y :
  load_precondition_data pvh x = (Ok data, y) -> data_loaded pvh data x y.
Proof.
  unfold load_precondition_data. destruct (pvh =? 0) eqn:Ep; bools; intros Hl.
  - unfold mret, St_ret in Hl. by simplify_eq.
  - st_inv. simplify_eq. cbn. eauto 10.
Qed.

Lemma run_derivation_Ok t pvh boot safe_head l1 expected cache target x ph out x' :
  run_derivation t pvh boot safe_head l1 expected cache target x = (Ok (ph, out), x') ->
  exists data outputs w y z,
    data_loaded pvh data x w /\
    driver_ready (bi_rollup_config boot) safe_head l1 cache target w y /\
    derives (bi_rollup_config boot) (hdr_number safe_head) outputs y z /\
    let count := Z.to_nat (bi_claimed_l2_block_number boot - hdr_number safe_head) in
    (length outputs ≤ count)%nat /\
    ((length outputs < count)%nat ->
       halts (bi_rollup_config boot) (hdr_number safe_head + Z.of_nat (length outputs)) z) /\
    epilogue_precondition t data (hdr_number safe_head) outputs = Ok ph /\
    out = epilogue_output boot expected outputs.
Proof.
  unfold run_derivation. intros Hr. apply St_bind_Ok in Hr as (data & x1 & Hload%load_precondition_data_Ok & Hr).
  st_inv. destruct x0 as [cursor l1']. st_inv. simplify_eq.
  match goal with X : derive_outputs _ _ _ _ _ = _ |- _ =>
    apply derive_outputs_Ok in X as (new & y & -> & Hl & Hd & Hh) end.
  repeat match goal with u : unit |- _ => destruct u end.
  exists data, new, x1, s3, y. cbn [app] in *. split_and!; try done.
  unfold driver_ready. eauto 15.
Qed.

Lemma core_execution_only_Ok t pvh cache target s boot ph s' :
  run_core_client t pvh cache target s = (Ok (boot, ph), s') -> bi_l1_head boot = 0 ->
  exec_precondition_hash cache = Ok ph /\
  chain (bi_agreed_l2_output_root boot) cache (bi_claimed_l2_output_root boot) /\
  (exists e, list_last cache = Some e /\
     hdr_number (header (artifacts e)) = bi_claimed_l2_block_number boot) /\
  exists safe_head l1 x y, boots s boot safe_head l1 x /\
    hdr_number safe_head <= bi_claimed_l2_block_number boot /\
    executor_ready (bi_rollup_config boot) safe_head x y /\
    executes (update_safe_head safe_head y) cache s' /\
    as_usize t (bi_claimed_l2_block_number boot - hdr_number safe_head) = Z.of_nat (length cache).
Proof.
  intros Hr Hz. apply run_core_client_Ok in Hr as (sh & l1 & out & x & Hboots & _ & Hle & Hb & Hc & _).
  rewrite Hz in Hb. cbn in Hb.
  apply run_execution_only_Ok in Hb as (He & Hp & Hlast & root & y & -> & Hready & Hch & Hx).
  rewrite (Hc root eq_refl). split_and!; [done..|]. by exists sh, l1, x, y.
Qed.

(** ** Properties *)

(** C18. An execution-only proof is a proof of its trace: when [run_core_client]
    succeeds with a zero L1 head, the returned precondition hash is the one of
    the given executions, the trace is not empty, each execution starts at the
    output root where the previous one ended, from the agreed to the claimed
    root, the executor, started at the safe head whose hash the agreed output
    root opens to, produces exactly the recorded outcomes and output roots, and
    the last block is the claimed one. *)
Theorem core_execution_only_sound t pvh cache target s boot ph s' :
  run_core_client t pvh cache target s = (Ok (boot, ph), s') -> bi_l1_head boot = 0 ->
  exec_precondition_hash cache = Ok ph /\
  chain (bi_agreed_l2_output_root boot) cache (bi_claimed_l2_output_root boot) /\
  (exists e, list_last cache = Some e /\
     hdr_number (header (artifacts e)) = bi_claimed_l2_block_number boot) /\
  exists safe_head l1 x y, boots s boot safe_head l1 x /\
    hdr_number safe_head <= bi_claimed_l2_block_number boot /\
    executor_ready (bi_rollup_config boot) safe_head x y /\
    executes (update_safe_head safe_head y) cache s' /\
    as_usize t (bi_claimed_l2_block_number boot - hdr_number safe_head) = Z.of_nat (length cache).
Proof. apply core_execution_only_Ok. Qed.

(** C9. A derivation proof proves its claim: when [run_core_client] succeeds
    with an L1 head, and the distance to the claimed block fits the target's
    [usize], the run began at the safe head whose hash the agreed output root
    opens to; the driver, started on the pipeline from there, derived, one after
    the other, the output roots of some blocks, at most up to the claimed one; a
    nonzero claim means all were derived and the claim is the last root (the
    agreed root if the claim is at the agreed height); fewer roots mean the
    driver had nothing more to derive and the claim is zero.  The precondition
    hash is zero without precondition data, and otherwise that of the data
    behind the given hash, which passed [validate_precondition] against exactly
    these roots. *)
Theorem core_derivation_sound t pvh cache target s boot ph s' :
  run_core_client t pvh cache target s = (Ok (boot, ph), s') -> bi_l1_head boot <> 0 ->
  (forall hash x h y, l2_header_by_hash hash x = (Ok h, y) -> 0 <= hdr_number h) ->
  bi_claimed_l2_block_number boot < 2 ^ usize_bits t ->
  exists safe_head l1 data outputs x w y z,
    boots s boot safe_head l1 x /\
    data_loaded pvh data x w /\
    driver_ready (bi_rollup_config boot) safe_head l1 cache target w y /\
    let number := hdr_number safe_head in
    0 <= number <= bi_claimed_l2_block_number boot /\
    derives (bi_rollup_config boot) number outputs y z /\
    let n := Z.of_nat (length outputs) in
    ((number + n = bi_claimed_l2_block_number boot /\
      bi_claimed_l2_output_root boot = List.last outputs (bi_agreed_l2_output_root boot)) \/
     (number + n < bi_claimed_l2_block_number boot /\
      halts (bi_rollup_config boot) (number + n) z /\ bi_claimed_l2_output_root boot = 0)) /\
    match data with
    | None => ph = 0
    | Some (d, blobs) => validate_precondition t d blobs number outputs = Ok ph
    end.
Proof.
  intros Hr Hz Hu Ht. apply run_core_client_Ok in Hr as (sh & l1 & out & x & Hboots & _ & Hle & Hb & Hc & Hnone).
  assert (0 <= hdr_number sh) as Hn.
  { destruct Hboots as (pre & h & ? & ? & ? & ? & _ & _ & _ & _ & Hh & _ & _ & ->). by apply Hu in Hh. }
  rewrite (proj2 (Z.eqb_neq _ _) Hz) in Hb.
  apply run_derivation_Ok in Hb as (data & outputs & w & y & z & Hdata & Hready & Hd & Hl & Hh & Hp & ->).
  exists sh, l1, data, outputs, x, w, y, z.
  unfold as_usize in *. rewrite Z.mod_small in Hc, Hnone by lia.
  split_and!; [done|done|done|lia|lia|done| |by destruct data as [[]|]; [|apply Ok_inj in Hp]].
  unfold epilogue_output in Hc, Hnone.
  destruct (Z.of_nat (length outputs) =? bi_claimed_l2_block_number boot - hdr_number sh) eqn:El; bools;
    cbn [negb] in Hc, Hnone.
  - left. split; [lia|]. case_bool_decide as Hnil.
    + subst. by apply Hc.
    + destruct outputs as [|o outputs _] using rev_ind; [done|].
      rewrite list_last_snoc in Hc. rewrite List.last_last. by apply Hc.
  - right. split_and!; [lia| |by apply Hnone]. apply Hh. lia.
Qed.
End core.

(** ** A concrete environment *)

Definition demo_boot (l1_head number claimed : Z) : BootInfo := {|
  bi_l1_head := l1_head; bi_agreed_l2_output_root := 2004; bi_claimed_l2_output_root := claimed;
  bi_claimed_l2_block_number := number; bi_chain_id := 10; bi_rollup_config := demo_config |}.

Definition demo_env : Environment Z := {|
  oracle_get := fun _ s => (Ok [], s); beacon_get_blobs := fun _ _ s => (Ok [], s) |}.
Definition demo_core_l1 : L1Environment Z bytes bytes bytes := {|
  l1_get := fun k s => (Ok (be_bytes 32 (key_data k)), s);
  send_hint := fun _ _ s => (Ok tt, s);
  header_decode := fun bs => Ok (demo_l1_header (from_be_bytes bs));
  node_decode := Ok; walk_trie := fun _ _ s => (Ok [], s);
  receipt_decode := Ok; tx_decode := Ok |}.

(** The safe head is block 4; the driver derives blocks up to [tip], whose
    output roots are 2000 plus their number. *)
Definition demo_core (boot : BootInfo) (tip : Z) : CoreEnvironment Z unit := {|
  boot_load := fun s => (Ok boot, s);
  core_hint := fun _ _ s => (Ok tt, s);
  core_get_exact := fun _ _ s => (Ok (zeros 96 ++ be_bytes 32 1004), s);
  l2_header_by_hash := fun _ s => (Ok (demo_header 4), s);
  l2_block_info_by_number := fun n s =>
    (Ok {| l2_block_info := block_info_default; l2_l1_origin := (0, 0); l2_seq_num := 0 |}, s);
  channel_timeout := fun _ _ => 300;
  cursor_new := fun _ _ => tt; cursor_advance := fun _ _ c => c;
  set_cursor := fun _ s => (Ok tt, s);
  kona_executor_new := fun _ s => (Ok tt, s);
  new_oracle_pipeline_cursor := fun _ _ l1 s => (Ok (tt, l1), s);
  pipeline_new := fun _ _ _ s => (Ok tt, s);
  driver_new := fun _ _ _ s => (Ok tt, s);
  advance_to_target := fun _ target s =>
    let n := Z.min tip (default 0 target) in (Ok (n, 2000 + n), s) |}.

Definition demo_run (t : target) (boot : BootInfo) (tip : Z) (cache : list Execution) :=
  @run_core_client Z unit bytes bytes bytes demo_digests demo_rlp demo_pot demo_keys demo_env
    demo_executor (demo_core boot tip) demo_core_l1 t 0 cache None 4.

(** In the guest, where [usize] has 32 bits, the number of expected outputs
    is truncated: for a claim 2^32 blocks ahead of the safe head it is zero, so
    that when nothing at all can be derived the client accepts the agreed root
    as the output root of the claimed block. On the host the same run reports
    insufficient L1 data. *)
Theorem guest_output_count_truncated :
  let boot := demo_boot 9 (4 + 2 ^ 32) 2004 in
  demo_run guest boot 4 [] = (Ok (boot, 0), 4) /\
  demo_run host boot 4 [] = (Err L1_HEAD_INSUFFICIENT, 4).
Proof.
  split; lazy; reflexivity.
Qed.

(** ** Witnesses *)

Definition demo_trace : list Execution := [demo_execution 4; demo_execution 5].
Definition demo_trace_hash : Z :=
  Eval vm_compute in
    match @exec_precondition_hash demo_digests demo_rlp demo_trace with Ok h => h | _ => 0 end.

Lemma core_execution_only_sound_witness :
  let boot := demo_boot 0 6 2006 in
  demo_run guest boot 9 demo_trace = (Ok (boot, demo_trace_hash), 6) /\
  @exec_precondition_hash demo_digests demo_rlp demo_trace = Ok demo_trace_hash /\
  chain 2004 demo_trace 2006 /\
  (exists e, list_last demo_trace = Some e /\ hdr_number (header (artifacts e)) = 6) /\
  exists safe_head l1 x y, @boots Z unit bytes bytes bytes demo_keys (demo_core boot 9) demo_core_l1 4 boot safe_head l1 x /\
    hdr_number safe_head <= 6 /\
    @executor_ready Z unit (demo_core boot 9) demo_config safe_head x y /\
    @executes Z demo_executor (@update_safe_head Z demo_executor safe_head y) demo_trace 6 /\
    as_usize guest (6 - hdr_number safe_head) = 2.
Proof.
  intros boot.
  assert (E : demo_run guest boot 9 demo_trace = (Ok (boot, demo_trace_hash), 6)) by (vm_compute; reflexivity).
  split; [exact E|].
  exact (@core_execution_only_sound Z unit bytes bytes bytes demo_digests demo_rlp demo_pot demo_keys
    demo_env demo_executor (demo_core boot 9) demo_core_l1 guest 0 demo_trace None 4 boot demo_trace_hash 6
    E eq_refl).
Defined.

Lemma core_derivation_sound_witness :
  let boot := demo_boot 9 6 2006 in
  demo_run host boot 9 [] = (Ok (boot, 0), 4) /\
  exists safe_head l1 data outputs x w y z,
    @boots Z unit bytes bytes bytes demo_keys (demo_core boot 9) demo_core_l1 4 boot safe_head l1 x /\
    @data_loaded Z demo_pot demo_keys demo_env 0 data x w /\
    @driver_ready Z unit (demo_core boot 9) demo_config safe_head l1 [] None w y /\
    let number := hdr_number safe_head in
    0 <= number <= 6 /\
    @derives Z unit (demo_core boot 9) demo_config number outputs y z /\
    let n := Z.of_nat (length outputs) in
    ((number + n = 6 /\ 2006 = List.last outputs 2004) \/
     (number + n < 6 /\ @halts Z unit (demo_core boot 9) demo_config (number + n) z /\ 2006 = 0)) /\
    match data with
    | None => 0 = 0
    | Some (d, blobs) => @validate_precondition demo_digests host d blobs number outputs = Ok 0
    end.
Proof.
  intros boot.
  assert (E : demo_run host boot 9 [] = (Ok (boot, 0), 4)) by (vm_compute; reflexivity).
  split; [exact E|].
  apply (@core_derivation_sound Z unit bytes bytes bytes demo_digests demo_rlp demo_pot demo_keys
    demo_env demo_executor (demo_core boot 9) demo_core_l1 host 0 [] None 4 boot 0 4 E).
  - discriminate.
  - intros hash x h y Eh. cbn in Eh. injection Eh as <- _. cbn. lia.
  - reflexivity.
Defined.
