(* ===== verification/Stitching.v ===== *)
(** * crates/kona/src/client/{stitching,stateless}.rs, witness.rs and the
    guest's main function

    Composition of proofs.  A run of the core client is extended with verified
    proofs of adjacent segments and of the executions it took from its cache,
    and the result is one journal for the whole segment. *)

From S2P Require Import Prelude Bytes Config Journal Blobs Precondition Oracle Executor L1Chain Core.

(** risc0's receipts and the verification calls of the zkVM; [env_verify] adds
    an assumption that the prover must resolve. *)
Class Zkvm (Receipt : Type) := {
  receipt_journal : Receipt -> bytes;
  receipt_verify : Z -> Receipt -> outcome unit;
  journal_digest : bytes -> Z;
  env_verify : Z -> bytes -> outcome unit;
}.

(** [kona_executor::compute_receipts_root]. *)
Class ReceiptsRoot := { compute_receipts_root : list bytes -> RollupConfig -> Z -> Z }.

Record Witness := {
  oracle_witness : VecOracle; stream_witness : VecOracle; blobs_witness : BlobWitnessData;
  payout_recipient_address : Z; precondition_validation_data_hash : Z;
  stitched_executions : list (list Execution); stitched_boot_info : list StitchedBootInfo;
  w_fpvm_image_id : Z;
}.

Section stitching.
Context {R : Type} `{Zkvm R} `{ReceiptsRoot} `{Digests} `{Rlp}.

(** The receipts on the guest's standard input, up to the first one that does
    not deserialize. *)
Fixpoint load_stitching_journals (fpvm_image_id : Z) (stdin : list R) : outcome (gset Z) :=
  match stdin with
  | [] => Ok ∅
  | receipt :: stdin =>
      _ ← expect "Failed to verify receipt" (receipt_verify fpvm_image_id receipt);
      proven ← load_stitching_journals fpvm_image_id stdin;
      Ok ({[ journal_digest (receipt_journal receipt) ]} ∪ proven)
  end.

(** On the host nothing is verified. *)
Definition verify_stitching_journal (zkvm : bool) (fpvm_image_id : Z) (proof_journal : bytes)
    (proven : gset Z) : outcome unit :=
  if zkvm then
    if decide (journal_digest proof_journal ∈ proven) then Ok tt
    else expect "Failed to verify stitched journal assumption"
           (env_verify fpvm_image_id proof_journal)
  else Ok tt.

Definition split_executions (stitched : list (list Execution))
    : list (list Execution) * list Execution := (stitched, concat stitched).

(** The checks on one execution of a stitched trace. *)
Definition check_execution (boot : BootInfo) (e : Execution) : outcome unit :=
  let result := execution_result (artifacts e) in
  _ ← assert_ (hdr_receipts_root (header (artifacts e)) =?
        compute_receipts_root (receipts result) (bi_rollup_config boot)
          (timestamp (attributes e))) "receipts_root";
  _ ← assert_ (bool_decide (requests result = [])) "requests";
  assert_ (hdr_gas_used (header (artifacts e)) =? er_gas_used result) "gas_used".

(** The journal that proves a trace. *)
Definition trace_boot_info (trace : list Execution) : outcome StitchedBootInfo :=
  first ← unwrap "Empty execution trace" (head trace);
  last ← unwrap "Empty execution trace" (list_last trace);
  Ok {| sb_l1_head := 0; sb_agreed_l2_output_root := agreed_output first;
        sb_claimed_l2_output_root := claimed_output last;
        sb_claimed_l2_block_number := hdr_number (header (artifacts last)) |}.

Definition stitch_trace (zkvm : bool) (boot : BootInfo) (fpvm_image_id payout config_hash : Z)
    (proven : gset Z) (trace : list Execution) : outcome unit :=
  precondition_hash ← exec_precondition_hash trace;
  _ ← ofold (fun _ e => check_execution boot e) tt trace;
  info ← trace_boot_info trace;
  let encoded_journal :=
    encode_packed (new_stitched fpvm_image_id payout precondition_hash config_hash info) in
  verify_stitching_journal zkvm fpvm_image_id encoded_journal proven.

Definition stitch_executions (zkvm : bool) (boot : BootInfo) (fpvm_image_id payout : Z)
    (stitched : list (list Execution)) (proven : gset Z) : outcome unit :=
  config_hash ← expect "config_hash" (config_hash (bi_rollup_config boot));
  if bi_l1_head boot =? 0 then assert_ (1 =? Z.of_nat (length stitched)) "execution batches"
  else ofold (fun _ trace => stitch_trace zkvm boot fpvm_image_id payout config_hash proven trace)
         tt stitched.

Definition set_agreed (root : Z) (j : ProofJournal) : ProofJournal :=
  {| payout_recipient := payout_recipient j; precondition_hash := precondition_hash j;
     pj_l1_head := pj_l1_head j; pj_agreed_l2_output_root := root;
     pj_claimed_l2_output_root := pj_claimed_l2_output_root j;
     pj_claimed_l2_block_number := pj_claimed_l2_block_number j;
     pj_config_hash := pj_config_hash j; fpvm_image_id := fpvm_image_id j |}.
Definition set_claimed (root number : Z) (j : ProofJournal) : ProofJournal :=
  {| payout_recipient := payout_recipient j; precondition_hash := precondition_hash j;
     pj_l1_head := pj_l1_head j; pj_agreed_l2_output_root := pj_agreed_l2_output_root j;
     pj_claimed_l2_output_root := root; pj_claimed_l2_block_number := number;
     pj_config_hash := pj_config_hash j; fpvm_image_id := fpvm_image_id j |}.

(** One round of the loop of [stitch_boot_info]. *)
Definition stitch_one (zkvm : bool) (image payout precondition_hash : Z) (proven : gset Z)
    (j : ProofJournal) (b : StitchedBootInfo) : outcome ProofJournal :=
  _ ← assert_ (sb_l1_head b =? pj_l1_head j) "reference head";
  _ ← assert_ (negb (sb_agreed_l2_output_root b =? sb_claimed_l2_output_root b)) "progress";
  _ ← verify_stitching_journal zkvm image
        (encode_packed (new_stitched image payout precondition_hash (pj_config_hash j) b)) proven;
  if sb_claimed_l2_output_root b =? pj_agreed_l2_output_root j
  then Ok (set_agreed (sb_agreed_l2_output_root b) j)
  else if sb_agreed_l2_output_root b =? pj_claimed_l2_output_root j
  then Ok (set_claimed (sb_claimed_l2_output_root b) (sb_claimed_l2_block_number b) j)
  else Panic "No support for non-contiguous stitching.".

Definition stitch_boot_info (zkvm : bool) (boot : BootInfo) (image payout precondition_hash : Z)
    (stitched : list StitchedBootInfo) (proven : gset Z) : outcome (BootInfo * ProofJournal) :=
  stitched_journal ← journal_new image payout precondition_hash boot;
  stitched_journal ←
    ofold (stitch_one zkvm image payout precondition_hash proven) stitched_journal stitched;
  Ok (boot, stitched_journal).
End stitching.

(** The trait [StitchingClient]: from the hash of the precondition data, the
    image, the payout address, the executions and the boot records to stitch,
    to the boot record and the journal. *)
Definition StitchingClient (S : Type) : Type :=
  Z -> Z -> Z -> list (list Execution) -> list StitchedBootInfo -> St S (BootInfo * ProofJournal).

Section client.
Context {R S Cursor TrieNode Receipt Tx : Type}.
Context `{Zkvm R} `{ReceiptsRoot} `{Digests} `{Rlp} `{Pot} `{PreimageKeys} `{Kzg}.
Context `{Environment S} `{Executor S} `{CoreEnvironment S Cursor}.
Context `{L1Environment S TrieNode Receipt Tx}.

(** [KonaStitchingClient]; [stdin] holds the receipts to verify in the zkVM. *)
Definition kona_stitching_client (zkvm : bool) (t : target) (stdin : list R) : StitchingClient S :=
  fun data_hash image payout executions boots =>
  let '(executions, execution_cache) := split_executions executions in
  '(boot, precondition_hash) ← expect_st "Failed to compute output hash."
    (run_core_client t data_hash execution_cache None);
  proven ← lift (if zkvm then load_stitching_journals image stdin else Ok ∅);
  _ ← lift (stitch_executions zkvm boot image payout executions proven);
  lift (stitch_boot_info zkvm boot image payout precondition_hash boots proven).

(** [run_stateless_client]: [start] puts the validated oracle, the stream and
    the blob provider into an environment.  The stream witness that came with the
    witness is ignored: the stream starts empty ([O::default()]), and what either
    oracle still reads are the frames left on the guest's standard input. *)
Definition run_stateless_client (start : VecOracle -> VecOracle -> entries -> S)
    (client : StitchingClient S) (w : Witness) : outcome ProofJournal :=
  _ ← expect "Failed to validate preimages" (validate (preimages (oracle_witness w)));
  let stream := {| preimages := []; queue := []; frames := frames (oracle_witness w) |} in
  beacon ← preloaded_from (blobs_witness w);
  '(_, proof_journal) ← fst (client (precondition_validation_data_hash w) (w_fpvm_image_id w)
    (payout_recipient_address w) (stitched_executions w) (stitched_boot_info w)
    (start (oracle_witness w) stream beacon));
  Ok proof_journal.

(** The guest's main function: the committed bytes.  [shards] are the frames
    that follow the main one; the client runs on the filled oracle. *)
Definition with_oracle (w : Witness) (o : VecOracle) : Witness :=
  {| oracle_witness := o; stream_witness := stream_witness w; blobs_witness := blobs_witness w;
     payout_recipient_address := payout_recipient_address w;
     precondition_validation_data_hash := precondition_validation_data_hash w;
     stitched_executions := stitched_executions w; stitched_boot_info := stitched_boot_info w;
     w_fpvm_image_id := w_fpvm_image_id w |}.

Definition guest_main (start : VecOracle -> VecOracle -> entries -> S) (client : StitchingClient S)
    (witness : Witness) (shards : list PreimageVecEntry) : outcome bytes :=
  '(filled, streamed) ← load_shards (preimages (oracle_witness witness)) shards;
  let witness := with_oracle witness
    {| preimages := filled; queue := queue (oracle_witness witness); frames := streamed |} in
  proof_journal ← run_stateless_client start client witness;
  _ ← assert_ (negb (pj_claimed_l2_output_root proof_journal =? 0)) "Cannot prove proposal prematurity.";
  Ok (encode_packed proof_journal).
End client.


(** ** Specification *)

Section stitching_spec.
Context {R : Type} `{Zkvm R} `{ReceiptsRoot} `{Digests} `{Rlp}.

(** What the guest holds to be proved: the journal of a receipt from its input
    that verifies, or an assumption. *)
Definition attested (stdin : list R) (image : Z) (journal : bytes) : Prop :=
  (exists r, r ∈ stdin /\ receipt_verify image r = Ok tt /\
     journal_digest (receipt_journal r) = journal_digest journal) \/
  env_verify image journal = Ok tt.

(** The journal that [stitch_trace] requires for a trace. *)
Definition trace_journal (image payout config_hash : Z) (trace : list Execution) : outcome ProofJournal :=
  precondition_hash ← exec_precondition_hash trace;
  info ← trace_boot_info trace;
  Ok (new_stitched image payout precondition_hash config_hash info).

(** [l] leads from the output root [a] to the output root [b]. *)
Fixpoint path (a : Z) (l : list StitchedBootInfo) (b : Z) : Prop :=
  match l with
  | [] => a = b
  | s :: l => sb_agreed_l2_output_root s = a /\
      sb_claimed_l2_output_root s <> a /\ path (sb_claimed_l2_output_root s) l b
  end.

Definition last_number (n : Z) (l : list StitchedBootInfo) : Z :=
  default n (sb_claimed_l2_block_number <$> list_last l).

(** [j] spans the segments [before], the main run [j0] and [after]. *)
Definition spans (j0 j : ProofJournal) (before after : list StitchedBootInfo) : Prop :=
  path (pj_agreed_l2_output_root j) before (pj_agreed_l2_output_root j0) /\
  path (pj_claimed_l2_output_root j0) after (pj_claimed_l2_output_root j) /\
  pj_claimed_l2_block_number j = last_number (pj_claimed_l2_block_number j0) after /\
  payout_recipient j = payout_recipient j0 /\ precondition_hash j = precondition_hash j0 /\
  pj_l1_head j = pj_l1_head j0 /\ pj_config_hash j = pj_config_hash j0 /\
  fpvm_image_id j = fpvm_image_id j0.

(** ** Lemmas *)

Lemma last_number_cons n s l :
  last_number n (s :: l) = last_number (sb_claimed_l2_block_number s) l.
Proof.
  unfold last_number. revert n s. induction l as [|x l IH]; intros n s; [done|].
  change (list_last (s :: x :: l)) with (list_last (x :: l)). by rewrite (IH n), <-(IH (sb_claimed_l2_block_number s)).
Qed.

Lemma path_snoc a l s b :
  path a l (sb_agreed_l2_output_root s) -> sb_claimed_l2_output_root s = b ->
  sb_agreed_l2_output_root s <> b -> path a (l ++ [s]) b.
Proof. revert a; induction l as [|x l IH]; cbn; intros a; naive_solver. Qed.

Lemma load_stitching_journals_Ok image stdin proven d :
  load_stitching_journals image stdin = Ok proven -> d ∈ proven ->
  exists r, r ∈ stdin /\ receipt_verify image r = Ok tt /\ journal_digest (receipt_journal r) = d.
Proof.
  revert proven; induction stdin as [|r stdin IH]; cbn; intros proven Hl Hd; ok_inv; [set_solver|].
  destruct x. apply elem_of_union in Hd as [->%elem_of_singleton|Hd].
  - exists r. split; [left|done].
  - destruct (IH _ E0 Hd) as (r' & ? & ?). exists r'. split; [by right|done].
Qed.

Lemma verify_stitching_journal_Ok image stdin proven journal u :
  load_stitching_journals image stdin = Ok proven ->
  verify_stitching_journal true image journal proven = Ok u -> attested stdin image journal.
Proof.
  unfold verify_stitching_journal. intros Hl Hv. case_decide as Hd.
  - left. by eapply load_stitching_journals_Ok.
  - right. ok_inv. by destruct u.
Qed.

(** One segment of [stitch_boot_info], in the guest. *)
Lemma stitch_one_Ok image payout ph stdin proven j b j' :
  load_stitching_journals image stdin = Ok proven ->
  stitch_one true image payout ph proven j b = Ok j' ->
  sb_l1_head b = pj_l1_head j /\ sb_agreed_l2_output_root b <> sb_claimed_l2_output_root b /\
  attested stdin image (encode_packed (new_stitched image payout ph (pj_config_hash j) b)) /\
  ((sb_claimed_l2_output_root b = pj_agreed_l2_output_root j /\
    j' = set_agreed (sb_agreed_l2_output_root b) j) \/
   (sb_agreed_l2_output_root b = pj_claimed_l2_output_root j /\
    j' = set_claimed (sb_claimed_l2_output_root b) (sb_claimed_l2_block_number b) j)).
Proof.
  unfold stitch_one. intros Hl Hs. ok_inv. bools.
  split_and!; [done|done|by eapply verify_stitching_journal_Ok|].
  destruct (_ =? _) eqn:E3; [|destruct (_ =? _) eqn:E4 in Hs]; bools; ok_inv; auto.
Qed.

Lemma spans_refl j : spans j j [] [].
Proof. by repeat split. Qed.

Lemma stitch_one_spans j0 before after j b j' :
  spans j0 j before after -> sb_agreed_l2_output_root b <> sb_claimed_l2_output_root b ->
  (sb_claimed_l2_output_root b = pj_agreed_l2_output_root j /\
   j' = set_agreed (sb_agreed_l2_output_root b) j) \/
  (sb_agreed_l2_output_root b = pj_claimed_l2_output_root j /\
   j' = set_claimed (sb_claimed_l2_output_root b) (sb_claimed_l2_block_number b) j) ->
  spans j0 j' (b :: before) after \/ spans j0 j' before (after ++ [b]).
Proof.
  intros (Hb & Ha & Hn & ?) Hne [[E ->]|[E ->]]; [left|right].
  - repeat split; cbn; [congruence|by rewrite E|naive_solver..].
  - repeat split; cbn; [done|eapply path_snoc; [by rewrite E|done|done]| |naive_solver..].
    unfold last_number. by rewrite list_last_snoc.
Qed.

Lemma stitch_loop_Ok image payout ph stdin proven l j0 j before after j' :
  load_stitching_journals image stdin = Ok proven -> spans j0 j before after ->
  ofold (stitch_one true image payout ph proven) j l = Ok j' ->
  exists before' after', before' ++ after' ≡ₚ before ++ after ++ l /\ spans j0 j' before' after' /\
    Forall (fun b => sb_l1_head b = pj_l1_head j0 /\ attested stdin image
      (encode_packed (new_stitched image payout ph (pj_config_hash j0) b))) l.
Proof.
  intros Hl. revert j before after. induction l as [|b l IH]; cbn; intros j before after Hs Hf; ok_inv.
  - exists before, after. by rewrite app_nil_r.
  - pose proof Hs as (_ & _ & _ & _ & _ & Hh & Hc & _).
    apply (stitch_one_Ok _ _ _ stdin) in E as (Hbh & Hne & Hat & Hst); [|done].
    rewrite Hh in Hbh. rewrite Hc in Hat.
    destruct (stitch_one_spans _ _ _ _ _ _ Hs Hne Hst) as [Hs'|Hs'];
      destruct (IH _ _ _ Hs' Hf) as (before' & after' & Hp & ? & ?);
      exists before', after'; (split_and!; [|done|by constructor]); rewrite Hp; cbn.
    + by rewrite (app_assoc before after (b :: l)), <-Permutation_middle, <-app_assoc.
    + by rewrite <-app_assoc.
Qed.

(** One trace of [stitch_executions], in the guest. *)
Lemma stitch_trace_Ok boot image payout ch stdin proven trace u :
  load_stitching_journals image stdin = Ok proven ->
  stitch_trace true boot image payout ch proven trace = Ok u ->
  Forall (fun e => check_execution boot e = Ok tt) trace /\
  exists ph info, exec_precondition_hash trace = Ok ph /\ trace_boot_info trace = Ok info /\
    attested stdin image (encode_packed (new_stitched image payout ph ch info)).
Proof.
  unfold stitch_trace. intros Hl Hs. ok_inv. split; [by eapply ofold_checks|].
  eexists _, _. split_and!; [done|done|]. by eapply verify_stitching_journal_Ok.
Qed.

Lemma stitch_executions_Ok boot image payout stdin proven traces u :
  load_stitching_journals image stdin = Ok proven -> bi_l1_head boot <> 0 ->
  stitch_executions true boot image payout traces proven = Ok u ->
  exists ch, config_hash (bi_rollup_config boot) = Ok ch /\
    Forall (fun trace => stitch_trace true boot image payout ch proven trace = Ok tt) traces.
Proof.
  unfold stitch_executions. intros Hl Hz Hs. ok_inv. exists x. split; [done|].
  rewrite (proj2 (Z.eqb_neq _ _) Hz) in Hs. by apply ofold_checks in Hs.
Qed.

Lemma stitch_boot_info_Ok image payout ph boot boots stdin proven boot' j :
  load_stitching_journals image stdin = Ok proven ->
  stitch_boot_info true boot image payout ph boots proven = Ok (boot', j) ->
  boot' = boot /\
  exists j0 before after, journal_new image payout ph boot = Ok j0 /\
    before ++ after ≡ₚ boots /\ spans j0 j before after /\
    Forall (fun b => sb_l1_head b = bi_l1_head boot /\ attested stdin image
      (encode_packed (new_stitched image payout ph (pj_config_hash j0) b))) boots.
Proof.
  unfold stitch_boot_info. intros Hl Hs. ok_inv. simplify_eq. split; [done|].
  apply (stitch_loop_Ok _ _ _ _ _ _ _ _ [] [] _ Hl (spans_refl _)) in E0
    as (before & after & Hp & Hsp & Hf).
  exists x, before, after. split_and!; [done|done|done|].
  unfold journal_new in E. ok_inv. exact Hf.
Qed.

Lemma stitch_executions_attested boot image payout stdin proven traces ch u :
  load_stitching_journals image stdin = Ok proven -> config_hash (bi_rollup_config boot) = Ok ch ->
  stitch_executions true boot image payout traces proven = Ok u ->
  if decide (bi_l1_head boot = 0) then length traces = 1%nat
  else Forall (fun trace => Forall (fun e => check_execution boot e = Ok tt) trace /\
         exists jt, trace_journal image payout ch trace = Ok jt /\
           attested stdin image (encode_packed jt)) traces.
Proof.
  intros Hl Hc Hs. destruct (decide _) as [Hz|Hz].
  - unfold stitch_executions in Hs. rewrite Hz, Z.eqb_refl in Hs. ok_inv. bools. lia.
  - destruct (stitch_executions_Ok _ _ _ _ _ _ _ Hl Hz Hs) as (ch' & Hc' & Hf).
    rewrite Hc in Hc'. apply Ok_inj in Hc' as <-. revert Hf. apply Forall_impl. intros trace Ht.
    destruct (stitch_trace_Ok _ _ _ _ _ _ _ _ Hl Ht) as (? & ph & info & Hp & Hi & Ha).
    unfold trace_journal. rewrite Hp, Hi. eauto.
Qed.

Lemma stitch_loop_forward image payout ph proven boots j b :
  path (pj_claimed_l2_output_root j) boots b ->
  Forall (fun x => sb_l1_head x = pj_l1_head j /\
    sb_claimed_l2_output_root x <> pj_agreed_l2_output_root j /\
    verify_stitching_journal true image
      (encode_packed (new_stitched image payout ph (pj_config_hash j) x)) proven = Ok tt) boots ->
  ofold (stitch_one true image payout ph proven) j boots =
    Ok (set_claimed b (last_number (pj_claimed_l2_block_number j) boots) j).
Proof.
  revert j. induction boots as [|x boots IH]; intros j Hp Hf; cbn in Hp.
  - subst b. by destruct j.
  - destruct Hp as (Ha & Hne & Hp). apply Forall_cons_iff in Hf as [(Hh & Hc & Hv) Hf].
    cbn [ofold].
    assert (stitch_one true image payout ph proven j x =
      Ok (set_claimed (sb_claimed_l2_output_root x) (sb_claimed_l2_block_number x) j)) as ->.
    { unfold stitch_one. rewrite Hh, Hv, Ha, !Z.eqb_refl.
      by rewrite (proj2 (Z.eqb_neq (pj_claimed_l2_output_root j) _)), (proj2 (Z.eqb_neq _ _) Hc) by done. }
    cbn [mbind outcome_bind]. rewrite IH; [|done|done].
    by rewrite last_number_cons.
Qed.
End stitching_spec.

Section properties.
Context {R S Cursor TrieNode Receipt Tx : Type}.
Context `{Zkvm R} `{ReceiptsRoot} `{Digests} `{Rlp} `{Pot} `{PreimageKeys} `{Kzg}.
Context `{Environment S} `{Executor S} `{CoreEnvironment S Cursor}.
Context `{L1Environment S TrieNode Receipt Tx}.

Lemma chain_committed a l1 l2 b :
  committed <$> l1 = committed <$> l2 -> chain a l1 b -> chain a l2 b.
Proof.
  revert a l2. induction l1 as [|e1 l1 IH]; intros a [|e2 l2]; cbn; try done.
  intros [E1 E2]%cons_inj [<- Hc]. unfold committed in E1.
  injection E1 as Ea _ _ Ec. rewrite Ec in Hc. eauto.
Qed.

(** A receipt of the guest program, whatever its client. *)
Lemma guest_main_client (start : VecOracle -> VecOracle -> entries -> S) client w shards out :
  guest_main start client w shards = Ok out <->
  exists filled streamed beacon boot j s',
    load_shards (preimages (oracle_witness w)) shards = Ok (filled, streamed) /\
    validate filled = Ok tt /\ preloaded_from (blobs_witness w) = Ok beacon /\
    client (precondition_validation_data_hash w) (w_fpvm_image_id w) (payout_recipient_address w)
      (stitched_executions w) (stitched_boot_info w)
      (start {| preimages := filled; queue := queue (oracle_witness w); frames := streamed |}
             {| preimages := []; queue := []; frames := streamed |} beacon) = (Ok (boot, j), s') /\
    out = encode_packed j /\ pj_claimed_l2_output_root j <> 0.
Proof.
  unfold guest_main, run_stateless_client. split.
  - intros Hg. ok_inv. destruct x as [filled streamed]. ok_inv. bools.
    match goal with X : fst ?m = Ok ?y |- _ => destruct m as [o s'] eqn:Em; cbn in X; subst o; destruct y end.
    ok_inv. cbn in *. repeat match goal with u : () |- _ => destruct u end.
    do 6 eexists. by split_and!.
  - intros (filled & streamed & beacon & boot & j & s' & Hl & Hv & Hb & Hc & -> & Hz).
    rewrite Hl. cbn [mbind outcome_bind with_oracle preimages oracle_witness queue frames blobs_witness
      precondition_validation_data_hash w_fpvm_image_id payout_recipient_address stitched_executions
      stitched_boot_info]. rewrite Hv, Hb. cbn [mbind outcome_bind expect]. rewrite Hc.
    cbn [fst mbind outcome_bind]. unfold assert_. by rewrite (proj2 (Z.eqb_neq _ _) Hz).
Qed.

Lemma guest_main_Ok start t stdin w shards out :
  let image := w_fpvm_image_id w in let payout := payout_recipient_address w in
  guest_main start (kona_stitching_client true t stdin) w shards = Ok out ->
  exists filled streamed beacon boot ph s' j0 j before after,
    load_shards (preimages (oracle_witness w)) shards = Ok (filled, streamed) /\
    validate filled = Ok tt /\ preloaded_from (blobs_witness w) = Ok beacon /\
    run_core_client t (precondition_validation_data_hash w) (concat (stitched_executions w)) None
      (start {| preimages := filled; queue := queue (oracle_witness w); frames := streamed |}
             {| preimages := []; queue := []; frames := streamed |} beacon)
      = (Ok (boot, ph), s') /\
    journal_new image payout ph boot = Ok j0 /\
    before ++ after ≡ₚ stitched_boot_info w /\ spans j0 j before after /\
    Forall (fun b => sb_l1_head b = bi_l1_head boot /\ attested stdin image
      (encode_packed (new_stitched image payout ph (pj_config_hash j0) b))) (stitched_boot_info w) /\
    (if decide (bi_l1_head boot = 0) then length (stitched_executions w) = 1%nat
     else Forall (fun trace => Forall (fun e => check_execution boot e = Ok tt) trace /\
            exists jt, trace_journal image payout (pj_config_hash j0) trace = Ok jt /\
              attested stdin image (encode_packed jt)) (stitched_executions w)) /\
    out = encode_packed j /\ pj_claimed_l2_output_root j <> 0.
Proof.
  intros image payout Hg. apply guest_main_client in Hg
    as (filled & streamed & beacon & b0 & j & s' & ? & ? & ? & Em & ? & ?).
  unfold kona_stitching_client, split_executions in Em. st_inv.
  match goal with X : run_core_client _ _ _ _ _ = (Ok ?y, _) |- _ => destruct y as [boot ph]; rename X into Hrun end.
  st_inv. apply (stitch_boot_info_Ok _ _ _ _ _ stdin) in Em
    as (-> & j0 & before & after & Hj & Hp & Hsp & Hf); [|done].
  assert (Hc : config_hash (bi_rollup_config boot) = Ok (pj_config_hash j0))
    by (unfold journal_new in Hj; ok_inv; done).
  do 6 eexists. exists j0, j, before, after. split_and!; try eassumption; [|done].
  by eapply stitch_executions_attested.
Qed.

(** ** Properties *)

(** C7. What a stitched journal says: when the guest stitches boot records,
    the result is the journal of the main run extended at both ends.  The
    records split into those before and those after the run; each was proven
    for the same L1 head, image, payout recipient, precondition and rollup
    configuration; each starts at the output root where the previous one ends;
    and the block number is that of the last segment. *)
Theorem stitched_journal_spans image payout ph boot boots stdin proven boot' j :
  load_stitching_journals image stdin = Ok proven ->
  stitch_boot_info true boot image payout ph boots proven = Ok (boot', j) ->
  boot' = boot /\
  exists j0 before after, journal_new image payout ph boot = Ok j0 /\
    before ++ after ≡ₚ boots /\ spans j0 j before after /\
    Forall (fun b => sb_l1_head b = bi_l1_head boot /\ attested stdin image
      (encode_packed (new_stitched image payout ph (pj_config_hash j0) b))) boots.
Proof. apply stitch_boot_info_Ok. Qed.

(** Stitching a chain of segments that continue the main run, in order,
    succeeds: if each is proven and none returns to the agreed output root, the
    result claims the last segment's root and block. *)
Theorem stitch_forward image payout ph boot j0 boots proven b :
  journal_new image payout ph boot = Ok j0 ->
  path (pj_claimed_l2_output_root j0) boots b ->
  Forall (fun x => sb_l1_head x = pj_l1_head j0 /\
    sb_claimed_l2_output_root x <> pj_agreed_l2_output_root j0 /\
    verify_stitching_journal true image
      (encode_packed (new_stitched image payout ph (pj_config_hash j0) x)) proven = Ok tt) boots ->
  stitch_boot_info true boot image payout ph boots proven =
    Ok (boot, set_claimed b (last_number (pj_claimed_l2_block_number j0) boots) j0).
Proof.
  unfold stitch_boot_info. intros Hj Hp Hf. rewrite Hj. cbn [mbind outcome_bind].
  by rewrite (stitch_loop_forward _ _ _ _ _ _ _ Hp Hf).
Qed.

(** A stitched execution trace was executed: take a trace accepted by
    [stitch_trace] and the execution-only run whose journal is the one that was
    required for it (both well formed).  Then the trace and the executions of
    that run agree on starting roots, attributes, header hashes and ending roots
    (or a hash collision is at hand), the trace is continuous from its first
    starting root to its last ending root, the run executed it with the real
    executor, on the same rollup configuration hash, and each receipts root and
    gas figure of the trace belongs to its block. *)
Theorem stitched_trace_executed t boot image payout ch proven trace jt
    pvh cache target s boot' ph' s' j' :
  Forall wf_execution trace -> Forall wf_execution cache -> wf_journal jt -> wf_journal j' ->
  stitch_trace true boot image payout ch proven trace = Ok tt ->
  trace_journal image payout ch trace = Ok jt ->
  run_core_client t pvh cache target s = (Ok (boot', ph'), s') ->
  journal_new image payout ph' boot' = Ok j' -> encode_packed j' = encode_packed jt ->
  config_hash (bi_rollup_config boot') = Ok ch /\
  Forall (fun e => check_execution boot e = Ok tt) trace /\
  (exists x, executes x cache s') /\
  (executions_collision cache trace \/
   committed <$> cache = committed <$> trace /\
   chain (pj_agreed_l2_output_root jt) trace (pj_claimed_l2_output_root jt)).
Proof.
  intros Wt Wc Wjt Wj' Hst Hjt Hrun Hj' E.
  apply (encode_packed_inj _ _ Wj' Wjt) in E. subst jt.
  unfold trace_journal, stitch_trace, trace_boot_info in Hst, Hjt. unfold journal_new in Hj'. ok_inv.
  injection Hjt as -> Hz _ _ _ ->. symmetry in Hz.
  destruct (core_execution_only_Ok _ _ _ _ _ _ _ _ Hrun Hz) as (Hph & Hch & _ & sh & ? & ? & y & _ & _ & _ & Hx & _).
  split_and!; [done|by eapply ofold_checks|eauto|]. cbn.
  match goal with X : exec_precondition_hash trace = Ok ph' |- _ =>
    destruct (exec_precondition_hash_inj _ _ _ Wc Wt Hph X) as [Hc|Hc] end; [right|by left].
  split; [done|]. by eapply chain_committed.
Qed.

(** C2. What a receipt of the guest program says: if [main] commits bytes, the
    preimages it ran on (the witness, filled with the streamed shards) passed
    validation and the blobs their KZG check; the core client succeeded on them
    with the stitched executions as its cache; the bytes encode a journal that
    spans proven segments around that run, under the witness's image and payout
    recipient; every stitched trace was proven for the same rollup
    configuration, its receipts roots and gas figures checked (or is the whole
    of an execution-only run); and the claimed
    output root is not zero. *)
Theorem guest_main_sound start t stdin w shards out :
  let image := w_fpvm_image_id w in let payout := payout_recipient_address w in
  guest_main start (kona_stitching_client true t stdin) w shards = Ok out ->
  exists filled streamed beacon boot ph s' j0 j before after,
    load_shards (preimages (oracle_witness w)) shards = Ok (filled, streamed) /\
    validate filled = Ok tt /\ preloaded_from (blobs_witness w) = Ok beacon /\
    run_core_client t (precondition_validation_data_hash w) (concat (stitched_executions w)) None
      (start {| preimages := filled; queue := queue (oracle_witness w); frames := streamed |}
             {| preimages := []; queue := []; frames := streamed |} beacon)
      = (Ok (boot, ph), s') /\
    journal_new image payout ph boot = Ok j0 /\
    before ++ after ≡ₚ stitched_boot_info w /\ spans j0 j before after /\
    Forall (fun b => sb_l1_head b = bi_l1_head boot /\ attested stdin image
      (encode_packed (new_stitched image payout ph (pj_config_hash j0) b))) (stitched_boot_info w) /\
    (if decide (bi_l1_head boot = 0) then length (stitched_executions w) = 1%nat
     else Forall (fun trace => Forall (fun e => check_execution boot e = Ok tt) trace /\
            exists jt, trace_journal image payout (pj_config_hash j0) trace = Ok jt /\
              attested stdin image (encode_packed jt)) (stitched_executions w)) /\
    out = encode_packed j /\ pj_claimed_l2_output_root j <> 0.
Proof. apply guest_main_Ok. Qed.
End properties.

(** ** Witnesses *)

(** A receipt is the image it proves and its journal; there are no assumptions
    to resolve. *)
Definition demo_zkvm : Zkvm (Z * bytes) := {|
  receipt_journal := snd;
  receipt_verify := fun image r => if r.1 =? image then Ok tt else Err "wrong image";
  journal_digest := demo_digest 13;
  env_verify := fun _ _ => Err "no such assumption" |}.
Definition demo_receipts_root : ReceiptsRoot := {| compute_receipts_root := fun _ _ _ => 0 |}.

(** The main run proves blocks 5 and 6; other proofs cover 3, 4 and 7, 8. *)
Definition demo_main : BootInfo := demo_boot 9 6 2006.
Definition demo_segment (first last : Z) : StitchedBootInfo := {|
  sb_l1_head := 9; sb_agreed_l2_output_root := 2000 + first;
  sb_claimed_l2_output_root := 2000 + last; sb_claimed_l2_block_number := last |}.
Definition demo_segments : list StitchedBootInfo := [demo_segment 6 8; demo_segment 2 4].
Definition demo_image : Z := 55.
Definition demo_main_journal (ph : Z) : ProofJournal := {|
  payout_recipient := 66; precondition_hash := ph; pj_l1_head := 9;
  pj_agreed_l2_output_root := 2004; pj_claimed_l2_output_root := 2006;
  pj_claimed_l2_block_number := 6; pj_config_hash := demo_config_hash; fpvm_image_id := demo_image |}.
Definition demo_trace_journal : ProofJournal := {|
  payout_recipient := 66; precondition_hash := demo_trace_hash; pj_l1_head := 0;
  pj_agreed_l2_output_root := 2004; pj_claimed_l2_output_root := 2006;
  pj_claimed_l2_block_number := 6; pj_config_hash := demo_config_hash; fpvm_image_id := demo_image |}.
Definition demo_stdin : list (Z * bytes) :=
  (fun j => (demo_image, encode_packed j)) <$>
    (demo_trace_journal :: (new_stitched demo_image 66 0 demo_config_hash <$> demo_segments)).
Definition demo_proven : gset Z :=
  Eval vm_compute in
    match @load_stitching_journals _ demo_zkvm demo_image demo_stdin with Ok p => p | _ => ∅ end.

Lemma stitched_journal_spans_witness :
  demo_main = demo_main /\
  exists j0 before after, @journal_new demo_digests demo_image 66 0 demo_main = Ok j0 /\
    before ++ after ≡ₚ demo_segments /\
    spans j0 (set_agreed 2002 (set_claimed 2008 8 (demo_main_journal 0))) before after /\
    Forall (fun b => sb_l1_head b = 9 /\ @attested _ demo_zkvm demo_stdin demo_image
      (encode_packed (new_stitched demo_image 66 0 (pj_config_hash j0) b))) demo_segments.
Proof.
  apply (@stitched_journal_spans _ demo_zkvm demo_digests demo_image 66 0 demo_main demo_segments
    demo_stdin demo_proven demo_main).
  - vm_compute. reflexivity.
  - vm_compute. reflexivity.
Defined.

Lemma stitch_forward_witness :
  @stitch_boot_info _ demo_zkvm demo_digests true demo_main demo_image 66 0 [demo_segment 6 8] demo_proven
    = Ok (demo_main, set_claimed 2008 8 (demo_main_journal 0)).
Proof.
  apply (@stitch_forward _ demo_zkvm demo_digests demo_image 66 0 demo_main (demo_main_journal 0)
    [demo_segment 6 8] demo_proven 2008).
  - vm_compute. reflexivity.
  - cbn. lia.
  - constructor; [|constructor]. split_and!; [reflexivity|cbn; lia|vm_compute; reflexivity].
Defined.

Lemma demo_trace_journal_wf : wf_journal demo_trace_journal.
Proof. repeat split; vm_compute; congruence. Qed.

Lemma demo_trace_wf : Forall wf_execution demo_trace.
Proof. constructor; [|constructor; [|constructor]]; apply demo_execution_wf; lia. Qed.

Lemma stitched_trace_executed_witness :
  @config_hash demo_digests demo_config = Ok demo_config_hash /\
  Forall (fun e => @check_execution demo_receipts_root demo_main e = Ok tt) demo_trace /\
  (exists x, @executes Z demo_executor x demo_trace 6) /\
  (@executions_collision demo_digests demo_rlp demo_trace demo_trace \/
   committed <$> demo_trace = committed <$> demo_trace /\ chain 2004 demo_trace 2006).
Proof.
  apply (@stitched_trace_executed _ Z unit bytes bytes bytes demo_zkvm demo_receipts_root demo_digests
    demo_rlp demo_pot demo_keys demo_env demo_executor (demo_core (demo_boot 0 6 2006) 9) demo_core_l1
    guest demo_main demo_image 66 demo_config_hash demo_proven demo_trace demo_trace_journal
    0 demo_trace None 4 (demo_boot 0 6 2006) demo_trace_hash 6 demo_trace_journal).
  - exact demo_trace_wf.
  - exact demo_trace_wf.
  - exact demo_trace_journal_wf.
  - exact demo_trace_journal_wf.
  - vm_compute. reflexivity.
  - vm_compute. reflexivity.
  - vm_compute. reflexivity.
  - vm_compute. reflexivity.
  - reflexivity.
Defined.

Definition demo_witness : Witness := {|
  oracle_witness := {| preimages := [[(@key_new demo_keys 1 Local, [], None)]; []]; queue := []; frames := [] |};
  stream_witness := vec_oracle_default; blobs_witness := blob_witness_default;
  payout_recipient_address := 66; precondition_validation_data_hash := 0;
  stitched_executions := [demo_trace]; stitched_boot_info := demo_segments;
  w_fpvm_image_id := demo_image |}.
Definition demo_shard : PreimageVecEntry := [(@key_new demo_keys 2 Local, [], None)].

Lemma guest_main_sound_witness :
  let out := encode_packed (set_agreed 2002 (set_claimed 2008 8 (demo_main_journal 0))) in
  exists filled streamed beacon boot ph s' j0 j before after,
    load_shards (preimages (oracle_witness demo_witness)) [demo_shard] = Ok (filled, streamed) /\
    @validate demo_digests demo_keys filled = Ok tt /\
    @preloaded_from demo_kzg blob_witness_default = Ok beacon /\
    @run_core_client Z unit bytes bytes bytes demo_digests demo_rlp demo_pot demo_keys demo_env
      demo_executor (demo_core demo_main 9) demo_core_l1 guest 0 (concat [demo_trace]) None 4
      = (Ok (boot, ph), s') /\
    @journal_new demo_digests demo_image 66 ph boot = Ok j0 /\
    before ++ after ≡ₚ demo_segments /\ spans j0 j before after /\
    Forall (fun b => sb_l1_head b = bi_l1_head boot /\ @attested _ demo_zkvm demo_stdin demo_image
      (encode_packed (new_stitched demo_image 66 ph (pj_config_hash j0) b))) demo_segments /\
    (if decide (bi_l1_head boot = 0) then length [demo_trace] = 1%nat
     else Forall (fun trace =>
            Forall (fun e => @check_execution demo_receipts_root boot e = Ok tt) trace /\
            exists jt, @trace_journal demo_digests demo_rlp demo_image 66 (pj_config_hash j0) trace = Ok jt /\
            @attested _ demo_zkvm demo_stdin demo_image (encode_packed jt)) [demo_trace]) /\
    out = encode_packed j /\ pj_claimed_l2_output_root j <> 0.
Proof.
  intros out.
  apply (@guest_main_sound _ Z unit bytes bytes bytes demo_zkvm demo_receipts_root demo_digests
    demo_rlp demo_pot demo_keys demo_kzg demo_env demo_executor (demo_core demo_main 9) demo_core_l1
    (fun _ _ _ => 4) guest demo_stdin demo_witness [demo_shard] out).
  vm_compute. reflexivity.
Defined.
