(* ===== verification/ProofTrees.v ===== *)
(** * What a receipt means: trees of guest runs

    The guest program proves a segment on the strength of receipts of the same
    program: the journals of stitched segments and of stitched execution traces
    (crates/kona/src/client/stitching.rs, build/risczero/kona/src/main.rs).
    Here a receipt is followed down to the runs it rests on.  A tree holds the
    runs of the guest's main function behind one receipt, each with what it was
    given and the bytes it committed; a tree is valid when each run did commit
    its bytes and every receipt and assumption it used for this program is the
    output of one of its children.  What such a tree proves is stated without
    receipts: [Proven] joins runs of the core client, and [derivation] lists
    them from the agreed to the claimed output root. *)

From S2P Require Import Prelude Bytes Config Journal Blobs Precondition Oracle Executor L1Chain Core Stitching.

(** A run of [main]: the witness on its input, the shards and receipts that
    follow, the committed bytes, and the runs behind the receipts. *)
#[local] Unset Elimination Schemes.
Inductive Tree (R : Type) :=
| Run (w : Witness) (shards : list PreimageVecEntry) (stdin : list R) (out : bytes)
    (children : list (Tree R)).
#[local] Set Elimination Schemes.
Arguments Run {R}.

Section tree_ind.
Context {R : Type} (P : Tree R -> Prop).
Hypothesis P_Run : forall w shards stdin out children,
  Forall P children -> P (Run w shards stdin out children).

Fixpoint Tree_ind (t : Tree R) : P t :=
  match t with
  | Run w shards stdin out children =>
      P_Run w shards stdin out children
        ((fix all (l : list (Tree R)) : Forall P l :=
            match l with
            | [] => Forall_nil_2 P
            | c :: l => Forall_cons_2 P c l (Tree_ind c) (all l)
            end) children)
  end.
End tree_ind.

Section tree.
Context {R : Type}.

Definition witness (t : Tree R) : Witness := let '(Run w _ _ _ _) := t in w.
Definition shards (t : Tree R) : list PreimageVecEntry := let '(Run _ shards _ _ _) := t in shards.
Definition stdin (t : Tree R) : list R := let '(Run _ _ stdin _ _) := t in stdin.
Definition output (t : Tree R) : bytes := let '(Run _ _ _ out _) := t in out.
Definition children (t : Tree R) : list (Tree R) := let '(Run _ _ _ _ children) := t in children.

(** All runs of a tree. *)
Fixpoint nodes (t : Tree R) : list (Tree R) :=
  t :: match t with Run _ _ _ _ children => concat (map nodes children) end.

Definition payout (t : Tree R) : Z := payout_recipient_address (witness t).
Definition image_of (t : Tree R) : Z := w_fpvm_image_id (witness t).
Definition cache (t : Tree R) : list Execution := concat (stitched_executions (witness t)).

Lemma nodes_self t : t ∈ nodes t.
Proof. destruct t. left. Qed.

Lemma nodes_child c t n : c ∈ children t -> n ∈ nodes c -> n ∈ nodes t.
Proof.
  destruct t as [w sh si out l]. cbn [children nodes]. intros Hc Hn. right.
  apply list_elem_of_In, in_concat. exists (nodes c).
  split; [by apply in_map, list_elem_of_In|by apply list_elem_of_In].
Qed.
End tree.

Section proofs.
Context {R S Cursor TrieNode Receipt Tx : Type}.
Context `{Zkvm R} `{ReceiptsRoot} `{Digests} `{Rlp} `{Pot} `{PreimageKeys} `{Kzg}.
Context `{Environment S} `{Executor S} `{CoreEnvironment S Cursor}.
Context `{L1Environment S TrieNode Receipt Tx}.

(** The program: the environment it builds from its oracles, and its image. *)
Context (start : VecOracle -> VecOracle -> entries -> S) (image : Z).

(** ** Valid trees *)

(** The journals whose proofs a run requires: one per stitched boot record and,
    after a derivation, one per stitched trace. *)
Definition required (n : Tree R) : list bytes :=
  match decode_packed (output n) with
  | Ok j =>
      map (fun b => encode_packed (new_stitched (image_of n) (payout n) (precondition_hash j)
                                     (pj_config_hash j) b)) (stitched_boot_info (witness n))
      ++ if pj_l1_head j =? 0 then [] else
           flat_map (fun trace =>
               match trace_journal (image_of n) (payout n) (pj_config_hash j) trace with
               | Ok jt => [encode_packed jt]
               | _ => []
               end) (stitched_executions (witness n))
  | _ => []
  end.

(** Every integer of a witness is in the range of its Rust type. *)
Definition typed_boot_info (b : StitchedBootInfo) : Prop :=
  b256 (sb_l1_head b) /\ b256 (sb_agreed_l2_output_root b) /\
  b256 (sb_claimed_l2_output_root b) /\ u64 (sb_claimed_l2_block_number b).
Definition typed_execution (e : Execution) : Prop :=
  wf_execution e /\ u64 (hdr_number (header (artifacts e))).
Definition typed_witness (w : Witness) : Prop :=
  address (payout_recipient_address w) /\ b256 (w_fpvm_image_id w) /\
  Forall typed_boot_info (stitched_boot_info w) /\
  Forall (Forall typed_execution) (stitched_executions w).
Definition typed_boot (b : BootInfo) : Prop :=
  b256 (bi_l1_head b) /\ b256 (bi_agreed_l2_output_root b) /\
  b256 (bi_claimed_l2_output_root b) /\ u64 (bi_claimed_l2_block_number b).

(** A run that committed its output, and the runs behind the receipts and
    assumptions it used for the program itself. *)
Definition valid_run (n : Tree R) : Prop :=
  typed_witness (witness n) /\
  guest_main start (kona_stitching_client true guest (stdin n)) (witness n) (shards n)
    = Ok (output n) /\
  (image_of n = image ->
     Forall (fun r => receipt_verify image r = Ok tt ->
               receipt_journal r ∈ output <$> children n) (stdin n) /\
     Forall (fun b => env_verify image b = Ok tt -> b ∈ output <$> children n) (required n)).

Definition valid (t : Tree R) : Prop := Forall valid_run (nodes t).

(** Two byte strings of the tree that the zkVM cannot tell apart. *)
Definition statements (t : Tree R) : list bytes :=
  concat (map (fun n => output n :: required n) (nodes t)).
Definition digest_collision (t : Tree R) : Prop :=
  exists b1 b2, b1 ∈ statements t /\ b2 ∈ statements t /\ collision journal_digest b1 b2.

(** Two traces of some runs with the same precondition hash. *)
Definition traces (l : list (Tree R)) : list (list Execution) :=
  concat (map (fun n => cache n :: stitched_executions (witness n)) l).
Definition trace_collision (l : list (Tree R)) : Prop :=
  exists t1 t2, t1 ∈ traces l /\ t2 ∈ traces l /\ executions_collision t1 t2.

(** ** What runs prove *)

(** The run's core client succeeded, on validated preimages and blobs. *)
Definition core_run (n : Tree R) (boot : BootInfo) (ph : Z) : Prop :=
  exists filled streamed beacon s',
    load_shards (preimages (oracle_witness (witness n))) (shards n) = Ok (filled, streamed) /\
    validate filled = Ok tt /\ preloaded_from (blobs_witness (witness n)) = Ok beacon /\
    run_core_client guest (precondition_validation_data_hash (witness n)) (cache n) None
      (start {| preimages := filled; queue := queue (oracle_witness (witness n)); frames := streamed |}
             {| preimages := []; queue := []; frames := streamed |} beacon) = (Ok (boot, ph), s').

(** A journal is proven by one run, whose traces are proven when it derives, or
    joined from two that meet and agree on everything but their ends. *)
Inductive Proven (l : list (Tree R)) : ProofJournal -> Prop :=
| proven_run n boot ph j :
    n ∈ l -> core_run n boot ph -> journal_new image (payout n) ph boot = Ok j ->
    (forall trace, pj_l1_head j <> 0 -> trace ∈ stitched_executions (witness n) ->
       Forall (fun e => check_execution boot e = Ok tt) trace /\
       exists jt, trace_journal image (payout n) (pj_config_hash j) trace = Ok jt) ->
    (forall trace jt, pj_l1_head j <> 0 -> trace ∈ stitched_executions (witness n) ->
       trace_journal image (payout n) (pj_config_hash j) trace = Ok jt -> Proven l jt) ->
    Proven l j
| proven_join j1 j2 :
    Proven l j1 -> Proven l j2 ->
    pj_claimed_l2_output_root j1 = pj_agreed_l2_output_root j2 ->
    payout_recipient j1 = payout_recipient j2 -> precondition_hash j1 = precondition_hash j2 ->
    pj_l1_head j1 = pj_l1_head j2 -> pj_config_hash j1 = pj_config_hash j2 ->
    fpvm_image_id j1 = fpvm_image_id j2 ->
    Proven l (set_agreed (pj_agreed_l2_output_root j1) j2).

(** [trace] was executed by an execution-only run with the rollup
    configuration hash [ch]. *)
Definition executed (l : list (Tree R)) (ch : Z) (trace : list Execution) : Prop :=
  exists n boot ph, n ∈ l /\ core_run n boot ph /\ bi_l1_head boot = 0 /\
    config_hash (bi_rollup_config boot) = Ok ch /\ committed <$> cache n = committed <$> trace.

(** The execution-only run behind a journal without an L1 head. *)
Definition execution_only (l : list (Tree R)) (j : ProofJournal) : Prop :=
  exists n boot, n ∈ l /\ core_run n boot (precondition_hash j) /\ bi_l1_head boot = 0 /\
    config_hash (bi_rollup_config boot) = Ok (pj_config_hash j) /\
    bi_agreed_l2_output_root boot = pj_agreed_l2_output_root j /\
    bi_claimed_l2_output_root boot = pj_claimed_l2_output_root j /\
    bi_claimed_l2_block_number boot = pj_claimed_l2_block_number j /\
    payout n = payout_recipient j.

(** The consecutive runs behind a journal with an L1 head. *)
Fixpoint route (a : Z) (l : list BootInfo) (b : Z) : Prop :=
  match l with
  | [] => a = b
  | boot :: l => bi_agreed_l2_output_root boot = a /\ route (bi_claimed_l2_output_root boot) l b
  end.

Definition segment (l : list (Tree R)) (j : ProofJournal) (run : Tree R * BootInfo) : Prop :=
  let '(n, boot) := run in
  n ∈ l /\ core_run n boot (precondition_hash j) /\ bi_l1_head boot = pj_l1_head j /\
  config_hash (bi_rollup_config boot) = Ok (pj_config_hash j) /\
  payout n = payout_recipient j /\
  Forall (fun trace => Forall (fun e => check_execution boot e = Ok tt) trace /\
            executed l (pj_config_hash j) trace) (stitched_executions (witness n)).

Definition derivation (l : list (Tree R)) (j : ProofJournal) (runs : list (Tree R * BootInfo)) : Prop :=
  Forall (segment l j) runs /\
  route (pj_agreed_l2_output_root j) runs.*2 (pj_claimed_l2_output_root j) /\
  (bi_claimed_l2_block_number <$> list_last runs.*2) = Some (pj_claimed_l2_block_number j).

(** ** Lemmas: ranges *)

Lemma config_hash_width c h : config_hash c = Ok h -> b256 h.
Proof. unfold config_hash. intros Hc. ok_inv. apply sha256_width. Qed.

Lemma zero_width : b256 0.
Proof. unfold in_width. lia. Qed.

Lemma validate_precondition_width t d blobs n outputs ph :
  validate_precondition t d blobs n outputs = Ok ph -> b256 ph.
Proof.
  destruct d. unfold validate_precondition. intros Hv. ok_inv.
  destruct (n <? _); [done|]. destruct (_ <? n); [done|].
  destruct (bool_decide _); ok_inv; apply sha256_width.
Qed.

Lemma precondition_hash_width t pvh l c s boot ph s' :
  run_core_client t pvh l c s = (Ok (boot, ph), s') -> b256 ph.
Proof.
  intros Hr. apply run_core_client_Ok in Hr
    as (sh & l1 & out & x & _ & _ & _ & Hb & _).
  destruct (bi_l1_head boot =? 0).
  - apply run_execution_only_Ok in Hb as (_ & Hp & _). unfold exec_precondition_hash in Hp.
    ok_inv. apply sha256_width.
  - apply run_derivation_Ok in Hb as (data & outputs & w & y & z & _ & _ & _ & _ & _ & Hp & _).
    destruct data as [[d blobs]|]; cbn [epilogue_precondition] in Hp; [|ok_inv; apply zero_width].
    by eapply validate_precondition_width.
Qed.

Lemma journal_new_wf img p ph boot j :
  b256 img -> address p -> b256 ph -> typed_boot boot -> journal_new img p ph boot = Ok j ->
  wf_journal j.
Proof.
  unfold journal_new. intros ??? (?&?&?&?) Hj. ok_inv.
  apply config_hash_width in E. unfold wf_journal. by split_and!.
Qed.

Lemma new_stitched_wf img p ph ch b :
  b256 img -> address p -> b256 ph -> b256 ch -> typed_boot_info b ->
  wf_journal (new_stitched img p ph ch b).
Proof. intros ???? (?&?&?&?). by split_and!. Qed.

Lemma path_typed a l b :
  Forall typed_boot_info l -> path a l b -> (b256 b -> b256 a) /\ (b256 a -> b256 b).
Proof.
  revert a; induction l as [|x l IH]; cbn; intros a Hl Hp; [by subst|].
  inversion Hl as [|?? (?&?&?&?)]; subst. destruct Hp as (<- & _ & Hp).
  apply IH in Hp as []; auto.
Qed.

Lemma last_number_typed n l : u64 n -> Forall typed_boot_info l -> u64 (last_number n l).
Proof.
  intros Hn Hl. revert n Hn. induction Hl as [|x l (?&?&?&?) _ IH]; intros n Hn; [done|].
  rewrite last_number_cons. auto.
Qed.

Lemma spans_wf j0 j before after :
  wf_journal j0 -> Forall typed_boot_info before -> Forall typed_boot_info after ->
  spans j0 j before after -> wf_journal j.
Proof.
  intros (?&?&?&?&?&?&?&?) Hb Ha (Hp1 & Hp2 & Hn & E1 & E2 & E3 & E4 & E5).
  unfold wf_journal. rewrite Hn, E1, E2, E3, E4, E5.
  destruct (path_typed _ _ _ Hb Hp1), (path_typed _ _ _ Ha Hp2).
  split_and!; auto using last_number_typed.
Qed.

Lemma trace_journal_wf img p ch trace jt :
  b256 img -> address p -> b256 ch -> Forall typed_execution trace ->
  trace_journal img p ch trace = Ok jt -> wf_journal jt /\ pj_l1_head jt = 0.
Proof.
  unfold trace_journal, trace_boot_info. intros ??? Ht Hj. ok_inv. split; [|done].
  match goal with X : head trace = Some ?e, Y : list_last trace = Some ?e' |- _ =>
    assert (He : e ∈ trace) by (destruct trace; cbn in X; simplify_eq; left);
    apply list_last_elem in Y as He' end.
  pose proof (proj1 (list.Forall_forall _ _) Ht _ He) as [(?&_&_&_) _].
  pose proof (proj1 (list.Forall_forall _ _) Ht _ He') as [(_&_&_&?) ?].
  apply new_stitched_wf; try done.
  unfold exec_precondition_hash in *. ok_inv. apply sha256_width.
Qed.

(** ** Lemmas: joining *)

Lemma Proven_before l j0 before a :
  Proven l j0 -> path a before (pj_agreed_l2_output_root j0) ->
  Forall (fun b => sb_l1_head b = pj_l1_head j0 /\
    Proven l (new_stitched (fpvm_image_id j0) (payout_recipient j0) (precondition_hash j0)
                (pj_config_hash j0) b)) before ->
  Proven l (set_agreed a j0).
Proof.
  intros Hj Hp Hf. revert a Hp. induction Hf as [|b before [Hh Hb] _ IH]; cbn; intros a Hp.
  - subst. by destruct j0.
  - destruct Hp as (<- & _ & Hp). by apply (proven_join _ _ _ Hb (IH _ Hp)).
Qed.

Lemma Proven_after l j0 after b :
  Proven l j0 -> path (pj_claimed_l2_output_root j0) after b ->
  Forall (fun s => sb_l1_head s = pj_l1_head j0 /\
    Proven l (new_stitched (fpvm_image_id j0) (payout_recipient j0) (precondition_hash j0)
                (pj_config_hash j0) s)) after ->
  Proven l (set_claimed b (last_number (pj_claimed_l2_block_number j0) after) j0).
Proof.
  intros Hj Hp Hf. revert j0 Hj Hp Hf.
  induction after as [|s after IH]; cbn [path]; intros j0 Hj Hp Hf.
  - subst. by destruct j0.
  - destruct Hp as (Ha & _ & Hp). inversion Hf as [|?? [Hh Hs] Hf']; subst.
    specialize (IH (set_claimed (sb_claimed_l2_output_root s) (sb_claimed_l2_block_number s) j0)).
    rewrite last_number_cons. apply IH; [|done|done].
    replace (set_claimed _ _ j0) with (set_agreed (pj_agreed_l2_output_root j0)
      (new_stitched (fpvm_image_id j0) (payout_recipient j0) (precondition_hash j0)
        (pj_config_hash j0) s)) by (destruct j0; cbn in *; by subst).
    by apply proven_join.
Qed.

Lemma Proven_spans l j0 j before after :
  Proven l j0 -> spans j0 j before after ->
  Forall (fun b => sb_l1_head b = pj_l1_head j0 /\
    Proven l (new_stitched (fpvm_image_id j0) (payout_recipient j0) (precondition_hash j0)
                (pj_config_hash j0) b)) (before ++ after) ->
  Proven l j.
Proof.
  intros Hj (Hb & Ha & Hn & E1 & E2 & E3 & E4 & E5) [Hf1 Hf2]%Forall_app.
  pose proof (Proven_after _ _ _ _ Hj Ha Hf2) as Hj'.
  replace j with (set_agreed (pj_agreed_l2_output_root j) (set_claimed
    (pj_claimed_l2_output_root j) (last_number (pj_claimed_l2_block_number j0) after) j0))
    by (destruct j, j0; cbn in *; by subst).
  by eapply Proven_before.
Qed.

Lemma Proven_mono l l' j : l ⊆ l' -> Proven l j -> Proven l' j.
Proof. intros Hl Hj. induction Hj; [eapply proven_run; eauto|by apply proven_join]. Qed.

(** ** Lemmas: one run *)

Lemma statements_node t n b : n ∈ nodes t -> b ∈ output n :: required n -> b ∈ statements t.
Proof.
  intros Hn Hb. apply list_elem_of_In, in_concat. exists (output n :: required n).
  split; [|by apply list_elem_of_In].
  apply (in_map (fun n => output n :: required n)). by apply list_elem_of_In.
Qed.

Lemma statements_child t c b : c ∈ children t -> b ∈ statements c -> b ∈ statements t.
Proof.
  intros Hc Hb. apply list_elem_of_In, in_concat in Hb as (x & Hx & Hb).
  apply in_map_iff in Hx as (n & <- & Hn%list_elem_of_In).
  apply (statements_node _ n); [by eapply nodes_child|by apply list_elem_of_In].
Qed.

Lemma digest_collision_child t c : c ∈ children t -> digest_collision c -> digest_collision t.
Proof. intros Hc (b1 & b2 & ? & ? & ?). exists b1, b2. eauto using statements_child. Qed.

Lemma valid_child t c : c ∈ children t -> valid t -> valid c.
Proof.
  unfold valid. rewrite !list.Forall_forall. intros Hc Hv n Hn. by eapply Hv, nodes_child.
Qed.

(** What a run attests is the output of a child. *)
Lemma attested_child t b :
  valid_run t -> image_of t = image -> b ∈ required t -> attested (stdin t) image b ->
  (exists c, c ∈ children t /\ output c = b) \/ digest_collision t.
Proof.
  intros (_ & _ & Hv) Him Hb Ha. destruct (Hv Him) as [Hr He]. clear Hv.
  rewrite list.Forall_forall in Hr. rewrite list.Forall_forall in He.
  destruct Ha as [(r & Hin & Hok & Hd)|Hok].
  - destruct (list_elem_of_fmap_1 _ _ _ (Hr r Hin Hok)) as (c & Hout & Hc).
    destruct (hash_inj_or_collision _ _ _ Hd) as [<-|Hcol]; [left; eauto|right].
    exists (receipt_journal r), b. split_and!; [|eapply statements_node; [apply nodes_self|by right]|done].
    rewrite Hout. eapply statements_child; [done|].
    eapply statements_node; [apply nodes_self|left].
  - left. destruct (list_elem_of_fmap_1 _ _ _ (He b Hb Hok)) as (c & ? & ?). eauto.
Qed.

Lemma required_boot n j b :
  output n = encode_packed j -> wf_journal j -> b ∈ stitched_boot_info (witness n) ->
  encode_packed (new_stitched (image_of n) (payout n) (precondition_hash j) (pj_config_hash j) b)
    ∈ required n.
Proof.
  intros Ho Hj Hb. unfold required. rewrite Ho, <-(app_nil_r (encode_packed j)), journal_roundtrip by done.
  apply elem_of_app. left. apply list_elem_of_In.
  apply (in_map (fun b => encode_packed (new_stitched _ _ _ _ b))). by apply list_elem_of_In.
Qed.

Lemma required_trace n j trace jt :
  output n = encode_packed j -> wf_journal j -> pj_l1_head j <> 0 ->
  trace ∈ stitched_executions (witness n) ->
  trace_journal (image_of n) (payout n) (pj_config_hash j) trace = Ok jt ->
  encode_packed jt ∈ required n.
Proof.
  intros Ho Hj Hz Ht Hjt. unfold required.
  rewrite Ho, <-(app_nil_r (encode_packed j)), journal_roundtrip by done.
  rewrite (proj2 (Z.eqb_neq _ _) Hz). apply elem_of_app. right.
  apply list_elem_of_In, in_flat_map. exists trace. split; [by apply list_elem_of_In|].
  rewrite Hjt. by left.
Qed.

(** What the induction over a tree shows of it. *)
Definition sound (t : Tree R) : Prop :=
  exists j, wf_journal j /\ output t = encode_packed j /\ pj_claimed_l2_output_root j <> 0 /\
    (fpvm_image_id j = image -> digest_collision t \/ Proven (nodes t) j).

(** A journal that the run required was proven by its children. *)
Lemma attested_Proven t jt :
  valid_run t -> Forall sound (children t) -> image_of t = image ->
  wf_journal jt -> fpvm_image_id jt = image -> encode_packed jt ∈ required t ->
  attested (stdin t) image (encode_packed jt) -> digest_collision t \/ Proven (nodes t) jt.
Proof.
  intros Hv Hs Him Hw Hi Hr Ha.
  destruct (attested_child _ _ Hv Him Hr Ha) as [(c & Hc & Ho)|?]; [|by left].
  rewrite list.Forall_forall in Hs. destruct (Hs c Hc) as (jc & Hwc & Hoc & _ & Hp).
  rewrite Ho in Hoc. apply (encode_packed_inj _ _ Hw Hwc) in Hoc as <-.
  destruct (Hp Hi) as [?|?]; [left; by eapply digest_collision_child|right].
  eapply Proven_mono; [|done]. intros n. by apply nodes_child.
Qed.

(** The facts of [guest_main_Ok], with the ranges of the journals. *)
Record run_facts (t : Tree R) (boot : BootInfo) (ph : Z) (j0 j : ProofJournal)
    (before after : list StitchedBootInfo) : Prop := {
  rf_core : core_run t boot ph;
  rf_journal : journal_new (image_of t) (payout t) ph boot = Ok j0;
  rf_fields : payout_recipient j0 = payout t /\ precondition_hash j0 = ph /\
    pj_l1_head j0 = bi_l1_head boot /\ fpvm_image_id j0 = image_of t;
  rf_perm : before ++ after ≡ₚ stitched_boot_info (witness t);
  rf_spans : spans j0 j before after;
  rf_boots : forall b, b ∈ stitched_boot_info (witness t) -> sb_l1_head b = pj_l1_head j0 /\
    attested (stdin t) (image_of t) (encode_packed
      (new_stitched (image_of t) (payout t) (precondition_hash j) (pj_config_hash j) b));
  rf_traces : forall trace, pj_l1_head j0 <> 0 -> trace ∈ stitched_executions (witness t) ->
    Forall (fun e => check_execution boot e = Ok tt) trace /\
    exists jt, trace_journal (image_of t) (payout t) (pj_config_hash j) trace = Ok jt /\
      attested (stdin t) (image_of t) (encode_packed jt);
  rf_wf0 : wf_journal j0; rf_wf : wf_journal j;
  rf_output : output t = encode_packed j; rf_claimed : pj_claimed_l2_output_root j <> 0;
}.

Lemma valid_run_facts t :
  (forall x boot y, boot_load x = (Ok boot, y) -> typed_boot boot) -> valid_run t ->
  exists boot ph j0 j before after, run_facts t boot ph j0 j before after.
Proof.
  intros Hboot ((Wp & Wi & Wb & _) & Hg & _).
  apply guest_main_Ok in Hg as (filled & streamed & beacon & boot & ph & s' & j0 & j & before & after &
    ? & ? & ? & Hrun & Hj0 & Hperm & Hsp & Hboots & Htr & ? & ?).
  pose proof (precondition_hash_width _ _ _ _ _ _ _ _ Hrun) as Wph.
  assert (typed_boot boot) as Wboot
    by (apply run_core_client_Ok in Hrun as (?&?&?&?&(?&?&?&?&?&?&?&_)&_); eauto).
  pose proof (journal_new_wf _ _ _ _ _ Wi Wp Wph Wboot Hj0) as Wj0.
  assert (Forall typed_boot_info (before ++ after)) as [Wb1 Wb2]%Forall_app by by rewrite Hperm.
  pose proof (spans_wf _ _ _ _ Wj0 Wb1 Wb2 Hsp) as Wj.
  assert (payout_recipient j0 = payout t /\ precondition_hash j0 = ph /\
    pj_l1_head j0 = bi_l1_head boot /\ fpvm_image_id j0 = image_of t) as (Fp & Fph & Fl & Fim)
    by (unfold journal_new in Hj0; ok_inv; done).
  pose proof Hsp as (_ & _ & _ & _ & Eph & _ & Ec & _).
  exists boot, ph, j0, j, before, after. split; try done; [by repeat eexists| |].
  - rewrite list.Forall_forall in Hboots. intros b Hb. by rewrite Fl, Eph, Fph, Ec; apply Hboots.
  - intros trace Hl Ht. rewrite decide_False, list.Forall_forall in Htr by congruence.
    rewrite Ec. by apply Htr.
Qed.

Section run.
Context (t : Tree R) (boot : BootInfo) (ph : Z) (j0 j : ProofJournal).
Context (before after : list StitchedBootInfo).
Hypothesis Hv : valid_run t.
Hypothesis Hs : Forall sound (children t).
Hypothesis Him : image_of t = image.
Hypothesis F : run_facts t boot ph j0 j before after.

Lemma boots_Proven :
  digest_collision t \/ Forall (fun b => Proven (nodes t)
    (new_stitched image (payout t) (precondition_hash j) (pj_config_hash j) b))
    (stitched_boot_info (witness t)).
Proof.
  destruct Hv as ((? & ? & Wb & _) & _). destruct (rf_wf _ _ _ _ _ _ _ F) as (?&?&_&_&_&_&?&_).
  apply Forall_or. rewrite list.Forall_forall in Wb |- *. intros b Hb.
  destruct (rf_boots _ _ _ _ _ _ _ F b Hb) as [_ Hat]. rewrite Him in Hat.
  apply attested_Proven; try done.
  - apply new_stitched_wf; try done; [by rewrite <-Him|auto].
  - rewrite <-Him. apply required_boot; [apply F..|done].
Qed.

Lemma traces_Proven :
  digest_collision t \/ Forall (fun trace => forall jt, pj_l1_head j0 <> 0 ->
    trace_journal image (payout t) (pj_config_hash j) trace = Ok jt -> Proven (nodes t) jt)
    (stitched_executions (witness t)).
Proof.
  destruct Hv as ((? & Wi & _ & We) & _). destruct (rf_wf _ _ _ _ _ _ _ F) as (_&_&_&_&_&_&?&_).
  change (b256 (image_of t)) in Wi. rewrite Him in Wi.
  apply Forall_or. rewrite list.Forall_forall in We |- *. intros trace Ht.
  destruct (decide (pj_l1_head j0 = 0)) as [|Hl]; [by right|].
  destruct (rf_traces _ _ _ _ _ _ _ F trace Hl Ht) as (_ & jt & Hjt & Hat). rewrite Him in Hjt, Hat.
  destruct (trace_journal_wf image (payout t) (pj_config_hash j) trace jt) as [? _]; auto.
  destruct (attested_Proven t jt) as [?|?]; try done; [| |by left|right; intros; congruence].
  - unfold trace_journal in Hjt. by ok_inv.
  - apply (required_trace _ j trace); [apply F..| |done|by rewrite Him].
    destruct (rf_spans _ _ _ _ _ _ _ F) as (_&_&_&_&_&->&_). done.
Qed.

Lemma run_Proven : digest_collision t \/ Proven (nodes t) j.
Proof.
  destruct boots_Proven as [?|Hb]; [by left|]. destruct traces_Proven as [?|Ht]; [by left|right].
  destruct F as [Hc Hj (Fp & Fph & Fl & Fi) Hperm Hsp Hboots Htr _ _ _ _].
  rewrite Him in Hj, Htr. pose proof Hsp as (_ & _ & _ & _ & Eph & _ & Ec & _).
  rewrite Eph, Ec in Hb. rewrite Ec in Ht, Htr.
  eapply Proven_spans; [|exact Hsp|].
  - rewrite list.Forall_forall in Ht. apply (proven_run _ t boot ph); [apply nodes_self|done|done| |eauto].
    intros trace Hl Hin. destruct (Htr trace Hl Hin) as (? & jt & ? & _). eauto.
  - rewrite Hperm, Fi, Him, Fp. rewrite list.Forall_forall in Hb |- *.
    intros b Hin. split; [by apply Hboots|by apply Hb].
Qed.
End run.

Lemma tree_sound t :
  (forall x boot y, boot_load x = (Ok boot, y) -> typed_boot boot) -> valid t -> sound t.
Proof.
  intros Hboot. induction t as [w sh si out l IH]. intros Hv.
  assert (Hr : valid_run (Run w sh si out l)) by (by inversion Hv).
  destruct (valid_run_facts _ Hboot Hr) as (boot & ph & j0 & j & before & after & F).
  exists j. split_and!; [apply F..|]. intros Hi. eapply run_Proven; [done| | |exact F].
  - rewrite list.Forall_forall in IH |- *. intros c Hc. apply IH; [done|]. by eapply valid_child.
  - destruct F as [_ _ (_ & _ & _ & Fi) _ (_&_&_&_&_&_&_&E) _ _ _ _ _ _]. congruence.
Qed.

(** ** Lemmas: the runs behind a proven journal *)

Lemma core_run_executions n boot ph :
  core_run n boot ph -> bi_l1_head boot = 0 ->
  exec_precondition_hash (cache n) = Ok ph /\ cache n <> [] /\
  chain (bi_agreed_l2_output_root boot) (cache n) (bi_claimed_l2_output_root boot).
Proof.
  intros (? & ? & ? & s' & _ & _ & _ & Hr) Hz.
  apply core_execution_only_Ok in Hr as (? & ? & (e & He & _) & _); [|done].
  split_and!; [done|intros Hn; by rewrite Hn in He|done].
Qed.

Lemma chain_start a l b a' l' b' :
  committed <$> l = committed <$> l' -> l <> [] -> chain a l b -> chain a' l' b' -> a = a'.
Proof.
  destruct l as [|e l], l' as [|e' l']; cbn; try done. intros E _ [<- _] [<- _].
  unfold committed in E. congruence.
Qed.

Section runs.
Context (l : list (Tree R)).
Hypothesis Hl : Forall (fun n => typed_witness (witness n)) l.

Lemma traces_wf trace : trace ∈ traces l -> Forall wf_execution trace.
Proof.
  intros (x & (n & <- & Hn%list_elem_of_In)%in_map_iff & Ht)%list_elem_of_In%in_concat.
  rewrite list.Forall_forall in Hl. destruct (Hl n Hn) as (_ & _ & _ & Hw).
  assert (Hw' : Forall (Forall wf_execution) (stitched_executions (witness n))).
  { eapply Forall_impl; [|exact Hw]. intros t Ht'. eapply Forall_impl; [|exact Ht'].
    by intros e []. }
  destruct Ht as [<-|Ht]; [unfold cache; by apply Forall_concat|].
  rewrite list.Forall_forall in Hw'. by apply Hw', list_elem_of_In.
Qed.

Lemma traces_node n trace :
  n ∈ l -> trace ∈ cache n :: stitched_executions (witness n) -> trace ∈ traces l.
Proof.
  intros Hn Ht. apply list_elem_of_In, in_concat. eexists. split; [|by apply list_elem_of_In].
  apply (in_map (fun n => cache n :: stitched_executions (witness n))). by apply list_elem_of_In.
Qed.

Lemma traces_committed t1 t2 h :
  t1 ∈ traces l -> t2 ∈ traces l ->
  exec_precondition_hash t1 = Ok h -> exec_precondition_hash t2 = Ok h ->
  trace_collision l \/ committed <$> t1 = committed <$> t2.
Proof.
  intros H1' H2' E1 E2.
  destruct (exec_precondition_hash_inj t1 t2 h) as [?|?]; auto using traces_wf.
  left. exists t1, t2. auto.
Qed.

Lemma journal_new_fields img p ph boot j :
  journal_new img p ph boot = Ok j ->
  config_hash (bi_rollup_config boot) = Ok (pj_config_hash j) /\
  j = new_stitched img p ph (pj_config_hash j)
    {| sb_l1_head := bi_l1_head boot; sb_agreed_l2_output_root := bi_agreed_l2_output_root boot;
       sb_claimed_l2_output_root := bi_claimed_l2_output_root boot;
       sb_claimed_l2_block_number := bi_claimed_l2_block_number boot |}.
Proof. unfold journal_new. intros Hj. by ok_inv. Qed.

Lemma Proven_execution_only j :
  Proven l j -> pj_l1_head j = 0 -> trace_collision l \/ execution_only l j.
Proof.
  induction 1 as [n boot ph j Hn Hr Hj _ _ _|j1 j2 _ IH1 _ IH2 _ _ Eph El Ec _]; intros Hz.
  - right. apply journal_new_fields in Hj as [Hc Ej]. exists n, boot. rewrite Ej in Hz |- *. by cbn in *.
  - cbn in Hz. destruct (IH1 ltac:(congruence)) as [?|(n1 & b1 & Hn1 & Hr1 & Hz1 & _ & Ha1 & _)]; [by left|].
    destruct (IH2 Hz) as [?|(n2 & b2 & Hn2 & Hr2 & Hz2 & Hc2 & Ha2 & Hb2 & Hm2 & Hq2)]; [by left|].
    destruct (core_run_executions _ _ _ Hr1 Hz1) as (Hp1 & Hne & Hch1).
    destruct (core_run_executions _ _ _ Hr2 Hz2) as (Hp2 & _ & Hch2). rewrite Eph in Hp1.
    destruct (traces_committed (cache n1) (cache n2) (precondition_hash j2)) as [?|E];
      [apply (traces_node n1); [done|left]|apply (traces_node n2); [done|left]|done|done|by left|right].
    exists n2, b2. split_and!; try done. cbn. rewrite <-Ha1. symmetry. by eapply chain_start.
Qed.

Lemma Proven_executed n trace img p ch jt :
  n ∈ l -> trace ∈ stitched_executions (witness n) -> trace_journal img p ch trace = Ok jt ->
  Proven l jt -> trace_collision l \/ executed l ch trace.
Proof.
  unfold trace_journal, trace_boot_info. intros Hn Ht Hj Hp. ok_inv.
  destruct (Proven_execution_only _ Hp eq_refl) as [?|(n' & b & Hn' & Hr & Hz & Hc & _)]; [by left|].
  destruct (core_run_executions _ _ _ Hr Hz) as (Hph & _ & _).
  destruct (traces_committed (cache n') trace x) as [?|?];
    [apply (traces_node n'); [done|left]|apply (traces_node n); [done|by right]|done|done|by left|right].
  by exists n', b, x.
Qed.

Lemma route_app a l1 b l2 c : route a l1 b -> route b l2 c -> route a (l1 ++ l2) c.
Proof. revert a; induction l1 as [|x l1 IH]; cbn; intros a; [by intros ->|]. naive_solver. Qed.

Lemma derivation_join j1 j2 r1 r2 :
  pj_claimed_l2_output_root j1 = pj_agreed_l2_output_root j2 ->
  payout_recipient j1 = payout_recipient j2 -> precondition_hash j1 = precondition_hash j2 ->
  pj_l1_head j1 = pj_l1_head j2 -> pj_config_hash j1 = pj_config_hash j2 ->
  derivation l j1 r1 -> derivation l j2 r2 ->
  derivation l (set_agreed (pj_agreed_l2_output_root j1) j2) (r1 ++ r2).
Proof.
  intros Em Ep Eph El Ec (Hs1 & Hr1 & _) (Hs2 & Hr2 & Hn2). unfold derivation. rewrite fmap_app. cbn.
  split_and!.
  - apply Forall_app. split; [|done]. eapply Forall_impl; [|exact Hs1]. intros [n b].
    unfold segment. cbn. by rewrite Ep, Eph, El, Ec.
  - rewrite Em in Hr1. by eapply route_app.
  - destruct (list_last r2.*2) eqn:E; [|done]. by rewrite (list_last_app _ _ _ E).
Qed.

Lemma Proven_derivation j :
  Proven l j -> pj_l1_head j <> 0 -> trace_collision l \/ exists runs, derivation l j runs.
Proof.
  induction 1 as [n boot ph j Hn Hr Hj Htr Hp _|j1 j2 _ IH1 _ IH2 Em Ep Eph El Ec _]; intros Hz.
  - assert (trace_collision l \/
      Forall (fun trace => Forall (fun e => check_execution boot e = Ok tt) trace /\
        executed l (pj_config_hash j) trace) (stitched_executions (witness n))) as [?|Hex]; [|by left|right].
    { apply Forall_or, list.Forall_forall. intros trace Ht. destruct (Htr trace Hz Ht) as (? & jt & Hjt).
      destruct (Proven_executed n trace _ _ _ _ Hn Ht Hjt (Hp trace jt Hz Ht Hjt)); auto. }
    exists [(n, boot)]. apply journal_new_fields in Hj as [Hc Ej]. unfold derivation, segment. cbn.
    split_and!; [constructor; [|done]|..]; rewrite Ej; cbn; try done.
  - cbn in Hz. destruct (IH1 ltac:(congruence)) as [?|[r1 ?]]; [by left|].
    destruct (IH2 Hz) as [?|[r2 ?]]; [by left|right]. exists (r1 ++ r2). by apply derivation_join.
Qed.
End runs.

(** ** Property *)

(** C1. What a receipt of the guest program proves, all receipts below it
    followed.  Take a valid tree of runs, and boot records in range.  The root
    committed the encoding of a journal with a nonzero claim.  If that journal
    names the program's own image, then the tree exhibits two byte strings with
    one digest or two traces with one precondition hash, or: without an L1 head
    the journal's segment was re-executed by one run of the tree; with one, runs
    of the core client in the tree, on validated preimages and with the
    journal's L1 head, precondition, rollup configuration and payout recipient,
    lead without a gap from the agreed to the claimed output root, the last of
    them to the claimed block number, and every trace one of them took from its
    cache was re-executed by a run of the tree under the same configuration and
    carries the receipts roots and gas figures of its blocks. *)
Theorem proof_tree_sound t :
  (forall x boot y, boot_load x = (Ok boot, y) -> typed_boot boot) -> valid t ->
  exists j, wf_journal j /\ output t = encode_packed j /\ pj_claimed_l2_output_root j <> 0 /\
    (fpvm_image_id j = image ->
     digest_collision t \/ trace_collision (nodes t) \/
     if decide (pj_l1_head j = 0) then execution_only (nodes t) j
     else exists runs, derivation (nodes t) j runs).
Proof.
  intros Hboot Hv. destruct (tree_sound t Hboot Hv) as (j & ? & ? & ? & Hp).
  exists j. split_and!; [done..|]. intros Hi. destruct (Hp Hi) as [?|HP]; [by left|right].
  assert (Hl : Forall (fun n => typed_witness (witness n)) (nodes t))
    by (eapply Forall_impl; [|exact Hv]; by intros n []).
  case_decide; [by apply Proven_execution_only|by apply Proven_derivation].
Qed.
End proofs.

(** ** Witness: a main run over blocks 5 and 6 that takes its executions from an
    execution-only proof, by a receipt, and is extended by a proof of blocks 7
    and 8, by an assumption *)

Definition demo_tree_zkvm : Zkvm (Z * bytes) := {|
  receipt_journal := snd;
  receipt_verify := fun image r => if r.1 =? image then Ok tt else Err "wrong image";
  journal_digest := demo_digest 13;
  env_verify := fun _ _ => Ok tt |}.

(** The number of preimages on the oracle's queue tells which run this is. *)
Definition demo_start (o stream : VecOracle) (beacon : entries) : Z := Z.of_nat (length (queue o)).
Definition demo_next_boot : BootInfo := {|
  bi_l1_head := 9; bi_agreed_l2_output_root := 2006; bi_claimed_l2_output_root := 2008;
  bi_claimed_l2_block_number := 8; bi_chain_id := 10; bi_rollup_config := demo_config |}.
Definition demo_tree_boot (s : Z) : BootInfo :=
  if s =? 0 then demo_main else if s =? 1 then demo_boot 0 6 2006 else demo_next_boot.

(** [demo_core], with the boot record of the run and any safe head. *)
Definition demo_tree_core : CoreEnvironment Z unit :=
  let c := demo_core demo_main 9 in {|
  boot_load := fun s => (Ok (demo_tree_boot s), s);
  core_hint := @core_hint _ _ c;
  core_get_exact := fun k _ s => (Ok (zeros 96 ++ be_bytes 32 (key_data k - 1000)), s);
  l2_header_by_hash := fun hash s => (Ok (demo_header (hash - 1000)), s);
  l2_block_info_by_number := @l2_block_info_by_number _ _ c;
  channel_timeout := @channel_timeout _ _ c;
  cursor_new := @cursor_new _ _ c; cursor_advance := @cursor_advance _ _ c;
  set_cursor := @set_cursor _ _ c; kona_executor_new := @kona_executor_new _ _ c;
  new_oracle_pipeline_cursor := @new_oracle_pipeline_cursor _ _ c;
  pipeline_new := @pipeline_new _ _ c; driver_new := @driver_new _ _ c;
  advance_to_target := @advance_to_target _ _ c |}.

Definition demo_tree_witness (run : nat) (executions : list (list Execution))
    (boots : list StitchedBootInfo) : Witness := {|
  oracle_witness := {| preimages := []; frames := [];
    queue := replicate run (@key_new demo_keys 1 Local, [], None) |};
  stream_witness := vec_oracle_default; blobs_witness := blob_witness_default;
  payout_recipient_address := 66; precondition_validation_data_hash := 0;
  stitched_executions := executions; stitched_boot_info := boots; w_fpvm_image_id := demo_image |}.

Definition demo_tree_out : bytes := encode_packed (set_claimed 2008 8 (demo_main_journal 0)).
Definition demo_execution_run : Tree (Z * bytes) :=
  Run (demo_tree_witness 1 [demo_trace] []) [] [] (encode_packed demo_trace_journal) [].
Definition demo_next_run : Tree (Z * bytes) :=
  Run (demo_tree_witness 2 [] []) [] []
    (encode_packed (new_stitched demo_image 66 0 demo_config_hash (demo_segment 6 8))) [].
Definition demo_tree : Tree (Z * bytes) :=
  Run (demo_tree_witness 0 [demo_trace] [demo_segment 6 8]) []
    [(demo_image, encode_packed demo_trace_journal)] demo_tree_out
    [demo_execution_run; demo_next_run].

Abbreviation demo_valid_run := (@valid_run _ Z unit bytes bytes bytes demo_tree_zkvm
  demo_receipts_root demo_digests demo_rlp demo_pot demo_keys demo_kzg demo_env demo_executor
  demo_tree_core demo_core_l1 demo_start demo_image).

Lemma demo_typed_witness run executions boots :
  Forall (fun l => l = demo_trace) executions -> Forall (fun b => b = demo_segment 6 8) boots ->
  typed_witness (demo_tree_witness run executions boots).
Proof.
  intros He Hb. unfold typed_witness. cbn. split_and!; [split; vm_compute; congruence..| |].
  - eapply Forall_impl; [|exact Hb]. intros b ->. repeat split; vm_compute; congruence.
  - eapply Forall_impl; [|exact He]. intros l ->.
    repeat constructor; cbn; try (apply demo_execution_wf; lia); lia.
Qed.

Lemma demo_tree_valid : Forall demo_valid_run (nodes demo_tree).
Proof.
  constructor; [|constructor; [|constructor; [|constructor]]]; split_and!;
    try (apply demo_typed_witness; repeat constructor); try (vm_compute; reflexivity).
  - intros _. split; [repeat constructor|].
    replace (required _) with [output demo_next_run; output demo_execution_run] by (vm_compute; reflexivity).
    repeat constructor.
  - intros _. split; [constructor|].
    replace (required _) with (@nil bytes) by (vm_compute; reflexivity). constructor.
  - intros _. split; [constructor|].
    replace (required _) with (@nil bytes) by (vm_compute; reflexivity). constructor.
Qed.

Lemma proof_tree_sound_witness :
  exists j, wf_journal j /\ demo_tree_out = encode_packed j /\ pj_claimed_l2_output_root j <> 0 /\
    (fpvm_image_id j = demo_image ->
     @digest_collision _ demo_tree_zkvm demo_digests demo_rlp demo_tree \/
     @trace_collision _ demo_digests demo_rlp (nodes demo_tree) \/
     if decide (pj_l1_head j = 0)
     then @execution_only _ Z unit bytes bytes bytes demo_digests demo_rlp demo_pot demo_keys
            demo_kzg demo_env demo_executor demo_tree_core demo_core_l1 demo_start (nodes demo_tree) j
     else exists runs, @derivation _ Z unit bytes bytes bytes demo_receipts_root demo_digests
            demo_rlp demo_pot demo_keys demo_kzg demo_env demo_executor demo_tree_core demo_core_l1 demo_start (nodes demo_tree) j runs).
Proof.
  apply (@proof_tree_sound _ Z unit bytes bytes bytes demo_tree_zkvm demo_receipts_root demo_digests
    demo_rlp demo_pot demo_keys demo_kzg demo_env demo_executor demo_tree_core demo_core_l1 demo_start
    demo_image demo_tree).
  - intros x boot y E. unfold boot_load, demo_tree_core, demo_tree_boot in E.
    destruct (x =? 0); [|destruct (x =? 1)]; injection E as <- _; repeat split; vm_compute; congruence.
  - exact demo_tree_valid.
Defined.
