(* ===== verification/DA.v ===== *)
(** * crates/hana, crates/hokulea and their guest programs

    Alternative data availability: the Celestia (hana) and EigenDA (hokulea)
    wrappers of the stitching client.  Each runs [KonaStitchingClient] with a
    data source of its own, and ties the side inputs of that source to the boot
    record of the run. *)

From S2P Require Import Prelude Bytes Config Journal Blobs Precondition Oracle Executor L1Chain Core Stitching.

(** ** Celestia *)

(** kona's [BootInfo::load], which reads from any oracle. *)
Class BootLoader := { boot_info_load : forall O : Type, PreimageOracle O -> St O BootInfo }.

Inductive ChainSpec := ETH_MAINNET | ETH_SEPOLIA | ETH_HOLESKY | SingleSpec (chain_id : Z).

(** hana, risc0-steel and the hint channel, over an oracle of type [T]. *)
Class Celestia (T Commitment EvmInput Env : Type) := {
  blobstream_address : Z -> option Z;
  celestia_hint : Z -> St T unit;
  evm_input_decode : bytes -> outcome EvmInput;
  into_env : ChainSpec -> EvmInput -> outcome Env;
  latest_block_call : Env -> Z -> outcome Z;
  header_seal : Env -> Z;
  celestia_blob_get : Z -> Commitment -> St T bytes;
}.

Record HanaProvider (T : Type) := { celestia_provider : T; blobstream_height : Z }.
Arguments celestia_provider {T}. Arguments blobstream_height {T}.

Section hana.
Context {O Commitment EvmInput Env : Type}.
Context `{Digests} `{PreimageKeys} `{BootLoader} `{PreimageOracle O}.
Abbreviation T := (LocalOnceOracle O).
Context `{Celestia T Commitment EvmInput Env}.

Definition chain_spec (l1_chain_id : Z) : ChainSpec :=
  if l1_chain_id =? 1 then ETH_MAINNET
  else if l1_chain_id =? 11155111 then ETH_SEPOLIA
  else if l1_chain_id =? 17000 then ETH_HOLESKY
  else SingleSpec l1_chain_id.

(** [HanaProvider::new]; the provider is completed with the oracle's state. *)
Definition hana_boot : St T (Z * BootInfo) :=
  boot ← expect_st "Failed to load boot info" (boot_info_load T local_once_oracle);
  blobstream_addr ← lift (unwrap "No canonical Blobstream address found for chain id"
    (blobstream_address (l1_chain_id (bi_rollup_config boot))));
  _ ← expect_st "Failed to send celestia height hint" (celestia_hint blobstream_addr);
  proof ← expect_st "Failed to get celestia height proof"
    (get (key_new (keccak256 (address_bytes blobstream_addr)) GlobalGeneric));
  evm_input ← lift (expect "Failed to deserialize EthEvmInput for celestia height"
    (evm_input_decode proof));
  env ← lift (into_env (chain_spec (l1_chain_id (bi_rollup_config boot))) evm_input);
  blobstream_height ← lift (latest_block_call env blobstream_addr);
  _ ← lift (assert_ (header_seal env =? bi_l1_head boot) "l1_head");
  mret (blobstream_height, boot).

Definition hana_provider_new (celestia : T) : outcome (HanaProvider T * BootInfo) :=
  let '(r, celestia) := hana_boot celestia in
  '(height, boot) ← r;
  Ok ({| celestia_provider := celestia; blobstream_height := height |}, boot).

(** [blob_get] of [HanaProvider]. *)
Definition hana_blob_get (height : Z) (commitment : Commitment) : St (HanaProvider T) bytes := fun p =>
  if blobstream_height p <? height then (Err "BlockNumberPastHead", p)
  else
    let '(r, celestia) := celestia_blob_get height commitment (celestia_provider p) in
    (r, {| celestia_provider := celestia; blobstream_height := blobstream_height p |}).

(** [HanaStitchingClient]: [kona] is [KonaStitchingClient] over the Celestia
    data source of a provider. *)
Definition hana_stitching_client {S : Type} (celestia_da : O)
    (kona : HanaProvider T -> StitchingClient S) : StitchingClient S :=
  fun data_hash image payout executions boots =>
  '(hana_provider, boot) ← lift (hana_provider_new (local_once_new celestia_da));
  '(kona_boot_info, proof_journal) ← kona hana_provider data_hash image payout executions boots;
  _ ← lift (assert_ (bool_decide (boot = kona_boot_info)) "boot");
  mret (kona_boot_info, proof_journal).
End hana.

(** ** EigenDA *)

Record CertValidity := {
  claimed_validity : bool; canoe_proof : option bytes; cert_l1_head : Z; cert_l1_chain_id : Z }.

(** [hokulea_proof::eigenda_blob_witness::EigenDABlobWitnessData]: what the
    three stages of the EigenDA source need, by commitment. *)
Record EigenDAWitness (Commitment Blob : Type) := {
  recency : list (Commitment * Z);
  validity : list (Commitment * CertValidity);
  blob : list (Commitment * Blob);
}.
Arguments recency {Commitment Blob}. Arguments validity {Commitment Blob}.
Arguments blob {Commitment Blob}.

Definition da_witness_precondition {Commitment Blob} (eigen_da : EigenDAWitness Commitment Blob)
    : outcome (option (Z * Z * Z)) :=
  _ ← assert_ (bool_decide (length (validity eigen_da) ≤ length (recency eigen_da))%nat) "recency.len()";
  _ ← assert_ (bool_decide (length (blob eigen_da) ≤ length (validity eigen_da))%nat) "validity.len()";
  match head (validity eigen_da) with
  | None => Ok None
  | Some (_, cert) =>
      let l1_head := cert_l1_head cert in
      let l1_chain_id := cert_l1_chain_id cert in
      _ ← ofold (fun _ c =>
            _ ← assert_ (l1_head =? cert_l1_head (snd c)) "l1_head_block_hash";
            assert_ (l1_chain_id =? cert_l1_chain_id (snd c)) "l1_chain_id") tt (validity eigen_da);
      match head (recency eigen_da) with
      | None => Ok None
      | Some (_, r) =>
          _ ← ofold (fun _ x => assert_ (r =? snd x) "recency") tt (recency eigen_da);
          Ok (Some (l1_head, l1_chain_id, r))
      end
  end.

Definition da_witness_postcondition (precondition : option (Z * Z * Z)) (boot_info : BootInfo)
    : outcome unit :=
  match precondition with
  | Some (l1_head, l1_chain_id', recency) =>
      _ ← assert_ (l1_head =? bi_l1_head boot_info) "l1_head";
      _ ← assert_ (l1_chain_id' =? l1_chain_id (bi_rollup_config boot_info)) "l1_chain_id";
      assert_ (recency =? seq_window_size (bi_rollup_config boot_info)) "seq_window_size"
  | None => Ok tt
  end.

(** hokulea's [to_journal_bytes], the decoder of receipts, and
    [PreloadedEigenDABlobProvider::from_witness] over a certificate check. *)
Class EigenDA (Commitment Blob Receipt Provider : Type) := {
  to_journal_bytes : CertValidity -> Commitment -> bytes;
  receipt_from_slice : bytes -> outcome Receipt;
  from_witness : EigenDAWitness Commitment Blob ->
    (CertValidity -> Commitment -> outcome unit) -> outcome Provider;
}.

Section hokulea.
Context {Commitment Blob Receipt Provider : Type}.
Context `{Zkvm Receipt} `{EigenDA Commitment Blob Receipt Provider}.

(** [KailuaCanoeVerifier]; off the zkVM a certificate needs its proof. *)
Definition validate_cert_receipt (zkvm : bool) (canoe_image_id : Z) (cert_validity : CertValidity)
    (eigenda_cert : Commitment) : outcome unit :=
  let journal_bytes := to_journal_bytes cert_validity eigenda_cert in
  match canoe_proof cert_validity with
  | None =>
      if zkvm then
        match env_verify canoe_image_id journal_bytes with
        | Err _ => Err "InvalidProofAndJournal" | o => o
        end
      else Err "MissingProof"
  | Some proof =>
      match receipt_from_slice proof with
      | Ok receipt =>
          match receipt_verify canoe_image_id receipt with
          | Ok _ => if bool_decide (receipt_journal receipt = journal_bytes) then Ok tt
                    else Err "InconsistentPublicJournal"
          | Err _ => Err "InvalidProofAndJournal"
          | Panic w => Panic w
          end
      | Err _ => Err "UnableToDeserializeReceipt"
      | Panic w => Panic w
      end
  end.

(** [HokuleaStitchingClient]: [kona] is [KonaStitchingClient] over the EigenDA
    data source of a provider. *)
Definition hokulea_stitching_client {S : Type} (zkvm : bool)
    (eigen_da_witness : EigenDAWitness Commitment Blob) (canoe_image_id : Z)
    (kona : Provider -> StitchingClient S) : StitchingClient S :=
  fun data_hash image payout executions boots =>
  eigen_da_precondition ← lift (da_witness_precondition eigen_da_witness);
  eigen_da ← lift (from_witness eigen_da_witness (validate_cert_receipt zkvm canoe_image_id));
  '(boot, proof_journal) ← kona eigen_da data_hash image payout executions boots;
  _ ← lift (da_witness_postcondition eigen_da_precondition boot);
  mret (boot, proof_journal).
End hokulea.

(** ** The guests' main functions (build/risczero/{hana,hokulea}/src/main.rs): a
    frame with the witness of the source precedes the main one. *)

Section guests.
Context {S : Type} `{Digests} `{PreimageKeys} `{Kzg}.

Definition hana_main {O Commitment EvmInput Env : Type} `{BootLoader} `{PreimageOracle O}
    `{Celestia (LocalOnceOracle O) Commitment EvmInput Env}
    (start : VecOracle -> VecOracle -> entries -> S)
    (kona : HanaProvider (LocalOnceOracle O) -> StitchingClient S) (celestia_da : O) (witness : Witness)
    (shards : list PreimageVecEntry) : outcome bytes :=
  guest_main start (hana_stitching_client celestia_da kona) witness shards.

Definition hokulea_main {Commitment Blob Receipt Provider : Type} `{Zkvm Receipt}
    `{EigenDA Commitment Blob Receipt Provider}
    (start : VecOracle -> VecOracle -> entries -> S) (kona : Provider -> StitchingClient S)
    (canoe_image_id : Z) (eigen_da : EigenDAWitness Commitment Blob) (witness : Witness)
    (shards : list PreimageVecEntry) : outcome bytes :=
  guest_main start (hokulea_stitching_client true eigen_da canoe_image_id kona) witness shards.
End guests.

(** ** Lemmas *)

Section hana_spec.
Context {O Commitment EvmInput Env : Type}.
Context `{Digests} `{PreimageKeys} `{BootLoader} `{PreimageOracle O}.
Context `{Celestia (LocalOnceOracle O) Commitment EvmInput Env}.

(** The facts that a booted provider rests on. *)
Definition hana_booted (celestia : LocalOnceOracle O) (p : HanaProvider (LocalOnceOracle O))
    (boot : BootInfo) : Prop :=
  exists o1 addr o2 proof input env,
    boot_info_load (LocalOnceOracle O) local_once_oracle celestia = (Ok boot, o1) /\
    blobstream_address (l1_chain_id (bi_rollup_config boot)) = Some addr /\
    get (key_new (keccak256 (address_bytes addr)) GlobalGeneric) o2 = (Ok proof, celestia_provider p) /\
    evm_input_decode proof = Ok input /\
    into_env (chain_spec (l1_chain_id (bi_rollup_config boot))) input = Ok env /\
    latest_block_call env addr = Ok (blobstream_height p) /\ header_seal env = bi_l1_head boot.

Lemma hana_provider_new_Ok celestia p boot :
  hana_provider_new celestia = Ok (p, boot) -> hana_booted celestia p boot.
Proof.
  unfold hana_provider_new. destruct (hana_boot celestia) as [r c'] eqn:Eb. intros Hp. ok_inv.
  destruct x as [height b]. apply Ok_inj, pair_equal_spec in Hp as [<- ->]. subst r.
  unfold hana_boot in Eb. st_inv. ok_inv. bools. simplify_eq.
  unfold hana_booted. cbn. eauto 20.
Qed.
End hana_spec.

Section hokulea_spec.
Context {Commitment Blob : Type}.

(** The side inputs agree with the boot record. *)
Definition da_consistent (w : EigenDAWitness Commitment Blob) (boot : BootInfo) : Prop :=
  (length (blob w) ≤ length (validity w) ≤ length (recency w))%nat /\
  Forall (fun c => cert_l1_head (snd c) = bi_l1_head boot /\
    cert_l1_chain_id (snd c) = l1_chain_id (bi_rollup_config boot)) (validity w) /\
  (validity w <> [] ->
   Forall (fun r => snd r = seq_window_size (bi_rollup_config boot)) (recency w)).

Lemma da_conditions_Ok (w : EigenDAWitness Commitment Blob) pre boot :
  da_witness_precondition w = Ok pre ->
  da_witness_postcondition pre boot = Ok tt <-> da_consistent w boot.
Proof.
  unfold da_witness_precondition, da_consistent. intros Hpre. ok_inv. bools.
  destruct (validity w) as [|[c0 cert] certs] eqn:Ev; cbn [head] in Hpre.
  { ok_inv. cbn. split; [|done]. intros _. split_and!; [cbn in *; lia|cbn in *; lia|constructor|done]. }
  apply bind_Ok in Hpre as ([] & Hc & Hpre).
  destruct (recency w) as [|[d0 r] rs] eqn:Er; cbn [head] in Hpre; [cbn in *; lia|].
  apply bind_Ok in Hpre as ([] & Hr & Hpre). apply Ok_inj in Hpre as <-.
  apply ofold_checks in Hc, Hr. cbn [da_witness_postcondition].
  rewrite bind_Ok. setoid_rewrite bind_Ok. setoid_rewrite assert_Ok. setoid_rewrite Z.eqb_eq.
  split.
  - intros ([] & E1 & [] & E2 & E3). split_and!; [cbn in *; lia|cbn in *; lia| |intros _].
    + revert Hc. apply Forall_impl. cbn. intros x Hx. ok_inv. bools. split; congruence.
    + revert Hr. apply Forall_impl. cbn. intros x Hx. ok_inv. bools; congruence.
  - intros (_ & Hcs & Hrs). apply Forall_cons_iff in Hcs as [[? ?] _].
    specialize (Hrs ltac:(done)). apply Forall_cons_iff in Hrs as [? _]. cbn in *. exists tt. split; [done|]. by exists tt.
Qed.
End hokulea_spec.

(** ** Properties *)

(** The Celestia client proves what the kona client proves, on a data
    source bounded by a proof for the same chain: if it succeeds, the kona
    client succeeded with the same boot record and journal, over a provider
    whose boot record (read from the Celestia oracle) is that same record,
    whose height is the latest block of the Blobstream contract in a Steel
    environment sealed by the run's L1 head, and which serves no blob above
    that height. *)
Theorem hana_client_sound {O Commitment EvmInput Env S : Type}
    `{Digests} `{PreimageKeys} `{BootLoader} `{PreimageOracle O}
    `{Celestia (LocalOnceOracle O) Commitment EvmInput Env}
    celestia_da (kona : HanaProvider (LocalOnceOracle O) -> StitchingClient S)
    data_hash image payout executions boots s boot j s' :
  hana_stitching_client celestia_da kona data_hash image payout executions boots s = (Ok (boot, j), s') ->
  exists provider, hana_booted (local_once_new celestia_da) provider boot /\
    kona provider data_hash image payout executions boots s = (Ok (boot, j), s') /\
    forall height commitment p, blobstream_height p = blobstream_height provider ->
      match (hana_blob_get height commitment p).1 with
      | Ok _ => height <= blobstream_height provider
      | _ => True
      end /\ blobstream_height (hana_blob_get height commitment p).2 = blobstream_height provider.
Proof.
  unfold hana_stitching_client. intros Hc. st_inv. destruct x as [p b]. st_inv.
  destruct x as [kb kj]. st_inv. ok_inv. bools. simplify_eq.
  exists p. split; [by apply hana_provider_new_Ok|]. split; [done|].
  intros height c q <-. unfold hana_blob_get. destruct (_ <? _) eqn:Elt; bools; [done|].
  destruct (celestia_blob_get height c (celestia_provider q)) as [[] ?]; cbn; done || lia.
Qed.

(** The EigenDA client proves what the kona client proves, from
    certificates for the same chain: if it succeeds, the kona client succeeded
    with the same boot record and journal over the provider built from the
    witness, no stage of the witness is longer than the previous one, every
    certificate was checked against the run's L1 head and chain, and, if there
    is any certificate, every recency window is the sequencing window of the
    rollup configuration.  Conversely a witness that satisfies this passes the
    two checks whenever they do not panic. *)
Theorem hokulea_client_sound {Commitment Blob Receipt Provider S : Type}
    `{Zkvm Receipt} `{EigenDA Commitment Blob Receipt Provider}
    zkvm w canoe_image_id (kona : Provider -> StitchingClient S)
    data_hash image payout executions boots s boot j s' :
  hokulea_stitching_client zkvm w canoe_image_id kona data_hash image payout executions boots s
    = (Ok (boot, j), s') <->
  exists provider pre, da_witness_precondition w = Ok pre /\
    from_witness w (validate_cert_receipt zkvm canoe_image_id) = Ok provider /\
    kona provider data_hash image payout executions boots s = (Ok (boot, j), s') /\
    da_consistent w boot.
Proof.
  unfold hokulea_stitching_client. split.
  - intros Hc. st_inv. destruct x1 as [b kj]. st_inv. simplify_eq. destruct x1.
    exists x0, x. split_and!; [done..|]. by eapply da_conditions_Ok.
  - intros (p & pre & Hpre & Hp & Hk & Hd). apply (da_conditions_Ok _ _ _ Hpre) in Hd.
    unfold mbind, St_bind, lift. by rewrite Hpre, Hp, Hk, Hd.
Qed.

(** C15. A receipt of the Celestia guest is a receipt of the kona guest, over a
    bounded source: if its main function commits bytes, then so does that of the
    kona guest on the same witness, over a provider booted from the Celestia
    oracle; the boot record of that run is the one read from the oracle, the
    provider's height is the latest block of the Blobstream contract in a Steel
    environment sealed by the run's L1 head, and no blob above that height is
    ever served. *)
Theorem hana_guest_sound {O Commitment EvmInput Env S : Type}
    `{Digests} `{PreimageKeys} `{Kzg} `{BootLoader} `{PreimageOracle O}
    `{Celestia (LocalOnceOracle O) Commitment EvmInput Env}
    (start : VecOracle -> VecOracle -> entries -> S) kona celestia_da w shards out :
  hana_main start kona celestia_da w shards = Ok out ->
  exists provider boot j s s', hana_booted (local_once_new celestia_da) provider boot /\
    guest_main start (kona provider) w shards = Ok out /\ out = encode_packed j /\
    kona provider (precondition_validation_data_hash w) (w_fpvm_image_id w) (payout_recipient_address w)
      (stitched_executions w) (stitched_boot_info w) s = (Ok (boot, j), s') /\
    forall height commitment p, blobstream_height p = blobstream_height provider ->
      match (hana_blob_get height commitment p).1 with
      | Ok _ => height <= blobstream_height provider
      | _ => True
      end /\ blobstream_height (hana_blob_get height commitment p).2 = blobstream_height provider.
Proof.
  intros Hm. apply guest_main_client in Hm
    as (filled & streamed & beacon & boot & j & s' & Hl & Hv & Hb & Hc & Ho & Hz).
  apply hana_client_sound in Hc as (provider & Hboot & Hk & Hblob).
  exists provider, boot, j. do 2 eexists. split_and!; [done| |done|exact Hk|done].
  apply guest_main_client. do 6 eexists. by split_and!.
Qed.

(** A receipt of the EigenDA guest is a receipt of the kona guest, over the
    certified blobs: if its main function commits bytes, so does that of the
    kona guest on the same witness, over the provider built from the EigenDA
    witness with every certificate checked against the canoe image, and the
    certificates and recency windows are those of the run's boot record. *)
Theorem hokulea_guest_sound {Commitment Blob Receipt Provider S : Type}
    `{Digests} `{PreimageKeys} `{Kzg} `{Zkvm Receipt} `{EigenDA Commitment Blob Receipt Provider}
    (start : VecOracle -> VecOracle -> entries -> S) kona canoe_image_id eigen_da w shards out :
  hokulea_main start kona canoe_image_id eigen_da w shards = Ok out ->
  exists provider boot j s s',
    from_witness eigen_da (validate_cert_receipt true canoe_image_id) = Ok provider /\
    guest_main start (kona provider) w shards = Ok out /\ out = encode_packed j /\
    kona provider (precondition_validation_data_hash w) (w_fpvm_image_id w) (payout_recipient_address w)
      (stitched_executions w) (stitched_boot_info w) s = (Ok (boot, j), s') /\
    da_consistent eigen_da boot.
Proof.
  intros Hm. apply guest_main_client in Hm
    as (filled & streamed & beacon & boot & j & s' & Hl & Hv & Hb & Hc & Ho & Hz).
  apply hokulea_client_sound in Hc as (provider & pre & _ & Hp & Hk & Hd).
  exists provider, boot, j. do 2 eexists. split_and!; [done| |done|exact Hk|done].
  apply guest_main_client. do 6 eexists. by split_and!.
Qed.

(** A certificate accepted in the zkVM was proven: by a receipt of the canoe
    image with exactly the certificate's journal, or as an assumption. *)
Theorem cert_attested {Commitment Blob Receipt Provider : Type}
    `{Zkvm Receipt} `{EigenDA Commitment Blob Receipt Provider} image cv cert :
  validate_cert_receipt true image cv cert = Ok tt ->
  (exists proof r, canoe_proof cv = Some proof /\ receipt_from_slice proof = Ok r /\
     receipt_verify image r = Ok tt /\ receipt_journal r = to_journal_bytes cv cert) \/
  (canoe_proof cv = None /\ env_verify image (to_journal_bytes cv cert) = Ok tt).
Proof.
  unfold validate_cert_receipt. destruct (canoe_proof cv) as [proof|].
  - destruct (receipt_from_slice proof) as [r|?|?] eqn:Er; [|done..].
    destruct (receipt_verify image r) as [[]|?|?] eqn:Ev; [|done..].
    case_bool_decide; [|done]. eauto 10.
  - destruct (env_verify image _) as [[]|?|?] eqn:Ev; try done. auto.
Qed.

(** Without certificates the recency windows are not checked at all: whatever
    windows a witness claims, the two checks pass for every boot record. *)
Theorem recency_unchecked {Commitment Blob : Type} (windows : list (Commitment * Z)) boot :
  da_witness_precondition {| recency := windows; validity := []; blob := @nil (Commitment * Blob) |}
    = Ok None /\ da_witness_postcondition None boot = Ok tt.
Proof. unfold da_witness_precondition. cbn. by rewrite bool_decide_true by lia. Qed.

(** ** Witnesses *)

(** The run of Stitching.v, over a Celestia source proven up to height 100. *)
Definition demo_kona : StitchingClient Z :=
  @kona_stitching_client _ Z unit bytes bytes bytes demo_zkvm demo_receipts_root demo_digests
    demo_rlp demo_pot demo_keys demo_env demo_executor (demo_core demo_main 9) demo_core_l1
    true guest demo_stdin.
Definition demo_result_journal : ProofJournal :=
  set_agreed 2002 (set_claimed 2008 8 (demo_main_journal 0)).
Definition demo_loader : BootLoader := {| boot_info_load := fun _ _ s => (Ok demo_main, s) |}.
Definition demo_silent_oracle : PreimageOracle unit :=
  {| get := fun _ s => (Ok [], s); get_exact := fun _ n s => (Ok (zeros n), s) |}.
Definition demo_celestia : Celestia (LocalOnceOracle unit) bytes bytes Z := {|
  blobstream_address := fun _ => Some 3; celestia_hint := fun _ s => (Ok tt, s);
  evm_input_decode := Ok; into_env := fun _ _ => Ok 9;
  latest_block_call := fun _ _ => Ok 100; header_seal := fun env => env;
  celestia_blob_get := fun _ c s => (Ok c, s) |}.

Lemma hana_client_sound_witness :
  exists provider,
    @hana_booted unit bytes bytes Z demo_digests demo_keys demo_loader demo_silent_oracle demo_celestia
      (local_once_new tt) provider demo_main /\
    demo_kona 0 demo_image 66 [demo_trace] demo_segments 4 = (Ok (demo_main, demo_result_journal), 4) /\
    forall height commitment p, blobstream_height p = blobstream_height provider ->
      match (@hana_blob_get unit bytes bytes Z demo_celestia height commitment p).1 with
      | Ok _ => height <= blobstream_height provider
      | _ => True
      end /\ blobstream_height (@hana_blob_get unit bytes bytes Z demo_celestia height commitment p).2
             = blobstream_height provider.
Proof.
  apply (@hana_client_sound unit bytes bytes Z Z demo_digests demo_keys demo_loader demo_silent_oracle
    demo_celestia tt (fun _ => demo_kona)).
  vm_compute. reflexivity.
Defined.

(** One EigenDA blob, with the certificate and window of the run. *)
Definition demo_eigen : EigenDA Z bytes (Z * bytes) (list bytes) := {|
  to_journal_bytes := fun cv c => be_bytes 32 c ++ [if claimed_validity cv then Byte.x01 else Byte.x00];
  receipt_from_slice := fun bs => Ok (77, bs);
  from_witness := fun w check =>
    _ ← ofold (fun _ x => check (snd x) (fst x)) tt (validity w); Ok (snd <$> blob w) |}.
Definition demo_cert : CertValidity := {|
  claimed_validity := true; canoe_proof := Some (be_bytes 32 5 ++ [Byte.x01]);
  cert_l1_head := 9; cert_l1_chain_id := 1 |}.
Definition demo_eigen_witness : EigenDAWitness Z bytes := {|
  recency := [(5, 3600)]; validity := [(5, demo_cert)]; blob := [(5, zeros 3)] |}.

Lemma hokulea_client_sound_witness :
  @hokulea_stitching_client Z bytes (Z * bytes) (list bytes) demo_zkvm demo_eigen Z true
    demo_eigen_witness 77 (fun _ => demo_kona) 0 demo_image 66 [demo_trace] demo_segments 4
    = (Ok (demo_main, demo_result_journal), 4).
Proof.
  apply (@hokulea_client_sound Z bytes (Z * bytes) (list bytes) Z demo_zkvm demo_eigen true
    demo_eigen_witness 77 (fun _ => demo_kona) 0 demo_image 66 [demo_trace] demo_segments 4).
  exists [zeros 3], (Some (9, 1, 3600)). split_and!.
  - vm_compute. reflexivity.
  - vm_compute. reflexivity.
  - vm_compute. reflexivity.
  - unfold da_consistent. cbn. split_and!; [lia|lia| |intros _].
    + constructor; [|constructor]. split; reflexivity.
    + constructor; [|constructor]. reflexivity.
Defined.

Lemma hana_guest_sound_witness :
  let out := encode_packed demo_result_journal in
  exists provider boot j s s',
    @hana_booted unit bytes bytes Z demo_digests demo_keys demo_loader demo_silent_oracle demo_celestia
      (local_once_new tt) provider boot /\
    @guest_main Z demo_digests demo_keys demo_kzg (fun _ _ _ => 4) demo_kona demo_witness [demo_shard]
      = Ok out /\ out = encode_packed j /\
    demo_kona 0 demo_image 66 [demo_trace] demo_segments s = (Ok (boot, j), s') /\
    forall height commitment p, blobstream_height p = blobstream_height provider ->
      match (@hana_blob_get unit bytes bytes Z demo_celestia height commitment p).1 with
      | Ok _ => height <= blobstream_height provider
      | _ => True
      end /\ blobstream_height (@hana_blob_get unit bytes bytes Z demo_celestia height commitment p).2
             = blobstream_height provider.
Proof.
  intros out.
  apply (@hana_guest_sound unit bytes bytes Z Z demo_digests demo_keys demo_kzg demo_loader
    demo_silent_oracle demo_celestia (fun _ _ _ => 4) (fun _ => demo_kona) tt demo_witness [demo_shard] out).
  vm_compute. reflexivity.
Defined.
