(* ===== verification/Witgen.v ===== *)
(** * crates/prover/src/{lib,kv}.rs, client/{witgen,proving}.rs, hana/witgen.rs, hokulea/witgen.rs

    Witness generation: the client program runs on the host over oracles that
    record what they answer, and the record is cut into the frames that the
    guest reads.  [process_witness] refuses a workload that is too large, with
    the execution trace by which the prover divides it. *)

From S2P Require Import Prelude Bytes Config Journal Blobs Precondition Oracle Executor L1Chain Core Stitching DA.

(** ** Results of the prover *)

Inductive ProvingError :=
| DerivationProofError (proofs : nat)
| NotSeekingProof (size : Z) (trace : list (list Execution))
| NotAwaitingProof
| BlockCountError (blocks limit : Z) (trace : list (list Execution))
| WitnessSizeError (size limit : Z) (trace : list (list Execution))
| ExecutionError (e : string)
| OtherError (e : string).

(** [Result<_, ProvingError>], or a panic. *)
Inductive attempt (A : Type) : Type :=
| Done (a : A)
| Failed (e : ProvingError)
| Crashed (why : string).
Arguments Done {A} a. Arguments Failed {A} e. Arguments Crashed {A} why.

#[export] Instance attempt_ret : MRet attempt := fun A a => Done a.
#[export] Instance attempt_bind : MBind attempt := fun A B f m =>
  match m with Done a => f a | Failed e => Failed e | Crashed w => Crashed w end.

(** [.map_err(f)?] on an [anyhow::Result]. *)
Definition map_err {A} (f : string -> ProvingError) (o : outcome A) : attempt A :=
  match o with Ok a => Done a | Err e => Failed (f e) | Panic w => Crashed w end.
(** Code whose only failures are panics. *)
Definition no_err {A} (o : outcome A) : attempt A := map_err OtherError o.

Lemma attempt_bind_Done {A B} (m : attempt A) (f : A -> attempt B) b :
  m ≫= f = Done b <-> exists a, m = Done a /\ f a = Done b.
Proof. destruct m; cbn; naive_solver. Qed.

Lemma map_err_Done {A} f (o : outcome A) a : map_err f o = Done a <-> o = Ok a.
Proof. destruct o; cbn; naive_solver. Qed.

(** ** Recording *)

Record OracleWitnessProvider (P : Type) := { host_oracle : P; witness : VecOracle }.
Arguments host_oracle {P}. Arguments witness {P}.

Section recording.
Context {P : Type} `{PreimageOracle P} `{Digests} `{PreimageKeys}.

(** A call on the host's oracle, whose answer is saved. *)
Definition saving (key : PreimageKey) (call : St P bytes) : St (OracleWitnessProvider P) bytes :=
  fun s =>
  match call (host_oracle s) with
  | (Ok value, o) =>
      match insert_preimage (witness s) key value with
      | Ok w => (Ok value, {| host_oracle := o; witness := w |})
      | Err e | Panic e => (Panic e, {| host_oracle := o; witness := witness s |})
      end
  | (r, o) => (r, {| host_oracle := o; witness := witness s |})
  end.

#[export] Instance witness_provider : PreimageOracle (OracleWitnessProvider P) := {|
  get := fun key => saving key (get key);
  get_exact := fun key len => saving key (get_exact key len) |}.
End recording.

(** kona's [OracleBlobProvider]. *)
Class BlobSource (S : Type) := { source_blobs : BlockInfo -> list IndexedBlobHash -> St S (list bytes) }.

Record BlobWitnessProvider (S : Type) := { blob_source : S; blob_witness : BlobWitnessData }.
Arguments blob_source {S}. Arguments blob_witness {S}.

(** [get_blobs] of [BlobWitnessProvider]: every blob served is recorded with
    its commitment and proof. *)
Definition witness_get_blobs {S} `{BlobSource S} `{Kzg} (block_ref : BlockInfo)
    (blob_hashes : list IndexedBlobHash) : St (BlobWitnessProvider S) (list bytes) := fun p =>
  match source_blobs block_ref blob_hashes (blob_source p) with
  | (Ok blobs, o) =>
      match ofold push_blob (blob_witness p) blobs with
      | Ok w => (Ok blobs, {| blob_source := o; blob_witness := w |})
      | Err e | Panic e => (Panic e, {| blob_source := o; blob_witness := blob_witness p |})
      end
  | (r, o) => (r, {| blob_source := o; blob_witness := blob_witness p |})
  end.

(** What the shared targets hold once the client has run: the two recorded
    oracles, the recorded blobs, and the collected executions. *)
Class Recorder (S : Type) := {
  recorded_oracle : S -> VecOracle; recorded_stream : S -> VecOracle;
  recorded_blobs : S -> BlobWitnessData; collected_executions : S -> list Execution }.

(** The image ids that the build generates. *)
Class Images := { KONA_ID : Z; HANA_ID : Z; HOKULEA_ID : Z; DA_HOKULEA_ID : Z }.

Section witgen.
Context {R S Cursor TrieNode Receipt Tx : Type}.
Context `{Zkvm R} `{Digests} `{Rlp} `{Pot} `{PreimageKeys} `{Images}.
Context `{Environment S} `{Executor S} `{CoreEnvironment S Cursor}.
Context `{L1Environment S TrieNode Receipt Tx} `{Recorder S}.

Definition run_witgen_client (shard_size : nat) (payout data_hash : Z)
    (execution_cache : list Execution) (boots : list StitchedBootInfo)
    : St S (BootInfo * ProofJournal * Witness) :=
  '(boot, precondition_hash) ← run_core_client host data_hash execution_cache (Some []);
  s ← get_st;
  let executions :=
    recover_collected_executions (collected_executions s) (bi_claimed_l2_output_root boot) in
  oracle ← lift (finalize_preimages (recorded_oracle s) shard_size true);
  stream ← lift (finalize_preimages (recorded_stream s) shard_size false);
  let witness := {|
    oracle_witness := oracle; stream_witness := stream; blobs_witness := recorded_blobs s;
    payout_recipient_address := payout; precondition_validation_data_hash := data_hash;
    stitched_executions := [executions]; stitched_boot_info := boots; w_fpvm_image_id := KONA_ID |} in
  '(boot, journal_output) ← lift (stitch_boot_info false boot KONA_ID payout precondition_hash boots ∅);
  mret (boot, journal_output, witness).

Definition set_image (image : Z) (j : ProofJournal) : ProofJournal :=
  {| payout_recipient := payout_recipient j; precondition_hash := precondition_hash j;
     pj_l1_head := pj_l1_head j; pj_agreed_l2_output_root := pj_agreed_l2_output_root j;
     pj_claimed_l2_output_root := pj_claimed_l2_output_root j;
     pj_claimed_l2_block_number := pj_claimed_l2_block_number j;
     pj_config_hash := pj_config_hash j; fpvm_image_id := image |}.
Definition set_witness_image (image : Z) (w : Witness) : Witness :=
  {| oracle_witness := oracle_witness w; stream_witness := stream_witness w;
     blobs_witness := blobs_witness w; payout_recipient_address := payout_recipient_address w;
     precondition_validation_data_hash := precondition_validation_data_hash w;
     stitched_executions := stitched_executions w; stitched_boot_info := stitched_boot_info w;
     w_fpvm_image_id := image |}.

(** [recorded_celestia] is what the Celestia source's own oracle recorded. *)
Definition run_hana_witgen_client (recorded_celestia : S -> VecOracle) (shard_size : nat)
    (payout data_hash : Z) (execution_cache : list Execution) (boots : list StitchedBootInfo)
    : St S (ProofJournal * Witness * VecOracle) :=
  '(_, proof_journal, witness) ← run_witgen_client shard_size payout data_hash execution_cache boots;
  s ← get_st;
  celestia_witness ← lift (finalize_preimages (recorded_celestia s) (Z.to_nat (2 ^ 64 - 1)) true);
  mret (set_image HANA_ID proof_journal, set_witness_image HANA_ID witness, celestia_witness).

(** [recorded_eigen] is what the EigenDA source recorded. *)
Definition run_hokulea_witgen_client {Commitment Blob : Type}
    (recorded_eigen : S -> EigenDAWitness Commitment Blob) (shard_size : nat) (payout data_hash : Z)
    (execution_cache : list Execution) (boots : list StitchedBootInfo)
    : St S (ProofJournal * Witness * EigenDAWitness Commitment Blob) :=
  '(boot, proof_journal, witness) ← run_witgen_client shard_size payout data_hash execution_cache boots;
  s ← get_st;
  let eigen_witness := recorded_eigen s in
  let eigen_witness := {|
    validity := (fun '(c, v) => (c, {| claimed_validity := claimed_validity v;
                   canoe_proof := canoe_proof v; cert_l1_head := bi_l1_head boot;
                   cert_l1_chain_id := l1_chain_id (bi_rollup_config boot) |})) <$> validity eigen_witness;
    recency := (fun '(c, _) => (c, seq_window_size (bi_rollup_config boot))) <$> recency eigen_witness;
    blob := blob eigen_witness |} in
  mret (set_image HOKULEA_ID proof_journal, set_witness_image HOKULEA_ID witness, eigen_witness).
End witgen.

(** ** Frames *)

(** The fields of [ProvingArgs] that decide what is proved. *)
Record ProvingArgs := {
  payout_recipient_arg : option Z; segment_limit : Z; max_block_derivations : Z; max_block_executions : Z;
  max_witness_size : Z; num_concurrent_preflights : Z; skip_derivation_proof : bool;
  skip_await_proof : bool; hokulea_is_set : bool; hana_is_set : bool;
}.

Definition skip_stitching (a : ProvingArgs) : bool := skip_derivation_proof a || skip_await_proof a.
Definition use_hokulea (a : ProvingArgs) : bool := hokulea_is_set a.
Definition use_hana (a : ProvingArgs) : bool := negb (hokulea_is_set a) && hana_is_set a.
Definition image_id `{Images} (a : ProvingArgs) : Z :=
  if use_hokulea a then HOKULEA_ID else if use_hana a then HANA_ID else KONA_ID.

(** rkyv's [to_bytes]. *)
Class Frames := { main_frame : Witness -> outcome bytes; shard_frame : PreimageVecEntry -> outcome bytes }.

(** The main frame's witness: every preloaded entry was taken out of it, the
    streamed ones are gone.  (The queue and the frames are process state.) *)
Definition emptied (w : Witness) : Witness :=
  {| oracle_witness := {| preimages := (shard_witness_data (preimages (oracle_witness w))).2;
       queue := []; frames := [] |};
     stream_witness := vec_oracle_default;
     blobs_witness := blobs_witness w; payout_recipient_address := payout_recipient_address w;
     precondition_validation_data_hash := precondition_validation_data_hash w;
     stitched_executions := stitched_executions w; stitched_boot_info := stitched_boot_info w;
     w_fpvm_image_id := w_fpvm_image_id w |}.

Definition with_executions (executions : list (list Execution)) (w : Witness) : Witness :=
  {| oracle_witness := oracle_witness w; stream_witness := stream_witness w;
     blobs_witness := blobs_witness w; payout_recipient_address := payout_recipient_address w;
     precondition_validation_data_hash := precondition_validation_data_hash w;
     stitched_executions := executions; stitched_boot_info := stitched_boot_info w;
     w_fpvm_image_id := w_fpvm_image_id w |}.

Section frames.
Context `{Frames} `{Kzg}.

Definition encode_witness_frames (witness_vec : Witness) : outcome (list bytes * list bytes) :=
  shards ← omap_m shard_frame (shard_witness_data (preimages (oracle_witness witness_vec))).1;
  streams ← omap_m shard_frame (shard_witness_data (preimages (stream_witness witness_vec))).1;
  main ← main_frame (emptied witness_vec);
  Ok (main :: shards, rev streams).

Definition frames_size (l : list bytes) : Z := Z.of_nat (sum_list (length <$> l)).

Definition sum_witness_size (w : Witness) : outcome (Z * Z) :=
  '(witness_frames, streamed_frames) ← expect "Failed to encode VecOracle" (encode_witness_frames w);
  Ok (frames_size witness_frames, frames_size streamed_frames).

(** [process_witness]: the frames for the guest.  The trace that comes with a
    refusal is the one collected by the run. *)
Definition process_witness (proving : ProvingArgs) (witness : Witness)
    (executions : list (list Execution)) (extra_frames : list bytes) (seek_proof force_attempt : bool)
    : attempt (list bytes) :=
  let execution_trace := stitched_executions witness in
  let witness := with_executions executions witness in
  _ ← no_err (preloaded_from (blobs_witness witness));
  '(preloaded_wit_size, streamed_wit_size) ← no_err (sum_witness_size witness);
  let total_wit_size := preloaded_wit_size + streamed_wit_size + frames_size extra_frames in
  let num_executions := Z.of_nat (length (concat execution_trace)) in
  if (max_witness_size proving <? total_wit_size) && negb force_attempt
  then Failed (WitnessSizeError total_wit_size (max_witness_size proving) execution_trace)
  else if (max_block_executions proving <? num_executions) && negb force_attempt
  then Failed (BlockCountError num_executions (max_block_executions proving) execution_trace)
  else if negb seek_proof then Failed (NotSeekingProof total_wit_size execution_trace)
  else
    '(preloaded_frames, streamed_frames) ← map_err OtherError (encode_witness_frames witness);
    Done (extra_frames ++ preloaded_frames ++ streamed_frames).
End frames.

(** ** The key-value store of the host (kv.rs) *)

Record RWLKeyValueStore := { kv : gmap Z bytes; global_mask : Z }.

Definition with_global_mask (global_mask : Z) (s : RWLKeyValueStore) : RWLKeyValueStore :=
  {| kv := kv s; global_mask := global_mask |}.

(** The type of a preimage key is its first byte; 3 is [GlobalGeneric]. *)
Definition kv_mask (s : RWLKeyValueStore) (key : Z) : Z :=
  if Z.shiftr key 248 =? 3 then Z.lxor key (global_mask s) else key.
Definition kv_get (key : Z) (s : RWLKeyValueStore) : option bytes := kv s !! kv_mask s key.
Definition kv_set (key : Z) (value : bytes) (s : RWLKeyValueStore) : RWLKeyValueStore :=
  {| kv := <[kv_mask s key := value]> (kv s); global_mask := global_mask s |}.

(** ** Specification *)

(** The client's calls on an oracle, with their answers. *)
Fixpoint ask {O : Type} `{PreimageOracle O} (rs : list request) : St O (list bytes) :=
  match rs with
  | [] => mret []
  | r :: rs => v ← run_request r; vs ← ask rs; mret (v :: vs)
  end.

Definition request_key (r : request) : PreimageKey := match r with Get k | GetExact k _ => k end.

(** [get_exact] fills a buffer of the requested length. *)
Definition exact (O : Type) `{PreimageOracle O} : Prop :=
  forall key len s v s', get_exact key len s = (Ok v, s') -> length v = len.

(** The witness as the guest's oracles see it once the frames are read. *)
Definition guest_witness (w : Witness) : Witness :=
  with_oracle (emptied w) {| preimages := preimages (oracle_witness w); queue := [];
    frames := rev (preimages (stream_witness w)) |}.

(** Small enough to be proved. *)
Definition within_limits `{Frames} (proving : ProvingArgs) (w : Witness) (trace : list (list Execution))
    (extra_frames : list bytes) : Prop :=
  exists preloaded streamed, encode_witness_frames w = Ok (preloaded, streamed) /\
    frames_size preloaded + frames_size streamed + frames_size extra_frames <= max_witness_size proving /\
    Z.of_nat (length (concat trace)) <= max_block_executions proving.

(** ** Lemmas *)

Section recording_lemmas.
Context {P : Type} `{PreimageOracle P} `{Digests} `{PreimageKeys}.

Lemma run_request_records r (s : OracleWitnessProvider P) v s' :
  run_request r s = (Ok v, s') ->
  exists o, run_request r (host_oracle s) = (Ok v, o) /\ host_oracle s' = o /\
    insert_preimage (witness s) (request_key r) v = Ok (witness s').
Proof.
  destruct r as [key|key len]; cbn; unfold saving;
    [destruct (get key (host_oracle s)) as [[value|e|w] o]
    |destruct (get_exact key len (host_oracle s)) as [[value|e|w] o]]; try done;
    (destruct (insert_preimage _ _ _) eqn:Ei; [|done..]);
    intros E; simplify_eq; cbn; eauto.
Qed.

Lemma ask_records rs (s : OracleWitnessProvider P) vs s' :
  ask rs s = (Ok vs, s') ->
  ask rs (host_oracle s) = (Ok vs, host_oracle s') /\ length vs = length rs /\
  ofold (fun w '(k, v) => insert_preimage w k v) (witness s) (zip (request_key <$> rs) vs)
    = Ok (witness s').
Proof.
  revert s vs. induction rs as [|r rs IH]; intros s vs Ha; cbn [ask] in *; st_inv; [done|].
  match goal with X : run_request r s = (Ok ?v, ?t) |- _ =>
    destruct (run_request_records _ _ _ _ X) as (o & Ho & Ht & Hi) end.
  match goal with X : ask rs _ = (Ok ?l, _) |- _ => destruct (IH _ _ X) as (Hk & Hl & Hf) end.
  cbn. rewrite Hi. cbn. split_and!; [|by rewrite Hl|done].
  unfold mbind at 1, St_bind. rewrite Ho. unfold mbind, St_bind. subst o. by rewrite Hk.
Qed.

Lemma ask_exact rs (o : P) vs o' :
  exact P -> ask rs o = (Ok vs, o') ->
  Forall2 (fun r v => match r with GetExact _ len => length v = len | _ => True end) rs vs.
Proof.
  intros Hex. revert o vs. induction rs as [|r rs IH]; intros o vs Ha; cbn [ask] in *; st_inv; [constructor|].
  constructor; [|by eauto]. destruct r; [done|]. by eapply Hex.
Qed.
End recording_lemmas.

(** An oracle of preimages serves exact reads of the stored lengths. *)
Lemma ask_get_all `{Digests} `{PreimageKeys} zkvm rs (s : VecOracle) vs s' :
  Forall2 (fun r v => match r with GetExact _ len => length v = len | _ => True end) rs vs ->
  @get_all _ (vec_oracle zkvm) (request_key <$> rs) s = (Ok vs, s') ->
  @ask _ (vec_oracle zkvm) rs s = (Ok vs, s').
Proof.
  intros Hf. revert s. induction Hf as [|r v rs vs Hr Hf IH]; intros s Hg; cbn in *; [done|].
  st_inv. match goal with X : _ :: _ = v :: vs |- _ => apply cons_inj in X as [-> ->] end.
  unfold mbind at 1, St_bind.
  match goal with X : vec_get _ _ s = _ |- _ => rename X into Hv end.
  assert (run_request r s = (Ok v, s0)) as ->.
  { destruct r as [k|k len]; cbn in *; [done|]. unfold mbind, St_bind. rewrite Hv.
    unfold lift, copy_from_slice. by rewrite Hr, Nat.eqb_refl. }
  unfold mbind, St_bind. by erewrite IH.
Qed.

Lemma load_shards_emptied_app (shards rest : list PreimageVecEntry) :
  load_shards ((fun _ => []) <$> shards) (shards ++ rest) = Ok (shards, rest).
Proof. induction shards as [|sh shards IH]; [done|]. cbn in *. by rewrite IH. Qed.

Lemma omap_m_rev {A B} (f : A -> outcome B) l k :
  omap_m f l = Ok k -> Forall2 (fun x y => f x = Ok y) (rev l) (rev k).
Proof.
  intros Hf%omap_m_Ok. induction Hf; cbn; [constructor|]. apply Forall2_app; auto.
Qed.

Section properties.
Context {P : Type} `{PreimageOracle P} `{Digests} `{PreimageKeys}.

(** C30. What the host records, the guest replays: take any sequence of calls
    that a client makes on the host through [OracleWitnessProvider], over any
    oracle, and that all succeed.  Recording is transparent (the wrapped oracle
    gives the same answers by itself), and finalizing the record with any shard
    size, with or without pointers, and reloading its shards gives an oracle on
    either target that answers the same calls, exact reads included, with the
    same values, and is used up by them. *)
Theorem recorded_run_replays zkvm n ptrs rs p vs t :
  exact P -> ask rs {| host_oracle := p; witness := vec_oracle_default |} = (Ok vs, t) ->
  ask rs p = (Ok vs, host_oracle t) /\
  exists s1 s2 s3, finalize_preimages (witness t) n ptrs = Ok s1 /\ preload_witness s1 = Ok s2 /\
    @ask _ (vec_oracle zkvm) rs s2 = (Ok vs, s3) /\ total s3 = [].
Proof.
  intros Hex (Ha & Hl & Hr)%ask_records. cbn in Ha, Hr. split; [done|].
  change (record_all (zip (request_key <$> rs) vs) = Ok (witness t)) in Hr.
  destruct (finalize_recorded _ _ n ptrs Hr) as (s1 & Hf & _).
  destruct (recorded_ready _ _ _ _ _ zkvm Hr Hf) as [Hrd Ht].
  destruct (get_all_in_order zkvm _ s1 Hrd Ht) as (s3 & Hg & Hs3 & _).
  rewrite fst_zip, snd_zip in Hg by (rewrite length_fmap; lia).
  exists s1, s1, s3. split_and!; [done|apply preload_witness_id| |done].
  apply ask_get_all; [|done]. by eapply ask_exact.
Qed.

Context `{Frames} `{Kzg}.

(** C29. From the recorded witness to the guest: if [process_witness] accepts a
    workload, a proof is sought and either the attempt is forced or the frames
    and the number of collected executions are within the limits.  The frames
    are the extra ones, the main one and one for each shard; and the guest's
    main function, started on them, puts every preloaded shard back in its
    place and leaves exactly the streamed ones, in reading order, on its input:
    it runs the stateless client on the recorded witness with the stitched
    executions, whatever the client. *)
Theorem process_witness_reaches_guest proving w executions extra seek force frames :
  process_witness proving w executions extra seek force = Done frames ->
  let w' := with_executions executions w in
  let entries := preimages (oracle_witness w) ++ rev (preimages (stream_witness w)) in
  seek = true /\ (force = true \/ within_limits proving w' (stitched_executions w) extra) /\
  (exists main shards, frames = extra ++ main :: shards /\ main_frame (emptied w') = Ok main /\
     Forall2 (fun entry shard => shard_frame entry = Ok shard) entries shards) /\
  forall (S : Type) (start : VecOracle -> VecOracle -> Blobs.entries -> S) client,
    guest_main start client (emptied w') entries =
    (j ← run_stateless_client start client (guest_witness w');
     _ ← assert_ (negb (pj_claimed_l2_output_root j =? 0)) "Cannot prove proposal prematurity.";
     Ok (encode_packed j)).
Proof.
  intros Hp w' entries. unfold process_witness, no_err in Hp.
  apply attempt_bind_Done in Hp as (es & Hb & Hp).
  apply attempt_bind_Done in Hp as ([pre str] & Hs & Hp). apply map_err_Done in Hs.
  unfold sum_witness_size in Hs. ok_inv. destruct x as [pf sf]. ok_inv. simplify_eq.
  fold w' in E. destruct (_ && _) eqn:E1 in Hp; [done|]. destruct (_ && _) eqn:E2 in Hp; [done|].
  destruct seek; cbn [negb] in Hp; [|done]. fold w' in Hp. rewrite E in Hp. cbn in Hp.
  injection Hp as <-. split_and!; [done| | |].
  - destruct force; [by left|right]. cbn [negb] in *. rewrite andb_true_r in E1, E2. bools.
    exists pf, sf. split_and!; [done|lia|lia].
  - unfold encode_witness_frames in E. ok_inv. simplify_eq.
    do 2 eexists. split_and!; [done|done|]. apply Forall2_app; [by apply omap_m_Ok|].
    by apply omap_m_rev.
  - intros S start client. unfold guest_main, entries. cbn [emptied oracle_witness preimages].
    unfold shard_witness_data. cbn [snd]. change (preimages (oracle_witness w')) with
      (preimages (oracle_witness w)). rewrite load_shards_emptied_app. done.
Qed.
End properties.

Lemma kv_get_set key key' value s :
  kv_get key' (kv_set key value s) =
    if decide (kv_mask s key = kv_mask s key') then Some value else kv_get key' s.
Proof.
  unfold kv_get, kv_set, kv_mask at 1. cbn. case_decide as Hd.
  - by rewrite Hd, lookup_insert_eq.
  - by rewrite lookup_insert_ne.
Qed.

(** ** Witnesses *)

(** A host that answers local keys with ever longer values. *)
Definition demo_host : PreimageOracle nat := {|
  get := fun k n => (Ok (if is_local k then zeros n else zeros 3), Datatypes.S n);
  get_exact := fun k len n => (Ok (zeros len), Datatypes.S n) |}.
Definition demo_requests : list request :=
  [Get demo_local_key; Get (demo_hash_key (zeros 3)); GetExact demo_local_key 2].
Definition demo_answers : list bytes := [zeros 5; zeros 3; zeros 2].

Lemma recorded_run_replays_witness :
  @ask _ demo_host demo_requests 5%nat = (Ok demo_answers, 8%nat) /\
  exists s1 s2 s3, @finalize_preimages demo_digests demo_keys
      {| preimages := [(fun kv => (kv, None)) <$> zip (request_key <$> demo_requests) demo_answers];
         queue := []; frames := [] |} 4 true = Ok s1 /\ preload_witness s1 = Ok s2 /\
    @ask _ (demo_oracle true) demo_requests s2 = (Ok demo_answers, s3) /\ total s3 = [].
Proof.
  apply (@recorded_run_replays nat demo_host demo_digests demo_keys true 4 true demo_requests 5%nat
    demo_answers {| host_oracle := 8%nat; witness :=
      {| preimages := [(fun kv => (kv, None)) <$> zip (request_key <$> demo_requests) demo_answers];
         queue := []; frames := [] |} |}).
  - intros key len s v s' E. cbn in E. injection E as <- _. apply length_replicate.
  - vm_compute. reflexivity.
Defined.

Definition demo_frames : Frames := {|
  main_frame := fun _ => Ok (zeros 7); shard_frame := fun s => Ok (be_bytes 2 (Z.of_nat (length s))) |}.
Definition demo_proving : ProvingArgs := {|
  payout_recipient_arg := Some 66; segment_limit := 21; max_block_derivations := 4; max_block_executions := 2;
  max_witness_size := 100; num_concurrent_preflights := 3; skip_derivation_proof := false;
  skip_await_proof := false; hokulea_is_set := false; hana_is_set := false |}.
Definition demo_recorded_witness : Witness := {|
  oracle_witness := {| preimages := [[(@key_new demo_keys 1 Local, [], None)]; demo_shard];
    queue := []; frames := [] |};
  stream_witness := {| preimages := [demo_shard; []]; queue := []; frames := [] |};
  blobs_witness := demo_witness_data; payout_recipient_address := 66;
  precondition_validation_data_hash := 0; stitched_executions := [demo_trace];
  stitched_boot_info := demo_segments; w_fpvm_image_id := demo_image |}.

Lemma process_witness_reaches_guest_witness :
  let w' := with_executions [] demo_recorded_witness in
  @within_limits demo_frames demo_proving w' [demo_trace] [zeros 9] /\
  forall (start : VecOracle -> VecOracle -> entries -> Z) client,
    @guest_main Z demo_digests demo_keys demo_kzg start client (emptied w') [[(@key_new demo_keys 1 Local, [], None)]; demo_shard; []; demo_shard] =
    (j ← @run_stateless_client Z demo_digests demo_keys demo_kzg start client (guest_witness w');
     _ ← assert_ (negb (pj_claimed_l2_output_root j =? 0)) "Cannot prove proposal prematurity.";
     Ok (encode_packed j)).
Proof.
  intros w'.
  destruct (@process_witness_reaches_guest demo_digests demo_keys demo_frames demo_kzg demo_proving
    demo_recorded_witness [] [zeros 9] true false
    [zeros 9; zeros 7; be_bytes 2 1; be_bytes 2 1; be_bytes 2 0; be_bytes 2 1])
    as (_ & [Hf|Hw] & _ & Hg); [vm_compute; reflexivity|discriminate Hf|].
  split; [exact Hw|]. intros start client. apply Hg.
Defined.
