(* ===== verification/Payload.v ===== *)
(** * crates/prover/src/client/payload.rs

    Filling the host's key-value store from [debug_executionWitness]: the blocks
    of a request are visited backwards, the witness of each is written to the
    store, and a marker under the block's parent output root says that it is
    there. *)

From S2P Require Import Prelude Bytes Config Journal Precondition Witgen.

(** [serde_json::Value]; numbers, booleans and null are skipped. *)
Inductive json :=
| JObject (fields : list (string * json))
| JArray (items : list json)
| JString (s : string)
| JOther.

(** alloy's hex decoder, a preimage key as a word of the store, and the two
    nodes; [set_store] replaces the store that the host keeps on disk. *)
Class PayloadHost (N : Type) := {
  from_hex : string -> option bytes;
  key_word : PreimageKey -> Z;
  output_at_block : Z -> St N Z;
  execution_witness : Z -> N -> option json * N;
  kv_store : N -> RWLKeyValueStore;
  set_store : RWLKeyValueStore -> N -> N;
}.

Section payload.
Context {N : Type} `{Digests} `{PreimageKeys} `{PayloadHost N}.

Definition save_hex_preimage_to_kv (preimage : string) (kv : RWLKeyValueStore)
    : Z * RWLKeyValueStore :=
  match from_hex preimage with
  | Some preimage => (Z.of_nat (length preimage),
      kv_set (key_word (key_new (keccak256 preimage) Keccak256)) preimage kv)
  | None => (0, kv)
  end.

(** The size of what was saved, and the store. *)
Fixpoint dump_payload_to_kv_store (payload : json) (kv : RWLKeyValueStore) : Z * RWLKeyValueStore :=
  match payload with
  | JObject fields =>
      (fix go l kv := match l with
        | [] => (0, kv)
        | (k, v) :: l =>
            let '(a, kv) := save_hex_preimage_to_kv k kv in
            let '(b, kv) := dump_payload_to_kv_store v kv in
            let '(c, kv) := go l kv in (a + b + c, kv)
        end) fields kv
  | JArray items =>
      (fix go l kv := match l with
        | [] => (0, kv)
        | v :: l =>
            let '(b, kv) := dump_payload_to_kv_store v kv in
            let '(c, kv) := go l kv in (b + c, kv)
        end) items kv
  | JString v => save_hex_preimage_to_kv v kv
  | JOther => (0, kv)
  end.

(** Five attempts. *)
Fixpoint fetch_witness (retries : nat) (block : Z) (n : N) : option json * N :=
  match retries with
  | O => (None, n)
  | S retries =>
      match execution_witness block n with
      | (Some w, n) => (Some w, n)
      | (None, n) => fetch_witness retries block n
      end
  end.

(** The key of the marker of the block that follows an output root. *)
Definition exec_wit_key (output_root : Z) : Z :=
  key_word (key_new (2 ^ 256 - 1 - output_root) GlobalGeneric).

(** The loop; it goes down one block per round, so the claimed block number
    bounds the rounds ([- 1] panics at zero). *)
Fixpoint payload_loop (fuel : nat) (agreed_root claimed_root claimed_number : Z) : St N bool :=
  if claimed_root =? agreed_root then mret true
  else match fuel with
  | O => lift (Panic "out of fuel")
  | S fuel =>
      number ← lift (u64_sub host claimed_number 1);
      root ← output_at_block number;
      n ← get_st;
      match kv_get (exec_wit_key root) (kv_store n) with
      | Some _ => payload_loop fuel agreed_root root number
      | None =>
          next ← lift (u64_add host number 1);
          let '(witness, n) := fetch_witness 5 next n in
          _ ← put_st n;
          match witness with
          | None => mret false
          | Some witness =>
              let '(_, kv) := dump_payload_to_kv_store witness (kv_store n) in
              _ ← put_st (set_store (kv_set (exec_wit_key root) [] kv) n);
              payload_loop fuel agreed_root root number
          end
      end
  end.

(** [Ok true] iff the payload of every block was available. *)
Definition run_payload_client (boot_info : BootInfo) : St N bool :=
  payload_loop (S (Z.to_nat (bi_claimed_l2_block_number boot_info)))
    (bi_agreed_l2_output_root boot_info) (bi_claimed_l2_output_root boot_info)
    (bi_claimed_l2_block_number boot_info).
End payload.

(** ** What the store gains *)

Section payload_spec.
Context {N : Type} `{Digests} `{PreimageKeys} `{PayloadHost N}.

(** Every new entry is a preimage under its own hash, or a marker. *)
Definition grown (s s' : RWLKeyValueStore) : Prop :=
  global_mask s' = global_mask s /\
  forall k v, kv s' !! k = Some v -> kv s !! k = Some v \/
    k = kv_mask s (key_word (key_new (keccak256 v) Keccak256)) \/
    (v = [] /\ exists root, k = kv_mask s (exec_wit_key root)).

#[export] Instance grown_preorder : PreOrder grown.
Proof.
  split; [by split; auto|]. intros s1 s2 s3 [Hm1 Hk1] [Hm2 Hk2].
  assert (Hk : forall x, kv_mask s2 x = kv_mask s1 x) by (intros x; unfold kv_mask; by rewrite Hm1).
  split; [congruence|]. intros k v Hv.
  destruct (Hk2 k v Hv) as [Hv2|[->|(-> & root & ->)]]; [by auto| |]; rewrite Hk; eauto.
Qed.

Lemma grown_set s key v :
  key = key_word (key_new (keccak256 v) Keccak256) \/ (v = [] /\ exists root, key = exec_wit_key root) ->
  grown s (kv_set key v s).
Proof.
  intros Hkey. split; [done|]. cbn. intros k v' [[<- <-]|[_ ?]]%lookup_insert_Some; [|by left].
  right. destruct Hkey as [->|(-> & root & ->)]; eauto.
Qed.

Lemma save_grows p s : grown s (save_hex_preimage_to_kv p s).2.
Proof.
  unfold save_hex_preimage_to_kv. destruct (from_hex p); cbn; [|done]. apply grown_set. by left.
Qed.

Lemma dump_grows j s : grown s (dump_payload_to_kv_store j s).2.
Proof.
  revert s. revert j. fix IH 1. intros [fields|items|v|] s; cbn [dump_payload_to_kv_store].
  - revert s. induction fields as [|[k v] l IHl]; intros s; [done|].
    destruct (save_hex_preimage_to_kv k s) as [a s1] eqn:E1. pose proof (save_grows k s) as G1.
    destruct (dump_payload_to_kv_store v s1) as [b s2] eqn:E2. pose proof (IH v s1) as G2.
    specialize (IHl s2). rewrite E1 in G1. rewrite E2 in G2. cbn [snd] in *.
    match type of IHl with grown _ (snd ?m) => destruct m as [c s3] end.
    cbn [snd] in *. by etrans; [|etrans].
  - revert s. induction items as [|v l IHl]; intros s; [done|].
    destruct (dump_payload_to_kv_store v s) as [b s2] eqn:E2. pose proof (IH v s) as G2.
    specialize (IHl s2). rewrite E2 in G2. cbn [snd] in *.
    match type of IHl with grown _ (snd ?m) => destruct m as [c s3] end.
    cbn [snd] in *. by etrans.
  - apply save_grows.
  - done.
Qed.

(** The nodes do not write to the store. *)
Definition store_kept : Prop :=
  (forall b n, kv_store (output_at_block b n).2 = kv_store n) /\
  (forall b n, kv_store (execution_witness b n).2 = kv_store n) /\
  (forall s n, kv_store (set_store s n) = s).

Lemma fetch_witness_store retries block n :
  store_kept -> kv_store (fetch_witness retries block n).2 = kv_store n.
Proof.
  intros (_ & Hw & _). revert n. induction retries as [|r IH]; intros n; cbn; [done|].
  specialize (Hw block n). destruct (execution_witness block n) as [[w|] n']; [done|].
  by rewrite IH.
Qed.

(** What the payload client does to the store, when only it writes there: it
    never runs out of rounds, whatever the nodes answer and however the run ends
    it adds only preimages under their own hash and markers of processed
    blocks, and the request stays as it was. *)
Lemma payload_loop_spec fuel agreed claimed number n :
  store_kept -> (Z.to_nat number < fuel)%nat ->
  let '(r, n') := payload_loop fuel agreed claimed number n in
  grown (kv_store n) (kv_store n') /\ (forall w, r = Panic w -> w <> "out of fuel" \/
    exists b m, (output_at_block b m).1 = Panic w).
Proof.
  intros Hs. revert claimed number n. induction fuel as [|fuel IH]; intros claimed number n Hf; [lia|].
  cbn [payload_loop]. destruct (claimed =? agreed); [done|].
  unfold mbind, St_bind, lift. unfold u64_sub, arith at 1.
  destruct (fits 64 (number - 1)) eqn:Ef; cbn [overflow_checks host]; [|split; [done|]; intros w E; injection E as <-; by left].
  apply fits_spec in Ef. unfold in_width in Ef.
  pose proof (proj1 Hs (number - 1) n) as Ho.
  destruct (output_at_block (number - 1) n) as [[root|e|w] n1] eqn:Eo; cbn [snd] in Ho.
  2:{ rewrite Ho. by split. }
  2:{ rewrite Ho. split; [done|]. intros w' [= <-]. right. exists (number - 1), n. by rewrite Eo. }
  unfold get_st. destruct (kv_get _ _).
  { rewrite <-Ho. apply IH. lia. }
  unfold u64_add, arith. destruct (fits 64 (number - 1 + 1)); cbn [overflow_checks host];
    [|rewrite <-Ho; split; [done|]; intros w E; injection E as <-; by left].
  pose proof (fetch_witness_store 5 (number - 1 + 1) n1 Hs) as Hw.
  destruct (fetch_witness 5 _ n1) as [[witness|] n2]; cbn [snd] in Hw; unfold put_st;
    [|cbn; rewrite Hw, Ho; by split].
  pose proof (dump_grows witness (kv_store n2)) as Hd.
  destruct (dump_payload_to_kv_store witness (kv_store n2)) as [size s3]. cbn [snd] in Hd.
  specialize (IH root (number - 1) (set_store (kv_set (exec_wit_key root) [] s3) n2) ltac:(lia)).
  destruct (payload_loop _ _ _ _ _) as [r n']. destruct IH as [Hg Hr]. split; [|done].
  rewrite (proj2 (proj2 Hs)) in Hg. rewrite <-Ho, <-Hw.
  etrans; [exact Hd|]. etrans; [|exact Hg]. apply grown_set. right. eauto.
Qed.
End payload_spec.
