(* ===== verification/HanaHost.v ===== *)
(** * crates/prover/src/hana/{handler,providers}.rs

    The host behind the Celestia guest: what it answers to the hints of the
    Celestia source, and the providers it answers them with. *)

From S2P Require Import Prelude Bytes Config Journal Precondition Oracle DA Witgen Payload.

Inductive HintWrapper := CelestiaDA | Standard (hint : Z).

(** hana's [CelestiaChainHost], with the fields that are read here. *)
Record CelestiaChainHost := {
  l1_head : Z; h_l1_node_address : option string; h_l1_beacon_address : option string;
  h_l2_node_address : option string; celestia_connection : option string;
  auth_token : option string; namespace : option string }.

(** alloy, risc0-steel, hana's own handler, and bincode. *)
Class HanaNode (N EvmInput Env : Type) := {
  get_chain_id : St N Z;
  latest_block_at : Z -> Z -> N -> Z * N;
  height_env : ChainSpec -> Z -> St N Env;
  preflight_latest_block : Z -> Env -> St N (Z * Env);
  height_into_input : Env -> St N EvmInput;
  bincode_evm_input : EvmInput -> outcome bytes;
  fetch_hint_inner : HintWrapper -> bytes -> St N unit;
  canonical_blobstream : Z -> option Z;
}.

(** The clients of the nodes, and what they are made from. *)
Class HanaClients (N L1 Blobs L2 Client Namespace : Type) := {
  http_l1 : string -> L1; blob_init : string -> St N Blobs; http_l2 : string -> L2;
  celestia_client_new : string -> option string -> St N Client;
  hex_decode : string -> option bytes; namespace_new_v0 : bytes -> outcome Namespace }.

Record CelestiaChainProviders (L1 Blobs L2 Client Namespace : Type) := {
  p_l1 : L1; p_blobs : Blobs; p_l2 : L2; p_celestia : Client * Namespace }.
Arguments Build_CelestiaChainProviders {L1 Blobs L2 Client Namespace}.

Definition from_le_bytes (bs : bytes) : Z := from_be_bytes (rev bs).

Section handler.
Context {N EvmInput Env : Type} `{HanaNode N EvmInput Env} `{PayloadHost N} `{Digests} `{PreimageKeys}.

(** [HanaHintHandler::blobstream_height]. *)
Definition blobstream_height_at (l1_head : Z) : St N Z :=
  chain_id ← get_chain_id;
  blobstream_address ← lift (unwrap "No canonical Blobstream address found for chain id"
    (canonical_blobstream chain_id));
  n ← get_st;
  let '(latest, n) := latest_block_at blobstream_address l1_head n in
  _ ← put_st n;
  mret latest.

Definition blobstream_height_proof (l1_head blobstream_address : Z) : St N bytes :=
  chain_id ← get_chain_id;
  env ← height_env (chain_spec chain_id) l1_head;
  '(_, env) ← preflight_latest_block blobstream_address env;
  evm_input ← height_into_input env;
  lift (bincode_evm_input evm_input).

(** The key under which the guest asks for the proof. *)
Definition height_proof_key (blobstream_address : Z) : PreimageKey :=
  key_new (keccak256 (address_bytes blobstream_address)) GlobalGeneric.

Definition fetch_hint (cfg : CelestiaChainHost) (ty : HintWrapper) (data : bytes) : St N unit :=
  match ty with
  | CelestiaDA =>
      if bool_decide (length data = 20%nat) then
        let blobstream_address := from_be_bytes data in
        blobstream_proof ← blobstream_height_proof (l1_head cfg) blobstream_address;
        n ← get_st;
        put_st (set_store (kv_set (key_word (height_proof_key blobstream_address)) blobstream_proof
                  (kv_store n)) n)
      else
        _ ← lift (ensure (bool_decide (length data = 40%nat)) "Invalid hint data length");
        let height := from_le_bytes (take 8 data) in
        latest_height ← blobstream_height_at (l1_head cfg);
        if latest_height <? height then lift (Err "SP1Blobstream::latestBlock")
        else fetch_hint_inner CelestiaDA data
  | ty => fetch_hint_inner ty data
  end.
End handler.

(** [create_providers]. *)
Definition create_providers {N L1 Blobs L2 Client Namespace : Type}
    `{HanaClients N L1 Blobs L2 Client Namespace} (cfg : CelestiaChainHost)
    : St N (CelestiaChainProviders L1 Blobs L2 Client Namespace) :=
  l1 ← lift (ok_or "Provider must be set" (h_l1_node_address cfg));
  beacon ← lift (ok_or "Beacon API URL must be set" (h_l1_beacon_address cfg));
  blob_provider ← blob_init beacon;
  l2 ← lift (ok_or "L2 node address must be set" (h_l2_node_address cfg));
  connection ← lift (ok_or "Celestia connection must be set" (celestia_connection cfg));
  celestia_client ← expect_st "Failed creating rpc client"
    (celestia_client_new connection (auth_token cfg));
  ns ← lift (ok_or "Celestia Namespace must be set" (namespace cfg));
  namespace_bytes ← lift (unwrap "Invalid hex" (hex_decode ns));
  ns ← lift (expect "Invalid namespace" (namespace_new_v0 namespace_bytes));
  mret (Build_CelestiaChainProviders (http_l1 l1) blob_provider (http_l2 l2) (celestia_client, ns)).

(** ** Properties *)

Section properties.
Context {N EvmInput Env : Type} `{HanaNode N EvmInput Env} `{PayloadHost N} `{Digests} `{PreimageKeys}.

(** The store that a host is left with is the one it was given. *)
Definition store_kept : Prop := forall s n, kv_store (set_store s n) = s.

Lemma blobstream_height_proof_Ok l1_head address n proof m :
  blobstream_height_proof l1_head address n = (Ok proof, m) ->
  exists chain_id m1 env m2 height env' m3 input,
    get_chain_id n = (Ok chain_id, m1) /\ height_env (chain_spec chain_id) l1_head m1 = (Ok env, m2) /\
    preflight_latest_block address env m2 = (Ok (height, env'), m3) /\
    height_into_input env' m3 = (Ok input, m) /\ bincode_evm_input input = Ok proof.
Proof.
  unfold blobstream_height_proof. intros Hp. st_inv.
  match goal with x : (Z * Env)%type |- _ => destruct x as [height env'] end. st_inv.
  do 8 eexists. by split_and!.
Qed.

Lemma mask_apart key a b : a <> b -> Z.lxor key a <> Z.lxor key b.
Proof.
  intros Hab E. apply Hab. apply (f_equal (Z.lxor key)) in E.
  by rewrite <-!Z.lxor_assoc, !Z.lxor_nilpotent, !Z.lxor_0_l in E.
Qed.

(** The height proof that the Celestia guest asks for is one that the host
    made for the run's L1 head: a hint of 20 bytes is answered, if at all, by
    storing the encoded Steel input of the contract call, built at the run's L1
    head on the chain of the L1 node, under the key of the address in the hint,
    which is the guest's; no other entry of the store changes; and the store
    masked with another L1 head does not see the entry. *)
Theorem height_proof_served cfg data n n' :
  store_kept -> length data = 20%nat ->
  fetch_hint cfg CelestiaDA data n = (Ok tt, n') ->
  let key := key_word (key_new (keccak256 (address_bytes (from_be_bytes data))) GlobalGeneric) in
  exists m chain_id m1 env m2 height env' m3 input proof,
    get_chain_id n = (Ok chain_id, m1) /\ height_env (chain_spec chain_id) (l1_head cfg) m1 = (Ok env, m2) /\
    preflight_latest_block (from_be_bytes data) env m2 = (Ok (height, env'), m3) /\
    height_into_input env' m3 = (Ok input, m) /\ bincode_evm_input input = Ok proof /\
    (forall k, kv_get k (kv_store n') =
       if decide (kv_mask (kv_store m) key = kv_mask (kv_store m) k) then Some proof
       else kv_get k (kv_store m)) /\
    (forall mask, global_mask (kv_store m) <> mask -> Z.shiftr key 248 = 3 ->
       kv_get key (with_global_mask mask (kv_store n')) = kv_get key (with_global_mask mask (kv_store m))).
Proof.
  intros Hkept Hlen Hf key. unfold fetch_hint in Hf. rewrite bool_decide_true in Hf by done.
  unfold get_st, put_st in Hf. apply St_bind_Ok in Hf as (proof & m & Hp & Hf).
  unfold mbind, St_bind in Hf. injection Hf as <-.
  apply blobstream_height_proof_Ok in Hp as (chain_id & m1 & env & m2 & height & env' & m3 & input & ?).
  exists m, chain_id, m1, env, m2, height, env', m3, input, proof. destruct_and?.
  split_and!; try done; rewrite Hkept.
  - intros k. apply kv_get_set.
  - intros mask Hm Hg. unfold kv_get, kv_set, with_global_mask. cbn.
    rewrite lookup_insert_ne; [done|]. unfold kv_mask. cbn. change (key_word _) with key.
    rewrite Hg. by apply mask_apart.
Qed.

(** A hint for a blob above the contract's height at the L1 head is refused, and
    hana's own handler is never asked; every other hint is passed on to it. *)
Theorem blob_hint_bounded cfg data n :
  length data <> 20%nat ->
  let '(r, n') := fetch_hint cfg CelestiaDA data n in
  r = Ok tt -> length data = 40%nat /\
  exists latest m, blobstream_height_at (l1_head cfg) n = (Ok latest, m) /\
    from_le_bytes (take 8 data) <= latest /\ fetch_hint_inner CelestiaDA data m = (Ok tt, n').
Proof.
  intros Hl. destruct (fetch_hint _ _ _ _) as [r n'] eqn:Hf. intros ->.
  unfold fetch_hint in Hf. rewrite bool_decide_false in Hf by done. st_inv. ok_inv. bools.
  split; [done|]. destruct (_ <? _) eqn:Elt; bools; [done|]. eauto.
Qed.
End properties.

(** ** Witness *)

Definition demo_hana_node : HanaNode RWLKeyValueStore Z Z := {|
  get_chain_id := fun n => (Ok 1, n); latest_block_at := fun _ _ n => (100, n);
  height_env := fun _ head n => (Ok head, n); preflight_latest_block := fun _ env n => (Ok (100, env), n);
  height_into_input := fun env n => (Ok env, n); bincode_evm_input := fun i => Ok (be_bytes 32 i);
  fetch_hint_inner := fun _ _ n => (Ok tt, n); canonical_blobstream := fun _ => Some 3 |}.
Definition demo_hana_store : PayloadHost RWLKeyValueStore := {|
  from_hex := fun _ => None; key_word := fun k => Z.lor (Z.shiftl 3 248) (key_data k);
  output_at_block := fun n t => (Ok 0, t); execution_witness := fun _ n => (None, n);
  kv_store := fun n => n; set_store := fun s _ => s |}.
Definition demo_hana_cfg : CelestiaChainHost := {|
  l1_head := 9; h_l1_node_address := None; h_l1_beacon_address := None; h_l2_node_address := None;
  celestia_connection := None; auth_token := None; namespace := None |}.
Definition demo_hana_n : RWLKeyValueStore := {| kv := ∅; global_mask := 9 |}.
Definition demo_hana_fetch (data : bytes) :=
  @fetch_hint _ _ _ demo_hana_node demo_hana_store demo_digests demo_keys demo_hana_cfg CelestiaDA data demo_hana_n.

Lemma height_proof_served_witness :
  let data := be_bytes 20 3 in
  let key := @key_word _ demo_hana_store (@key_new demo_keys (@keccak256 demo_digests
    (address_bytes (from_be_bytes data))) GlobalGeneric) in
  let n' := (demo_hana_fetch data).2 in
  exists m chain_id m1 env m2 height env' m3 input proof,
    @get_chain_id _ _ _ demo_hana_node demo_hana_n = (Ok chain_id, m1) /\
    @height_env _ _ _ demo_hana_node (chain_spec chain_id) 9 m1 = (Ok env, m2) /\
    @preflight_latest_block _ _ _ demo_hana_node (from_be_bytes data) env m2 = (Ok (height, env'), m3) /\
    @height_into_input _ _ _ demo_hana_node env' m3 = (Ok input, m) /\
    @bincode_evm_input _ _ _ demo_hana_node input = Ok proof /\
    (forall k, kv_get k n' =
       if decide (kv_mask m key = kv_mask m k) then Some proof else kv_get k m) /\
    (forall mask, global_mask m <> mask -> Z.shiftr key 248 = 3 ->
       kv_get key (with_global_mask mask n') = kv_get key (with_global_mask mask m)).
Proof.
  intros data key n'.
  apply (@height_proof_served _ _ _ demo_hana_node demo_hana_store demo_digests demo_keys demo_hana_cfg
    data demo_hana_n n').
  - intros s n. reflexivity.
  - apply length_be_bytes.
  - subst n'. vm_compute. reflexivity.
Defined.
