(* ===== verification/Tasks.v ===== *)
(** * crates/prover/src/{args,tasks}.rs

    One proof request: [compute_fpvm_proof] falls back from a complete proof to
    execution proofs of parts of the trace, divides those that are too large,
    and stitches the parts back together. *)

From S2P Require Import Prelude Bytes Config Journal Blobs Precondition Oracle Executor L1Chain Core Stitching DA Witgen Payload.
From stdpp Require Import sorting.
Open Scope Z_scope.

(** ** Computations of the prover *)

Definition Pr (X A : Type) : Type := X -> attempt A * X.
#[export] Instance Pr_ret X : MRet (Pr X) := fun A a x => (Done a, x).
#[export] Instance Pr_bind X : MBind (Pr X) := fun A B f m x =>
  match m x with
  | (Done a, x) => f a x
  | (Failed e, x) => (Failed e, x)
  | (Crashed w, x) => (Crashed w, x)
  end.
#[export] Instance Pr_fmap X : FMap (Pr X) := fun A B f m x =>
  match m x with
  | (Done a, x) => (Done (f a), x)
  | (Failed e, x) => (Failed e, x)
  | (Crashed w, x) => (Crashed w, x)
  end.
Definition lift_at {X A} (a : attempt A) : Pr X A := fun x => (a, x).
(** A [Result] that is inspected instead of propagated. *)
Definition caught {X A} (m : Pr X A) : Pr X (A + ProvingError) := fun x =>
  match m x with
  | (Done a, x) => (Done (inl a), x)
  | (Failed e, x) => (Done (inr e), x)
  | (Crashed w, x) => (Crashed w, x)
  end.

Lemma Pr_bind_Done {X A B} (m : Pr X A) (f : A -> Pr X B) x b x' :
  (m ≫= f) x = (Done b, x') <-> exists a y, m x = (Done a, y) /\ f a y = (Done b, x').
Proof. unfold mbind, Pr_bind. destruct (m x) as [[] ?]; naive_solver. Qed.

Lemma lift_at_Done {X A} (o : attempt A) (x : X) a x' :
  lift_at o x = (Done a, x') <-> o = Done a /\ x' = x.
Proof. unfold lift_at. naive_solver. Qed.

(** ** Arguments and tasks *)

(** [ProveArgs]: of [kona], the request itself. *)
Record ProveArgs := {
  a_l1_head : Z; a_agreed_l2_output_root : Z; a_agreed_l2_head_hash : Z;
  a_claimed_l2_output_root : Z; a_claimed_l2_block_number : Z;
  is_offline : bool; enable_experimental_witness_endpoint : bool; op_node_address : bool;
  proving : ProvingArgs;
}.

Definition set_request (l1_head agreed_root agreed_hash claimed_root claimed_number : Z)
    (a : ProveArgs) : ProveArgs :=
  {| a_l1_head := l1_head; a_agreed_l2_output_root := agreed_root;
     a_agreed_l2_head_hash := agreed_hash; a_claimed_l2_output_root := claimed_root;
     a_claimed_l2_block_number := claimed_number; is_offline := is_offline a;
     enable_experimental_witness_endpoint := enable_experimental_witness_endpoint a;
     op_node_address := op_node_address a; proving := proving a |}.

Record Cached (R : Type) := {
  c_args : ProveArgs; c_rollup_config : RollupConfig; c_precondition_hash : Z;
  c_precondition_validation_data_hash : Z; c_executions : list (list Execution);
  c_boot_info : list StitchedBootInfo; c_proofs : list R;
  c_prove_snark : bool; c_force_attempt : bool; c_seek_proof : bool;
}.
Arguments c_args {R}. Arguments c_rollup_config {R}. Arguments c_precondition_hash {R}.
Arguments c_precondition_validation_data_hash {R}. Arguments c_executions {R}.
Arguments c_boot_info {R}. Arguments c_proofs {R}. Arguments c_prove_snark {R}.
Arguments c_force_attempt {R}. Arguments c_seek_proof {R}. Arguments Build_Cached {R}.

(** The block number of an execution's header. *)
Definition block_number (e : Execution) : Z := hdr_number (header (artifacts e)).
Definition block_hash (e : Execution) : Z := hdr_hash (header (artifacts e)).

(** Tasks and results are ordered by the claimed block number alone. *)
Definition claimed_block {R} (c : Cached R) : Z := a_claimed_l2_block_number (c_args c).
Definition by_claimed_block {R} (x y : Cached R * R) : Prop := claimed_block x.1 <= claimed_block y.1.
#[export] Instance by_claimed_block_dec {R} : RelDecision (@by_claimed_block R).
Proof. intros x y. unfold by_claimed_block. apply _. Defined.
(** [into_sorted_vec] (ascending; the order of equal elements is unspecified). *)
Definition into_sorted_vec {R} (l : list (Cached R * R)) : list (Cached R * R) :=
  merge_sort by_claimed_block l.

(** The worker pool: a task that is awaited at once, and a queue of tasks of
    which one after the other completes, in any order; [next_result] gets the
    tasks that are waiting and tells which one completed, or [None] if the wait
    never ends.  (A worker that panics closes the channel of an awaited task; a
    queued task is then never answered.) *)
Class Pool (X R : Type) := {
  oneshot : Cached R -> Pr X R;
  next_result : list (Cached R) -> X -> option (nat * (R + ProvingError)) * X;
}.

Section tasks.
Context {X R : Type} `{Digests} `{Rlp}.

Definition create_cached_execution_task (args : ProveArgs) (config : RollupConfig)
    (execution_cache : list Execution) : outcome (Cached R) :=
  first ← unwrap "Failed to find the first execution."
    (List.find (fun e => agreed_output e =? a_agreed_l2_output_root args) execution_cache);
  starting_block ← u64_sub host (block_number first) 1;
  num_blocks ← u64_sub host (a_claimed_l2_block_number args) starting_block;
  let executed_blocks := List.filter (fun e => (starting_block <? block_number e) &&
    (block_number e <=? a_claimed_l2_block_number args)) execution_cache in
  precondition_hash ← exec_precondition_hash executed_blocks;
  Ok {| c_args := args; c_rollup_config := config; c_precondition_hash := precondition_hash;
        c_precondition_validation_data_hash := 0; c_executions := [executed_blocks];
        c_boot_info := []; c_proofs := []; c_prove_snark := false;
        c_force_attempt := num_blocks =? 1; c_seek_proof := true |}.

(** The loop that divides the executed blocks into tasks.  The fuel is the
    number of executions: every round but the last advances the claim. *)
Fixpoint execution_jobs (fuel : nat) (args : ProveArgs) (config : RollupConfig)
    (execution_cache : list Execution) (last_claim_index next_claim_index : Z)
    (agreed_l2_output_root agreed_l2_head_hash : Z) : outcome (list (Cached R)) :=
  match fuel with
  | O => Panic "out of fuel"
  | S fuel =>
      if agreed_l2_output_root =? a_claimed_l2_output_root args then Ok []
      else
        e ← index execution_cache (Z.to_nat next_claim_index);
        job ← create_cached_execution_task
          (set_request 0 agreed_l2_output_root agreed_l2_head_hash (claimed_output e)
             (block_number e) args) config execution_cache;
        if next_claim_index =? last_claim_index then Ok [job]
        else
          let next_claim_index := Z.min
            (sat_add 64 next_claim_index (max_block_executions (proving args))) last_claim_index in
          jobs ← execution_jobs fuel args config execution_cache last_claim_index
            next_claim_index (claimed_output e) (block_hash e);
          Ok (job :: jobs)
  end.

Definition all_execution_jobs (args : ProveArgs) (config : RollupConfig)
    (execution_cache : list Execution) : outcome (list (Cached R)) :=
  let len := Z.of_nat (length execution_cache) in
  next_claim_index ← u64_sub host (Z.min (max_block_executions (proving args)) len) 1;
  last_claim_index ← u64_sub host len 1;
  execution_jobs (S (length execution_cache)) args config execution_cache last_claim_index
    next_claim_index (a_agreed_l2_output_root args) (a_agreed_l2_head_hash args).

(** The two halves of a task that could not be proved. *)
Definition split_task (config : RollupConfig) (execution_cache executed_blocks : list Execution)
    (args : ProveArgs) (agreed_block num_blocks : Z) : outcome (Cached R * Cached R) :=
  mid_point ← u64_add host agreed_block (num_blocks / 2);
  mid_exec ← unwrap "Failed to find the midpoint of execution."
    (List.find (fun e => block_number e =? mid_point) executed_blocks);
  let mid_output := claimed_output mid_exec in
  lower ← create_cached_execution_task
    (set_request (a_l1_head args) (a_agreed_l2_output_root args) (a_agreed_l2_head_hash args)
       mid_output mid_point args) config execution_cache;
  upper ← create_cached_execution_task
    (set_request (a_l1_head args) mid_output (block_hash mid_exec)
       (a_claimed_l2_output_root args) (a_claimed_l2_block_number args) args) config execution_cache;
  Ok (lower, upper).

(** The scheduler of the execution proofs: the number of proofs to wait for,
    the tasks in the pool, and the proofs. *)
Record Divide := {
  num_proofs : Z; outstanding : list (Cached R); result_pq : list (Cached R * R) }.

(** A result arrives. *)
Definition divide_result (config : RollupConfig) (execution_cache : list Execution) (d : Divide)
    (task : Cached R) (outstanding : list (Cached R)) (result : R + ProvingError) : attempt Divide :=
  match result with
  | inl proof => Done {| num_proofs := num_proofs d; outstanding := outstanding;
                         result_pq := result_pq d ++ [(task, proof)] |}
  | inr err =>
      executed_blocks ← no_err (index (c_executions task) 0);
      first ← no_err (index executed_blocks 0);
      agreed_block ← no_err (u64_sub host (block_number first) 1);
      num_blocks ← no_err (u64_sub host (claimed_block task) agreed_block);
      let forced_attempt := num_blocks =? 1 in
      let split :=
        '(lower, upper) ← no_err (split_task config execution_cache executed_blocks (c_args task)
                                    agreed_block num_blocks);
        Done {| num_proofs := num_proofs d + 1; outstanding := outstanding ++ [lower; upper];
                result_pq := result_pq d |} in
      match err with
      | WitnessSizeError f t e => if forced_attempt then Failed (WitnessSizeError f t e) else split
      | ExecutionError e => if forced_attempt then Failed (ExecutionError e) else split
      | OtherError e => Failed (OtherError e)
      | NotAwaitingProof => Done {| num_proofs := num_proofs d + 1 - 2; outstanding := outstanding;
                                    result_pq := result_pq d |}
      | BlockCountError _ _ _ => Crashed "Unexpected BlockCountError"
      | NotSeekingProof _ _ => Crashed "Unexpected NotSeekingProof"
      | DerivationProofError _ => Crashed "Unexpected DerivationProofError"
      end
  end.

(** Removes the element at a position. *)
Definition take_at {A} (i : nat) (l : list A) : option (A * list A) :=
  match l !! i with Some a => Some (a, take i l ++ drop (S i) l) | None => None end.

Fixpoint divide_loop `{Pool X R} (fuel : nat) (config : RollupConfig)
    (execution_cache : list Execution) (d : Divide) : Pr X Divide := fun x =>
  if Z.of_nat (length (result_pq d)) <? num_proofs d then
    match fuel with
    | O => (Crashed "out of fuel", x)
    | S fuel =>
        match next_result (outstanding d) x with
        | (None, x) => (Crashed "no result ever arrives", x)
        | (Some (i, result), x) =>
            match take_at i (outstanding d) with
            | None => (Crashed "no such task", x)
            | Some (task, rest) =>
                match divide_result config execution_cache d task rest result with
                | Done d => divide_loop fuel config execution_cache d x
                | Failed e => (Failed e, x)
                | Crashed w => (Crashed w, x)
                end
            end
        end
    end
  else (Done d, x).

Definition whole_task (args : ProveArgs) (config : RollupConfig) (precondition_hash data_hash : Z)
    (executions : list (list Execution)) (boots : list StitchedBootInfo) (proofs : list R)
    (prove_snark force_attempt seek_proof : bool) : Cached R :=
  {| c_args := args; c_rollup_config := config; c_precondition_hash := precondition_hash;
     c_precondition_validation_data_hash := data_hash; c_executions := executions;
     c_boot_info := boots; c_proofs := proofs; c_prove_snark := prove_snark;
     c_force_attempt := force_attempt; c_seek_proof := seek_proof |}.

(** [(r.result, r.cached.stitched_executions.pop().unwrap())]. *)
Definition pop_executions (result : Cached R * R) : outcome (R * list Execution) :=
  let '(task, proof) := result in
  '(executions, _) ← unwrap "pop" (vec_pop (c_executions task));
  Ok (proof, executions).

(** Steps 3 and 4 of [compute_fpvm_proof]: execution proofs, then the
    derivation proof that stitches them. *)
Definition prove_executions `{Pool X R} (args : ProveArgs) (config : RollupConfig)
    (precondition_hash data_hash : Z) (boots : list StitchedBootInfo) (proofs : list R)
    (prove_snark : bool) (execution_cache : list Execution) : Pr X (option R) :=
  jobs ← lift_at (no_err (all_execution_jobs args config execution_cache));
  d ← divide_loop (2 * length execution_cache) config execution_cache
    {| num_proofs := Z.of_nat (length jobs); outstanding := jobs; result_pq := [] |};
  parts ← lift_at (no_err (omap_m pop_executions (into_sorted_vec (result_pq d))));
  let new_proofs := parts.*1 in
  let executions := parts.*2 in
  if skip_await_proof (proving args) then lift_at (Failed NotAwaitingProof)
  else if skip_derivation_proof (proving args)
  then lift_at (Failed (DerivationProofError (length new_proofs)))
  else Some <$> oneshot (whole_task args config precondition_hash data_hash executions boots
                           (proofs ++ new_proofs) prove_snark true true).

(** Steps 2 to 4, given the traces of the attempted complete proof. *)
Definition prove_in_parts `{Pool X R} (args : ProveArgs) (config : RollupConfig)
    (precondition_hash data_hash : Z) (boots : list StitchedBootInfo) (proofs : list R)
    (prove_snark : bool) (executed_blocks : list (list Execution)) : Pr X (option R) :=
  if max_block_executions (proving args) =? 0
  then lift_at (Failed (OtherError
    "Execution only proofs are disabled because max_block_executions=0."))
  else
    let '(_, execution_cache) := split_executions executed_blocks in
    let continue := prove_executions args config precondition_hash data_hash boots proofs
      prove_snark execution_cache in
    if skip_derivation_proof (proving args) then continue
    else
      derivation_only_result ← caught (oneshot (whole_task args config precondition_hash
        data_hash executed_blocks boots proofs false false false));
      match derivation_only_result with
      | inr (NotSeekingProof _ _) => continue
      | inr e => lift_at (Failed e)
      | inl proof => mret (Some proof)
      end.

Definition compute_fpvm_proof `{Pool X R} (args : ProveArgs) (config : RollupConfig)
    (precondition_hash data_hash : Z) (boots : list StitchedBootInfo) (proofs : list R)
    (prove_snark : bool) : Pr X (option R) :=
  let stitching_only := a_agreed_l2_output_root args =? a_claimed_l2_output_root args in
  complete_proof_result ← caught (oneshot (whole_task args config precondition_hash data_hash
    [] boots proofs prove_snark stitching_only (negb (skip_derivation_proof (proving args)))));
  match complete_proof_result with
  | inr (BlockCountError _ _ executed_blocks) | inr (WitnessSizeError _ _ executed_blocks)
  | inr (NotSeekingProof _ executed_blocks) =>
      prove_in_parts args config precondition_hash data_hash boots proofs prove_snark executed_blocks
  | inr e => lift_at (Failed e)
  | inl proof => mret (Some proof)
  end.
End tasks.
Arguments Divide : clear implicits.
