(* ===== verification/TasksSpec.v ===== *)
(** * What crates/prover/src/tasks.rs guarantees

    The division of a trace into execution proofs: the tasks always tile the
    trace, whatever is divided further and in whatever order results arrive, and
    the proof that is returned stitches them in block order. *)

From S2P Require Import Prelude Tiling Bytes Config Journal Blobs Precondition Oracle Executor L1Chain Core Stitching DA Witgen Payload Tasks.
From stdpp Require Import sorting.
Open Scope Z_scope.

(** ** Segments of a trace *)

(** Consecutive block numbers. *)
Fixpoint numbered (n : Z) (l : list Execution) : Prop :=
  match l with [] => True | e :: l => block_number e = n /\ numbered (n + 1) l end.

Section lists.
Implicit Types l : list Execution.

Lemma numbered_lookup n l i e : numbered n l -> l !! i = Some e -> block_number e = n + Z.of_nat i.
Proof.
  revert n i. induction l as [|x l IH]; intros n [|i]; cbn; try done.
  - intros [? ?] [= ->]. lia.
  - intros [_ Hl] Hi. rewrite (IH _ _ Hl Hi). lia.
Qed.

Lemma numbered_range n l s t :
  numbered n l ->
  List.filter (fun e => (s <? block_number e) && (block_number e <=? t)) l =
    seg l (Z.to_nat (s + 1 - n)) (Z.to_nat (t - Z.max s (n - 1))).
Proof.
  unfold seg. revert n. induction l as [|e l IH]; intros n; cbn [numbered List.filter].
  { intros _. by rewrite drop_nil, take_nil. }
  intros [-> Hl]. rewrite (IH _ Hl). destruct (Z.ltb_spec s n); cbn [andb].
  - replace (Z.to_nat (s + 1 - n)) with 0%nat by lia.
    replace (Z.to_nat (s + 1 - (n + 1))) with 0%nat by lia. cbn [drop].
    destruct (Z.leb_spec n t).
    + replace (Z.to_nat (t - Z.max s (n - 1))) with (S (Z.to_nat (t - Z.max s (n + 1 - 1)))) by lia.
      done.
    + replace (Z.to_nat (t - Z.max s (n + 1 - 1))) with 0%nat by lia.
      by replace (Z.to_nat (t - Z.max s (n - 1))) with 0%nat by lia.
  - replace (Z.to_nat (s + 1 - n)) with (S (Z.to_nat (s + 1 - (n + 1)))) by lia.
    cbn [drop]. f_equal. lia.
Qed.

Lemma find_unique {A} (f : A -> bool) (l : list A) i x :
  l !! i = Some x -> f x = true -> (forall j y, l !! j = Some y -> f y = true -> j = i) ->
  List.find f l = Some x.
Proof.
  revert i. induction l as [|y l IH]; intros i Hi Hf Hu; [done|]. cbn.
  destruct (f y) eqn:Ey.
  - pose proof (Hu 0%nat y eq_refl Ey) as <-. exact Hi.
  - destruct i as [|i]; [cbn in Hi; congruence|]. apply (IH i); [done..|].
    intros j z Hj Hz. pose proof (Hu (S j) z Hj Hz). lia.
Qed.

End lists.

(** ** Tasks of segments *)

Section segments.
Context {X R : Type} `{Digests} `{Rlp}.
Variables (args : ProveArgs) (config : RollupConfig) (cache : list Execution) (n0 : Z).

(** A recorded trace: consecutive blocks, each starting at the output root
    where the previous one ends, without repetition, and encodable. *)
Record trace_ok : Prop := {
  tr_numbered : numbered n0 cache;
  tr_range : 0 < n0 /\ n0 + Z.of_nat (length cache) < 2 ^ 64;
  tr_chain : forall i e e', cache !! i = Some e -> cache !! S i = Some e' ->
    agreed_output e' = claimed_output e;
  tr_nodup : NoDup (agreed_output <$> cache);
  tr_encodable : Forall (fun e => exists b, execution_bytes e = Ok b) cache;
}.

(** The hash of the block before the i-th of the trace. *)
Definition hash_before (i : nat) : Z :=
  match i with
  | O => a_agreed_l2_head_hash args
  | S j => default 0 (block_hash <$> cache !! j)
  end.

(** The task of the [k] executions from offset [i]. *)
Definition is_segment (ik : nat * nat) (c : Cached R) : Prop :=
  let '(i, k) := ik in
  exists e e' ph, (0 < k)%nat /\ cache !! i = Some e /\ cache !! (i + (k - 1))%nat = Some e' /\
    exec_precondition_hash (seg cache i k) = Ok ph /\
    c = {| c_args := set_request 0 (agreed_output e) (hash_before i) (claimed_output e')
             (block_number e') args;
           c_rollup_config := config; c_precondition_hash := ph;
           c_precondition_validation_data_hash := 0; c_executions := [seg cache i k];
           c_boot_info := []; c_proofs := []; c_prove_snark := false;
           c_force_attempt := bool_decide (k = 1%nat); c_seek_proof := true |}.

Hypothesis Hok : trace_ok.

Lemma trace_number i e : cache !! i = Some e -> block_number e = n0 + Z.of_nat i.
Proof. apply numbered_lookup, Hok. Qed.

Lemma trace_hash i k : exists ph, exec_precondition_hash (seg cache i k) = Ok ph.
Proof.
  unfold exec_precondition_hash.
  assert (exists cs, omap_m execution_bytes (seg cache i k) = Ok cs) as [cs ->]; [|cbn; eauto].
  assert (Hf : Forall (fun e => exists b, execution_bytes e = Ok b) (seg cache i k))
    by apply Forall_take, Forall_drop, Hok.
  induction Hf as [|e l [b Hb] _ [cs Hcs]]; [by exists []|]. exists (b :: cs). cbn. by rewrite Hb, Hcs.
Qed.

Lemma create_segment i k e e' root number :
  cache !! i = Some e -> cache !! (i + (k - 1))%nat = Some e' -> (0 < k)%nat ->
  root = claimed_output e' -> number = block_number e' ->
  exists c, create_cached_execution_task
    (set_request 0 (agreed_output e) (hash_before i) root number args) config cache = Ok c /\
    is_segment (i, k) c.
Proof.
  intros He He' Hk -> ->. destruct (trace_hash i k) as [ph Hph].
  pose proof (trace_number _ _ He) as Hn. pose proof (trace_number _ _ He') as Hn'.
  pose proof (tr_range Hok) as [Hn0 Hr]. pose proof (lookup_lt_Some _ _ _ He) as Hi.
  pose proof (lookup_lt_Some _ _ _ He') as Hi'.
  eexists. split; [|exists e, e', ph; split_and!; [done..|reflexivity]].
  unfold create_cached_execution_task. cbn [a_agreed_l2_output_root a_claimed_l2_block_number set_request].
  erewrite find_unique; [|exact He|apply Z.eqb_refl|].
  2:{ intros j y Hj Hy. apply Z.eqb_eq in Hy. eapply (NoDup_lookup _ _ _ _ (tr_nodup Hok));
      rewrite list_lookup_fmap; [by rewrite Hj|by rewrite He; cbn; rewrite Hy]. }
  cbn [unwrap mbind outcome_bind]. unfold u64_sub.
  rewrite (arith_fits host 64 (block_number e - 1)) by (unfold in_width; lia). cbn [mbind outcome_bind].
  rewrite arith_fits by (unfold in_width; lia). cbn [mbind outcome_bind].
  rewrite (numbered_range n0) by apply Hok.
  replace (Z.to_nat (block_number e - 1 + 1 - n0)) with i by lia.
  replace (Z.to_nat (block_number e' - Z.max (block_number e - 1) (n0 - 1))) with k by lia.
  rewrite Hph. cbn [mbind outcome_bind]. repeat f_equal.
  destruct (Z.eqb_spec (block_number e' - (block_number e - 1)) 1); case_bool_decide; try done; lia.
Qed.

(** A task of more than one block splits into two segments. *)
Lemma split_segment i k c e :
  is_segment (i, k) c -> seg cache i k !! 0%nat = Some e -> (1 < k)%nat ->
  exists k1 k2 lower upper, k = (k1 + k2)%nat /\ (0 < k1)%nat /\ (0 < k2)%nat /\
    split_task config cache (seg cache i k) (c_args c) (block_number e - 1) (Z.of_nat k)
      = Ok (lower, upper) /\
    is_segment (i, k1) lower /\ is_segment ((i + k1)%nat, k2) upper.
Proof.
  intros (e0 & e' & ph & _ & He & He' & _ & ->) Hs Hk. rewrite seg_lookup, Nat.add_0_r, He in Hs by lia.
  injection Hs as ->. set (k1 := (k / 2)%nat).
  assert (Hk1 : (0 < k1)%nat) by (apply Nat.div_str_pos; lia).
  assert (Hk2 : (k1 < k)%nat) by (apply Nat.div_lt; lia).
  assert (Hz : Z.of_nat k / 2 = Z.of_nat k1) by (unfold k1; by rewrite Nat2Z.inj_div).
  pose proof (trace_number _ _ He) as Hn. pose proof (tr_range Hok) as [Hn0 Hr].
  pose proof (lookup_lt_Some _ _ _ He') as Hi'.
  destruct (lookup_lt_is_Some_2 cache (i + (k1 - 1))%nat) as [em Hem]; [lia|].
  destruct (lookup_lt_is_Some_2 cache (i + k1)%nat) as [eu Heu]; [lia|].
  pose proof (trace_number _ _ Hem) as Hnm.
  destruct (create_segment i k1 e em _ _ He Hem Hk1 eq_refl eq_refl) as (lower & Hl & Hls).
  destruct (create_segment (i + k1) (k - k1) eu e' (claimed_output e') (block_number e') Heu)
    as (upper & Hu & Hus); [by replace (i + k1 + (k - k1 - 1))%nat with (i + (k - 1))%nat by lia|lia|done..|].
  exists k1, (k - k1)%nat, lower, upper. split_and!; [lia|done|lia| |done|done].
  unfold split_task. cbn [c_args]. unfold u64_add. rewrite Hz.
  rewrite arith_fits by (unfold in_width; lia). cbn [mbind outcome_bind].
  rewrite (find_unique _ _ (k1 - 1)%nat em); [|by rewrite seg_lookup by lia|apply Z.eqb_eq; lia|].
  2:{ intros j y Hj Hy. apply Z.eqb_eq in Hy.
      pose proof (lookup_lt_Some _ _ _ Hj) as Hjk. rewrite seg_length in Hjk by lia.
      rewrite seg_lookup in Hj by done. rewrite (trace_number _ _ Hj) in Hy. lia. }
  cbn [unwrap mbind outcome_bind a_l1_head a_agreed_l2_output_root a_agreed_l2_head_hash
    a_claimed_l2_output_root a_claimed_l2_block_number set_request].
  change (set_request 0 ?a ?b ?c ?d (set_request _ _ _ _ _ args)) with (set_request 0 a b c d args).
  replace (block_number e - 1 + Z.of_nat k1) with (block_number em) by lia.
  unfold set_request in *. cbn [is_offline enable_experimental_witness_endpoint op_node_address proving] in *.
  rewrite Hl. cbn [mbind outcome_bind].
  assert (agreed_output eu = claimed_output em) as Hroot.
  { eapply (tr_chain Hok); [exact Hem|]. by replace (S (i + (k1 - 1))) with (i + k1)%nat by lia. }
  assert (hash_before (i + k1) = block_hash em) as Hhash.
  { unfold hash_before. replace (i + k1)%nat with (S (i + (k1 - 1))) by lia. by rewrite Hem. }
  rewrite Hroot, Hhash in Hu. by rewrite Hu.
Qed.

(** ** The first division *)

(** The claimed output root is new. *)
Definition fresh_claim : Prop :=
  a_claimed_l2_output_root args ∉ agreed_output <$> cache.
Definition limited (s : nat * nat) : Prop := Z.of_nat (snd s) <= max_block_executions (proving args).

Hypothesis Hfresh : fresh_claim.

Lemma fresh_lookup i e : cache !! i = Some e ->
  (agreed_output e =? a_claimed_l2_output_root args) = false.
Proof.
  intros He. apply Z.eqb_neq. intros Heq. apply Hfresh. rewrite <-Heq.
  apply list_elem_of_fmap. exists e. split; [done|]. by eapply list_elem_of_lookup_2.
Qed.

Lemma execution_jobs_from fuel i next e :
  0 < max_block_executions (proving args) ->
  cache !! i = Some e -> (i ≤ next < length cache)%nat -> (length cache ≤ i + fuel)%nat ->
  Z.of_nat next - Z.of_nat i < max_block_executions (proving args) ->
  exists jobs segs, execution_jobs fuel args config cache (Z.of_nat (length cache) - 1)
      (Z.of_nat next) (agreed_output e) (hash_before i) = Ok jobs /\
    tiling i segs (length cache) /\ Forall2 is_segment segs jobs /\ Forall limited segs.
Proof.
  intros Hmax. revert i next e. induction fuel as [|fuel IH]; intros i next e He Hn Hf Hl; [lia|].
  pose proof (tr_range Hok) as [Hn0 Hr].
  destruct (lookup_lt_is_Some_2 cache next) as [e' He']; [lia|].
  destruct (create_segment i (next - i + 1) e e' _ _ He
    ltac:(replace (i + (next - i + 1 - 1))%nat with next by lia; exact He') ltac:(lia) eq_refl eq_refl)
    as (job & Hj & Hs).
  cbn [execution_jobs]. rewrite (fresh_lookup _ _ He). unfold index. rewrite Nat2Z.id, He'.
  cbn [unwrap mbind outcome_bind]. rewrite Hj. cbn [mbind outcome_bind].
  destruct (Z.eqb_spec (Z.of_nat next) (Z.of_nat (length cache) - 1)) as [Hlast|Hlast].
  { exists [job], [(i, (next - i + 1)%nat)]. split_and!; [done|cbn; lia|by constructor|].
    constructor; [unfold limited; cbn; lia|constructor]. }
  set (max := max_block_executions (proving args)) in *.
  set (next' := Z.to_nat (Z.min (sat_add 64 (Z.of_nat next) max) (Z.of_nat (length cache) - 1))).
  assert (Hn' : Z.of_nat next' = Z.min (sat_add 64 (Z.of_nat next) max) (Z.of_nat (length cache) - 1)
    /\ (next < next')%nat) by (unfold next', sat_add; lia).
  destruct Hn' as [Hz' Hlt]. rewrite <-Hz'. fold (hash_before i).
  destruct (lookup_lt_is_Some_2 cache (S next)) as [eu Heu]; [lia|].
  destruct (IH (S next) next' eu Heu) as (jobs & segs & Hjobs & Ht & Hsegs & Hlim);
    [lia|lia|unfold sat_add in Hz'; lia|].
  rewrite (tr_chain Hok _ _ _ He' Heu) in Hjobs. cbn [hash_before] in Hjobs. rewrite He' in Hjobs.
  cbn in Hjobs. rewrite Hjobs. cbn [mbind outcome_bind].
  exists (job :: jobs), ((i, (next - i + 1)%nat) :: segs). split_and!; [done| |by constructor|].
  - cbn. split_and!; [done|lia|]. by replace (i + (next - i + 1))%nat with (S next) by lia.
  - constructor; [unfold limited; cbn; lia|done].
Qed.

Lemma all_execution_jobs_Ok :
  cache <> [] -> 0 < max_block_executions (proving args) ->
  a_agreed_l2_output_root args = default 0 (agreed_output <$> head cache) ->
  exists jobs segs, all_execution_jobs args config cache = Ok jobs /\
    tiling 0 segs (length cache) /\ Forall2 is_segment segs jobs /\ Forall limited segs.
Proof.
  intros Hne Hmax Hroot. pose proof (tr_range Hok) as [Hn0 Hr].
  destruct (lookup_lt_is_Some_2 cache 0) as [e He]; [destruct cache; [done|cbn; lia]|].
  pose proof (lookup_lt_Some _ _ _ He) as Hlen.
  set (next := Z.to_nat (Z.min (max_block_executions (proving args)) (Z.of_nat (length cache)) - 1)).
  destruct (execution_jobs_from (S (length cache)) 0 next e Hmax He) as (jobs & segs & Hjobs & ?);
    [unfold next; lia|lia|unfold next; lia|].
  exists jobs, segs. split; [|done]. unfold all_execution_jobs, u64_sub.
  rewrite !arith_fits by (unfold in_width; lia). cbn [mbind outcome_bind].
  replace (Z.of_nat next) with (Z.min (max_block_executions (proving args)) (Z.of_nat (length cache)) - 1)
    in Hjobs by (unfold next; lia).
  rewrite Hroot, head_lookup, He. exact Hjobs.
Qed.

Lemma segments_concat segs (jobs : list (Cached R)) :
  tiling 0 segs (length cache) -> Forall2 is_segment segs jobs ->
  concat (concat (c_executions <$> jobs)) = cache.
Proof.
  intros Ht Hf. pose proof (tiling_concat cache _ _ _ Ht) as Hc. unfold seg at 2 in Hc.
  rewrite drop_0, Nat.sub_0_r, firstn_all in Hc. rewrite <-Hc. clear Hc Ht. f_equal.
  induction Hf as [|[i k] c segs l Hs Hf IH]; [done|].
  destruct Hs as (e & e' & ph & _ & _ & _ & _ & ->). cbn. f_equal. exact IH.
Qed.

(** The first division of a trace: for a recorded trace (consecutive block
    numbers, each execution starting where the previous one ends, no output
    root twice, the claimed one not among the starting ones) and any limit on
    block executions but zero, the loop ends without a panic; its tasks are
    execution-only, forced exactly if they hold one block, carry the hash of
    the precondition of their own executions and the roots, number and parent
    hash of their segment; no segment exceeds the limit; and together they are
    the trace. *)
Theorem execution_jobs_tile :
  cache <> [] -> 0 < max_block_executions (proving args) ->
  a_agreed_l2_output_root args = default 0 (agreed_output <$> head cache) ->
  exists (jobs : list (Cached R)) segs, all_execution_jobs args config cache = Ok jobs /\
    tiling 0 segs (length cache) /\ Forall2 is_segment segs jobs /\ Forall limited segs /\
    concat (concat (c_executions <$> jobs)) = cache.
Proof.
  intros Hne Hmax Hroot.
  destruct (all_execution_jobs_Ok Hne Hmax Hroot) as (jobs & segs & ? & ? & ? & ?).
  exists jobs, segs. split_and!; [done..|by eapply segments_concat].
Qed.
End segments.

(** ** The scheduler *)

(** What is known of a pool: an invariant of its state, the proofs a task may
    get, the errors it may end with, and the tasks whose worker may panic. *)
Record pool_ok {X R} `{Pool X R} (I : X -> Prop) (answered : Cached R -> R -> Prop)
    (refused : Cached R -> ProvingError -> Prop) (crashes : Cached R -> Prop) : Prop := {
  po_oneshot : forall c x, I x ->
    let '(o, x') := oneshot c x in I x' /\
    match o with Done r => answered c r | Failed e => refused c e | Crashed _ => crashes c end;
  po_next : forall l x, I x -> l <> [] ->
    let '(o, x') := next_result l x in I x' /\
    match o with
    | Some (i, result) => exists c, l !! i = Some c /\
        match result with inl r => answered c r | inr e => refused c e end
    | None => exists c, c ∈ l /\ crashes c
    end;
}.

(** The errors of a task follow from how it was made: the limits are not
    enforced when an attempt is forced, nothing is collected in an
    execution-only run, and a proof that is sought and awaited is. *)
Record refusals {R} (answered : Cached R -> R -> Prop) (refused : Cached R -> ProvingError -> Prop)
    : Prop := {
  rf_answered : forall c r, answered c r -> c_seek_proof c = true;
  rf_waiting : forall c, refused c NotAwaitingProof -> skip_await_proof (proving (c_args c)) = true;
  rf_derivation : forall c n, ~ refused c (DerivationProofError n);
  rf_seek : forall c s t, refused c (NotSeekingProof s t) -> c_seek_proof c = false;
  rf_size : forall c s l t, refused c (WitnessSizeError s l t) -> c_force_attempt c = false;
  rf_count : forall c n l t, refused c (BlockCountError n l t) ->
    c_force_attempt c = false /\
    (0 <= max_block_executions (proving (c_args c)) -> a_l1_head (c_args c) <> 0);
}.

Lemma index_Some {A} (l : list A) i x : l !! i = Some x -> index l i = Ok x.
Proof. unfold index. by intros ->. Qed.

Lemma take_at_Some {A} i (l : list A) a r : take_at i l = Some (a, r) -> l ≡ₚ a :: r /\ l !! i = Some a.
Proof.
  unfold take_at. destruct (l !! i) eqn:E; [|done]. intros [= <- <-]. split; [|done].
  rewrite <-(take_drop_middle _ _ _ E) at 1. by rewrite <-Permutation_middle.
Qed.

Section scheduler.
Context {X R : Type} `{Digests} `{Rlp} `{Pool X R}.
Variables (args : ProveArgs) (config : RollupConfig) (cache : list Execution) (n0 : Z).
Variables (I : X -> Prop) (answered : Cached R -> R -> Prop)
  (refused : Cached R -> ProvingError -> Prop) (crashes : Cached R -> Prop).
Hypothesis (Hok : trace_ok cache n0) (Hpool : pool_ok I answered refused crashes)
  (Href : refusals answered refused) (Hmax : 0 <= max_block_executions (proving args)).
Abbreviation is_segment := (is_segment args config cache).

Abbreviation tiled := (tiled_by is_segment (length cache)).

(** The tasks in the pool, those proved and those not waited for tile the
    trace, and the proofs to wait for are counted. *)
Definition divide_inv (d : Divide R) : Prop :=
  exists tasks skipped, tiled tasks /\ outstanding d ++ (result_pq d).*1 ++ skipped ≡ₚ tasks /\
    num_proofs d = Z.of_nat (length (outstanding d)) + Z.of_nat (length (result_pq d)) /\
    Forall (fun x => answered x.1 x.2) (result_pq d) /\
    (skip_await_proof (proving args) = false -> skipped = []).

(** At most this many results can arrive for a task and its parts. *)
Definition weight (c : Cached R) : nat := 2 * length (concat (c_executions c)) - 1.
Abbreviation total_weight := (total_of weight).

Lemma segment_weight i k c : is_segment (i, k) c -> weight c = (2 * k - 1)%nat.
Proof.
  intros (e & e' & ph & Hk & He & He' & _ & ->). unfold weight. cbn [c_executions concat].
  apply lookup_lt_Some in He'. rewrite app_nil_r, seg_length by lia. done.
Qed.

Lemma tiled_weight tasks : tiled tasks -> (total_weight tasks + length tasks = 2 * length cache)%nat.
Proof.
  intros (segs & Ht & Hf). pose proof (tiling_concat cache _ _ _ Ht) as Hc. unfold seg at 2 in Hc.
  rewrite drop_0, Nat.sub_0_r, firstn_all in Hc. rewrite <-Hc at 1. clear Hc Ht.
  induction Hf as [|[i k] c segs l Hs Hf IH]; [done|]. rewrite total_cons.
  rewrite (segment_weight _ _ _ Hs). cbn [fmap list_fmap concat]. rewrite length_app.
  destruct Hs as (? & ? & ? & ? & ? & Hl & _). apply lookup_lt_Some in Hl.
  rewrite seg_length by lia. clear Hl.
  cbn [length]. match goal with IH : (_ = 2 * ?a)%nat |- (_ = 2 * (_ + ?b))%nat => change b with a end. lia.
Qed.

(** One task leaves the pool. *)
Definition leaving (d : Divide R) (c : Cached R) (rest tasks skipped : list (Cached R)) : Prop :=
  tiled tasks /\ c :: rest ++ (result_pq d).*1 ++ skipped ≡ₚ tasks /\
  num_proofs d = Z.of_nat (S (length rest)) + Z.of_nat (length (result_pq d)) /\
  Forall (fun x => answered x.1 x.2) (result_pq d) /\
  (skip_await_proof (proving args) = false -> skipped = []).

Lemma divide_leaving d j c rest :
  divide_inv d -> take_at j (outstanding d) = Some (c, rest) ->
  total_weight (outstanding d) = (weight c + total_weight rest)%nat /\
  exists tasks skipped, leaving d c rest tasks skipped.
Proof.
  intros (tasks & skipped & Ht & Hp & Hn & Ha & Hsk) [Hperm _]%take_at_Some.
  rewrite ((total_Permutation weight) _ _ Hperm). split; [done|]. exists tasks, skipped.
  rewrite Hperm in Hp. apply Permutation_length in Hperm. rewrite Hperm in Hn. done.
Qed.

Lemma divide_push d c rest tasks skipped r :
  leaving d c rest tasks skipped -> answered c r ->
  divide_inv {| num_proofs := num_proofs d; outstanding := rest; result_pq := result_pq d ++ [(c, r)] |}.
Proof.
  intros (Ht & Hp & Hn & Ha & Hsk) Hr. exists tasks, skipped. cbn [outstanding result_pq num_proofs].
  split_and!; [done| | |by apply Forall_app; repeat constructor|done].
  - rewrite <-Hp, fmap_app, <-(assoc_L (++)). cbn. by rewrite <-!Permutation_middle.
  - rewrite length_app. cbn. lia.
Qed.

Lemma divide_skip d c rest tasks skipped :
  leaving d c rest tasks skipped -> skip_await_proof (proving args) = true ->
  divide_inv {| num_proofs := num_proofs d + 1 - 2; outstanding := rest; result_pq := result_pq d |}.
Proof.
  intros (Ht & Hp & Hn & Ha & Hsk) Hw. exists tasks, (c :: skipped). cbn [outstanding result_pq num_proofs].
  split_and!; [done| |lia|done|congruence]. rewrite <-Hp. by rewrite <-!Permutation_middle.
Qed.

Lemma divide_split d i k c e rest tasks skipped :
  leaving d c rest tasks skipped -> is_segment (i, k) c -> seg cache i k !! 0%nat = Some e ->
  (1 < k)%nat -> tiled tasks ->
  exists lower upper,
    split_task config cache (seg cache i k) (c_args c) (block_number e - 1) (Z.of_nat k)
      = Ok (lower, upper) /\
    divide_inv {| num_proofs := num_proofs d + 1; outstanding := rest ++ [lower; upper];
                  result_pq := result_pq d |} /\
    (total_weight (rest ++ [lower; upper]) < weight c + total_weight rest)%nat.
Proof.
  intros (_ & Hp & Hn & Ha & Hsk) Hs He Hk Ht.
  destruct (tiled_split _ _ tasks c _ Ht (symmetry Hp)) as (i' & k' & Hs' & Hsplit).
  assert (i' = i /\ k' = k) as [-> ->].
  { destruct Hs as (a & a' & ph & Hk0 & Ha0 & Ha' & _ & Hc), Hs' as (b & b' & ph' & Hk0' & Hb & Hb' & _ & Hc').
    rewrite Hc in Hc'. unfold set_request in Hc'. injection Hc' as Hr _ _ Hn' _ _.
    pose proof (trace_number _ _ Hok _ _ Ha') as E1. pose proof (trace_number _ _ Hok _ _ Hb') as E2.
    assert (i' = i); [|split; lia]. symmetry. eapply (NoDup_lookup _ _ _ _ (tr_nodup _ _ Hok));
      rewrite list_lookup_fmap; [by rewrite Ha0|by rewrite Hb; cbn; rewrite Hr]. }
  destruct (split_segment _ _ _ _ Hok i k c e Hs He Hk)
    as (k1 & k2 & lower & upper & Hkk & Hk1 & Hk2 & Hsp & Hsl & Hsu).
  exists lower, upper. split; [done|]. split.
  - destruct (Hsplit k1 k2 lower upper Hkk Hk1 Hk2 Hsl Hsu) as (tasks' & Ht' & Hp').
    exists tasks', skipped. cbn [outstanding result_pq num_proofs].
    split_and!; [done| |rewrite length_app; cbn; lia|done|done].
    rewrite Hp', <-(assoc_L (++)). cbn. by rewrite <-!Permutation_middle.
  - rewrite ((total_Permutation weight) _ (lower :: upper :: rest)) by (by rewrite <-!Permutation_middle, app_nil_r).
    rewrite !total_cons, (segment_weight _ _ _ Hsl), (segment_weight _ _ _ Hsu),
      (segment_weight _ _ _ Hs). lia.
Qed.

(** What the scheduler reads off a failed task. *)
Lemma segment_facts i k (c : Cached R) :
  is_segment (i, k) c ->
  exists e, seg cache i k !! 0%nat = Some e /\ c_executions c = [seg cache i k] /\
    u64_sub host (block_number e) 1 = Ok (block_number e - 1) /\
    u64_sub host (claimed_block c) (block_number e - 1) = Ok (Z.of_nat k) /\
    c_force_attempt c = bool_decide (k = 1%nat) /\ c_seek_proof c = true /\
    a_l1_head (c_args c) = 0 /\ proving (c_args c) = proving args /\ (0 < k)%nat.
Proof.
  intros (e & e' & ph & Hk & He & He' & _ & ->).
  pose proof (trace_number _ _ Hok _ _ He) as Hb. pose proof (trace_number _ _ Hok _ _ He') as Hb'.
  pose proof (tr_range _ _ Hok) as [Hn0 Hrg]. pose proof (lookup_lt_Some _ _ _ He') as Hi'.
  exists e. unfold claimed_block, u64_sub. cbn.
  split_and!; [by rewrite seg_lookup, Nat.add_0_r by lia|done| | |done..].
  - apply arith_fits. unfold in_width. lia.
  - rewrite arith_fits by (unfold in_width; lia). f_equal. lia.
Qed.

Lemma divide_result_ok d j c rest result :
  divide_inv d -> take_at j (outstanding d) = Some (c, rest) ->
  match result with inl r => answered c r | inr e => refused c e end ->
  match divide_result config cache d c rest result with
  | Done d' => divide_inv d' /\
      (total_weight (outstanding d') < total_weight (outstanding d))%nat
  | Failed e => refused c e /\ match e with ExecutionError _ | OtherError _ => True | _ => False end
  | Crashed _ => False
  end.
Proof.
  intros Hi Ht Hr. destruct (divide_leaving _ _ _ _ Hi Ht) as (-> & tasks & skipped & Hl).
  pose proof Hl as (Htl & Hp & _).
  destruct (tiled_split _ _ tasks c _ Htl (symmetry Hp)) as (i & k & Hs & _).
  destruct (segment_facts i k c Hs) as (e & He & Hex & Hsub & Hnum & Hfo & Hse & Hl1 & Hpr & Hk).
  rewrite (segment_weight _ _ _ Hs). unfold divide_result. destruct result as [r|err].
  { split; [by eapply divide_push|cbn [outstanding]; lia]. }
  rewrite Hex, (index_Some [seg cache i k] 0 (seg cache i k) eq_refl).
  cbn [no_err map_err mbind attempt_bind]. rewrite (index_Some _ _ _ He).
  cbn [no_err map_err mbind attempt_bind]. rewrite Hsub. cbn [no_err map_err mbind attempt_bind].
  rewrite Hnum. cbn [no_err map_err mbind attempt_bind].
  assert (Hwait : err = NotAwaitingProof -> divide_inv {| num_proofs := num_proofs d + 1 - 2;
    outstanding := rest; result_pq := result_pq d |}).
  { intros ->. apply (rf_waiting _ _ Href) in Hr. rewrite Hpr in Hr. by eapply divide_skip. }
  assert (Hdiv : (1 < k)%nat -> _) by exact (fun Hk2 => divide_split _ _ _ _ _ _ _ _ Hl Hs He Hk2 Htl).
  rewrite (segment_weight _ _ _ Hs) in Hdiv.
  destruct err as [n|s t| |n l t|s l t|m|m].
  - by apply (rf_derivation _ _ Href) in Hr.
  - apply (rf_seek _ _ Href) in Hr. congruence.
  - split; [auto|cbn [outstanding]; lia].
  - apply (rf_count _ _ Href) in Hr as [_ Hc]. rewrite Hpr in Hc. by apply Hc in Hl1.
  - destruct (Z.eqb_spec (Z.of_nat k) 1).
    + apply (rf_size _ _ Href) in Hr. rewrite Hfo in Hr. bools. lia.
    + destruct Hdiv as (lower & upper & -> & Hd & Hw); [lia|done].
  - destruct (Z.eqb_spec (Z.of_nat k) 1); [done|].
    destruct Hdiv as (lower & upper & -> & Hd & Hw); [lia|done].
  - done.
Qed.

Lemma outstanding_weight d :
  divide_inv d -> outstanding d <> [] -> (0 < total_weight (outstanding d))%nat.
Proof.
  intros Hd Hne. destruct (outstanding d) as [|c rest] eqn:Eo; [done|].
  assert (Htake : take_at 0 (outstanding d) = Some (c, rest)) by (rewrite Eo; unfold take_at; cbn; by rewrite drop_0).
  destruct (divide_leaving _ _ _ _ Hd Htake) as (Htw & tasks & sk & Htl & Hp & _). rewrite Eo in Htw.
  destruct (tiled_split _ _ tasks c _ Htl (symmetry Hp)) as (i' & k & Hs & _).
  destruct (segment_facts i' k c Hs) as (? & ? & ? & ? & ? & ? & ? & ? & ? & Hk).
  rewrite (segment_weight _ _ _ Hs) in Htw. lia.
Qed.

Lemma divide_loop_ok fuel d x :
  I x -> divide_inv d -> (total_weight (outstanding d) ≤ fuel)%nat ->
  let '(o, x') := divide_loop fuel config cache d x in I x' /\
  match o with
  | Done d' => divide_inv d' /\ outstanding d' = []
  | Failed e => (exists c, refused c e) /\ match e with ExecutionError _ | OtherError _ => True | _ => False end
  | Crashed w => w = "no result ever arrives" /\ exists c, crashes c
  end.
Proof.
  revert d x. induction fuel as [|fuel IH]; intros d x Hx Hd Hw; cbn [divide_loop];
    destruct (Z.ltb_spec (Z.of_nat (length (result_pq d))) (num_proofs d)) as [Hlt|Hge];
    try (split; [done|]; split; [done|]; destruct Hd as (_ & _ & _ & _ & Hn & _);
      destruct (outstanding d); [done|cbn in Hn; lia]);
    (assert (Hne : outstanding d <> []) by
      (intros E; destruct Hd as (_ & _ & _ & _ & Hn & _); rewrite E in Hn; cbn in Hn; lia)).
  { pose proof (outstanding_weight d Hd Hne). lia. }
  pose proof (po_next _ _ _ _ Hpool (outstanding d) x Hx Hne) as Hnext.
  destruct (next_result (outstanding d) x) as [[[i result]|] x'];
    [|destruct Hnext as (? & c & _ & ?); split; [done|]; by eauto].
  destruct Hnext as (Hx' & c & Hc & Hr).
  assert (Htake : take_at i (outstanding d) = Some (c, take i (outstanding d) ++ drop (S i) (outstanding d)))
    by (unfold take_at; by rewrite Hc).
  pose proof (divide_result_ok _ _ _ _ _ Hd Htake Hr) as Hres. rewrite Htake.
  destruct (divide_result _ _ _ _ _ _) as [d'|e|w]; [|destruct Hres; eauto|done].
  apply IH; [done|apply Hres|lia].
Qed.

Lemma start_inv jobs : tiled jobs ->
  divide_inv {| num_proofs := Z.of_nat (length jobs); outstanding := jobs; result_pq := [] |}.
Proof.
  intros Ht. exists jobs, []. cbn [outstanding result_pq num_proofs].
  split_and!; [done|by rewrite app_nil_r|cbn; lia|constructor|done].
Qed.

(** The proofs come out in block order. *)
Lemma tiled_sorted i segs j tasks :
  tiling i segs j -> Forall2 is_segment segs tasks ->
  StronglySorted (fun x y : Cached R => claimed_block x < claimed_block y) tasks /\
  Forall (fun c => n0 + Z.of_nat i <= claimed_block c) tasks.
Proof.
  intros Ht Hf. revert i Ht. induction Hf as [|[i' k] c segs tasks Hs Hf IH]; intros i Ht; [by split; constructor|].
  cbn in Ht. destruct Ht as (-> & Hk & Ht). destruct (IH _ Ht) as [Hss Hlo].
  assert (Hcb : claimed_block c = n0 + Z.of_nat (i + (k - 1))).
  { destruct Hs as (e & e' & ph & _ & _ & He' & _ & ->). apply (trace_number _ _ Hok _ _ He'). }
  split; constructor; [done| |lia|].
  - apply (Forall_impl _ _ _ Hlo). intros c'. lia.
  - apply (Forall_impl _ _ _ Hlo). intros c'. lia.
Qed.

Lemma sorted_parts (pq : list (Cached R * R)) tasks :
  tiled tasks -> pq.*1 ≡ₚ tasks -> Forall (fun x => answered x.1 x.2) pq ->
  (into_sorted_vec pq).*1 = tasks /\ Forall (fun x => answered x.1 x.2) (into_sorted_vec pq).
Proof.
  intros (segs & Ht & Hf) Hp Ha. destruct (tiled_sorted _ _ _ _ Ht Hf) as [Hss _].
  destruct (Permutation_map_inv fst pq (symmetry Hp)) as (pq' & -> & Hp').
  assert (pq' = into_sorted_vec pq) as <-.
  { apply (sorted_by_key_unique (fun x => claimed_block x.1)).
    - unfold into_sorted_vec. by rewrite merge_sort_Permutation.
    - clear -Hss. induction pq' as [|x l IH]; [constructor|]. cbn in Hss.
      apply StronglySorted_inv in Hss as [? Hx]. constructor; [auto|]. exact (proj1 (Forall_fmap fst _ l) Hx).
    - apply StronglySorted_merge_sort.
      + intros x y z. unfold by_claimed_block. lia.
      + intros x y. unfold by_claimed_block. lia. }
  split; [done|]. by rewrite <-Hp'.
Qed.

(** An execution proof of one part of the trace. *)
Definition part_proved (trace : list Execution) (proof : R) : Prop :=
  exists task i k, is_segment (i, k) task /\ trace = seg cache i k /\ answered task proof.

Lemma parts_proved tasks (parts : list (Cached R * R)) :
  tiled tasks -> parts.*1 = tasks -> Forall (fun x => answered x.1 x.2) parts ->
  exists executions proofs,
    omap_m pop_executions parts = Ok (zip proofs executions) /\
    length proofs = length executions /\
    concat executions = cache /\ Forall2 part_proved executions proofs.
Proof.
  intros (segs & Ht & Hf) <- Ha. pose proof (tiling_concat cache _ _ _ Ht) as Hcat.
  exists ((fun '(i, k) => seg cache i k) <$> segs), (parts.*2). clear Ht.
  split_and!; cycle 2.
  - rewrite Hcat. unfold seg. by rewrite drop_0, Nat.sub_0_r, firstn_all.
  - clear Hcat. revert Hf. generalize dependent segs. induction Ha as [|[c r] l Hc _ IH]; intros segs Hf; cbn in *.
    + apply Forall2_nil_inv_r in Hf as ->. constructor.
    + apply Forall2_cons_inv_r in Hf as ([i k] & segs' & Hs & Hf & ->). cbn. constructor; [|auto].
      by exists c, i, k.
  - clear -Hf. revert segs Hf. induction parts as [|[c r] l IH]; intros segs Hf; cbn in *.
    + by apply Forall2_nil_inv_r in Hf as ->.
    + apply Forall2_cons_inv_r in Hf as ([i k] & segs' & Hs & Hf & ->).
      destruct Hs as (e & e' & ph & _ & _ & _ & _ & ->). cbn. by rewrite (IH _ Hf).
  - apply Forall2_length in Hf. rewrite !length_fmap in *. lia.
Qed.
(** C33. Dividing what cannot be proved ends. Assume a recorded trace ([trace_ok]: consecutive
    blocks, each starting at the output root where the previous one ends, no root twice, and
    encodable), a limit on block executions that is not negative, as its type has it, a pool whose
    tasks end as tasks do ([pool_ok], [refusals]), and tasks that tile the trace, as those of the first
    division do. Then, whatever order the results arrive in, and however often tasks fail for their
    size or in execution, the loop stops after at most two results for each execution of the trace less one
    for each task it starts with, hence after at most [2 * length cache - 1] results. It waits
    for ever only for a task whose worker panics, it never waits when no task is in the pool, and none of
    the cases it declares unreachable occurs. When it has all its proofs, and none was skipped, they are
    proofs of consecutive parts of the trace that make up the whole of it, sorted in block order. *)
Theorem divide_loop_terminates jobs fuel x :
  I x -> tiled jobs -> (2 * length cache ≤ fuel + length jobs)%nat ->
  let '(o, x') := divide_loop fuel config cache
    {| num_proofs := Z.of_nat (length jobs); outstanding := jobs; result_pq := [] |} x in
  I x' /\
  match o with
  | Done d => outstanding d = [] /\
      (skip_await_proof (proving args) = false ->
       tiled (into_sorted_vec (result_pq d)).*1 /\
       Forall (fun x => answered x.1 x.2) (into_sorted_vec (result_pq d)))
  | Failed e => (exists c, refused c e) /\ match e with ExecutionError _ | OtherError _ => True | _ => False end
  | Crashed w => w = "no result ever arrives" /\ exists c, crashes c
  end.
Proof.
  intros Hx Ht Hfuel. pose proof (start_inv jobs Ht) as Hinv.
  assert (Hw : (total_weight jobs ≤ fuel)%nat) by (pose proof (tiled_weight jobs Ht); lia).
  pose proof (divide_loop_ok _ _ x Hx Hinv Hw) as Hd.
  destruct (divide_loop _ _ _ _ x) as [[d|e|w] x']; destruct Hd as [Hx' Hd]; [|done..].
  destruct Hd as [(tasks & sk & Htl & Hp & Hn & Ha & Hsk) Hout]. do 2 (split; [done|]).
  intros Haw. rewrite Hout, (Hsk Haw), app_nil_r in Hp. cbn [app] in Hp.
  destruct (sorted_parts _ _ Htl Hp Ha) as [-> ?]. done.
Qed.
End scheduler.

(** Popping the one trace of every execution task never fails. *)
Lemma popped {R} `{Digests} `{Rlp} args config cache n0 tasks skipped (pq : list (Cached R * R)) :
  trace_ok cache n0 -> tiled_by (is_segment args config cache) (length cache) tasks -> pq.*1 ++ skipped ≡ₚ tasks ->
  exists parts, omap_m pop_executions (into_sorted_vec pq) = Ok parts.
Proof.
  intros Hok (segs & _ & Hf) Hp.
  assert (Hone : forall x, x ∈ into_sorted_vec pq -> exists tr, c_executions x.1 = [tr]).
  { intros x Hx. unfold into_sorted_vec in Hx. rewrite merge_sort_Permutation in Hx.
    assert (Hin : x.1 ∈ tasks) by (rewrite <-Hp; apply elem_of_app; left; by apply list_elem_of_fmap_2).
    apply list_elem_of_lookup in Hin as [j Hj].
    destruct (Forall2_lookup_r _ _ _ _ _ Hf Hj) as ([i k] & _ & e & e' & ph & _ & _ & _ & _ & ->). eauto. }
  induction (into_sorted_vec pq) as [|[c r] l IH]; [by exists []|].
  destruct IH as [parts Hparts]; [intros x Hx; apply Hone; by right|].
  destruct (Hone (c, r)) as [tr Htr]; [by left|]. cbn in Htr.
  exists ((r, tr) :: parts). cbn. rewrite Htr. cbn. by rewrite Hparts.
Qed.

(** ** [compute_fpvm_proof] *)

Section fpvm.
Context {X R : Type} `{Digests} `{Rlp} `{Pool X R}.
Variables (args : ProveArgs) (config : RollupConfig) (ph data_hash : Z)
  (boots : list StitchedBootInfo) (proofs : list R) (prove_snark : bool).
Variables (I : X -> Prop) (answered : Cached R -> R -> Prop)
  (refused : Cached R -> ProvingError -> Prop) (crashes : Cached R -> Prop).
Hypothesis (Hpool : pool_ok I answered refused crashes) (Href : refusals answered refused).

(** A trace that starts at the request's agreed output root. *)
Definition good_trace (cache : list Execution) : Prop :=
  cache <> [] /\ (exists n0, trace_ok cache n0) /\ fresh_claim args cache /\
  a_agreed_l2_output_root args = default 0 (agreed_output <$> head cache).

(** The task that stitches execution proofs of all parts of a trace. *)
Definition stitches (cache : list Execution) (c : Cached R) : Prop :=
  exists executions new_proofs, concat executions = cache /\
    Forall2 (part_proved args config cache answered) executions new_proofs /\
    c = whole_task args config ph data_hash executions boots (proofs ++ new_proofs) prove_snark true true.

(** The error of some task of the request. *)
Definition task_error (e : ProvingError) : Prop :=
  match e with
  | ExecutionError _ | OtherError _ | WitnessSizeError _ _ _ => True
  | NotAwaitingProof => skip_await_proof (proving args) = true
  | DerivationProofError _ => skip_derivation_proof (proving args) = true
  | BlockCountError _ _ _ | NotSeekingProof _ _ => False
  end.

Lemma forced_error c e :
  refused c e -> c_force_attempt c = true -> c_seek_proof c = true -> c_args c = args -> task_error e.
Proof.
  intros Hr Hf Hs Ha. destruct e; cbn; try done.
  - by apply (rf_derivation _ _ Href) in Hr.
  - apply (rf_seek _ _ Href) in Hr. congruence.
  - apply (rf_waiting _ _ Href) in Hr. congruence.
  - apply (rf_count _ _ Href) in Hr as [? _]. congruence.
Qed.

(** The first task of a request, and the one that only derives. *)
Definition complete_task : Cached R :=
  whole_task args config ph data_hash [] boots proofs prove_snark
    (a_agreed_l2_output_root args =? a_claimed_l2_output_root args)
    (negb (skip_derivation_proof (proving args))).
Definition derivation_task (trace : list (list Execution)) : Cached R :=
  whole_task args config ph data_hash trace boots proofs false false false.

Definition bubbled (e : ProvingError) : Prop :=
  exists t n l t', refused (derivation_task t) e /\ e = BlockCountError n l t'.

(** How a request may end, when a proof belongs to a task in [P]. *)
Definition ends_with (P : Cached R -> Prop) (o : attempt (option R)) : Prop :=
  match o with
  | Done r => exists c p, r = Some p /\ answered c p /\ P c
  | Failed e => task_error e \/ bubbled e
  | Crashed _ => exists c, crashes c
  end.

Lemma prove_executions_ok cache x :
  I x -> good_trace cache -> 0 < max_block_executions (proving args) ->
  let '(o, x') := prove_executions args config ph data_hash boots proofs prove_snark cache x in
  I x' /\ ends_with (stitches cache) o.
Proof.
  intros Hx (Hne & [n0 Hok] & Hfr & Hroot) Hmax.
  destruct (all_execution_jobs_Ok (R := R) args config cache n0 Hok Hfr Hne Hmax Hroot)
    as (jobs & segs & Hj & Ht & Hf & _).
  unfold prove_executions. rewrite Hj. unfold mbind at 1, Pr_bind. cbn [no_err map_err lift_at].
  pose proof (start_inv args config cache answered jobs (ex_intro _ segs (conj Ht Hf))) as Hinv.
  pose proof (tiled_weight args config cache jobs (ex_intro _ segs (conj Ht Hf))) as Hw.
  pose proof (divide_loop_ok args config cache n0 I answered refused crashes Hok Hpool Href
    ltac:(lia) (2 * length cache) _ x Hx Hinv ltac:(cbn [outstanding]; lia)) as Hd.
  unfold mbind at 1, Pr_bind. destruct (divide_loop _ _ _ _ x) as [[d|e|w] x'];
    destruct Hd as [Hx' Hd]; [|split; [done|]; left; destruct Hd as [_ Hd]; by destruct e|by destruct Hd].
  destruct Hd as [(tasks & sk & Htl & Hp & Hn & Ha & Hsk) Hout]. rewrite Hout in Hp. cbn [app] in Hp.
  destruct (popped args config cache n0 tasks sk (result_pq d) Hok Htl Hp) as [parts Hparts].
  unfold mbind at 1, Pr_bind. rewrite Hparts. cbn [no_err map_err lift_at].
  destruct (skip_await_proof (proving args)) eqn:Haw; [split; [done|by left]|].
  destruct (skip_derivation_proof (proving args)) eqn:Hder; [split; [done|by left]|].
  rewrite (Hsk eq_refl), app_nil_r in Hp.
  destruct (sorted_parts args config cache n0 answered Hok _ _ Htl Hp Ha) as [Hs1 Hs2].
  destruct (parts_proved args config cache answered _ _ Htl Hs1 Hs2)
    as (executions & new_proofs & Hom & Hlen & Hcat & Hpp).
  rewrite Hparts in Hom. apply Ok_inj in Hom as ->.
  rewrite fst_zip, snd_zip by lia. unfold fmap, Pr_fmap.
  pose proof (po_oneshot _ _ _ _ Hpool (whole_task args config ph data_hash executions boots
    (proofs ++ new_proofs) prove_snark true true) x' Hx') as Ho.
  destruct (oneshot _ x') as [[r|e|w] x'']; destruct Ho as [Hx'' Ho]; (split; [done|]).
  - eexists _, r. split_and!; [done|done|by exists executions, new_proofs].
  - left. by eapply forced_error.
  - by eexists.
Qed.

(** The trace that a task collected when it ended with an error. *)
Definition collected (e : ProvingError) : option (list (list Execution)) :=
  match e with
  | BlockCountError _ _ t | WitnessSizeError _ _ t | NotSeekingProof _ t => Some t
  | _ => None
  end.
(** The first task collected nothing, and its executions are to be proved. *)
Definition nothing_collected : Prop :=
  0 < max_block_executions (proving args) /\
  exists e t, refused complete_task e /\ collected e = Some t /\ concat t = [].
(** The same, except that a panic may also be that of computing the index of the
    first claim, the least of the limit and the number of executions, less one. *)
Definition ends_unless_empty (P : Cached R -> Prop) (o : attempt (option R)) : Prop :=
  match o with
  | Crashed w => (exists c, crashes c) \/ w = "arithmetic overflow" /\ nothing_collected
  | o => ends_with P o
  end.

(** No part of an empty trace can be claimed: the subtraction underflows. *)
Lemma empty_trace_panics x :
  0 <= max_block_executions (proving args) ->
  prove_executions args config ph data_hash boots proofs prove_snark [] x = (Crashed "arithmetic overflow", x).
Proof.
  intros Hm. unfold prove_executions, all_execution_jobs. cbn [length].
  rewrite Z.min_r by lia. reflexivity.
Qed.

(** The traces that the first task collects, unless they are empty. *)
Hypothesis Htraces : forall e t, refused complete_task e -> collected e = Some t ->
  concat t = [] \/ good_trace (concat t).
Hypothesis Hmax : 0 <= max_block_executions (proving args).

Lemma prove_executions_any cache x :
  I x -> cache = [] \/ good_trace cache -> 0 < max_block_executions (proving args) ->
  let '(o, x') := prove_executions args config ph data_hash boots proofs prove_snark cache x in
  I x' /\ match o with
    | Crashed w => (exists c, crashes c) \/ w = "arithmetic overflow" /\ cache = []
    | o => ends_with (stitches cache) o end.
Proof.
  intros Hx [->|Hg] Hm.
  - rewrite empty_trace_panics by lia. split; [done|]. by right.
  - pose proof (prove_executions_ok cache x Hx Hg Hm) as Hp.
    destruct (prove_executions _ _ _ _ _ _ _ _ _) as [[r|e|w] x']; destruct Hp; (split; [done|]); [done..|by left].
Qed.

Lemma prove_in_parts_any trace x :
  I x -> concat trace = [] \/ good_trace (concat trace) ->
  let '(o, x') := prove_in_parts args config ph data_hash boots proofs prove_snark trace x in
  I x' /\ match o with
    | Crashed w => (exists c, crashes c) \/ w = "arithmetic overflow" /\ concat trace = [] /\
        0 < max_block_executions (proving args)
    | o => ends_with (stitches (concat trace)) o end.
Proof.
  intros Hx Hg. unfold prove_in_parts, split_executions. fold (derivation_task trace).
  destruct (Z.eqb_spec (max_block_executions (proving args)) 0) as [_|Hnz]; [split; [done|by left]|].
  assert (Hparts : forall x, I x -> let '(o, x') :=
    prove_executions args config ph data_hash boots proofs prove_snark (concat trace) x in
    I x' /\ match o with
    | Crashed w => (exists c, crashes c) \/ w = "arithmetic overflow" /\ concat trace = [] /\
        0 < max_block_executions (proving args)
    | o => ends_with (stitches (concat trace)) o end).
  { intros y Hy. pose proof (prove_executions_any (concat trace) y Hy Hg ltac:(lia)) as Hp.
    destruct (prove_executions _ _ _ _ _ _ _ _ _) as [[r|e|w] x']; destruct Hp as [? Hp]; (split; [done|]); [done..|].
    destruct Hp as [?|[? ?]]; [by left|right; split_and!; [done..|lia]]. }
  destruct (skip_derivation_proof (proving args)); [by apply Hparts|].
  pose proof (po_oneshot _ _ _ _ Hpool (derivation_task trace) x Hx) as Ho.
  unfold mbind, Pr_bind, caught.
  destruct (oneshot (derivation_task trace) x) as [[r|e|w] x']; destruct Ho as [Hx' Ho].
  - by apply (rf_answered _ _ Href) in Ho.
  - destruct e as [n|n t| |n l t|n l t|m|m]; unfold lift_at; try (split; [done|]; by left).
    + by apply (rf_derivation _ _ Href) in Ho.
    + by apply Hparts.
    + split; [done|]. left. by apply (rf_waiting _ _ Href) in Ho.
    + split; [done|]. right. by exists trace, n, l, t.
  - split; [done|]. left. by eexists.
Qed.

(** The whole request, by the tasks it consists of. *)
Lemma compute_fpvm_proof_any x :
  I x ->
  let '(o, x') := compute_fpvm_proof args config ph data_hash boots proofs prove_snark x in
  I x' /\ ends_unless_empty (fun c => c = complete_task \/ exists trace, stitches trace c) o.
Proof.
  intros Hx. unfold compute_fpvm_proof. fold complete_task.
  pose proof (po_oneshot _ _ _ _ Hpool complete_task x Hx) as Ho.
  unfold mbind at 1, Pr_bind, caught at 1.
  destruct (oneshot complete_task x) as [[r|e|w] x']; destruct Ho as [Hx' Ho];
    [split; [done|]; exists complete_task, r; by auto| |split; [done|]; left; by eexists].
  pose proof (fun t => Htraces e t Ho) as Ht.
  destruct e as [n|n t| |n l t|n l t|m|m]; unfold lift_at; try (split; [done|]; by left);
    try by apply (rf_derivation _ _ Href) in Ho.
  2: split; [done|]; left; by apply (rf_waiting _ _ Href) in Ho.
  all: pose proof (prove_in_parts_any t x' Hx' (Ht t eq_refl)) as Hp;
    destruct (prove_in_parts _ _ _ _ _ _ _ _ _) as [o x'']; destruct Hp as [Hx'' Hp]; (split; [done|]);
    (destruct o; cbn in *; [naive_solver|naive_solver|]);
    (destruct Hp as [?|(? & ? & ?)]; [by left|right]; split; [done|]; split; [done|]; by eauto).
Qed.

(** C12. What [compute_fpvm_proof] delivers. Assume a pool whose tasks end as tasks do, in any order
    ([pool_ok], [refusals]), a limit on block executions that is not negative, as its type has it, and
    that a trace which the first task collects, unless it is empty, belongs to the request ([good_trace]): it
    starts at the agreed output root, its blocks are consecutive, each starts where the previous one
    ends, no output root occurs twice, the claimed one is not among the starting ones, and the executions
    can be encoded. Then the request never waits for a result that cannot arrive, never runs out of
    rounds, and reaches no case that the code declares unreachable. It panics only if a worker
    does, or, because the index of the first claim underflows, if the first task collected no
    execution and execution proofs are enabled. A proof it returns answers either the complete task or
    a task that stitches, in block order, execution proofs of consecutive parts that make up exactly the
    collected trace; an error it returns is one of a task (a block count error only if the
    derivation-only task reports it), and the two skipping errors occur only when the arguments
    ask for them. *)
Theorem compute_fpvm_proof_sound x :
  I x ->
  let '(o, x') := compute_fpvm_proof args config ph data_hash boots proofs prove_snark x in
  I x' /\ ends_unless_empty (fun c => c = complete_task \/ exists trace, stitches trace c) o.
Proof. apply compute_fpvm_proof_any. Qed.
End fpvm.

(** The same for traces that are not empty. *)
Lemma compute_fpvm_proof_ends {X R} `{Digests} `{Rlp} `{Pool X R} args config ph data_hash boots
    (proofs : list R) (prove_snark : bool) I answered refused crashes :
  pool_ok I answered refused crashes -> refusals answered refused ->
  (forall e, refused (complete_task args config ph data_hash boots proofs prove_snark) e ->
    match e with
    | BlockCountError _ _ t | WitnessSizeError _ _ t | NotSeekingProof _ t => good_trace args (concat t)
    | _ => True
    end) ->
  0 <= max_block_executions (proving args) -> forall x, I x ->
  let '(o, x') := compute_fpvm_proof args config ph data_hash boots proofs prove_snark x in
  I x' /\ ends_with args config ph data_hash boots proofs answered refused crashes
    (fun c => c = complete_task args config ph data_hash boots proofs prove_snark \/
       exists trace, stitches args config ph data_hash boots proofs prove_snark answered trace c) o.
Proof.
  intros Hpool Href Ht Hm x Hx.
  assert (Hgood : forall e t, refused (complete_task args config ph data_hash boots proofs prove_snark) e ->
    collected e = Some t -> good_trace args (concat t))
    by (intros e t He Hc; specialize (Ht e He); destruct e; cbn in Hc; by simplify_eq).
  pose proof (compute_fpvm_proof_any args config ph data_hash boots proofs prove_snark I answered refused crashes
    Hpool Href ltac:(intros e t He Hc; right; by eapply Hgood) Hm x Hx) as He.
  destruct (compute_fpvm_proof _ _ _ _ _ _ _ x) as [[r|e|w] x']; destruct He as [? He]; (split; [done|]); [done..|].
  destruct He as [?|(_ & _ & e & t & He & Hc & Hn)]; [done|]. by destruct (Hgood e t He Hc).
Qed.

(** ** A concrete pool *)

Definition demo_cache : list Execution := demo_execution <$> [4; 5; 6; 7].
Definition demo_proving_args : ProvingArgs := {|
  payout_recipient_arg := Some 66; segment_limit := 21; max_block_derivations := 4;
  max_block_executions := 3; max_witness_size := 100; num_concurrent_preflights := 3;
  skip_derivation_proof := false; skip_await_proof := false; hokulea_is_set := false;
  hana_is_set := false |}.
Definition demo_args : ProveArgs := {|
  a_l1_head := 9; a_agreed_l2_output_root := 2004; a_agreed_l2_head_hash := 1004;
  a_claimed_l2_output_root := 2008; a_claimed_l2_block_number := 8; is_offline := false;
  enable_experimental_witness_endpoint := false; op_node_address := true;
  proving := demo_proving_args |}.

(** Nothing that derives or holds more than one block fits, unless forced; the
    last task in the pool completes first.  A proof is its claimed block. *)
Definition demo_result_of (c : Cached Z) : Z + ProvingError :=
  if c_force_attempt c && c_seek_proof c then inl (claimed_block c)
  else if c_seek_proof c then inr (WitnessSizeError 120 100 [demo_cache])
  else inr (NotSeekingProof 50 []).
Definition demo_pool : Pool nat Z := {|
  oneshot := fun c x => (match demo_result_of c with inl r => Done r | inr e => Failed e end, S x);
  next_result := fun l x =>
    let i := (length l - 1)%nat in
    match l !! i with Some c => (Some (i, demo_result_of c), S x) | None => (None, x) end |}.
Definition demo_answered (c : Cached Z) (r : Z) : Prop := demo_result_of c = inl r.
Definition demo_refused (c : Cached Z) (e : ProvingError) : Prop := demo_result_of c = inr e.

Lemma demo_pool_ok :
  @pool_ok nat Z demo_pool (fun _ => True) demo_answered demo_refused (fun _ => False).
Proof.
  split.
  - intros c x _. cbn. unfold demo_answered, demo_refused. by destruct (demo_result_of c).
  - intros l x _ Hl. cbn.
    destruct (lookup_lt_is_Some_2 l (length l - 1)%nat) as [c Hc]; [destruct l; [done|cbn; lia]|].
    rewrite Hc. split; [done|]. exists c. split; [done|]. unfold demo_answered, demo_refused.
    by destruct (demo_result_of c).
Qed.

Lemma demo_refusals : refusals demo_answered demo_refused.
Proof.
  split; unfold demo_answered, demo_refused, demo_result_of; intros c;
    destruct (c_force_attempt c), (c_seek_proof c); cbn; naive_solver.
Qed.

Lemma demo_trace_ok : @trace_ok demo_digests demo_rlp demo_cache 5.
Proof.
  split.
  - cbn. repeat split; lia.
  - cbn. lia.
  - intros i e e' Hi Hs. do 4 (destruct i as [|i]; [cbn in *; by simplify_eq|]). done.
  - cbn. repeat constructor; set_solver.
  - do 4 (constructor; [eexists; vm_compute; reflexivity|]). constructor.
Qed.

Lemma demo_fresh : fresh_claim demo_args demo_cache.
Proof. unfold fresh_claim. cbn. set_solver. Qed.

Lemma execution_jobs_tile_witness :
  exists (jobs : list (Cached Z)) segs,
    @all_execution_jobs Z demo_digests demo_rlp demo_args demo_config demo_cache = Ok jobs /\
    tiling 0 segs 4 /\
    Forall2 (@is_segment Z demo_digests demo_rlp demo_args demo_config demo_cache) segs jobs /\
    Forall (limited demo_args) segs /\ concat (concat (c_executions <$> jobs)) = demo_cache.
Proof.
  apply (@execution_jobs_tile Z demo_digests demo_rlp demo_args demo_config demo_cache 5
    demo_trace_ok demo_fresh); [discriminate|cbn; lia|reflexivity].
Defined.

Lemma divide_loop_terminates_witness :
  exists jobs, length jobs = 2%nat /\
  let '(o, x') := @divide_loop nat Z demo_digests demo_rlp demo_pool 6 demo_config demo_cache
    {| num_proofs := Z.of_nat (length jobs); outstanding := jobs; result_pq := [] |} 0%nat in
  match o with
  | Done d => tiled_by (@is_segment Z demo_digests demo_rlp demo_args demo_config demo_cache) (length demo_cache)
      (into_sorted_vec (result_pq d)).*1
  | _ => exists (c : Cached Z) e, demo_refused c e
  end.
Proof.
  destruct (@all_execution_jobs_Ok Z demo_digests demo_rlp demo_args demo_config demo_cache 5
    demo_trace_ok demo_fresh) as (jobs & segs & Hj & Ht & Hf & _); [discriminate|cbn; lia|reflexivity|].
  assert (Hjobs : tiled_by (@is_segment Z demo_digests demo_rlp demo_args demo_config demo_cache) (length demo_cache) jobs)
    by (exists segs; split; assumption).
  assert (Hm : 0 <= max_block_executions (proving demo_args)) by (cbn; lia).
  assert (Hlen : length jobs = 2%nat).
  { apply (f_equal (fun o : outcome (list (Cached Z)) => match o with Ok l => length l | _ => 0%nat end)) in Hj.
    transitivity (match @all_execution_jobs Z demo_digests demo_rlp demo_args demo_config demo_cache with
      Ok l => length l | _ => 0%nat end); [symmetry; exact Hj|vm_compute; reflexivity]. }
  exists jobs. split; [exact Hlen|].
  pose proof (@divide_loop_terminates nat Z demo_digests demo_rlp demo_pool demo_args demo_config
    demo_cache 5 (fun _ => True) demo_answered demo_refused (fun _ => False)
    demo_trace_ok demo_pool_ok demo_refusals Hm jobs 6%nat 0%nat I Hjobs ltac:(rewrite Hlen; cbn; lia)) as Hd.
  destruct (divide_loop _ _ _ _ _) as [[d|e|w] x'].
  - apply Hd. reflexivity.
  - destruct Hd as [_ [[c He] _]]. by exists c, e.
  - by destruct Hd as (_ & _ & ? & ?).
Defined.

Lemma demo_good_trace : @good_trace demo_digests demo_rlp demo_args demo_cache.
Proof.
  split_and!; [discriminate|exists 5; exact demo_trace_ok|exact demo_fresh|reflexivity].
Qed.

(** The request for four blocks is divided into three and one, then the three
    into one and two, then these two; the proof returned is the stitched one. *)
Lemma compute_fpvm_proof_sound_witness :
  let result := @compute_fpvm_proof nat Z demo_digests demo_rlp demo_pool demo_args demo_config
    0 0 [] [] true 0%nat in
  result = (Done (Some 8), 9%nat) /\
  let '(o, x') := result in True /\
  ends_unless_empty demo_args demo_config 0 0 [] [] true demo_answered demo_refused (fun _ => False)
    (fun c => c = complete_task demo_args demo_config 0 0 [] [] true \/
       exists trace, @stitches Z demo_digests demo_rlp demo_args demo_config 0 0 [] [] true demo_answered trace c) o.
Proof.
  intros result. split; [vm_compute; reflexivity|].
  apply (@compute_fpvm_proof_sound nat Z demo_digests demo_rlp demo_pool demo_args demo_config
    0 0 [] [] true (fun _ => True) demo_answered demo_refused (fun _ => False)
    demo_pool_ok demo_refusals); [|cbn; lia|exact I].
  intros e t He Hc. unfold demo_refused in He. cbn in He. injection He as <-. injection Hc as <-.
  right. exact demo_good_trace.
Defined.
