(* ===== verification/Runs.v ===== *)
(** * Loops without a bound of their own

    The clients of the proving services poll a service and start over when it
    fails, for as long as that takes.  A run of such code is a function of fuel:
    [None] if some loop is not done after that many rounds, and otherwise the
    result and the state, which more fuel does not change ([run_mono]).  Safety
    properties are stated with [ensures], which holds for every amount of fuel;
    that a run ends is stated with [ends]. *)

From S2P Require Import Prelude Bytes Journal Witgen Tasks.
Open Scope Z_scope.

Definition Run (X A : Type) : Type := nat -> X -> option (attempt A * X).

#[export] Instance Run_ret X : MRet (Run X) := fun A a fuel x => Some (Done a, x).
#[export] Instance Run_bind X : MBind (Run X) := fun A B f m fuel x =>
  match m fuel x with
  | Some (Done a, x) => f a fuel x
  | Some (Failed e, x) => Some (Failed e, x)
  | Some (Crashed w, x) => Some (Crashed w, x)
  | None => None
  end.

(** A computation that always comes back. *)
Definition once {X A} (m : Pr X A) : Run X A := fun fuel x => Some (m x).
Definition fail {X A} (e : ProvingError) : Run X A := once (lift_at (Failed e)).
(** A query: its answer and the state after it. *)
Definition ask {X A} (q : X -> A * X) : Run X A := once (fun x => let '(a, x) := q x in (Done a, x)).
(** A [Result] that is inspected instead of propagated. *)
Definition try_run {X A} (m : Run X A) : Run X (A + ProvingError) := fun fuel x =>
  match m fuel x with
  | Some (Done a, x) => Some (Done (inl a), x)
  | Some (Failed e, x) => Some (Done (inr e), x)
  | Some (Crashed w, x) => Some (Crashed w, x)
  | None => None
  end.

(** [loop { .. }]: a round continues ([inl]) or breaks with a value ([inr]). *)
Fixpoint rounds {X S A} (n fuel : nat) (round : S -> Run X (S + A)) (s : S) (x : X)
    : option (attempt A * X) :=
  match n with
  | O => None
  | S n =>
      match round s fuel x with
      | Some (Done (inl s), x) => rounds n fuel round s x
      | Some (Done (inr a), x) => Some (Done a, x)
      | Some (Failed e, x) => Some (Failed e, x)
      | Some (Crashed w, x) => Some (Crashed w, x)
      | None => None
      end
  end.
Definition loop {X S A} (round : S -> Run X (S + A)) (s : S) : Run X A :=
  fun fuel x => rounds fuel fuel round s x.

(** [retry_res!] around a call that may itself go on: it is repeated until it
    succeeds. *)
Definition retry_run {X A} (call : Run X (outcome A)) : Run X A :=
  loop (fun _ : unit =>
    o ← call;
    match o with
    | Ok a => mret (inr a)
    | Err _ => mret (inl tt)
    | Panic w => once (lift_at (Crashed w))
    end) tt.
Definition retry {X A} (call : X -> outcome A * X) : Run X A := retry_run (ask call).

(** [tokio::time::timeout]: a call that may take too long ([None]). *)
Definition timeout {X A} (call : X -> option (outcome A) * X) (x : X) : outcome (outcome A) * X :=
  let '(o, x) := call x in
  (match o with
   | None => Err "deadline has elapsed"
   | Some (Panic w) => Panic w
   | Some o => Ok o
   end, x).
(** [retry_timeout!] repeats a call that takes too long, and [retry_res_timeout!]
    one that fails as well. *)
Definition retry_timeout {X A} (call : X -> option (outcome A) * X) : Run X (outcome A) := retry (timeout call).
Definition retry_res_timeout {X A} (call : X -> option (outcome A) * X) : Run X A :=
  retry_run (retry_timeout call).

(** ** More fuel does not change a result *)

Definition run_mono {X A} (m : Run X A) : Prop :=
  forall n n' x r, (n <= n')%nat -> m n x = Some r -> m n' x = Some r.

Lemma mono_ret {X A} (a : A) : run_mono (mret a : Run X A).
Proof. by intros n n' x r _. Qed.

Lemma mono_once {X A} (m : Pr X A) : run_mono (once m).
Proof. by intros n n' x r _. Qed.

Lemma mono_ask {X A} (q : X -> A * X) : run_mono (ask q).
Proof. apply mono_once. Qed.

Lemma mono_bind {X A B} (m : Run X A) (f : A -> Run X B) :
  run_mono m -> (forall a, run_mono (f a)) -> run_mono (m ≫= f).
Proof.
  intros Hm Hf n n' x r Hn. unfold mbind, Run_bind.
  destruct (m n x) as [[o y]|] eqn:E; [|done]. rewrite (Hm _ _ _ _ Hn E).
  destruct o; [by apply Hf|done..].
Qed.

Lemma mono_try {X A} (m : Run X A) : run_mono m -> run_mono (try_run m).
Proof.
  intros Hm n n' x r Hn. unfold try_run.
  destruct (m n x) as [[o y]|] eqn:E; [|done]. by rewrite (Hm _ _ _ _ Hn E).
Qed.

Lemma rounds_more {X S A} (round : S -> Run X (S + A)) k k' n n' s x r :
  (forall t, run_mono (round t)) -> (k <= k')%nat -> (n <= n')%nat ->
  rounds k n round s x = Some r -> rounds k' n' round s x = Some r.
Proof.
  intros Hr Hk Hn. revert k' s x Hk. induction k as [|k IH]; intros k' s x Hk; [done|].
  destruct k' as [|k']; [lia|]. cbn.
  destruct (round s n x) as [[o y]|] eqn:E; [|done].
  rewrite (Hr _ _ _ _ _ Hn E). destruct o as [[]|?|?]; try done. apply IH. lia.
Qed.

Lemma mono_loop {X S A} (round : S -> Run X (S + A)) s :
  (forall t, run_mono (round t)) -> run_mono (loop round s).
Proof. intros Hr n n' x r Hn. by apply rounds_more. Qed.

Lemma mono_if {X A} (b : bool) (m n : Run X A) : run_mono m -> run_mono n -> run_mono (if b then m else n).
Proof. by destruct b. Qed.

Lemma mono_retry_run {X A} (call : Run X (outcome A)) : run_mono call -> run_mono (retry_run call).
Proof. intros Hc. apply mono_loop. intros ?. apply mono_bind; [done|]. intros []; apply mono_once. Qed.

Lemma mono_retry {X A} (call : X -> outcome A * X) : run_mono (retry call).
Proof. apply mono_retry_run, mono_ask. Qed.

#[export] Hint Resolve mono_ret mono_once mono_ask mono_bind mono_try mono_loop mono_if mono_retry : kailua.

Ltac mono :=
  repeat (cbv beta iota; match goal with
  | |- run_mono (mret _) => apply mono_ret
  | |- run_mono (once _) => apply mono_once
  | |- run_mono (fail _) => apply mono_once
  | |- run_mono (ask _) => apply mono_ask
  | |- run_mono (retry _) => apply mono_retry
  | |- run_mono (try_run _) => apply mono_try
  | |- run_mono (loop _ _) => apply mono_loop; intros ?
  | |- run_mono (_ ≫= _) => apply mono_bind; [|intros ?]
  | |- run_mono (match ?x with _ => _ end) => destruct x
  end).

(** The run ends with this result. *)
Definition ends {X A} (m : Run X A) (x : X) (r : attempt A * X) : Prop := exists fuel, m fuel x = Some r.

Lemma ends_deterministic {X A} (m : Run X A) x r r' : run_mono m -> ends m x r -> ends m x r' -> r = r'.
Proof.
  intros Hm [n Hn] [n' Hn'].
  pose proof (Hm n (n `max` n')%nat x r ltac:(lia) Hn) as E1.
  pose proof (Hm n' (n `max` n')%nat x r' ltac:(lia) Hn') as E2. congruence.
Qed.

Lemma ends_bind {X A B} (m : Run X A) (f : A -> Run X B) x a y r :
  run_mono m -> run_mono (f a) -> ends m x (Done a, y) -> ends (f a) y r -> ends (m ≫= f) x r.
Proof.
  intros Hm Hf [n Hn] [n' Hn']. exists (n `max` n')%nat. unfold mbind, Run_bind.
  rewrite (Hm n (n `max` n')%nat _ _ ltac:(lia) Hn). by apply (Hf n'); [lia|].
Qed.

(** A loop, by its first round. *)
Lemma ends_loop {X S A} (round : S -> Run X (S + A)) s x r :
  (forall t, run_mono (round t)) ->
  ends (loop round s) x r <-> exists o y, ends (round s) x (o, y) /\
    match o with
    | Done (inl t) => ends (loop round t) y r
    | Done (inr a) => r = (Done a, y)
    | Failed e => r = (Failed e, y)
    | Crashed w => r = (Crashed w, y)
    end.
Proof.
  intros Hm. split.
  - intros [[|n] Hn]; [done|]. unfold loop in Hn. cbn in Hn.
    destruct (round s (Datatypes.S n) x) as [[o y]|] eqn:E; [|done].
    exists o, y. split; [by exists (Datatypes.S n)|]. destruct o as [[t|a]|e|w]; [|congruence..].
    exists (Datatypes.S n). apply (rounds_more _ n _ (Datatypes.S n) _ _ _ _ Hm); [lia..|done].
  - intros (o & y & [n Hn] & Hr). pose proof (fun n' Hl => Hm s n n' x _ Hl Hn) as E.
    destruct o as [[t|a]|e|w];
      [destruct Hr as [n' Hn']; exists (Datatypes.S (n `max` n'))|subst; exists (Datatypes.S n)..];
      unfold loop; cbn; rewrite E by lia; [|done..].
    by apply (rounds_more _ n' _ n' _ _ _ _ Hm); [lia..|].
Qed.

Lemma ends_loop_break {X S A} (round : S -> Run X (S + A)) s x a y :
  (forall t, run_mono (round t)) -> ends (round s) x (Done (inr a), y) -> ends (loop round s) x (Done a, y).
Proof. intros Hm Hr. apply ends_loop; [done|]. by exists (Done (inr a)), y. Qed.

Lemma ends_loop_continue {X S A} (round : S -> Run X (S + A)) s x t y r :
  (forall t, run_mono (round t)) -> ends (round s) x (Done (inl t), y) -> ends (loop round t) y r ->
  ends (loop round s) x r.
Proof. intros Hm Hr Hl. apply ends_loop; [done|]. by exists (Done (inl t)), y. Qed.

Lemma ends_ret {X A} (a : A) (x : X) : ends (mret a : Run X A) x (Done a, x).
Proof. by exists O. Qed.

Lemma ends_once {X A} (m : Pr X A) x : ends (once m) x (m x).
Proof. by exists O. Qed.

Lemma ends_once_inv {X A} (m : Pr X A) x r : ends (once m) x r -> r = m x.
Proof. by intros [? [= ?]]. Qed.

(** The whole ends if the first part does and then the second one. *)
Lemma ends_some_bind {X A B} (m : Run X A) (f : A -> Run X B) x :
  run_mono m -> (forall a, run_mono (f a)) -> (exists r, ends m x r) ->
  (forall a y, ends m x (Done a, y) -> exists r, ends (f a) y r) -> exists r, ends (m ≫= f) x r.
Proof.
  intros Hm Hf [[[a|e|w] y] He] Hk.
  - destruct (Hk a y He) as [r Hr]. exists r. by eapply ends_bind.
  - destruct He as [n Hn]. eexists _, n. unfold mbind, Run_bind. by rewrite Hn.
  - destruct He as [n Hn]. eexists _, n. unfold mbind, Run_bind. by rewrite Hn.
Qed.

(** A failing first part ends the whole. *)
Lemma ends_bind_fail {X A B} (m : Run X A) (f : A -> Run X B) x e y :
  ends m x (Failed e, y) -> ends (m ≫= f) x (Failed e, y).
Proof. intros [n Hn]. exists n. unfold mbind, Run_bind. by rewrite Hn. Qed.

Lemma ends_loop_fail {X S A} (round : S -> Run X (S + A)) s x e y :
  (forall t, run_mono (round t)) -> ends (round s) x (Failed e, y) -> ends (loop round s) x (Failed e, y).
Proof. intros Hm Hr. apply ends_loop; [done|]. by exists (Failed e), y. Qed.

Lemma ends_ask {X A} (q : X -> A * X) x r : ends (ask q) x r <-> r = (Done (q x).1, (q x).2).
Proof.
  unfold ends, ask, once. destruct (q x) as [a y]. cbn. split; [intros [_ [= <-]]; done|].
  intros ->. by exists O.
Qed.

(** A call that is repeated from the state it left gets a good answer at last. *)
Inductive eventually {X A} (good : A -> Prop) (q : X -> A * X) : X -> Prop :=
| eventually_now x : good (q x).1 -> eventually good q x
| eventually_later x : eventually good q (q x).2 -> eventually good q x.

(** It is repeated for as long as the answer asks for it: the answer that ends
    this, and the state after it. *)
Inductive polled {X A} (q : X -> A * X) (again : A -> Prop) : X -> A -> X -> Prop :=
| polled_now x a y : q x = (a, y) -> ~ again a -> polled q again x a y
| polled_again x a y b z : q x = (a, y) -> again a -> polled q again y b z -> polled q again x b z.

(** The parts of a run that ends. *)
Lemma run_bind_inv {X A B} (m : Run X A) (f : A -> Run X B) fuel x o y :
  (m ≫= f) fuel x = Some (o, y) ->
  exists o1 z, m fuel x = Some (o1, z) /\ match o1 with
    | Done a => f a fuel z = Some (o, y)
    | Failed e => o = Failed e /\ y = z
    | Crashed w => o = Crashed w /\ y = z end.
Proof.
  unfold mbind, Run_bind. destruct (m fuel x) as [[[a|e|w] z]|]; [|intros [= <- <-]..|done]; naive_solver.
Qed.

(** ** What every run that ends satisfies *)

Section ensures.
Context {X : Type}.

(** From a state in [P], a run that ends does so with a result and a state in [Q]. *)
Definition ensures {A} (P : X -> Prop) (m : Run X A) (Q : attempt A -> X -> Prop) : Prop :=
  forall fuel x o y, P x -> m fuel x = Some (o, y) -> Q o y.

Lemma ensures_ret {A} (P : X -> Prop) (a : A) (Q : attempt A -> X -> Prop) :
  (forall x, P x -> Q (Done a) x) -> ensures P (mret a) Q.
Proof. intros H fuel x o y Hx [= <- <-]. auto. Qed.

Lemma ensures_once {A} (P : X -> Prop) (m : Pr X A) (Q : attempt A -> X -> Prop) :
  (forall x, P x -> Q (m x).1 (m x).2) -> ensures P (once m) Q.
Proof. intros H fuel x o y Hx [= E]. specialize (H x Hx). by rewrite E in H. Qed.

Lemma ensures_fail {A} (P : X -> Prop) e (Q : attempt A -> X -> Prop) :
  (forall x, P x -> Q (Failed e) x) -> ensures P (fail e) Q.
Proof. intros H. by apply ensures_once. Qed.

Lemma ensures_ask {A} (P : X -> Prop) (q : X -> A * X) (Q : attempt A -> X -> Prop) :
  (forall x, P x -> Q (Done (q x).1) (q x).2) -> ensures P (ask q) Q.
Proof. intros H. apply ensures_once. intros x Hx. specialize (H x Hx). by destruct (q x). Qed.

(** [R] is what holds between the two parts; a failure of the first part is
    that of the whole. *)
Lemma ensures_bind {A B} P (m : Run X A) (f : A -> Run X B) (R : attempt A -> X -> Prop)
    (Q : attempt B -> X -> Prop) :
  ensures P m R -> (forall a, ensures (R (Done a)) (f a) Q) ->
  (forall e y, R (Failed e) y -> Q (Failed e) y) -> (forall w y, R (Crashed w) y -> Q (Crashed w) y) ->
  ensures P (m ≫= f) Q.
Proof.
  intros Hm Hf He Hw fuel x o y Hx. unfold mbind, Run_bind.
  destruct (m fuel x) as [[[a|e|w] z]|] eqn:E; [|intros [= <- <-]..|done].
  - by apply Hf, (Hm _ _ _ _ Hx E).
  - by apply He, (Hm _ _ _ _ Hx E).
  - by apply Hw, (Hm _ _ _ _ Hx E).
Qed.

Lemma ensures_try {A} P (m : Run X A) (W : attempt (A + ProvingError) -> X -> Prop) :
  ensures P m (fun o y => match o with
    | Done a => W (Done (inl a)) y | Failed e => W (Done (inr e)) y | Crashed w => W (Crashed w) y end) ->
  ensures P (try_run m) W.
Proof.
  intros Hm fuel x o y Hx. unfold try_run.
  destruct (m fuel x) as [[[a|e|w] z]|] eqn:E; [intros [= <- <-]..|done];
    apply (Hm _ _ _ _ Hx E).
Qed.

(** The rule for a loop, with an invariant of its state. *)
Lemma ensures_loop {S A} (I : S -> X -> Prop) (round : S -> Run X (S + A)) s (Q : attempt A -> X -> Prop) :
  (forall t, ensures (I t) (round t) (fun o y => match o with
    | Done (inl t) => I t y | Done (inr a) => Q (Done a) y
    | Failed e => Q (Failed e) y | Crashed w => Q (Crashed w) y end)) ->
  ensures (I s) (loop round s) Q.
Proof.
  intros Hr fuel. unfold loop. generalize fuel at 1 as n. intros n. revert s.
  induction n as [|n IH]; intros s x o y Hx; [done|]. cbn.
  destruct (round s fuel x) as [[r z]|] eqn:E; [|done].
  pose proof (Hr s fuel x r z Hx E) as Hz. destruct r as [[t|a]|e|w]; [|intros [= <- <-]; exact Hz..].
  by apply IH.
Qed.

Lemma ensures_conseq {A} P P' (m : Run X A) (Q Q' : attempt A -> X -> Prop) :
  ensures P m Q -> (forall x, P' x -> P x) -> (forall o y, Q o y -> Q' o y) -> ensures P' m Q'.
Proof. intros Hm HP HQ fuel x o y Hx E. apply HQ. eapply Hm; [by apply HP|exact E]. Qed.

Lemma ensures_and {A} P (m : Run X A) (Q Q' : attempt A -> X -> Prop) :
  ensures P m Q -> ensures P m Q' -> ensures P m (fun o y => Q o y /\ Q' o y).
Proof. intros H1 H2 fuel x o y Hx E. split; eauto. Qed.

(** What a retried call finally answers, it answered from some state. *)
Lemma ensures_retry {A} P (call : X -> outcome A * X) :
  ensures P (retry call) (fun o _ => match o with
    | Done a => exists x y, call x = (Ok a, y)
    | Failed _ => False
    | Crashed _ => True
    end).
Proof.
  eapply ensures_conseq; [apply (ensures_loop (fun _ _ => True))|done|]; [|intros o y Ho; exact Ho].
  intros ? fuel x o y _. unfold mbind, Run_bind, ask, once.
  destruct (call x) as [a z] eqn:E. destruct a; intros [= <- <-]; eauto.
Qed.

Lemma ensures_if {A} P (b : bool) (m n : Run X A) Q :
  (b = true -> ensures P m Q) -> (b = false -> ensures P n Q) -> ensures P (if b then m else n) Q.
Proof. destruct b; auto. Qed.
End ensures.

(** ** The errors of a run *)

Section errors.
Context {X : Type} (E : ProvingError -> Prop).

Definition fails_with {A} (m : Run X A) : Prop :=
  forall fuel x e y, m fuel x = Some (Failed e, y) -> E e.

Lemma fails_ret {A} (a : A) : fails_with (mret a).
Proof. done. Qed.

Lemma fails_ask {A} (q : X -> A * X) : fails_with (ask q).
Proof. intros fuel x e y. unfold ask, once. by destruct (q x). Qed.

Lemma fails_once {A} (m : Pr X A) : (forall x e y, m x = (Failed e, y) -> E e) -> fails_with (once m).
Proof. intros Hm fuel x e y [= Hx]. eauto. Qed.

Lemma fails_const {A} (o : attempt A) : (forall e, o = Failed e -> E e) -> fails_with (once (lift_at o)).
Proof. intros Ho. apply fails_once. intros x e y [= -> _]. auto. Qed.

Lemma fails_fail {A} e : E e -> fails_with (fail e : Run X A).
Proof. intros He. apply fails_const. by intros e' [= <-]. Qed.

Lemma fails_bind {A B} (m : Run X A) (f : A -> Run X B) :
  fails_with m -> (forall a, fails_with (f a)) -> fails_with (m ≫= f).
Proof.
  intros Hm Hf fuel x e y. unfold mbind, Run_bind.
  destruct (m fuel x) as [[[a|e'|w] z]|] eqn:Em; [apply Hf|intros [= <- <-]; eauto|done..].
Qed.

Lemma fails_loop {S A} (round : S -> Run X (S + A)) s :
  (forall t, fails_with (round t)) -> fails_with (loop round s).
Proof.
  intros Hr fuel x e y. unfold loop. generalize fuel at 1 as n. intros n. revert s x.
  induction n as [|n IH]; intros s x; cbn; [done|].
  destruct (round s fuel x) as [[[[t|a]|e'|w] z]|] eqn:Er; [apply IH|done|intros [= <- <-]; exact (Hr _ _ _ _ _ Er)|done..].
Qed.

Lemma fails_retry {A} (call : X -> outcome A * X) : fails_with (retry call).
Proof.
  apply fails_loop. intros ?. apply fails_bind; [apply fails_ask|].
  intros []; [apply fails_ret..|]. by apply fails_const.
Qed.

(** [.map_err(ProvingError::OtherError)]. *)
Lemma fails_other {A} (o : outcome A) :
  (forall s, E (OtherError s)) -> fails_with (once (lift_at (map_err OtherError o))).
Proof. intros Ho. apply fails_const. destruct o; cbn; [done|intros e' [= <-]; auto|done]. Qed.

(** An inspected result no longer fails. *)
Lemma fails_try {A B} (m : Run X A) (f : A + ProvingError -> Run X B) (E' : ProvingError -> Prop) :
  (forall fuel x e y, m fuel x = Some (Failed e, y) -> E' e) ->
  (forall a, fails_with (f (inl a))) -> (forall e, E' e -> fails_with (f (inr e))) ->
  fails_with (try_run m ≫= f).
Proof.
  intros Hm Hl Hr fuel x e y. unfold mbind, Run_bind, try_run.
  destruct (m fuel x) as [[[a|e'|w] z]|] eqn:Em; [apply Hl|apply Hr; eauto|done..].
Qed.
End errors.

Ltac fails :=
  repeat match goal with
  | |- fails_with _ (mret _) => apply fails_ret
  | |- fails_with _ (ask _) => apply fails_ask
  | |- fails_with _ (retry _) => apply fails_retry
  | |- fails_with _ (fail _) => apply fails_fail
  | |- fails_with _ (once (lift_at (map_err OtherError _))) => apply fails_other; intros ?
  | |- fails_with _ (loop _ _) => apply fails_loop; intros ?
  | |- fails_with _ (_ ≫= _) => apply fails_bind; [|intros ?]
  | |- fails_with _ (match ?x with _ => _ end) => destruct x eqn:?
  end.

(** ** What a retried call comes to

    The answers of a call, from one attempt to the next. *)

Inductive retried {X A} (call : Run X (outcome A)) : X -> attempt A * X -> Prop :=
| retried_Ok x a y : ends call x (Done (Ok a), y) -> retried call x (Done a, y)
| retried_Panic x w y : ends call x (Done (Panic w), y) -> retried call x (Crashed w, y)
| retried_Failed x e y : ends call x (Failed e, y) -> retried call x (Failed e, y)
| retried_Crashed x w y : ends call x (Crashed w, y) -> retried call x (Crashed w, y)
| retried_again x e y r : ends call x (Done (Err e), y) -> retried call y r -> retried call x r.

Lemma ends_retry_run {X A} (call : Run X (outcome A)) x r :
  run_mono call -> ends (retry_run call) x r <-> retried call x r.
Proof.
  intros Hm.
  assert (Hround : forall t : unit, run_mono ((fun _ : unit => o ← call;
    match o with Ok a => mret (inr a) | Err _ => mret (inl tt) | Panic w => once (lift_at (Crashed w)) end) t : Run X (unit + A))).
  { intros ?. apply mono_bind; [done|]. intros []; apply mono_once. }
  split.
  - intros [fuel Hf]. unfold retry_run, loop in Hf. revert Hf.
    generalize fuel at 1 as n. intros n. revert x.
    induction n as [|n IH]; intros x; [done|]. cbn. unfold mbind, Run_bind.
    destruct (call fuel x) as [[[[a|e|w]|e|w] y]|] eqn:E; cbn; intros Hr; try done;
      try (injection Hr as <-).
    + apply retried_Ok. by exists fuel.
    + eapply retried_again; [by exists fuel|]. by apply IH.
    + apply retried_Panic. by exists fuel.
    + apply retried_Failed. by exists fuel.
    + apply retried_Crashed. by exists fuel.
  - induction 1 as [x a y [n Hn]|x w y [n Hn]|x e y [n Hn]|x w y [n Hn]|x e y r [n Hn] _ IH];
      apply ends_loop; try done; eexists _, _; (split; [exists n; unfold mbind, Run_bind; by rewrite Hn|]); done.
Qed.

Lemma ends_retry_iff {X A} (call : X -> outcome A * X) x r :
  ends (retry call) x r <-> retried (ask call) x r.
Proof. apply ends_retry_run, mono_ask. Qed.

(** A call with a time limit, an elapsed one being an error. *)
Definition within_limit {X A} (call : X -> option (outcome A) * X) (x : X) : outcome A * X :=
  let '(o, x) := call x in (default (Err "deadline has elapsed") o, x).

Section limits.
Context {X A : Type} (call : X -> option (outcome A) * X).

Lemma mono_retry_timeout : run_mono (retry_timeout call).
Proof. apply mono_retry. Qed.

(** An answer in time is the one that is returned, and otherwise the next one. *)
Lemma retry_timeout_answer x o y :
  call x = (Some o, y) -> ends (retry_timeout call) x (match o with Panic w => Crashed w | _ => Done o end, y).
Proof.
  intros E. apply ends_retry_iff. destruct o as [a|e|w];
    [apply retried_Ok|apply retried_Ok|apply retried_Panic]; apply ends_ask; unfold timeout; by rewrite E.
Qed.
Lemma retry_timeout_elapsed x y r :
  call x = (None, y) -> ends (retry_timeout call) y r -> ends (retry_timeout call) x r.
Proof.
  intros E Hr. apply ends_retry_iff. apply ends_retry_iff in Hr. eapply retried_again; [|exact Hr].
  apply ends_ask. unfold timeout. by rewrite E.
Qed.

Lemma retried_elapsed x y r :
  call x = (None, y) -> retried (retry_timeout call) y r -> retried (retry_timeout call) x r.
Proof.
  intros E Hr. destruct Hr; [eapply retried_Ok|eapply retried_Panic|eapply retried_Failed|eapply retried_Crashed|
    eapply retried_again; [|done]]; by eapply retry_timeout_elapsed.
Qed.

(** The two loops of [retry_res_timeout!], one around the other, are one: what they come to is
    what repeating the call comes to when an attempt that takes too long counts as a failed one, and
    the one ends if and only if the other does. *)
Theorem retry_res_timeout_flat x r :
  ends (retry_res_timeout call) x r <-> ends (retry (within_limit call)) x r.
Proof.
  rewrite ends_retry_iff, (ends_retry_run _ _ _ mono_retry_timeout). split.
  - assert (Hin : forall x q, retried (ask (timeout call)) x q -> forall r,
      match q with
      | (Done (Ok a), y) => r = (Done a, y)
      | (Done (Err _), y) => retried (ask (within_limit call)) y r
      | (Done (Panic w), y) | (Crashed w, y) => r = (Crashed w, y)
      | (Failed _, y) => False
      end -> retried (ask (within_limit call)) x r).
    { clear x r. induction 1 as [x o y E|x w y E|x e y E|x w y E|x e y q E _ IH]; intros r Hr;
        apply ends_ask in E; unfold timeout in E; destruct (call x) as [[[a|e'|w']|] z] eqn:Ec;
        cbn in *; simplify_eq; cbn in *; subst.
      - apply retried_Ok, ends_ask. unfold within_limit. by rewrite Ec.
      - eapply retried_again; [|exact Hr]. apply ends_ask. unfold within_limit. by rewrite Ec.
      - apply retried_Panic, ends_ask. unfold within_limit. by rewrite Ec.
      - eapply retried_again; [|by apply IH]. apply ends_ask. unfold within_limit. by rewrite Ec. }
    induction 1 as [x a y E|x w y E|x e y E|x w y E|x e y r E _ IH];
      apply ends_retry_iff in E; [by eapply Hin..| |by eapply Hin|by eapply Hin].
    exfalso. clear Hin. remember (Failed e, y) as q eqn:Eq. revert Eq.
    induction E as [? ? ? E|? ? ? E|x ? ? E|? ? ? E|x ? ? ? E ? IH]; intros Eq; simplify_eq; auto.
    by apply ends_ask in E.
  - induction 1 as [x a y E|x w y E|x e y E|x w y E|x e y r E _ IH];
      apply ends_ask in E; unfold within_limit in E; destruct (call x) as [[o|] z] eqn:Ec; cbn in E; simplify_eq.
    + apply retried_Ok. by apply retry_timeout_answer in Ec.
    + apply retried_Crashed. by apply retry_timeout_answer in Ec.
    + eapply retried_again; [|exact IH]. by apply retry_timeout_answer in Ec.
    + by eapply retried_elapsed.
Qed.
End limits.
