(* ===== verification/Floats.v ===== *)
(** * f64

    Rust's [f64], as the Standard Library specifies binary64, with the casts
    that the prices and fees of the clients go through; integers below 2^53 pass
    through it unchanged. *)

From S2P Require Import Prelude.
From Stdlib Require Import SpecFloat.
Open Scope Z_scope.

Abbreviation f64 := spec_float.
(** [as f64], [*] and [+]: rounded to the nearest, ties to even. *)
Definition f64_of_Z (z : Z) : f64 := binary_normalize 53 1024 z 0 false.
Definition f64_mul : f64 -> f64 -> f64 := SFmul 53 1024.
Definition f64_add : f64 -> f64 -> f64 := SFadd 53 1024.
(** A decimal literal [n / d]. *)
Definition f64_lit (n d : Z) : f64 := SFdiv 53 1024 (f64_of_Z n) (f64_of_Z d).
(** [as] a w-bit unsigned integer: towards zero, saturating, 0 for a NaN. *)
Definition f64_as (w : Z) (x : f64) : Z :=
  match x with
  | S754_zero _ | S754_nan | S754_infinity true | S754_finite true _ _ => 0
  | S754_infinity false => 2 ^ w - 1
  | S754_finite false m e => Z.min (2 ^ w - 1) (Z.shiftl (Zpos m) e)
  end.

Lemma f64_as_width w x : 0 <= w -> in_width w (f64_as w x).
Proof.
  intros Hw. unfold in_width. assert (0 < 2 ^ w) by (apply Z.pow_pos_nonneg; lia).
  destruct x as [s|[]| |[] m e]; cbn [f64_as]; try lia.
  assert (0 <= Z.shiftl (Zpos m) e) by (apply Z.shiftl_nonneg; lia). lia.
Qed.

(** ** Exact integers *)

Lemma digits2_log2 p : Zpos (digits2_pos p) = Z.log2 (Zpos p) + 1.
Proof.
  induction p as [p IH|p IH|]; cbn [digits2_pos]; [..|done]; rewrite Pos2Z.inj_succ, IH.
  - change (Zpos p~1) with (2 * Zpos p + 1). rewrite Z.log2_succ_double; lia.
  - change (Zpos p~0) with (2 * Zpos p). rewrite Z.log2_double; lia.
Qed.

Lemma iter_xO m d : Zpos (Pos.iter xO m d) = Zpos m * 2 ^ Zpos d.
Proof.
  induction d as [|d IH] using Pos.peano_ind; [cbn; lia|].
  rewrite Pos.iter_succ, Pos2Z.inj_xO, IH, Pos2Z.inj_succ, Z.pow_succ_r by lia. lia.
Qed.

(** A mantissa of 53 bits needs no shift, and no rounding. *)
Lemma shr_normal m e :
  digits2_pos m = 53%positive -> -1074 <= e ->
  shr_fexp 53 1024 (Zpos m) e loc_Exact = ({| shr_m := Zpos m; shr_r := false; shr_s := false |}, e).
Proof.
  intros Hd He. unfold shr_fexp, shr, fexp, emin, Zdigits2. rewrite Hd.
  by replace (Z.max (53 + e - 53) (3 - 1024 - 53) - e) with 0 by lia.
Qed.

Lemma round_normal s m e :
  digits2_pos m = 53%positive -> -1074 <= e <= 971 ->
  binary_round_aux 53 1024 s (Zpos m) e loc_Exact = S754_finite s m e.
Proof.
  intros Hd He. unfold binary_round_aux. rewrite shr_normal by (done || lia).
  cbn [shr_m loc_of_shr_record round_nearest_even]. rewrite shr_normal by (done || lia).
  cbn [shr_m]. by destruct (Z.leb_spec e (1024 - 53)); [|lia].
Qed.

(** The representation of an integer below 2^53. *)
Lemma f64_of_Z_normal z :
  0 < z < 2 ^ 53 -> exists m, f64_of_Z z = S754_finite false m (Z.log2 z - 52) /\
    digits2_pos m = 53%positive /\ Zpos m = z * 2 ^ (52 - Z.log2 z) /\ 0 <= Z.log2 z <= 52.
Proof.
  intros Hz. assert (Hl : 0 <= Z.log2 z <= 52) by (split; [apply Z.log2_nonneg|apply Z.lt_succ_r, Z.log2_lt_pow2; lia]).
  destruct z as [|p|p]; try lia. cbn [f64_of_Z binary_normalize]. unfold binary_round, fexp, emin, shl_align.
  rewrite digits2_log2.
  replace (Z.max (Z.log2 (Zpos p) + 1 + 0 - 53) (3 - 1024 - 53) - 0) with (Z.log2 (Zpos p) - 52) by lia.
  replace (Z.max (Z.log2 (Zpos p) + 1 + 0 - 53) (3 - 1024 - 53)) with (Z.log2 (Zpos p) - 52) by lia.
  destruct (Z.log2 (Zpos p) - 52) as [|d|d] eqn:Ed; [|lia|].
  - exists p. assert (Hd : digits2_pos p = 53%positive) by (pose proof (digits2_log2 p); lia).
    rewrite round_normal by (done || lia). split_and!; [done..| |lia|lia].
    replace (52 - Z.log2 (Zpos p)) with 0 by lia. lia.
  - assert (Hm : Zpos (Pos.iter xO p d) = Zpos p * 2 ^ (52 - Z.log2 (Zpos p))).
    { rewrite iter_xO. do 2 f_equal. lia. }
    assert (Hd : digits2_pos (Pos.iter xO p d) = 53%positive).
    { pose proof (digits2_log2 (Pos.iter xO p d)) as Hg. rewrite Hm, Z.log2_mul_pow2 in Hg by lia. lia. }
    exists (Pos.iter xO p d). rewrite round_normal by (done || lia). done.
Qed.

Lemma f64_of_Z_exact w z : 0 <= z < 2 ^ 53 -> z < 2 ^ w -> f64_as w (f64_of_Z z) = z.
Proof.
  intros Hz Hw. destruct (decide (z = 0)) as [->|Hne]; [done|].
  destruct (f64_of_Z_normal z ltac:(lia)) as (m & -> & _ & Hm & Hl). cbn [f64_as].
  rewrite Hm. replace (Z.log2 z - 52) with (- (52 - Z.log2 z)) by lia.
  rewrite Z.shiftl_opp_r, Z.shiftr_div_pow2, Z.div_mul by (lia || apply Z.pow_nonzero; lia). lia.
Qed.

(** Multiplying by 1.0 changes nothing. *)
Lemma f64_mul_one z : 0 <= z < 2 ^ 53 -> f64_mul (f64_of_Z z) (f64_of_Z 1) = f64_of_Z z.
Proof.
  intros Hz. destruct (decide (z = 0)) as [->|Hne]; [done|].
  destruct (f64_of_Z_normal z ltac:(lia)) as (m & -> & Hd & _ & Hl).
  change (f64_of_Z 1) with (S754_finite false 4503599627370496 (-52)).
  unfold f64_mul, SFmul. cbn [xorb]. set (e := Z.log2 z - 52).
  assert (Hs : shr_fexp 53 1024 (Zpos (m * 4503599627370496)) (e + -52) loc_Exact =
    ({| shr_m := Zpos m; shr_r := false; shr_s := false |}, e)).
  { assert (Hdig : Zdigits2 (Zpos (m * 4503599627370496)) = 105).
    { cbn [Zdigits2]. rewrite digits2_log2, Pos2Z.inj_mul.
      change (Zpos 4503599627370496) with (2 ^ 52). rewrite Z.log2_mul_pow2 by lia.
      pose proof (digits2_log2 m) as Hg. rewrite Hd in Hg. lia. }
    unfold shr_fexp. rewrite Hdig. unfold fexp, emin.
    replace (Z.max (105 + (e + -52) - 53) (3 - 1024 - 53) - (e + -52)) with 52 by lia.
    cbn [shr]. f_equal; [|lia]. rewrite Pos.mul_comm. reflexivity. }
  unfold binary_round_aux. rewrite Hs. cbn [shr_m loc_of_shr_record round_nearest_even].
  rewrite shr_normal by (done || lia). cbn [shr_m]. by destruct (Z.leb_spec e (1024 - 53)); [|lia].
Qed.
