(* ===== verification/Boundless.v ===== *)
(** * crates/prover/src/risczero/boundless.rs

    The client of the Boundless market: it looks for an earlier request with the
    same requirements, uploads the program and the input, prices and submits a
    request under a fresh nonce, and waits for its proof. *)

From S2P Require Import Prelude Bytes Journal Stitching Witgen Tasks Runs Floats.
From coqutil Require Import Word.LittleEndianList.
Open Scope Z_scope.

(** The operators of [U256] wrap. *)
Definition u256_mul (a b : Z) : Z := (a * b) `mod` 2 ^ 256.

(** ** Data *)

Record MarketProviderConfig := {
  boundless_rpc_url : string; boundless_wallet_key : Z;
  boundless_chain_id : option Z; boundless_market_address : option Z;
  boundless_verifier_router_address : option Z; boundless_set_verifier_address : option Z;
  boundless_stake_token_address : option Z; boundless_order_stream_url : option string;
  boundless_look_back : bool; boundless_assume_cycle_count : option Z;
  boundless_cycle_min_wei : Z; boundless_cycle_max_wei : Z; boundless_mega_cycle_stake : Z;
  boundless_order_bid_delay_factor : f64; boundless_order_ramp_up_factor : f64;
  boundless_order_lock_timeout_factor : f64; boundless_order_expiry_factor : f64;
  boundless_order_check_interval : Z; boundless_enable_upload_caching : bool;
  boundless_order_submission_cooldown : Z;
}.

(** The fields of the market's types that the client uses. *)
Inductive StorageProviderType := StorageS3 | StoragePinata | StorageFile | StorageOther.
Record StorageProviderConfig := {
  storage_provider : StorageProviderType; s3_access_key : option string;
  s3_secret_key : option string; s3_bucket : option string; s3_url : option string;
  aws_region : option string; pinata_jwt : option string; pinata_api_url : option string;
  ipfs_gateway_url : option string; file_path : option PathBuf;
}.

Record Requirements := {
  req_image_id : Z; req_predicate_type : Z; req_predicate_data : bytes;
  req_callback_addr : Z; req_callback_gas : Z; req_selector : Z;
}.
#[export] Instance Requirements_eq_dec : EqDecision Requirements.
Proof. solve_decision. Defined.

Record ProofRequest := { pr_requirements : Requirements; pr_expires_at : Z }.

(** A submitted request. *)
Record Offer := {
  min_price : Z; max_price : Z; bidding_start : Z; lock_stake : Z;
  ramp_up_period : Z; lock_timeout : Z; timeout : Z;
}.
Record Order := {
  order_id : Z; order_requirements : Requirements; order_journal : bytes; order_cycles : Z;
  order_program_url : string; order_input_url : string; order_offer : Offer;
}.

(** What is asked of the prover. *)
Record Workload (R : Type) := {
  wl_image : Z; wl_elf : bytes; wl_journal : bytes;
  wl_slices : list (list Z); wl_frames : list bytes; wl_proofs : list R;
}.
Arguments wl_image {R}. Arguments wl_elf {R}. Arguments wl_journal {R}.
Arguments wl_slices {R}. Arguments wl_frames {R}. Arguments wl_proofs {R}.

Inductive lookup_answer :=
| RequestFound (r : ProofRequest)
| RequestNotFound
| LookupFailed.
Inductive wait_answer (Seal : Type) :=
| Fulfilled (journal : bytes) (seal : Seal)
| RequestHasExpired
| WaitFailed.
Arguments Fulfilled {Seal}. Arguments RequestHasExpired {Seal}. Arguments WaitFailed {Seal}.

Record Client (D : Type) := {
  client_key : Z; client_rpc_url : string; client_deployment : option D;
  client_storage : StorageProviderConfig;
}.
Arguments client_key {D}. Arguments client_deployment {D}.

Record R2Storage (S3 : Type) := { r2_client : S3; r2_bucket : string; r2_domain : string }.
Arguments r2_client {S3}. Arguments r2_bucket {S3}. Arguments r2_domain {S3}.

(** ** The host

    The market's client library, the object store, the zkVM's executor and the
    encodings: each answers from the host's state [N], which it changes. *)
Class Market (N R D Seal S3 : Type) := {
  deployment_from_chain_id : Z -> option D;
  deployment_build : option Z -> option Z -> option Z -> option Z -> option string -> option D;
  storage_from_config : StorageProviderConfig -> outcome unit;
  build_client : Client D -> N -> outcome unit * N;
  wallet_address : Z -> Z;
  request_id : Z -> Z -> Z;
  digest_match : Z -> Z -> Requirements;
  groth16_selector : Z;
  as_le_slice : Z -> bytes;
  fetch_proof_request : Client D -> Z -> N -> lookup_answer * N;
  get_submitted_request : Client D -> Z -> N -> lookup_answer * N;
  (** Whether the status is [Expired]. *)
  get_status : Client D -> Z -> Z -> N -> outcome bool * N;
  wait_for_request_fulfillment : Client D -> Z -> Z -> Z -> N -> wait_answer Seal * N;
  (** A [Base] receipt. *)
  decode_seal : Seal -> Z -> bytes -> option R;
  s3_client : string -> string -> string -> string -> S3;
  put_object : S3 -> string -> string -> bytes -> N -> outcome unit * N;
  compute_image_id : bytes -> outcome Z;
  hex : Z -> string;
  url_parse : string -> outcome string;
  client_upload_program : Client D -> bytes -> N -> outcome string * N;
  client_upload_input : Client D -> bytes -> N -> outcome string * N;
  (** The po2 of each segment of an execution. *)
  execute : Z -> Workload R -> N -> outcome (list Z) * N;
  guest_env : Workload R -> outcome bytes;
  latest_timestamp : Client D -> N -> outcome Z * N;
  offer_build : Offer -> outcome unit;
  submit_offchain : Client D -> Order -> N -> outcome (Z * Z) * N;
  submit_onchain : Client D -> Order -> N -> outcome (Z * Z) * N;
  (** What a file holds after it was written, unless it could not be created. *)
  fs_write : bytes -> N -> option bytes * N;
  bincode_string : string -> bytes;
  parse_string : bytes -> option string;
  bincode_u64 : Z -> bytes;
  parse_u64 : bytes -> option Z;
}.

(** The files [boundless-*.req] of the working directory, by the hash in their
    name; the orders that were handed to the market, the latest first. *)
Record Desk (N : Type) := { cached : gmap Z bytes; orders : list Order; host_state : N }.
Arguments cached {N}. Arguments orders {N}. Arguments host_state {N}.

(** ** Operations *)

Section client.
Context {N R D Seal S3 : Type} `{Market N R D Seal S3} `{Digests} `{Zkvm R}.

Notation BRun := (Run (Desk N)).

(** A call to the host. *)
Definition at_host {A} (q : N -> A * N) (d : Desk N) : A * Desk N :=
  let '(a, n) := q (host_state d) in
  (a, {| cached := cached d; orders := orders d; host_state := n |}).
Definition read_bincoded_file (file : Z) : BRun (option bytes) := ask (fun d => (cached d !! file, d)).
Definition save_to_bincoded_file (data : bytes) (file : Z) : BRun unit := ask (fun d =>
  let '(b, n) := fs_write data (host_state d) in
  (tt, {| cached := match b with Some b => <[file := b]> (cached d) | None => cached d end;
          orders := orders d; host_state := n |})).

(** The three names of files: of the cycle count of a request, and of the urls
    of its program and of its input. *)
Definition request_file_name (image : Z) (journal : bytes) : Z := keccak256 (b256_bytes image ++ journal).
Definition binary_file_name (image : Z) : Z := image.
Definition input_file_name (image : Z) (journal : bytes) : Z := 2 ^ 256 - 1 - request_file_name image journal.

(** *** Nonces and earlier requests *)

Definition nonce_data (r : Requirements) (previous_nonce : option Z) : bytes :=
  be_bytes 4 (req_selector r) ++ b256_bytes (req_image_id r) ++ be_bytes 16 (req_predicate_type r)
  ++ address_bytes (req_callback_addr r) ++ as_le_slice (req_callback_gas r)
  ++ be_bytes 4 (default (2 ^ 32 - 1) previous_nonce) ++ req_predicate_data r.
Definition next_nonce (r : Requirements) (previous_nonce : option Z) : Z :=
  from_be_bytes (take 4 (b256_bytes (sha256 (nonce_data r previous_nonce)))).

Section market.
Context (market : MarketProviderConfig) (client : Client D).

Definition lookup_request (id : Z) : N -> lookup_answer * N :=
  match boundless_order_stream_url market with
  | Some _ => fetch_proof_request client id
  | None => get_submitted_request client id
  end.
Definition get_proof_request (id : Z) : BRun (option ProofRequest) :=
  loop (fun _ : unit =>
    answer ← ask (at_host (lookup_request id));
    mret match answer with
         | RequestFound req => inr (Some req)
         | RequestNotFound => inr None
         | LookupFailed => inl tt
         end) tt.

Definition request_id_of (nonce : Z) : Z := request_id (wallet_address (client_key client)) nonce.

Definition get_next_fresh_nonce (r : Requirements) (previous_nonce : option Z) : BRun Z :=
  loop (fun previous_nonce =>
    let nonce := next_nonce r previous_nonce in
    found ← get_proof_request (request_id_of nonce);
    mret match found with
         | None => inr nonce
         | Some _ => inl (Some nonce)
         end) previous_nonce.

(** [retrieve_proof]; [None] stands for its errors. *)
Definition retrieve_proof (id image_id interval expires_at : Z) : BRun (option R) :=
  loop (fun _ : unit =>
    answer ← ask (at_host (wait_for_request_fulfillment client id interval expires_at));
    mret match answer with
         | Fulfilled journal seal => inr (decode_seal seal image_id journal)
         | RequestHasExpired => inr None
         | WaitFailed => inl tt
         end) tt.

(** [look_back]: a proof, if there is one, and the last nonce. *)
Definition look_back_round (r : Requirements) (skip_await : bool) (previous_nonce : option Z)
    : BRun (option Z + option R * option Z) :=
  let nonce := next_nonce r previous_nonce in
  let id := request_id_of nonce in
  found ← get_proof_request id;
  match found with
  | None => mret (inr (None, Some nonce))
  | Some request =>
      expired ← retry (at_host (get_status client id (pr_expires_at request)));
      if expired : bool then mret (inl (Some nonce))
      else if bool_decide (pr_requirements request <> r) then mret (inl (Some nonce))
      else if skip_await then fail NotAwaitingProof
      else
        proof ← retrieve_proof id (req_image_id r) (boundless_order_check_interval market)
                  (pr_expires_at request);
        mret match proof with
             | Some proof => inr (Some proof, Some nonce)
             | None => inl (Some nonce)
             end
  end.
Definition look_back (r : Requirements) (skip_await : bool) (previous_nonce : option Z)
    : BRun (option R * option Z) := loop (look_back_round r skip_await) previous_nonce.

(** *** R2 storage *)

Definition R2Storage_new (storage : StorageProviderConfig) (domain : string) : outcome (R2Storage S3) :=
  access_key ← ok_or "S3 access key required for R2" (s3_access_key storage);
  secret_key ← ok_or "S3 secret key required for R2" (s3_secret_key storage);
  bucket ← ok_or "S3 bucket required for R2" (s3_bucket storage);
  endpoint ← ok_or "S3 URL (endpoint) required for R2" (s3_url storage);
  region ← ok_or "AWS region required for R2" (aws_region storage);
  let domain := if String.prefix "http://" domain || String.prefix "https://" domain
                then domain else ("https://" +:+ domain)%string in
  Ok {| r2_client := s3_client access_key secret_key endpoint region;
        r2_bucket := bucket; r2_domain := domain |}.

Definition upload (r2 : R2Storage S3) (key : string) (data : bytes) (n : N) : outcome string * N :=
  match put_object (r2_client r2) (r2_bucket r2) key data n with
  | (Ok _, n) => (url_parse (r2_domain r2 +:+ "/" +:+ key)%string, n)
  | (Err e, n) => (Err e, n)
  | (Panic w, n) => (Panic w, n)
  end.
Definition upload_program (r2 : R2Storage S3) (program : bytes) (n : N) : outcome string * N :=
  match compute_image_id program with
  | Ok image => upload r2 ("v2/kailua/program/" +:+ hex image)%string program n
  | Err e => (Err e, n)
  | Panic w => (Panic w, n)
  end.
Definition upload_input (r2 : R2Storage S3) (input : bytes) (n : N) : outcome string * N :=
  upload r2 ("v2/kailua/input/" +:+ hex (sha256 input) +:+ ".bin")%string input n.

(** *** A request *)

(** The url in a cache file, if there is one and caching is enabled. *)
Definition cached_url (file : Z) : BRun (option string) :=
  data ← read_bincoded_file file;
  mret (if boundless_enable_upload_caching market then
    match data ≫= parse_string with
    | Some url => match url_parse url with Ok url => Some url | _ => None end
    | None => None
    end else None).

Definition program_url (r2 : option (R2Storage S3)) (w : Workload R) : BRun string :=
  let file := binary_file_name (wl_image w) in
  known ← cached_url file;
  match known with
  | Some url => mret url
  | None =>
      url ← retry (at_host (match r2 with
        | Some r2 => upload_program r2 (wl_elf w)
        | None => client_upload_program client (wl_elf w) end));
      _ ← save_to_bincoded_file (bincode_string url) file;
      mret url
  end.

(** [.map(|segment| 1 << segment.po2).sum::<u64>()]. *)
Definition total_cycles (po2s : list Z) : outcome Z :=
  ofold (fun total po2 => _ ← assert_ (po2 <? 64) "attempt to shift left with overflow";
                          u64_add host total (2 ^ po2)) 0 po2s.

Definition cycle_count (segment_limit : Z) (w : Workload R) : BRun Z :=
  let file := request_file_name (wl_image w) (wl_journal w) in
  data ← read_bincoded_file file;
  match boundless_assume_cycle_count market, data ≫= parse_u64 with
  | _, Some cycles => mret cycles
  | Some cycles, None => mret cycles
  | None, None =>
      session ← ask (at_host (execute segment_limit w));
      po2s ← once (lift_at (match session with
        | Ok po2s => Done po2s
        | Err e => Failed (ExecutionError e)
        | Panic e => Failed (OtherError e)
        end));
      cycles ← once (lift_at (no_err (total_cycles po2s)));
      _ ← save_to_bincoded_file (bincode_u64 cycles) file;
      mret cycles
  end.

Definition input_url (r2 : option (R2Storage S3)) (w : Workload R) : BRun string :=
  let file := input_file_name (wl_image w) (wl_journal w) in
  known ← cached_url file;
  match known with
  | Some url => mret url
  | None =>
      input ← once (lift_at (map_err OtherError (guest_env w)));
      url ← retry (at_host (match r2 with
        | Some r2 => upload_input r2 input
        | None => client_upload_input client input end));
      _ ← save_to_bincoded_file (bincode_string url) file;
      mret url
  end.

Definition segment_count (cycles : Z) : f64 := f64_of_Z ((cycles + 999999) `div` 1000000).

Definition offer (cycles rpc_time : Z) : outcome Offer :=
  let segments := segment_count cycles in
  let bid_delay_time := f64_as 64 (f64_mul (boundless_order_bid_delay_factor market) segments) in
  let corrected_lock_timeout_factor :=
    f64_add (boundless_order_ramp_up_factor market) (boundless_order_lock_timeout_factor market) in
  let corrected_expiry_factor :=
    f64_add corrected_lock_timeout_factor (boundless_order_expiry_factor market) in
  start ← u64_add host rpc_time bid_delay_time;
  Ok {| min_price := u256_mul (boundless_cycle_min_wei market) cycles;
        max_price := u256_mul (boundless_cycle_max_wei market) cycles;
        bidding_start := start;
        lock_stake := u256_mul (boundless_mega_cycle_stake market) (f64_as 256 segments);
        ramp_up_period := f64_as 32 (f64_mul (boundless_order_ramp_up_factor market) segments);
        lock_timeout := f64_as 32 (f64_mul corrected_lock_timeout_factor segments);
        timeout := f64_as 32 (f64_mul corrected_expiry_factor segments) |}.

(** The order is handed to the market, whatever comes of it. *)
Definition submit (order : Order) : BRun (outcome (Z * Z)) := ask (fun d =>
  at_host (match boundless_order_stream_url market with
    | Some _ => submit_offchain client order
    | None => submit_onchain client order end)
    {| cached := cached d; orders := order :: orders d; host_state := host_state d |}).

Definition fresh_nonce (r : Requirements) (skip_await : bool) : BRun (R + Z) :=
  if boundless_look_back market then
    '(proof, target) ← look_back r skip_await None;
    match proof with
    | Some proof => mret (inl proof)
    | None => nonce ← once (lift_at (no_err (unwrap "nonce_target" target))); mret (inr nonce)
    end
  else nonce ← get_next_fresh_nonce r None; mret (inr nonce).

Definition submit_request (r2 : option (R2Storage S3)) (w : Workload R) (args : ProvingArgs)
    (r : Requirements) (nonce : Z) : BRun R :=
  program ← program_url r2 w;
  cycles ← cycle_count (segment_limit args) w;
  input ← input_url r2 w;
  rpc_time ← retry (at_host (latest_timestamp client));
  offer ← once (lift_at (no_err (offer cycles rpc_time)));
  _ ← once (lift_at (map_err OtherError (offer_build offer)));
  sent ← submit {| order_id := request_id_of nonce; order_requirements := r;
                   order_journal := wl_journal w; order_cycles := cycles;
                   order_program_url := program; order_input_url := input; order_offer := offer |};
  '(id, expires_at) ← once (lift_at (map_err OtherError sent));
  if skip_await_proof args then fail NotAwaitingProof
  else
    proof ← retrieve_proof id (wl_image w) (boundless_order_check_interval market) expires_at;
    match proof with
    | Some proof => mret proof
    | None => fail (OtherError "retrieve_proof")
    end.

Definition request_proof (r2 : option (R2Storage S3)) (w : Workload R) (args : ProvingArgs)
    (r : Requirements) : BRun R :=
  found ← fresh_nonce r (skip_await_proof args);
  match found with
  | inl proof => mret proof
  | inr nonce => submit_request r2 w args r nonce
  end.

(** The loop that waits for a request to be fulfilled. *)
Definition request_until_proved (r2 : option (R2Storage S3)) (w : Workload R) (args : ProvingArgs)
    (r : Requirements) : BRun R :=
  loop (fun _ : unit =>
    result ← try_run (request_proof r2 w args r);
    match result with
    | inr (OtherError _) => mret (inl tt)
    | inr e => fail e
    | inl proof => mret (inr proof)
    end) tt.
End market.

Definition requirements (w : Workload R) : Requirements :=
  let r := digest_match (wl_image w) (journal_digest (wl_journal w)) in
  {| req_image_id := req_image_id r; req_predicate_type := req_predicate_type r;
     req_predicate_data := req_predicate_data r; req_callback_addr := req_callback_addr r;
     req_callback_gas := req_callback_gas r; req_selector := groth16_selector |}.

Definition market_deployment (market : MarketProviderConfig) : option D :=
  match boundless_chain_id market ≫= deployment_from_chain_id with
  | Some d => Some d
  | None => deployment_build (boundless_market_address market) (boundless_verifier_router_address market)
      (boundless_set_verifier_address market) (boundless_stake_token_address market)
      (boundless_order_stream_url market)
  end.

Definition client_of (market : MarketProviderConfig) (storage : StorageProviderConfig) : Client D :=
  {| client_key := boundless_wallet_key market; client_rpc_url := boundless_rpc_url market;
     client_deployment := market_deployment market; client_storage := storage |}.

Definition run_boundless_client (market : MarketProviderConfig) (storage : StorageProviderConfig)
    (domain : option string) (w : Workload R) (args : ProvingArgs) : BRun R :=
  r2 ← once (lift_at (map_err OtherError (match domain with
    | Some domain => r2 ← R2Storage_new storage domain; Ok (Some r2)
    | None => Ok None end)));
  _ ← once (lift_at (map_err OtherError (storage_from_config storage)));
  let client := client_of market storage in
  _ ← retry (at_host (build_client client));
  request_until_proved market client r2 w args (requirements w).
End client.
