(* ===== verification/Transact.v ===== *)
(** * crates/sync/src/transact/{fillers,provider,safe,signer,mod}.rs

    How transactions are paid for and sent: the premiums on gas prices, the loop
    that raises the fees of a transaction that nodes find underpriced, and the
    call through a Safe. *)

From S2P Require Import Prelude Bytes Floats.
Open Scope Z_scope.

(** ** Premiums *)

Definition u128_add := fun a b => arith host 128 (a + b).
Definition u128_mul := fun a b => arith host 128 (a * b).

(** [PremiumExecGasFiller::make_premium] and [PremiumBlobGasFiller::make_premium]. *)
Definition exec_premium (premium price : Z) : outcome Z :=
  let price := Z.max price 1 in
  extra ← u128_mul price (Z.max premium 1);
  u128_add price (extra / 100).
Definition blob_premium (premium price : Z) : outcome Z :=
  let price := Z.max price 1 in
  extra ← u128_mul price premium;
  u128_add price (extra / 100).

(** The fees of a transaction request. *)
Record Fees := {
  gas_price : option Z; max_fee_per_gas : option Z; max_priority_fee_per_gas : option Z;
  max_fee_per_blob_gas : option Z;
}.

Definition map_fee (f : Z -> outcome Z) (fee : option Z) : outcome (option Z) :=
  match fee with Some fee => fee ← f fee; Ok (Some fee) | None => Ok None end.

(** [PremiumExecGasFiller::fill], after alloy's filler; a transaction that was
    built already is left alone. *)
Definition exec_fill (premium : Z) (builder : bool) (filled : Fees) : outcome Fees :=
  if builder then
    price ← map_fee (exec_premium premium) (gas_price filled);
    base ← map_fee (exec_premium premium) (max_fee_per_gas filled);
    priority ← map_fee (exec_premium premium) (max_priority_fee_per_gas filled);
    Ok {| gas_price := price; max_fee_per_gas := base; max_priority_fee_per_gas := priority;
          max_fee_per_blob_gas := max_fee_per_blob_gas filled |}
  else Ok filled.

Definition BLOB_TX_MIN_BLOB_GASPRICE : Z := 1.
(** [PremiumBlobGasFiller::prepare], from the base fees of the last blocks, and
    the price that its [fill] passes on. *)
Definition blob_prepare (tx : Fees) (base_fee_per_blob_gas : list Z) : outcome Z :=
  match base_fee_per_blob_gas with
  | [] => Err "NullResp"
  | fee :: fees =>
      doubled ← u128_mul (foldr Z.max fee fees) 2;
      Ok (Z.max (default BLOB_TX_MIN_BLOB_GASPRICE (max_fee_per_blob_gas tx)) doubled)
  end.
Definition blob_fill (premium : Z) (fillable : Z) : outcome Z := blob_premium premium fillable.

(** ** The safe provider *)

(** What the loop reads of a filled envelope. *)
Record Envelope := {
  sender : option Z; env_max_fee_per_gas : Z; env_max_priority_fee_per_gas : option Z;
  env_max_fee_per_blob_gas : option Z;
}.
(** What the loop sets of the transaction it sends. *)
Record Broadcast := {
  b_nonce : Z; b_max_fee_per_gas : Z; b_max_priority_fee_per_gas : option Z;
  b_max_fee_per_blob_gas : option Z;
}.

(** The node and the filler.  [fill] gives no envelope for a transaction that is
    not signed. *)
Class TxNode (N Tx Pending : Type) := {
  latest_block_number : N -> Z * N;
  fill : Tx -> N -> outcome (option Envelope) * N;
  call_at : Tx -> Z -> Z -> N -> outcome unit * N;
  transaction_count_at : Z -> Z -> N -> outcome Z * N;
  (** The fees that are not set remain those of the request. *)
  broadcast : Tx -> Broadcast -> N -> outcome Pending * N;
}.

Section provider.
Context {N Tx Pending : Type} `{TxNode N Tx Pending}.

(** The node, and the transactions that were broadcast, the latest first. *)
Abbreviation Wire := (N * list Broadcast)%type.
Definition on_wire {A} (q : N -> outcome A * N) : St Wire A := fun '(n, sent) =>
  let '(r, n) := q n in (r, (n, sent)).

(** [(fee as f64 * fee_factor) as u128]. *)
Definition scale (fee_factor : f64) (fee : Z) : Z := f64_as 128 (f64_mul (f64_of_Z fee) fee_factor).

Definition scaled (fee_factor : f64) (e : Envelope) (nonce : Z) : Broadcast :=
  {| b_nonce := nonce; b_max_fee_per_gas := scale fee_factor (env_max_fee_per_gas e);
     b_max_priority_fee_per_gas := scale fee_factor <$> env_max_priority_fee_per_gas e;
     b_max_fee_per_blob_gas := scale fee_factor <$> env_max_fee_per_blob_gas e |}.

(** What is sent in one attempt: only after the call succeeded at the latest
    block, and with the sender's nonce at that block. *)
Definition prepare_attempt (tx : Tx) (fee_factor : f64) : St Wire Broadcast :=
  latest_block ← on_wire (fun n => let '(b, n) := latest_block_number n in (Ok b, n));
  filled ← on_wire (fill tx);
  envelope ← lift (unwrap "as_envelope" filled);
  sender ← lift (unwrap "recover_signer" (sender envelope));
  _ ← on_wire (call_at tx sender latest_block);
  nonce ← on_wire (transaction_count_at sender latest_block);
  mret (scaled fee_factor envelope nonce).

(** The broadcast, whose result the loop inspects. *)
Definition attempt_broadcast (tx : Tx) (b : Broadcast) : St Wire (outcome Pending) := fun '(n, sent) =>
  let '(r, n) := broadcast tx b n in
  match r with Panic w => (Panic w, (n, b :: sent)) | r => (Ok r, (n, b :: sent)) end.

(** [fee_factor *= 1.1]. *)
Definition raise (fee_factor : f64) : f64 := f64_mul fee_factor (f64_lit 11 10).

(** [send_transaction], as far as the fuel goes: [None] if nodes still find the
    transaction underpriced then. *)
Fixpoint send_loop (fuel : nat) (tx : Tx) (fee_factor : f64) : St Wire (option Pending) :=
  match fuel with
  | O => mret None
  | S fuel =>
      b ← prepare_attempt tx fee_factor;
      r ← attempt_broadcast tx b;
      match r with
      | Ok pending => mret (Some pending)
      | Err e => if contains "underpriced" e then send_loop fuel tx (raise fee_factor) else lift (Err e)
      | Panic w => lift (Panic w)
      end
  end.
Definition send_transaction (fuel : nat) (tx : Tx) : St Wire (option Pending) :=
  send_loop fuel tx (f64_of_Z 1).
End provider.

(** ** Through a Safe *)

Record SafeCall := {
  safe_to : Z; safe_value : Z; safe_data : bytes; safe_operation : Z; safe_tx_gas : Z;
  safe_base_gas : Z; safe_gas_price : Z; safe_gas_token : Z; safe_refund_receiver : Z;
  safe_signatures : bytes;
}.
(** The signature by which the sender of the transaction approves it: r is the
    owner, s is zero, v is one. *)
Definition approval (from : Z) : bytes :=
  replicate 12 Byte.x00 ++ address_bytes from ++ replicate 32 Byte.x00 ++ [Byte.x01].
Definition exec_safe_txn (to value : option Z) (input : option bytes) (gas_limit : option Z) (from : Z)
    : outcome SafeCall :=
  to ← unwrap "to" to;
  Ok {| safe_to := to; safe_value := default 0 value; safe_data := default [] input;
        safe_operation := 0; safe_tx_gas := default 0 gas_limit; safe_base_gas := 0;
        safe_gas_price := 0; safe_gas_token := 0; safe_refund_receiver := 0;
        safe_signatures := approval from |}.

(** ** Signers *)

(** The arguments of [define_signer_args]. *)
Record SignerArgs := {
  signer_key : option string; aws_key_id : option string; google_project_id : option string;
  google_location : option string; google_keyring : option string; google_key_name : option string;
}.

(** alloy's signers; a wallet is given by the address of its signer. *)
Class Signers (S : Type) := {
  local_signer : string -> outcome Z;
  aws_signer : string -> option Z -> St S Z;
  gcp_client : St S unit;
  gcp_signer : string -> string -> string -> string -> option Z -> St S Z;
}.

Section signer.
Context {S : Type} `{Signers S}.

(** The parser sees to it that one of the three is given completely. *)
Definition args_to_wallet (a : SignerArgs) (chain_id : option Z) : St S Z :=
  match signer_key a, aws_key_id a with
  | Some key, _ => lift (local_signer key)
  | None, Some key_id => aws_signer key_id chain_id
  | None, None =>
      project_id ← lift (unwrap "google_project_id" (google_project_id a));
      location ← lift (unwrap "google_location" (google_location a));
      keyring_name ← lift (unwrap "google_keyring" (google_keyring a));
      _ ← gcp_client;
      key_name ← lift (unwrap "google_key_name" (google_key_name a));
      gcp_signer project_id location keyring_name key_name chain_id
  end.
Definition signer_of_key (key : string) : SignerArgs :=
  {| signer_key := Some key; aws_key_id := None; google_project_id := None; google_location := None;
     google_keyring := None; google_key_name := None |}.
End signer.

(** ** What is paid *)

(** A premium never lowers a price, and adds exactly the percentage. *)
Lemma exec_premium_Ok premium price r :
  0 <= premium -> exec_premium premium price = Ok r ->
  r = Z.max price 1 + Z.max price 1 * Z.max premium 1 / 100 /\ Z.max price 1 <= r.
Proof.
  unfold exec_premium. intros Hp E. ok_inv. apply arith_checked in E0 as [-> _]; [|done].
  apply arith_checked in E as [-> _]; [|done]. split; [done|].
  assert (0 <= Z.max price 1 * Z.max premium 1 / 100) by (apply Z.div_pos; lia). lia.
Qed.

Lemma blob_premium_Ok premium price r :
  0 <= premium -> blob_premium premium price = Ok r ->
  r = Z.max price 1 + Z.max price 1 * premium / 100 /\ Z.max price 1 <= r.
Proof.
  unfold blob_premium. intros Hp E. ok_inv. apply arith_checked in E0 as [-> _]; [|done].
  apply arith_checked in E as [-> _]; [|done]. split; [done|].
  assert (0 <= Z.max price 1 * premium / 100) by (apply Z.div_pos; lia). lia.
Qed.

(** A premium of zero is none for blobs, and one percent for execution. *)
Lemma zero_premium price :
  0 < price -> price * 2 < 2 ^ 128 ->
  blob_premium 0 price = Ok price /\ exec_premium 0 price = Ok (price + price / 100).
Proof.
  intros Hp Hb. unfold blob_premium, exec_premium, u128_mul, u128_add.
  rewrite (Z.max_l price) by lia. replace (Z.max 0 1) with 1 by lia. rewrite !Z.mul_1_r, !Z.mul_0_r.
  assert (price / 100 <= price) by (apply Z.div_le_upper_bound; lia).
  assert (0 <= price / 100) by (apply Z.div_pos; lia).
  rewrite !arith_fits by (unfold in_width; lia). cbn. rewrite Z.div_0_l, !arith_fits by (unfold in_width; lia).
  by rewrite Z.add_0_r.
Qed.

(** ** What is broadcast *)

Section provider_spec.
Context {N Tx Pending : Type} `{TxNode N Tx Pending}.

(** The k-th power of 1.1, and a fee times it, as floats. *)
Definition power (k : nat) : f64 := Nat.iter k (fun f => f64_mul f (f64_lit 11 10)) (f64_of_Z 1).
Definition times (k : nat) (fee : Z) : Z := f64_as 128 (f64_mul (f64_of_Z fee) (power k)).

(** A broadcast with its fees raised k times: the call of the filled transaction
    succeeded at a block that was the latest one, the nonce is the sender's at that
    block, and each fee is the filler's, raised. *)
Definition viable (tx : Tx) (k : nat) (b : Broadcast) : Prop :=
  exists n1 n2 n3 n4 n5 block envelope from,
    latest_block_number n1 = (block, n2) /\ fill tx n2 = (Ok (Some envelope), n3) /\
    sender envelope = Some from /\ call_at tx from block n3 = (Ok tt, n4) /\
    transaction_count_at from block n4 = (Ok (b_nonce b), n5) /\
    b_max_fee_per_gas b = times k (env_max_fee_per_gas envelope) /\
    b_max_priority_fee_per_gas b = times k <$> env_max_priority_fee_per_gas envelope /\
    b_max_fee_per_blob_gas b = times k <$> env_max_fee_per_blob_gas envelope.
Definition refused (tx : Tx) (b : Broadcast) : Prop :=
  exists n e n', broadcast tx b n = (Err e, n') /\ contains "underpriced" e = true.

(** The broadcasts so far, oldest first, from the k-th attempt on. *)
Inductive attempts (tx : Tx) : nat -> list Broadcast -> Prop :=
| attempts_none k : attempts tx k []
| attempts_last k b : viable tx k b -> attempts tx k [b]
| attempts_refused k b bs : viable tx k b -> refused tx b -> attempts tx (S k) bs -> attempts tx k (b :: bs).

Lemma prepare_attempt_facts tx k n sent r n' sent' :
  prepare_attempt tx (power k) (n, sent) = (r, (n', sent')) ->
  sent' = sent /\ forall b, r = Ok b -> viable tx k b.
Proof.
  unfold prepare_attempt, mbind, St_bind, on_wire, lift.
  destruct (latest_block_number n) as [block n1] eqn:E1.
  destruct (fill tx n1) as [[filled|e|w] n2] eqn:E2; [|by intros [= <- <- <-]..].
  destruct filled as [envelope|]; cbn [unwrap]; [|by intros [= <- <- <-]].
  destruct (sender envelope) as [from|] eqn:Ef; cbn [unwrap]; [|by intros [= <- <- <-]].
  destruct (call_at tx from block n2) as [[[]|e|w] n3] eqn:E3; [|by intros [= <- <- <-]..].
  destruct (transaction_count_at from block n3) as [[nonce|e|w] n4] eqn:E4; [|by intros [= <- <- <-]..].
  intros [= <- <- <-]. split; [done|]. intros b [= <-]. exists n, n1, n2, n3, n4, block, envelope, from. done.
Qed.

Lemma send_loop_attempts fuel tx k n sent r n' sent' :
  send_loop fuel tx (power k) (n, sent) = (r, (n', sent')) ->
  exists bs, sent' = rev bs ++ sent /\ attempts tx k bs /\ (length bs <= fuel)%nat /\
    match r with
    | Ok (Some p) => exists b front n1, bs = front ++ [b] /\ broadcast tx b n1 = (Ok p, n')
    | Ok None => length bs = fuel
    | _ => True
    end.
Proof.
  revert k n sent. induction fuel as [|fuel IH]; intros k n sent; cbn [send_loop].
  { intros [= <- <- <-]. exists []. split_and!; try done. constructor. }
  unfold mbind, St_bind.
  destruct (prepare_attempt tx (power k) (n, sent)) as [[b|e|w] [n1 sent1]] eqn:E;
    apply prepare_attempt_facts in E as [-> Hb];
    [|intros [= <- <- <-]; exists []; split_and!; try done; [constructor|cbn; lia]..].
  specialize (Hb b eq_refl). unfold attempt_broadcast.
  destruct (broadcast tx b n1) as [[pending|e|w] n2] eqn:Eb.
  - intros [= <- <- <-]. exists [b]. split_and!; try done; [by constructor|cbn; lia|by exists b, [], n1].
  - destruct (contains "underpriced" e) eqn:Eu.
    + intros Hloop. apply (IH (S k)) in Hloop as (bs & -> & Ha & Hl & Hr).
      exists (b :: bs). split; [cbn; by rewrite <-app_assoc|].
      split; [constructor; [done|by exists n1, e, n2|done]|]. split; [cbn; lia|].
      destruct r as [[p|]| |]; [|cbn; by rewrite Hr|done..].
      destruct Hr as (b' & front & n0 & -> & Hp). by exists b', (b :: front), n0.
    + intros [= <- <- <-]. exists [b]. split_and!; try done; [by constructor|cbn; lia].
  - intros [= <- <- <-]. exists [b]. split_and!; try done; [by constructor|cbn; lia].
Qed.

(** The first attempt keeps the fees of the filler. *)
Lemma times_first fee : 0 <= fee < 2 ^ 53 -> times 0 fee = fee.
Proof. intros Hf. unfold times. cbn [power Nat.iter]. rewrite f64_mul_one by done. apply f64_of_Z_exact; lia. Qed.

(** C24. How a transaction is sent. Whatever happens, each broadcast follows a call of the filled
    transaction that succeeded at the latest block, and carries the sender's nonce at that block;
    every broadcast but the last was refused as underpriced; and the k-th one, counted from zero,
    multiplies every one of the filler's fees (for gas, as priority, and for blobs; a fee that is not set stays so) with
    the k-th power of 1.1. The first one leaves fees below 2^53 wei unchanged. If a transaction is
    pending in the end, it is the answer to the last broadcast; and the loop is left without one only by
    an error, a panic, or, as far as the fuel goes, because every broadcast was refused. *)
Theorem send_transaction_attempts fuel tx (n : N) r n' sent :
  send_transaction fuel tx (n, []) = (r, (n', sent)) ->
  attempts tx 0 (rev sent) /\ (length sent <= fuel)%nat /\
  match r with
  | Ok (Some p) => exists b earlier n1, sent = b :: earlier /\ broadcast tx b n1 = (Ok p, n')
  | Ok None => length sent = fuel
  | _ => True
  end /\
  forall b bs, rev sent = b :: bs -> exists n1 n2 envelope, fill tx n1 = (Ok (Some envelope), n2) /\
    (0 <= env_max_fee_per_gas envelope < 2 ^ 53 -> b_max_fee_per_gas b = env_max_fee_per_gas envelope) /\
    (0 <= default 0 (env_max_priority_fee_per_gas envelope) < 2 ^ 53 ->
       b_max_priority_fee_per_gas b = env_max_priority_fee_per_gas envelope) /\
    (0 <= default 0 (env_max_fee_per_blob_gas envelope) < 2 ^ 53 ->
       b_max_fee_per_blob_gas b = env_max_fee_per_blob_gas envelope).
Proof.
  intros E. apply (send_loop_attempts fuel tx 0) in E as (bs & -> & Ha & Hl & Hr).
  rewrite app_nil_r, rev_involutive, length_rev. split_and!; [done|done| |].
  - destruct r as [[p|]| |]; try done. destruct Hr as (b & front & n1 & -> & Hp).
    exists b, (rev front), n1. by rewrite rev_app_distr.
  - intros b l ->. assert (Hv : viable tx 0 b) by by inversion Ha.
    destruct Hv as (? & n1 & n2 & ? & ? & ? & envelope & ? & ? & Hfill & ? & ? & ? & -> & -> & ->).
    exists n1, n2, envelope. split; [done|]. split; [apply times_first|].
    split; [destruct (env_max_priority_fee_per_gas envelope)|destruct (env_max_fee_per_blob_gas envelope)];
      cbn; intros ?; rewrite ?times_first; done.
Qed.
End provider_spec.

(** ** A concrete node

    It finds a transaction underpriced until the maximal fee reaches 110. *)
#[local] Instance tx_demo : TxNode Z unit Z := {|
  latest_block_number := fun n => (7, n);
  fill := fun _ n => (Ok (Some {| sender := Some 5; env_max_fee_per_gas := 100;
    env_max_priority_fee_per_gas := Some 10; env_max_fee_per_blob_gas := Some 4 |}), n);
  call_at := fun _ _ _ n => (Ok tt, n); transaction_count_at := fun _ _ n => (Ok n, n);
  broadcast := fun _ b n => (if b_max_fee_per_gas b <? 110 then Err "replacement transaction underpriced"%string
    else Ok (b_max_fee_per_gas b), n) |}.

Lemma send_transaction_attempts_witness :
  exists b1 b2, send_transaction 5 tt (3, []) = (Ok (Some 110), (3, [b2; b1])) /\
    b_max_fee_per_gas b1 = 100 /\ b_max_priority_fee_per_gas b1 = Some 10 /\
    b_max_fee_per_blob_gas b1 = Some 4 /\ attempts tt 0 [b1; b2].
Proof.
  destruct (send_transaction 5 tt (3, [])) as [r [n' sent]] eqn:E.
  destruct (send_transaction_attempts 5 tt 3 r n' sent E) as (Ha & _ & _ & Hfirst).
  vm_compute in E. injection E as <- <- <-.
  edestruct Hfirst as (n1 & n2 & envelope & Hfill & Hgas & Hprio & Hblob); [reflexivity|].
  injection Hfill as <- <-. do 2 eexists. split; [reflexivity|].
  split; [apply Hgas; cbn; lia|]. split; [apply Hprio; cbn; lia|]. split; [apply Hblob; cbn; lia|exact Ha].
Defined.
