(* ===== verification/Backend.v ===== *)
(** * crates/prover/src/risczero/{mod,zkvm}.rs and proof.rs

    Proof files and the way to one: the local prover or one of the services is
    given an image, a journal and the guest's input, and its receipt is saved
    under the name of its image and journal. *)

From S2P Require Import Prelude Bytes Config Journal Blobs Precondition Oracle Executor L1Chain Core Stitching DA Witgen Tasks TasksSpec.

(** The proof files of the working directory, by proof id (the version and the
    suffix of a file name are constants of a run), and the rest of the host. *)
Record World (N R : Type) := { proof_files : gmap Z R; node : N }.
Arguments proof_files {N R}. Arguments node {N R}.

(** What the zkVM is given to run. *)
Record ExecutorEnv (R : Type) := {
  env_segment_limit : Z; env_slices : list (list Z); env_frames : list bytes; env_dev_mode : bool;
  env_receipts : list R; env_assumptions : list R }.
Arguments env_segment_limit {R}. Arguments env_slices {R}. Arguments env_frames {R}.
Arguments env_dev_mode {R}. Arguments env_receipts {R}. Arguments env_assumptions {R}.

(** The provers: risc0's local one, and the clients of the two services. *)
Class Backends (N R : Type) := {
  is_dev_mode : bool; force_recursion : bool; is_groth16 : R -> bool;
  prove_with_opts : ExecutorEnv R -> Z -> bool -> St N R;
  boundless_configured : bool; should_use_bonsai : bool;
  run_boundless_client : ProvingArgs -> Z -> bytes -> list (list Z) -> list bytes -> list R -> Pr N R;
  run_bonsai_client : ProvingArgs -> Z -> list (list Z) -> list bytes -> list R -> bool -> Pr N R;
}.

Definition proof_bytes (image : Z) (journal : bytes) : bytes := b256_bytes image ++ journal.
Definition proof_id `{Digests} (image : Z) (journal : bytes) : Z := keccak256 (proof_bytes image journal).

Section backend.
Context {N R : Type} `{Zkvm R} `{Digests} `{Images} `{Backends N R}.

Definition world : Pr (World N R) (World N R) := fun w => (Done w, w).
Definition save_proof (file : Z) (proof : R) : Pr (World N R) unit := fun w =>
  (Done tt, {| proof_files := <[file := proof]> (proof_files w); node := node w |}).
(** A call that leaves the proof files alone. *)
Definition on_node {A} (m : Pr N A) : Pr (World N R) A := fun w =>
  let '(a, n) := m (node w) in (a, {| proof_files := proof_files w; node := n |}).
Definition call {A} (f : string -> ProvingError) (m : St N A) : Pr N A := fun n =>
  let '(o, n) := m n in (map_err f o, n).
(** A panic in a spawned task is a [JoinError]. *)
Definition spawned {A} (m : Pr N A) : Pr N A := fun n =>
  match m n with (Crashed w, n) => (Failed (OtherError w), n) | r => r end.

Definition build_zkvm_env (witness_slices : list (list Z)) (witness_frames : list bytes)
    (stitched_proofs : list R) (limit : Z) : ExecutorEnv R :=
  let written := fun r => force_recursion || is_groth16 r in
  {| env_segment_limit := limit; env_slices := witness_slices; env_frames := witness_frames;
     env_dev_mode := is_dev_mode;
     env_receipts := List.filter written stitched_proofs;
     env_assumptions := List.filter (fun r => negb (written r)) stitched_proofs |}.

Definition run_zkvm_client (image : Z) (witness_slices : list (list Z)) (witness_frames : list bytes)
    (stitched_proofs : list R) (prove_snark : bool) (args : ProvingArgs) : Pr N R :=
  if skip_await_proof args then lift_at (Failed NotAwaitingProof)
  else
    receipt ← spawned (call ExecutionError (prove_with_opts
      (build_zkvm_env witness_slices witness_frames stitched_proofs (segment_limit args)) image prove_snark));
    _ ← lift_at (map_err OtherError (receipt_verify image receipt));
    mret receipt.

Definition backend_prove (args : ProvingArgs) (journal : bytes) (witness_slices : list (list Z))
    (witness_frames : list bytes) (stitched_proofs : list R) (prove_snark : bool) : Pr N R :=
  if boundless_configured && negb is_dev_mode
  then run_boundless_client args (image_id args) journal witness_slices witness_frames stitched_proofs
  else if should_use_bonsai
  then run_bonsai_client args (image_id args) witness_slices witness_frames stitched_proofs prove_snark
  else run_zkvm_client (image_id args) witness_slices witness_frames stitched_proofs prove_snark args.

(** [seek_proof]: a proof file of the expected journal does not stop it, and a
    proof of another journal is saved under that journal's name. *)
Definition seek_proof (args : ProvingArgs) (journal : bytes) (witness_slices : list (list Z))
    (witness_frames : list bytes) (stitched_proofs : list R) (prove_snark : bool) : Pr (World N R) unit :=
  proof ← on_node (backend_prove args journal witness_slices witness_frames stitched_proofs prove_snark);
  save_proof (proof_id (image_id args) (receipt_journal proof)) proof.

(** [read_bincoded_file]. *)
Definition read_bincoded_file (file : Z) : Pr (World N R) R :=
  w ← world;
  match proof_files w !! file with
  | Some proof => mret proof
  | None => lift_at (Failed (OtherError "Failed to read proof file contents."))
  end.
End backend.

(** ** What a prover may end with *)

Section backend_spec.
Context {N R : Type} `{Zkvm R} `{Digests} `{Images} `{Backends N R}.
Implicit Types w : World N R.

(** Every proof file is named after the journal of the proof in it. *)
Definition files_ok w : Prop :=
  forall f r, proof_files w !! f = Some r -> exists image, f = proof_id image (receipt_journal r).

(** A proof whose file name is that of another image or journal. *)
Definition name_collision (image : Z) (r : R) (image' : Z) (journal : bytes) : Prop :=
  collision keccak256 (proof_bytes image (receipt_journal r)) (proof_bytes image' journal).

(** The errors of a prover. *)
Definition prover_error (args : ProvingArgs) (e : ProvingError) : Prop :=
  match e with
  | ExecutionError _ | OtherError _ => True
  | NotAwaitingProof => skip_await_proof args = true
  | _ => False
  end.

(** The two services report only such errors. *)
Definition services_ok : Prop :=
  (forall args image journal slices frames proofs n e n',
     run_boundless_client args image journal slices frames proofs n = (Failed e, n') -> prover_error args e) /\
  (forall args image slices frames proofs snark n e n',
     run_bonsai_client args image slices frames proofs snark n = (Failed e, n') -> prover_error args e).

(** ** Lemmas *)

Lemma proof_bytes_inj i1 i2 j1 j2 :
  b256 i1 -> b256 i2 -> proof_bytes i1 j1 = proof_bytes i2 j2 -> i1 = i2 /\ j1 = j2.
Proof.
  unfold proof_bytes. intros ?? [Hi ->]%app_inj_1; [|unfold b256_bytes; by rewrite !length_be_bytes].
  by apply be_bytes_inj in Hi.
Qed.

Lemma proof_id_journal image r image' journal :
  proof_id image (receipt_journal r) = proof_id image' journal ->
  receipt_journal r = journal \/ name_collision image r image' journal.
Proof.
  unfold proof_id, name_collision. intros E.
  destruct (hash_inj_or_collision _ _ _ E) as [Hb|?]; [left|by right].
  unfold proof_bytes in Hb. apply app_inj_1 in Hb as [_ ->]; [done|].
  unfold b256_bytes. by rewrite !length_be_bytes.
Qed.


Lemma on_node_files {A} (m : Pr N A) w : proof_files (on_node m w).2 = proof_files w.
Proof. unfold on_node. by destruct (m (node w)). Qed.

Lemma backend_errors args journal slices frames proofs snark n e n' :
  services_ok -> backend_prove args journal slices frames proofs snark n = (Failed e, n') ->
  prover_error args e.
Proof.
  intros [Hb Hs]. unfold backend_prove. destruct (_ && _); [apply Hb|].
  destruct should_use_bonsai; [apply Hs|]. unfold run_zkvm_client.
  destruct (skip_await_proof args) eqn:Haw; [by intros [= <- _]|].
  unfold mbind at 1, Pr_bind, spawned, call.
  destruct (prove_with_opts _ _ _ _) as [[r|e'|w] n1]; cbn; [|by intros [= <- _]..].
  unfold lift_at. destruct (receipt_verify _ _); cbn; by intros [= <- _].
Qed.

(** What was saved since [w0] was saved under the image of the arguments. *)
Definition saved_since args w0 w : Prop :=
  forall f r, proof_files w !! f = Some r ->
    proof_files w0 !! f = Some r \/ f = proof_id (image_id args) (receipt_journal r).

Lemma saved_since_trans args w0 w1 w2 :
  saved_since args w0 w1 -> saved_since args w1 w2 -> saved_since args w0 w2.
Proof. intros H1' H2' f r [Hr|?]%H2'; [by apply H1'|by right]. Qed.

Lemma seek_proof_saved args journal slices frames proofs snark w :
  saved_since args w (seek_proof args journal slices frames proofs snark w).2.
Proof.
  unfold seek_proof. unfold mbind, Pr_bind, on_node.
  destruct (backend_prove _ _ _ _ _ _ _) as [[proof|e|why] n]; intros f r Hl; cbn in Hl; auto.
  apply lookup_insert_Some in Hl as [[<- <-]|[_ Hl]]; auto.
Qed.

Lemma saved_since_files args w0 w : files_ok w0 -> saved_since args w0 w -> files_ok w.
Proof. intros Hf Hs f r [?|?]%Hs; eauto. Qed.

(** A call that saves proofs only in that way. *)
Definition saves {A} args (m : Pr (World N R) A) : Prop := forall w, saved_since args w (m w).2.

Lemma seek_proof_saves args journal slices frames proofs snark :
  saves args (seek_proof args journal slices frames proofs snark).
Proof. intros w. apply seek_proof_saved. Qed.

Lemma saves_bind {A B} args (m : Pr (World N R) A) (k : A -> Pr (World N R) B) :
  saves args m -> (forall a, saves args (k a)) -> saves args (m ≫= k).
Proof.
  intros Hm Hk w. unfold mbind, Pr_bind. pose proof (Hm w) as Hw.
  destruct (m w) as [[a|e|why] w1]; [|done..]. by eapply saved_since_trans, Hk.
Qed.

Lemma saves_still {A} args (m : Pr (World N R) A) :
  (forall w, proof_files (m w).2 = proof_files w) -> saves args m.
Proof. intros Hm w f r. rewrite Hm. auto. Qed.
End backend_spec.

Ltac saves :=
  repeat first
    [ apply seek_proof_saves
    | match goal with |- saves _ (_ ≫= _) => apply saves_bind; [|intros ?] end
    | match goal with |- saves _ (let '(_, _) := ?x in _) => destruct x end
    | match goal with |- saves _ (if ?b then _ else _) => destruct b end
    | apply saves_still; intros ?; unfold on_node, lift_at, mret, Pr_ret; repeat case_match; reflexivity ].

Definition demo_images : Images := {|
  KONA_ID := demo_image; HANA_ID := 56; HOKULEA_ID := 57; DA_HOKULEA_ID := 77 |}.
Definition demo_journal_bytes : bytes :=
  encode_packed (set_agreed 2002 (set_claimed 2008 8 (demo_main_journal 0))).
(** The local prover proves one statement; the services are not configured. *)
Definition demo_backends : Backends unit (Z * bytes) := {|
  is_dev_mode := false; force_recursion := false; is_groth16 := fun _ => false;
  prove_with_opts := fun _ image _ n => (Ok (image, demo_journal_bytes), n);
  boundless_configured := false; should_use_bonsai := false;
  run_boundless_client := fun _ _ _ _ _ _ n => (Failed (OtherError "not configured"), n);
  run_bonsai_client := fun _ _ _ _ _ _ n => (Failed (OtherError "not configured"), n) |}.
