(* ===== verification/Canoe.v ===== *)
(** * crates/prover/src/hokulea/canoe.rs and the certificate loop of
    client/proving.rs

    EigenDA certificates on the host: each certificate without a proof is put to
    the verifier contract in a Steel environment, proven by the certificate
    program, and handed to the guest, inside the witness when its receipt must
    be verified there, and as an assumption otherwise. *)

From S2P Require Import Prelude Bytes Config Journal Blobs Precondition Oracle Executor L1Chain Core Stitching DA Witgen Tasks TasksSpec Backend.

(** ** The images of the repository (build/risczero) *)

(** [bytemuck::cast::<[u32; 8], [u8; 32]>]: the words are little-endian. *)
Definition image_words (l : list Z) : Z := from_be_bytes (concat (map (fun w => rev (be_bytes 4 w)) l)).

Definition KAILUA_DA_HOKULEA_ID : list Z :=
  [0xE1FAEE6; 0xE2E9FEE0; 0x2502DB53; 0xC8CAD0F; 0x4151C68D; 0x872A04A0; 0xDACBBA9F; 0xCBA20EE5].
Definition KAILUA_FPVM_KONA_ID : list Z :=
  [0xAD84BA56; 0x5EEE6E7E; 0x1E5989C2; 0xEA64DFF1; 0x82440262; 0xB91132; 0x176C0C82; 0xB676238E].
Definition KAILUA_FPVM_HOKULEA_ID : list Z :=
  [0x7A85AE6F; 0x9B4563B5; 0x4EEF5871; 0x3221EF58; 0x7821550D; 0xE091EBBD; 0x38CD2083; 0x907A8C98].
Definition KAILUA_FPVM_HANA_ID : list Z :=
  [0xCB74E217; 0x57DC4765; 0x5678E2BD; 0x5D65A044; 0x566E08A3; 0x5424535F; 0x22649825; 0x32AFC516].

(** The canoe image that the EigenDA guest is built with. *)
Definition CANOE_IMAGE_ID : Z :=
  0xe6ae1f0ee0fee9e253db02250fad8c0c8dc65141a0042a879fbacbdae50ea2cb.

Definition kailua_build : Images := {|
  KONA_ID := image_words KAILUA_FPVM_KONA_ID; HANA_ID := image_words KAILUA_FPVM_HANA_ID;
  HOKULEA_ID := image_words KAILUA_FPVM_HOKULEA_ID; DA_HOKULEA_ID := image_words KAILUA_DA_HOKULEA_ID |}.

(** ** The certificate prover *)

Record CanoeInput (Commitment : Type) := {
  altda_commitment : Commitment; in_claimed_validity : bool; l1_head_block_hash : Z;
  l1_head_block_number : Z; in_l1_chain_id : Z }.
Arguments altda_commitment {Commitment}. Arguments in_claimed_validity {Commitment}.
Arguments l1_head_block_hash {Commitment}. Arguments l1_head_block_number {Commitment}.
Arguments in_l1_chain_id {Commitment}. Arguments Build_CanoeInput {Commitment}.

(** The call of the verifier contract: the contract of version 2 answers yes or
    no, the router with a status. *)
Inductive CertVerifierCall (Call : Type) := V2 (call : Call) | Router (call : Call).
Arguments V2 {Call}. Arguments Router {Call}.

(** The URL parser, risc0-steel, hokulea's bindings, risc0's and JSON encodings,
    and the header that kona's L1 provider finds for a hash. *)
Class CanoeHost (N R Commitment Env EvmInput Call : Type) := {
  parse_url : string -> bool;
  canoe_env : ChainSpec -> string -> Z -> St N Env;
  cert_verifier_address : Z -> Commitment -> outcome Z;
  cert_verifier_call : Commitment -> CertVerifierCall Call;
  call_v2 : Z -> Call -> Env -> St N (bool * Env);
  call_router : Z -> Call -> Env -> St N (Z * Env);
  STATUS_SUCCESS : Z;
  canoe_into_input : Env -> St N EvmInput;
  evm_input_words : EvmInput -> outcome (list Z);
  address_words : Z -> outcome (list Z);
  canoe_input_words : CanoeInput Commitment -> outcome (list Z);
  receipt_json : R -> outcome bytes;
  l1_header_number : Z -> St N Z;
}.

(** [.expect(..)] on the result of a call of the prover. *)
Definition expect_pr {X A} (why : string) (m : Pr X A) : Pr X A := fun x =>
  match m x with (Failed _, x) => (Crashed why, x) | r => r end.
(** [.map_err(|err| anyhow!(err))]. *)
Definition to_anyhow {X A} (m : Pr X A) : Pr X A := fun x =>
  match m x with (Failed e, x) => (Failed (OtherError "proving error"), x) | r => r end.

Section canoe.
Context {N R Commitment Blob Receipt Provider Env EvmInput Call : Type}.
Context `{Zkvm R} `{Digests} `{Images} `{Backends N R}.
Context `{EigenDA Commitment Blob Receipt Provider} `{CanoeHost N R Commitment Env EvmInput Call}.

Definition call_any {A} (m : St N A) : Pr (World N R) A := on_node (call OtherError m).

(** The verdict of the verifier contract. *)
Definition preflight_validity (verifier_address : Z) (commitment : Commitment) (env : Env)
    : St N (bool * Env) :=
  match cert_verifier_call commitment with
  | V2 c => call_v2 verifier_address c env
  | Router c =>
      '(status, env) ← call_router verifier_address c env;
      mret (status =? STATUS_SUCCESS, env)
  end.

(** What the proof of a certificate states. *)
Definition input_journal (input : CanoeInput Commitment) : bytes :=
  to_journal_bytes {| claimed_validity := in_claimed_validity input; canoe_proof := None;
    cert_l1_head := l1_head_block_hash input; cert_l1_chain_id := in_l1_chain_id input |}
    (altda_commitment input).

(** [create_cert_validity_proof]. *)
Definition create_cert_validity_proof (eth_rpc_url : string) (proving_args : ProvingArgs)
    (input : CanoeInput Commitment) : Pr (World N R) R :=
  _ ← lift_at (map_err OtherError (ensure (parse_url eth_rpc_url) "Failed to parse Ethereum RPC URL"));
  env ← call_any (canoe_env (chain_spec (in_l1_chain_id input)) eth_rpc_url (l1_head_block_number input));
  verifier_address ← lift_at (map_err OtherError
    (cert_verifier_address (in_l1_chain_id input) (altda_commitment input)));
  '(preflight_validity, env) ← call_any (preflight_validity verifier_address (altda_commitment input) env);
  _ ← lift_at (map_err OtherError
        (ensure (Bool.eqb (in_claimed_validity input) preflight_validity) "claimed_validity"));
  evm_input ← call_any (canoe_into_input env);
  let journal := input_journal input in
  let file_name := proof_id DA_HOKULEA_ID journal in
  slice1 ← lift_at (map_err OtherError (evm_input_words evm_input));
  slice2 ← lift_at (map_err OtherError (address_words verifier_address));
  slice3 ← lift_at (map_err OtherError (canoe_input_words input));
  _ ← to_anyhow (seek_proof proving_args journal [slice1; slice2; slice3] [] [] false);
  read_bincoded_file file_name.

Definition with_proof (proof : bytes) (v : CertValidity) : CertValidity :=
  {| claimed_validity := claimed_validity v; canoe_proof := Some proof;
     cert_l1_head := cert_l1_head v; cert_l1_chain_id := cert_l1_chain_id v |}.

Definition cert_input (commitment : Commitment) (v : CertValidity) (number : Z) : CanoeInput Commitment :=
  {| altda_commitment := commitment; in_claimed_validity := claimed_validity v;
     l1_head_block_hash := cert_l1_head v; l1_head_block_number := number;
     in_l1_chain_id := cert_l1_chain_id v |}.

(** The loop over [da_witness.validity]: the certificates with their proofs, and
    the receipts that become assumptions. *)
Fixpoint prove_certs (eth_rpc_url : string) (proving_args : ProvingArgs)
    (certs : list (Commitment * CertValidity)) (canoe_proofs : list R)
    : Pr (World N R) (list (Commitment * CertValidity) * list R) :=
  match certs with
  | [] => mret ([], canoe_proofs)
  | (commitment, validity) :: certs =>
      '(validity, canoe_proofs) ←
        (if bool_decide (is_Some (canoe_proof validity)) then mret (validity, canoe_proofs)
         else
           number ← expect_pr "Failed to get l1 head block for canoe"
             (call_any (l1_header_number (cert_l1_head validity)));
           receipt ← expect_pr "Canoe proof creation failed"
             (create_cert_validity_proof eth_rpc_url proving_args
                (cert_input commitment validity number));
           if is_groth16 receipt then
             json ← expect_pr "Canoe proof serialization failed"
               (lift_at (map_err OtherError (receipt_json receipt)));
             mret (with_proof json validity, canoe_proofs)
           else mret (validity, canoe_proofs ++ [receipt]));
      '(certs, canoe_proofs) ← prove_certs eth_rpc_url proving_args certs canoe_proofs;
      mret ((commitment, validity) :: certs, canoe_proofs)
  end.

(** The EigenDA branch of [run_proving_client], after the run of the client. *)
Definition prove_eigen_da (l1_node_address : option string) (proving_args : ProvingArgs)
    (da_witness : EigenDAWitness Commitment Blob)
    : Pr (World N R) (EigenDAWitness Commitment Blob * list R) :=
  url ← expect_pr "Missing Hokulea L1 Node Provider"
    (lift_at (map_err OtherError (ok_or "None" l1_node_address)));
  '(certs, canoe_proofs) ← prove_certs url proving_args (validity da_witness) [];
  mret ({| recency := recency da_witness; validity := certs; blob := blob da_witness |}, canoe_proofs).
End canoe.

(** ** What becomes of the certificates *)

Section canoe_spec.
Context {N R Commitment Blob Provider Env EvmInput Call : Type}.
Context `{Zkvm R} `{Digests} `{Images} `{Backends N R}.
Context `{EigenDA Commitment Blob R Provider} `{CanoeHost N R Commitment Env EvmInput Call}.
Implicit Types w : World N R.

(** The proof of a statement that was among the files, or one whose file name
    collides with that of the statement's. *)
Definition stored w (r : R) (journal : bytes) : Prop :=
  proof_files w !! proof_id DA_HOKULEA_ID journal = Some r /\ receipt_journal r = journal.
Definition misnamed (r : R) (journal : bytes) : Prop :=
  exists image, name_collision image r DA_HOKULEA_ID journal.

(** A certificate [x] and what the guest gets of it, [y]: one that came with a
    proof is kept; the proof of any other is a file that was there before, and
    goes into the witness if the guest must verify it, in a form that the guest
    accepts, and to the assumptions otherwise. *)
Definition cert_proven w (assumptions : list R) (x y : Commitment * CertValidity) : Prop :=
  y.1 = x.1 /\
  match canoe_proof x.2 with
  | Some _ => y.2 = x.2
  | None =>
      let journal := to_journal_bytes x.2 x.1 in
      exists r, (stored w r journal \/ misnamed r journal) /\
        if is_groth16 r then
          exists json, receipt_json r = Ok json /\ y.2 = with_proof json x.2 /\
            (receipt_journal r = journal -> receipt_verify DA_HOKULEA_ID r = Ok tt ->
             forall zkvm, validate_cert_receipt zkvm DA_HOKULEA_ID y.2 y.1 = Ok tt)
        else y.2 = x.2 /\ r ∈ assumptions
  end.

(** ** Lemmas *)

Lemma expect_pr_Done {X A} why (m : Pr X A) x a x' :
  expect_pr why m x = (Done a, x') -> m x = (Done a, x').
Proof. unfold expect_pr. by destruct (m x) as [[]]. Qed.

Lemma to_anyhow_Done {X A} (m : Pr X A) x a x' : to_anyhow m x = (Done a, x') -> m x = (Done a, x').
Proof. unfold to_anyhow. by destruct (m x) as [[]]. Qed.

Lemma saves_expect {A} args why (m : Pr (World N R) A) : saves args m -> saves args (expect_pr why m).
Proof. intros Hm w. unfold expect_pr. pose proof (Hm w) as Hw. by destruct (m w) as [[] ?]. Qed.

Lemma saves_anyhow {A} args (m : Pr (World N R) A) : saves args m -> saves args (to_anyhow m).
Proof. intros Hm w. unfold to_anyhow. pose proof (Hm w) as Hw. by destruct (m w) as [[] ?]. Qed.

Lemma create_saves url args (input : CanoeInput Commitment) :
  saves args (create_cert_validity_proof (N := N) (R := R) url args input).
Proof.
  unfold create_cert_validity_proof, call_any, read_bincoded_file, world.
  saves; try (apply saves_anyhow; saves).
Qed.

(** Every error of the loop is unwrapped. *)
Definition unfailing {X A} (m : Pr X A) : Prop := forall x e, (m x).1 <> Failed e.

Lemma unfailing_bind {X A B} (m : Pr X A) (k : A -> Pr X B) :
  unfailing m -> (forall a, unfailing (k a)) -> unfailing (m ≫= k).
Proof.
  intros Hm Hk x e. unfold mbind, Pr_bind. specialize (Hm x).
  destruct (m x) as [[a|e'|why] x1]; [apply Hk|by specialize (Hm e')|done].
Qed.

Lemma unfailing_expect {X A} why (m : Pr X A) : unfailing (expect_pr why m).
Proof. intros x e. unfold expect_pr. by destruct (m x) as [[]]. Qed.

Lemma unfailing_ret {X A} (a : A) : unfailing (mret a : Pr X A).
Proof. done. Qed.

Lemma prove_certs_unfailing url args certs (ps : list R) :
  unfailing (prove_certs (N := N) (R := R) (Commitment := Commitment) url args certs ps).
Proof.
  revert ps. induction certs as [|[c v] certs IH]; intros ps; cbn [prove_certs]; [apply unfailing_ret|].
  apply unfailing_bind; [|intros [v' ps']; apply unfailing_bind; [apply IH|by intros []]].
  case_bool_decide; [apply unfailing_ret|].
  repeat (apply unfailing_bind; [apply unfailing_expect|intros ?]).
  case_match; [apply unfailing_bind; [apply unfailing_expect|intros ?]|]; apply unfailing_ret.
Qed.

Lemma prove_eigen_da_unfailing l1 args (da : EigenDAWitness Commitment Blob) :
  unfailing (prove_eigen_da (N := N) (R := R) l1 args da).
Proof.
  unfold prove_eigen_da. apply unfailing_bind; [apply unfailing_expect|intros ?].
  apply unfailing_bind; [apply prove_certs_unfailing|by intros []].
Qed.

Lemma prove_certs_saves url args certs (ps : list R) :
  saves args (prove_certs (N := N) (R := R) (Commitment := Commitment) url args certs ps).
Proof.
  revert ps. induction certs as [|[c v] certs IH]; intros ps; cbn [prove_certs]; [saves|].
  apply saves_bind; [|intros [v' ps']; apply saves_bind; [apply IH|by intros []; saves]].
  case_bool_decide; [saves|]. unfold call_any.
  saves; repeat (apply saves_expect); try apply create_saves; saves.
Qed.

Lemma prove_eigen_da_saves l1 args (da : EigenDAWitness Commitment Blob) :
  saves args (prove_eigen_da (N := N) (R := R) l1 args da).
Proof.
  unfold prove_eigen_da. apply saves_bind; [apply saves_expect; saves|intros ?].
  apply saves_bind; [apply prove_certs_saves|intros []; saves].
Qed.

(** The receipt is read from the statement's file. *)
Lemma create_Done url args (input : CanoeInput Commitment) w r w' :
  create_cert_validity_proof url args input w = (Done r, w') ->
  saved_since args w w' /\ proof_files w' !! proof_id DA_HOKULEA_ID (input_journal input) = Some r.
Proof.
  intros Hc. split; [pose proof (create_saves url args input w) as Hs; by rewrite Hc in Hs|].
  unfold create_cert_validity_proof in Hc.
  repeat match type of Hc with
  | (_ ≫= _) _ = _ => apply Pr_bind_Done in Hc as (? & ? & ? & Hc)
  | (let '(_, _) := ?x in _) _ = _ => destruct x
  end.
  unfold read_bincoded_file in Hc. apply Pr_bind_Done in Hc as (v & w1 & Hv & Hc).
  unfold world in Hv. simplify_eq. destruct (proof_files v !! _) eqn:E; [|done].
  unfold mret, Pr_ret in Hc. by simplify_eq.
Qed.

(** With the images apart, it was there before. *)
Lemma create_stored url args (input : CanoeInput Commitment) w0 w r w' :
  b256 (image_id args) -> b256 DA_HOKULEA_ID -> image_id args <> DA_HOKULEA_ID ->
  files_ok w0 -> saved_since args w0 w ->
  create_cert_validity_proof url args input w = (Done r, w') ->
  saved_since args w0 w' /\ (stored w0 r (input_journal input) \/ misnamed r (input_journal input)).
Proof.
  intros Wi Wd Hne Hf Hs Hc. apply create_Done in Hc as [Hs' Hr].
  pose proof (saved_since_trans _ _ _ _ Hs Hs') as Hs0. split; [done|].
  destruct (Hs0 _ _ Hr) as [H0'|E].
  - destruct (Hf _ _ H0') as [image Hi]. symmetry in Hi.
    apply proof_id_journal in Hi as [Hi|?]; [left; by split|right; by exists image].
  - right. exists (image_id args). split; [|by unfold proof_id in E].
    intros Hb. apply proof_bytes_inj in Hb as [? _]; done.
Qed.

Lemma certificate_input (c : Commitment) v number :
  canoe_proof v = None -> input_journal (cert_input c v number) = to_journal_bytes v c.
Proof. unfold input_journal. destruct v; cbn. by intros ->. Qed.

Lemma cert_proven_mono w l1 l2 x y : l1 ⊆ l2 -> cert_proven w l1 x y -> cert_proven w l2 x y.
Proof.
  unfold cert_proven. intros Hl [? Hc]. split; [done|]. destruct (canoe_proof x.2); [done|].
  destruct Hc as (r & ? & Hr). exists r. split; [done|].
  destruct (is_groth16 r); [done|]. destruct Hr. auto.
Qed.

Section loop.
Context (url : string) (args : ProvingArgs) (w0 : World N R).
Hypothesis Hi : b256 (image_id args).
Hypothesis Hd : b256 DA_HOKULEA_ID.
Hypothesis Hne : image_id args <> DA_HOKULEA_ID.
Hypothesis Hf : files_ok w0.
(** Receipts survive their encoding, and a statement does not name its proof. *)
Hypothesis Hjson : forall r json, receipt_json r = Ok json -> receipt_from_slice json = Ok r.
Hypothesis Hjournal : forall v c json, to_journal_bytes (with_proof json v) c = to_journal_bytes v c.

Lemma groth16_accepted c v r json :
  receipt_json r = Ok json -> receipt_journal r = to_journal_bytes v c ->
  receipt_verify DA_HOKULEA_ID r = Ok tt ->
  forall zkvm, validate_cert_receipt zkvm DA_HOKULEA_ID (with_proof json v) c = Ok tt.
Proof.
  intros Hr Hj Hv zkvm. unfold validate_cert_receipt. cbn [canoe_proof with_proof].
  by rewrite (Hjson _ _ Hr), Hv, Hjournal, Hj, bool_decide_true.
Qed.

Lemma prove_certs_Done certs ps certs' ps' w w' :
  saved_since args w0 w -> prove_certs url args certs ps w = (Done (certs', ps'), w') ->
  ps ⊆ ps' /\ Forall2 (cert_proven w0 ps') certs certs'.
Proof.
  revert certs' ps ps' w. induction certs as [|[c v] certs IH]; intros certs' ps ps' w Hs Hc;
    cbn [prove_certs] in Hc.
  { unfold mret, Pr_ret in Hc. simplify_eq. by split. }
  apply Pr_bind_Done in Hc as ([v' ps1] & w1 & Hone & Hc).
  apply Pr_bind_Done in Hc as ([certs1 ps2] & w2 & Hc & Hret). unfold mret, Pr_ret in Hret. simplify_eq.
  assert (saved_since args w0 w1 /\ ps ⊆ ps1 /\ cert_proven w0 ps1 (c, v) (c, v')) as (Hs1 & Hps & Hone').
  { case_bool_decide as Hp.
    - unfold mret, Pr_ret in Hone. simplify_eq. split; [done|]. split; [done|]. split; [done|].
      cbn. by destruct Hp as [p ->].
    - apply Pr_bind_Done in Hone as (number & w3 & Hnum & Hone).
      apply Pr_bind_Done in Hone as (r & w4 & Hcreate & Hone). apply expect_pr_Done in Hnum, Hcreate.
      assert (saved_since args w0 w3) as Hs3.
      { eapply saved_since_trans; [exact Hs|]. intros f x Hx. left.
        pose proof (on_node_files (call OtherError (l1_header_number (cert_l1_head v))) w) as Hw.
        unfold call_any in Hnum. rewrite Hnum in Hw. by rewrite <-Hw. }
      destruct (create_stored _ _ _ _ _ _ _ Hi Hd Hne Hf Hs3 Hcreate) as [Hs4 Hst].
      apply eq_None_not_Some in Hp. rewrite certificate_input in Hst by done.
      unfold cert_proven. cbn. rewrite Hp. destruct (is_groth16 r) eqn:Hg.
      + apply Pr_bind_Done in Hone as (json & w5 & Hj & Hone). unfold mret, Pr_ret in Hone. simplify_eq.
        apply expect_pr_Done, lift_at_Done in Hj as [Hj ->]. apply map_err_Done in Hj.
        split; [done|]. split; [done|]. split; [done|]. exists r. rewrite Hg. split; [done|].
        exists json. split_and!; [done|done|]. intros. by eapply groth16_accepted.
      + unfold mret, Pr_ret in Hone. simplify_eq.
        split; [done|]. split; [set_solver|]. split; [done|].
        exists r. rewrite Hg. split_and!; [done|done|set_solver]. }
  destruct (IH _ _ _ _ Hs1 Hc) as [Hps' HF]. split; [set_solver|]. constructor; [|done].
  by eapply cert_proven_mono.
Qed.
End loop.
End canoe_spec.

(** ** Properties *)

Section properties.
Context {N R Commitment Blob Provider Env EvmInput Call : Type}.
Context `{Zkvm R} `{Digests} `{Images} `{Backends N R}.
Context `{EigenDA Commitment Blob R Provider} `{CanoeHost N R Commitment Env EvmInput Call}.
Implicit Types w : World N R.

(** C14. The EigenDA certificates that reach the guest: if the certificate loop
    succeeds, the other stages of the witness are unchanged, and certificate by
    certificate, in order: one that came with a proof is kept; any other has a
    receipt that was already among the proof files, under the name of its
    statement for the certificate program (or the names collide), and that is
    written into the witness if it is a Groth16 receipt, where the guest accepts
    it if it verifies, and is otherwise passed on as an assumption.  No receipt
    is one that the loop had proven: those are saved under the name of the guest
    program's image, and read under that of the certificate program's. *)
Theorem eigen_certificates_found l1_node_address args da w da' proofs w' :
  b256 (image_id args) -> b256 DA_HOKULEA_ID -> image_id args <> DA_HOKULEA_ID -> files_ok w ->
  (forall r json, receipt_json r = Ok json -> receipt_from_slice json = Ok r) ->
  (forall v c json, to_journal_bytes (with_proof json v) c = to_journal_bytes v c) ->
  prove_eigen_da l1_node_address args da w = (Done (da', proofs), w') ->
  recency da' = recency da /\ blob da' = blob da /\
  Forall2 (cert_proven w proofs) (validity da) (validity da').
Proof.
  intros Hi Hd Hne Hf Hjson Hjournal Hp. unfold prove_eigen_da in Hp.
  apply Pr_bind_Done in Hp as (url & w1 & Hu & Hp). apply expect_pr_Done, lift_at_Done in Hu as [_ ->].
  apply Pr_bind_Done in Hp as ([certs ps] & w2 & Hc & Hp). unfold mret, Pr_ret in Hp. simplify_eq.
  split; [done|]. split; [done|]. cbn [validity].
  eapply (prove_certs_Done url args w); try done. intros f r. auto.
Qed.

(** A proof that the loop would have to make is never found: with a certificate
    that neither has a proof nor a proof file, the loop does not succeed, whatever
    the provers answer (or a file name collides). *)
Theorem fresh_certificate_fails l1_node_address args da w c v :
  b256 (image_id args) -> b256 DA_HOKULEA_ID -> image_id args <> DA_HOKULEA_ID -> files_ok w ->
  (forall r json, receipt_json r = Ok json -> receipt_from_slice json = Ok r) ->
  (forall v c json, to_journal_bytes (with_proof json v) c = to_journal_bytes v c) ->
  (c, v) ∈ validity da -> canoe_proof v = None ->
  proof_files w !! proof_id DA_HOKULEA_ID (to_journal_bytes v c) = None ->
  match prove_eigen_da l1_node_address args da w with
  | (Done _, _) => exists r, misnamed r (to_journal_bytes v c)
  | _ => True
  end.
Proof.
  intros Hi Hd Hne Hf Hjson Hjournal Hin Hv Hnone.
  destruct (prove_eigen_da _ _ _ _) as [[[da' proofs]|e|why] w'] eqn:Hp; [|done..].
  unfold prove_eigen_da in Hp.
  apply Pr_bind_Done in Hp as (url & w1 & Hu & Hp). apply expect_pr_Done, lift_at_Done in Hu as [_ ->].
  apply Pr_bind_Done in Hp as ([certs ps] & w2 & Hc & Hp).
  assert (saved_since args w w) as Hs by (intros f r; auto).
  destruct (prove_certs_Done url args w Hi Hd Hne Hf Hjson Hjournal _ _ _ _ _ _ Hs Hc) as [_ HF].
  apply list_elem_of_lookup_1 in Hin as (i & Hl).
  destruct (Forall2_lookup_l _ _ _ _ _ HF Hl) as ([c' v'] & _ & Hcert).
  unfold cert_proven in Hcert. cbn in Hcert. rewrite Hv in Hcert.
  destruct Hcert as (_ & r & [[Hr _]|Hr] & _); [congruence|by exists r].
Qed.
End properties.

(** The images of the repository are 256-bit and pairwise different, and the
    guest for EigenDA is built with the image of the certificate program. *)
Theorem kailua_build_images :
  image_words KAILUA_DA_HOKULEA_ID = CANOE_IMAGE_ID /\
  Forall b256 (map image_words [KAILUA_FPVM_KONA_ID; KAILUA_FPVM_HANA_ID; KAILUA_FPVM_HOKULEA_ID;
                                KAILUA_DA_HOKULEA_ID]) /\
  NoDup (map image_words [KAILUA_FPVM_KONA_ID; KAILUA_FPVM_HANA_ID; KAILUA_FPVM_HOKULEA_ID;
                          KAILUA_DA_HOKULEA_ID]).
Proof.
  split; [reflexivity|]. split.
  - repeat constructor; vm_compute; congruence.
  - apply (bool_decide_eq_true _). vm_compute. reflexivity.
Qed.

(** ** Witness: two certificates whose proofs are on the disk, one of them to be
    verified in the guest *)

Definition demo_canoe_args : ProvingArgs := {|
  payout_recipient_arg := None; segment_limit := 20; max_block_derivations := 0;
  max_block_executions := 0; max_witness_size := 0; num_concurrent_preflights := 1;
  skip_derivation_proof := false; skip_await_proof := false; hokulea_is_set := true;
  hana_is_set := false |}.
Definition demo_canoe_cert : CertValidity :=
  {| claimed_validity := true; canoe_proof := None; cert_l1_head := 9; cert_l1_chain_id := 1 |}.
Definition demo_canoe_journal (c : Z) : bytes := @to_journal_bytes _ _ _ _ demo_eigen demo_canoe_cert c.
Definition demo_canoe_receipt (c : Z) : Z * bytes := (77, demo_canoe_journal c).
Definition demo_canoe_host : CanoeHost unit (Z * bytes) Z unit unit unit := {|
  parse_url := fun _ => true; canoe_env := fun _ _ _ n => (Ok tt, n);
  cert_verifier_address := fun _ _ => Ok 4; cert_verifier_call := fun _ => Router tt;
  call_v2 := fun _ _ _ n => (Ok (true, tt), n); call_router := fun _ _ _ n => (Ok (1, tt), n);
  STATUS_SUCCESS := 1; canoe_into_input := fun _ n => (Ok tt, n);
  evm_input_words := fun _ => Ok [1]; address_words := fun a => Ok [a]; canoe_input_words := fun _ => Ok [2];
  receipt_json := fun r => if r.1 =? 77 then Ok r.2 else Err "another image";
  l1_header_number := fun _ n => (Ok 100, n) |}.
(** The receipt of the first certificate is a Groth16 receipt. *)
Definition demo_canoe_backends : Backends unit (Z * bytes) := {|
  is_dev_mode := false; force_recursion := false;
  is_groth16 := fun r => bool_decide (r = demo_canoe_receipt 5);
  prove_with_opts := fun _ image _ n => (Ok (image, demo_journal_bytes), n);
  boundless_configured := false; should_use_bonsai := false;
  run_boundless_client := fun _ _ _ _ _ _ n => (Failed (OtherError "not configured"), n);
  run_bonsai_client := fun _ _ _ _ _ _ n => (Failed (OtherError "not configured"), n) |}.
Definition demo_canoe_name (c : Z) : Z := @proof_id demo_digests 77 (demo_canoe_journal c).
Definition demo_canoe_disk : World unit (Z * bytes) := {|
  proof_files := <[demo_canoe_name 5 := demo_canoe_receipt 5]> {[demo_canoe_name 6 := demo_canoe_receipt 6]};
  node := tt |}.
Definition demo_canoe_witness : EigenDAWitness Z bytes := {|
  recency := [(5, 3600); (6, 3600)]; validity := [(5, demo_canoe_cert); (6, demo_canoe_cert)]; blob := [] |}.
Definition demo_canoe_run (w : World unit (Z * bytes)) :=
  @prove_eigen_da unit (Z * bytes) Z bytes (Z * bytes) (list bytes) unit unit unit demo_zkvm demo_digests
    demo_images demo_canoe_backends demo_eigen demo_canoe_host (Some "http://l1"%string) demo_canoe_args
    demo_canoe_witness w.
Definition demo_proven_certs : list (Z * CertValidity) :=
  [(5, with_proof (demo_canoe_journal 5) demo_canoe_cert); (6, demo_canoe_cert)].

Lemma demo_canoe_files : @files_ok unit _ demo_zkvm demo_digests demo_canoe_disk.
Proof.
  intros f r Hl. exists 77. unfold demo_canoe_disk in Hl. cbn [proof_files] in Hl.
  apply lookup_insert_Some in Hl as [[<- <-]|[_ Hl]]; [done|].
  by apply lookup_singleton_Some in Hl as [<- <-].
Qed.

Lemma eigen_certificates_found_witness :
  [(5, 3600); (6, 3600)] = [(5, 3600); (6, 3600)] /\ @nil (Z * bytes) = [] /\
  Forall2 (@cert_proven unit (Z * bytes) Z bytes (list bytes) unit unit unit demo_zkvm demo_digests demo_images
      demo_canoe_backends demo_eigen demo_canoe_host demo_canoe_disk [demo_canoe_receipt 6])
    [(5, demo_canoe_cert); (6, demo_canoe_cert)] demo_proven_certs.
Proof.
  apply (@eigen_certificates_found unit (Z * bytes) Z bytes (list bytes) unit unit unit demo_zkvm demo_digests
    demo_images demo_canoe_backends demo_eigen demo_canoe_host (Some "http://l1"%string) demo_canoe_args
    demo_canoe_witness demo_canoe_disk
    {| recency := [(5, 3600); (6, 3600)]; validity := demo_proven_certs; blob := [] |}
    [demo_canoe_receipt 6] (demo_canoe_run demo_canoe_disk).2).
  - split; vm_compute; congruence.
  - split; vm_compute; congruence.
  - vm_compute. congruence.
  - exact demo_canoe_files.
  - intros [i bs] json E. unfold receipt_json, demo_canoe_host in E. cbn in E.
    destruct (i =? 77) eqn:Ei; [|discriminate E]. apply Z.eqb_eq in Ei. injection E as <-. by rewrite Ei.
  - reflexivity.
  - vm_compute. reflexivity.
Defined.

(** Without the files the same run fails, although the prover answers. *)
Example demo_canoe_fresh :
  (demo_canoe_run {| proof_files := ∅; node := tt |}).1 = Crashed "Canoe proof creation failed".
Proof. vm_compute. reflexivity. Qed.
