(* ===== verification/Worker.v ===== *)
(** * crates/prover/src/tasks.rs (compute_cached_proof), proof.rs,
    client/{native,proving}.rs and risczero/{mod,zkvm}.rs

    The worker: one task is computed by running the client program on the host,
    cutting its witness into frames, proving the guest program on them, and
    saving the proof under the name of its journal. *)

From S2P Require Import Prelude Bytes Config Journal Blobs Precondition Oracle Executor L1Chain Core Stitching DA Witgen Payload Tasks TasksSpec Backend Canoe.

(** ** The proof files and the provers *)

(** The two ends of a run of the client on the host: the kona server behind its
    oracle, started from the arguments, and what a run leaves behind.  The
    frames of the alternative sources, and the L1 node among kona's arguments. *)
Class ClientHost (N S Commitment Blob : Type) := {
  start_server : ProveArgs -> N -> outcome S;
  server_done : S -> N -> N;
  recorded_celestia : S -> VecOracle;
  recorded_eigen : S -> EigenDAWitness Commitment Blob;
  celestia_da_frame : VecOracle -> outcome bytes;
  eigen_da_frame : EigenDAWitness Commitment Blob -> outcome bytes;
  l1_node_address : ProveArgs -> option string;
}.

(** The frame size limit of the preimage shards, 10 MiB. *)
Definition SHARD_SIZE : nat := Z.to_nat (10 * 1024 * 1024).

Section worker.
Context {N S R Cursor TrieNode Receipt Tx Commitment Blob Provider Env EvmInput Call : Type}.
Context `{Zkvm R} `{Digests} `{Rlp} `{Pot} `{PreimageKeys} `{Kzg} `{Images} `{Frames}.
Context `{Environment S} `{Executor S} `{CoreEnvironment S Cursor}.
Context `{L1Environment S TrieNode Receipt Tx} `{Recorder S}.
Context `{Backends N R} `{ClientHost N S Commitment Blob} `{PayloadHost N}.
Context `{EigenDA Commitment Blob R Provider} `{CanoeHost N R Commitment Env EvmInput Call}.

(** The end of a run of a witness generator. *)
Definition generated {A B} (m : St S A) (s : S) (k : A -> Pr (World N R) B) : Pr (World N R) B := fun w =>
  let '(o, s) := m s in
  (a ← lift_at (map_err OtherError o); k a)
    {| proof_files := proof_files w; node := server_done s (node w) |}.

(** Witness generation by data source: the journal, the witness, the frames
    that precede it and the proofs that belong to them. *)
Definition generate_witness (l1_node_address : option string) (args : ProvingArgs) (data_hash : Z)
    (execution_cache : list Execution) (boots : list StitchedBootInfo) (s : S)
    : Pr (World N R) (ProofJournal * Witness * list bytes * list R) :=
  let payout := default 0 (payout_recipient_arg args) in
  if use_hokulea args then
    generated (run_hokulea_witgen_client recorded_eigen SHARD_SIZE payout data_hash execution_cache boots) s
      (fun '(j, w, da) =>
        '(da, proofs) ← prove_eigen_da l1_node_address args da;
        frame ← lift_at (no_err (expect "Failed to serialize EigenDABlobWitnessData" (eigen_da_frame da)));
        mret (j, w, [frame], proofs))
  else if use_hana args then
    generated (run_hana_witgen_client recorded_celestia SHARD_SIZE payout data_hash execution_cache boots) s
      (fun '(j, w, da) =>
        frame ← lift_at (map_err OtherError (celestia_da_frame da)); mret (j, w, [frame], []))
  else
    generated (run_witgen_client SHARD_SIZE payout data_hash execution_cache boots) s
      (fun '(_, j, w) => mret (j, w, [], [])).

(** [run_native_client] and the [run_proving_client] it spawns. *)
Definition run_native_client (c : Cached R) (args : ProveArgs) : Pr (World N R) unit := fun w =>
  match start_server args (node w) with
  | Err e => (Failed (OtherError e), w)
  | Panic p => (Crashed p, w)
  | Ok s =>
      let client : Pr (World N R) unit :=
        '(journal, witness, extra_frames, extra_proofs) ← generate_witness
          (if use_hokulea (proving args) then l1_node_address args else None) (proving args)
          (c_precondition_validation_data_hash c) (concat (c_executions c)) (c_boot_info c) s;
        frames ← lift_at (process_witness (proving args) witness (c_executions c) extra_frames
          (c_seek_proof c) (c_force_attempt c));
        seek_proof (proving args) (encode_packed journal) [] frames (c_proofs c ++ extra_proofs)
          (c_prove_snark c) in
      match client w with (Crashed p, w) => (Failed (OtherError p), w) | r => r end
  end.

Definition task_boot (c : Cached R) : BootInfo :=
  {| bi_l1_head := a_l1_head (c_args c);
     bi_agreed_l2_output_root := a_agreed_l2_output_root (c_args c);
     bi_claimed_l2_output_root := a_claimed_l2_output_root (c_args c);
     bi_claimed_l2_block_number := a_claimed_l2_block_number (c_args c);
     bi_chain_id := l2_chain_id (c_rollup_config c); bi_rollup_config := c_rollup_config c |}.

(** The journal that a proof of the task must have. *)
Definition expected_journal (c : Cached R) : outcome ProofJournal :=
  '(_, journal) ← stitch_boot_info false (task_boot c) (image_id (proving (c_args c)))
    (default 0 (payout_recipient_arg (proving (c_args c)))) (c_precondition_hash c) (c_boot_info c) ∅;
  Ok journal.

(** The preflight that replaces kona's hints for payloads: on success the
    endpoint is not used again. *)
Definition payload_preflight (c : Cached R) : Pr (World N R) ProveArgs :=
  let args := c_args c in
  if enable_experimental_witness_endpoint args && negb (is_offline args) && op_node_address args
  then
    done ← on_node (call OtherError (run_payload_client (task_boot c)));
    mret (if done : bool then
      {| a_l1_head := a_l1_head args; a_agreed_l2_output_root := a_agreed_l2_output_root args;
         a_agreed_l2_head_hash := a_agreed_l2_head_hash args;
         a_claimed_l2_output_root := a_claimed_l2_output_root args;
         a_claimed_l2_block_number := a_claimed_l2_block_number args;
         is_offline := is_offline args; enable_experimental_witness_endpoint := false;
         op_node_address := op_node_address args; proving := proving args |}
    else args)
  else mret args.

(** The end of [compute_cached_proof]. *)
Definition read_proof (c : Cached R) (file : Z) : Pr (World N R) R :=
  if skip_await_proof (proving (c_args c)) then lift_at (Failed NotAwaitingProof)
  else
    read_bincoded_file file.

Definition proof_file (c : Cached R) (journal : ProofJournal) : Z :=
  proof_id (image_id (proving (c_args c))) (encode_packed journal).

(** [compute_cached_proof]. *)
Definition compute_cached_proof (c : Cached R) : Pr (World N R) R :=
  journal ← lift_at (no_err (expected_journal c));
  let file := proof_file c journal in
  w ← world;
  _ ← (if bool_decide (is_Some (proof_files w !! file)) && c_seek_proof c then mret tt
       else args ← payload_preflight c; run_native_client c args);
  read_proof c file.
End worker.

(** ** What a task may end with *)

Section worker_spec.
Context {N S R Cursor TrieNode Receipt Tx Commitment Blob Provider Env EvmInput Call : Type}.
Context `{Zkvm R} `{Digests} `{Rlp} `{Pot} `{PreimageKeys} `{Kzg} `{Images} `{Frames}.
Context `{Environment S} `{Executor S} `{CoreEnvironment S Cursor}.
Context `{L1Environment S TrieNode Receipt Tx} `{Recorder S}.
Context `{Backends N R} `{ClientHost N S Commitment Blob} `{PayloadHost N}.
Context `{EigenDA Commitment Blob R Provider} `{CanoeHost N R Commitment Env EvmInput Call}.
Implicit Types w : World N R.

(** The errors of a task, by the flags of the task. *)
Definition worker_error (c : Cached R) (e : ProvingError) : Prop :=
  match e with
  | ExecutionError _ | OtherError _ => True
  | NotAwaitingProof => skip_await_proof (proving (c_args c)) = true
  | NotSeekingProof _ _ => c_seek_proof c = false
  | WitnessSizeError _ _ _ => c_force_attempt c = false
  | BlockCountError _ _ _ => c_force_attempt c = false /\
      (0 <= max_block_executions (proving (c_args c)) -> a_l1_head (c_args c) <> 0)
  | DerivationProofError _ => False
  end.

(** The driver collects executions, so an execution-only run collects none. *)
Definition collects_in_driver : Prop :=
  forall args s (n : N) url args' data_hash cache boots w journal wit frames (proofs : list R) w',
  start_server args n = Ok s -> a_l1_head args = 0 ->
  generate_witness url args' data_hash cache boots s w = (Done (journal, wit, frames, proofs), w') ->
  concat (stitched_executions wit) = [].

(** The proof that a task is answered with has the task's journal. *)
Definition worker_answer (c : Cached R) (r : R) : Prop :=
  c_seek_proof c = true /\ skip_await_proof (proving (c_args c)) = false /\
  exists journal, expected_journal c = Ok journal /\
    (receipt_journal r = encode_packed journal \/
     exists image, name_collision image r (image_id (proving (c_args c))) (encode_packed journal)).

(** The only panics that reach the worker itself. *)
Definition worker_crash (c : Cached R) : Prop :=
  (forall journal, expected_journal c <> Ok journal) \/
  (exists args n why, start_server args n = Panic why) \/
  exists b n why, (run_payload_client b n).1 = Panic why.

(** How a step of a task may end. *)
Definition task_ends {A} (c : Cached R) (P : A -> Prop) (o : attempt A) : Prop :=
  match o with
  | Done a => P a
  | Failed e => worker_error c e
  | Crashed _ => worker_crash c
  end.

(** ** Lemmas *)

Lemma process_witness_errors args witness executions extra seek force e :
  process_witness args witness executions extra seek force = Failed e ->
  match e with
  | OtherError _ => True
  | NotSeekingProof _ _ => seek = false
  | WitnessSizeError _ _ _ => force = false
  | BlockCountError _ _ _ => force = false /\
      max_block_executions args < Z.of_nat (length (concat (stitched_executions witness)))
  | _ => False
  end.
Proof.
  unfold process_witness, no_err.
  destruct (preloaded_from _); cbn [map_err mbind attempt_bind]; [|by intros [= <-]|done].
  destruct (sum_witness_size _) as [[pre str]|e'|w]; cbn [map_err mbind attempt_bind];
    [|by intros [= <-]|done].
  destruct (_ && negb force) eqn:E1; [intros [= <-]; by destruct force; rewrite ?andb_false_r in E1|].
  destruct (_ && negb force) eqn:E2 in |- *; [intros [= <-]; bools; by split; [destruct force|]|].
  destruct seek; cbn [negb]; [|by intros [= <-]].
  destruct (encode_witness_frames _) as [[? ?]|?|?]; cbn; by intros [= <-].
Qed.

(** A generator fails only with [OtherError]. *)
Lemma generated_errors {A B} (m : St S A) s (k : A -> Pr (World N R) B) w e w' :
  (forall a w e w', k a w = (Failed e, w') -> exists x, e = OtherError x) ->
  generated m s k w = (Failed e, w') -> exists x, e = OtherError x.
Proof.
  intros Hk. unfold generated, lift_at, mbind, Pr_bind. destruct (m s) as [[a|x|x] s']; cbn;
    [apply Hk|intros [= <- _]; eauto|done].
Qed.

Lemma generate_witness_errors l1 args data_hash cache boots s w e w' :
  generate_witness l1 args data_hash cache boots s w = (Failed e, w') -> exists m, e = OtherError m.
Proof.
  unfold generate_witness, lift_at.
  destruct (use_hokulea args); [|destruct (use_hana args)]; apply generated_errors;
    intros [[j wit] da] w1 e1 w2; unfold mbind, Pr_bind.
  - pose proof (prove_eigen_da_unfailing l1 args da w1) as Hu.
    destruct (prove_eigen_da _ _ _ _) as [[[da' proofs]|x|x] w3]; cbn in Hu |- *; [|by destruct (Hu x)|done].
    destruct (eigen_da_frame _); cbn; done.
  - destruct (celestia_da_frame da); cbn; [done|intros [= <- _]; eauto|done].
  - done.
Qed.

Lemma generated_saves {A B} args (m : St S A) s (k : A -> Pr (World N R) B) :
  (forall a, saves args (k a)) -> saves args (generated m s k).
Proof.
  intros Hk w. unfold generated, lift_at, mbind, Pr_bind. destruct (m s) as [[a|x|x] s']; cbn.
  - apply (Hk a {| proof_files := proof_files w; node := server_done s' (node w) |}).
  - intros f r. auto.
  - intros f r. auto.
Qed.

Lemma generate_witness_saves l1 args data_hash cache boots s :
  saves args (generate_witness l1 args data_hash cache boots s).
Proof.
  unfold generate_witness. destruct (use_hokulea args); [|destruct (use_hana args)];
    apply generated_saves; intros [[j wit] da]; [|saves..].
  apply saves_bind; [apply prove_eigen_da_saves|intros [da' proofs]; saves].
Qed.

Lemma run_native_client_ok c args w :
  files_ok w -> services_ok -> collects_in_driver ->
  proving args = proving (c_args c) /\ a_l1_head args = a_l1_head (c_args c) ->
  let '(o, w') := run_native_client c args w in
  files_ok w' /\ task_ends c (fun _ => c_seek_proof c = true) o.
Proof.
  intros Hf Hs Hcd [Hp Hl1]. unfold run_native_client.
  destruct (start_server args (node w)) as [s|e|why] eqn:Es;
    [|by split|split; [done|right; left; eauto]].
  unfold mbind at 1, Pr_bind.
  pose proof (generate_witness_saves (if use_hokulea (proving args) then l1_node_address args else None)
    (proving args) (c_precondition_validation_data_hash c) (concat (c_executions c)) (c_boot_info c) s w) as Hg.
  apply (saved_since_files _ _ _ Hf) in Hg.
  destruct (generate_witness _ _ _ _ _ _ _) as [[[[[journal wit] extra] proofs]|e|why] w1] eqn:Eg;
    [|apply generate_witness_errors in Eg as [m ->]; by split|by split].
  unfold mbind at 1, Pr_bind. unfold lift_at at 1.
  destruct (process_witness _ _ _ _ _ _) as [frames|e|why] eqn:Ep; [| |by split].
  2:{ apply process_witness_errors in Ep. split; [done|]. destruct e; try done.
      destruct Ep as [Hfo Hlt]. split; [done|]. rewrite <-Hp, <-Hl1. intros Hge Hz.
      rewrite (Hcd _ _ _ _ _ _ _ _ _ _ _ _ _ _ Es Hz Eg) in Hlt. cbn in Hlt. lia. }
  pose proof (saved_since_files _ _ _ Hg (seek_proof_saved (proving args) (encode_packed journal) []
    frames (c_proofs c ++ proofs) (c_prove_snark c) w1)) as Hf2.
  unfold seek_proof in Hf2 |- *. unfold mbind, Pr_bind, on_node in Hf2 |- *.
  destruct (backend_prove _ _ _ _ _ _ _) as [[proof|e|why] n2] eqn:Eb; [| |by split].
  - split; [done|]. unfold process_witness in Ep. destruct (no_err (preloaded_from _)); [|done..]. cbn in Ep.
    destruct (no_err (sum_witness_size _)) as [[? ?]|?|?]; [|done..]. cbn in Ep.
    destruct (_ && _) in Ep; [done|]. destruct (_ && _) in Ep; [done|]. by destruct (c_seek_proof c).
  - split; [done|]. apply (backend_errors _ _ _ _ _ _ _ _ _ Hs) in Eb. rewrite Hp in Eb. by destruct e.
Qed.

Lemma expected_journal_fails c e : expected_journal c <> Err e.
Proof.
  unfold expected_journal, stitch_boot_info. intros Hx.
  apply bind_Err in Hx as [Hx|([b j] & _ & ?)]; [|done].
  apply bind_Err in Hx as [Hx|(j & _ & Hx)].
  { unfold journal_new in Hx. apply bind_Err in Hx as [Hx|(? & _ & ?)]; [|done].
    unfold expect in Hx. by destruct (config_hash _). }
  apply bind_Err in Hx as [Hx|(? & _ & ?)]; [|done].
  revert j Hx. induction (c_boot_info c) as [|b' l IH]; intros j Hx; [done|]. cbn in Hx.
  apply bind_Err in Hx as [Hx|(j' & _ & Hx)]; [|by eapply IH].
  unfold stitch_one, verify_stitching_journal, assert_ in Hx.
  destruct (sb_l1_head b' =? _); [|done]. cbn in Hx.
  destruct (negb _); [|done]. cbn in Hx.
  destruct (_ =? _); [done|]. by destruct (_ =? _).
Qed.

Lemma payload_preflight_ok c w :
  files_ok w -> let '(o, w') := payload_preflight c w in
  files_ok w' /\ task_ends c (fun args => proving args = proving (c_args c) /\ a_l1_head args = a_l1_head (c_args c)) o.
Proof.
  intros Hf. unfold payload_preflight. destruct (_ && _); [|done].
  unfold mbind, Pr_bind, on_node, call.
  destruct (run_payload_client (task_boot c) (node w)) as [[ok|e|why] n'] eqn:Er; cbn; [|done|].
  - split; [done|]. by destruct ok.
  - split; [done|]. right. right. exists (task_boot c), (node w), why. by rewrite Er.
Qed.

Lemma read_proof_ok c journal w :
  files_ok w -> c_seek_proof c = true -> expected_journal c = Ok journal ->
  let '(o, w') := read_proof c (proof_file c journal) w in
  files_ok w' /\ task_ends c (worker_answer c) o.
Proof.
  intros Hf Hs Hj. unfold read_proof, read_bincoded_file. destruct (skip_await_proof _) eqn:Haw; [by split|].
  unfold mbind, Pr_bind, world. destruct (proof_files w !! _) as [r|] eqn:Er; [|by split].
  split; [done|]. split_and!; [done..|]. exists journal. split; [done|].
  destruct (Hf _ _ Er) as [image Hi]. symmetry in Hi.
  apply proof_id_journal in Hi as [?|?]; [by left|right; by exists image].
Qed.

(** The result of a task is the file of its journal. *)
Lemma compute_cached_proof_ok c w :
  files_ok w -> services_ok -> collects_in_driver ->
  let '(o, w') := compute_cached_proof c w in
  files_ok w' /\ task_ends c (worker_answer c) o.
Proof.
  intros Hf Hs Hcd. unfold compute_cached_proof.
  unfold mbind at 1, Pr_bind. unfold lift_at at 1, no_err.
  destruct (expected_journal c) as [journal|e|why] eqn:Ej; cbn [map_err];
    [|by apply expected_journal_fails in Ej|split; [done|]; left; by rewrite Ej].
  unfold mbind at 1, Pr_bind, world at 1.
  destruct (_ && _) eqn:Eb; bools; [by apply read_proof_ok|clear Eb].
  unfold mbind, Pr_bind. pose proof (payload_preflight_ok c w Hf) as Hp.
  destruct (payload_preflight c w) as [[args|e|why] w1]; destruct Hp as [Hf1 Hp]; [|done..].
  pose proof (run_native_client_ok c args w1 Hf1 Hs Hcd Hp) as Hr.
  destruct (run_native_client c args w1) as [[u|e|why] w2]; destruct Hr as [Hf2 Hr]; [|done..].
  by apply read_proof_ok.
Qed.

(** A pool of workers that complete the tasks in the order [pick] chooses. *)
Definition worker_pool (pick : list (Cached R) -> World N R -> nat) : Pool (World N R) R := {|
  oneshot := compute_cached_proof;
  next_result := fun l w =>
    let i := pick l w in
    match l !! i with
    | None => (None, w)
    | Some c =>
        match compute_cached_proof c w with
        | (Done r, w) => (Some (i, inl r), w)
        | (Failed e, w) => (Some (i, inr e), w)
        | (Crashed _, w) => (None, w)
        end
    end |}.

Lemma worker_pool_ok pick :
  (forall l w, l <> [] -> (pick l w < length l)%nat) -> services_ok -> collects_in_driver ->
  @pool_ok _ _ (worker_pool pick) files_ok worker_answer worker_error worker_crash.
Proof.
  intros Hpick Hs Hcd. split.
  - intros c w Hf. cbn. pose proof (compute_cached_proof_ok c w Hf Hs Hcd) as Hc.
    by destruct (compute_cached_proof c w) as [[] ?].
  - intros l w Hf Hne. cbn. destruct (lookup_lt_is_Some_2 l _ (Hpick l w Hne)) as [c Hl]. rewrite Hl.
    pose proof (compute_cached_proof_ok c w Hf Hs Hcd) as Hc.
    destruct (compute_cached_proof c w) as [[] ?]; destruct Hc as [? Hc]; (split; [done|]); eauto.
    exists c. split; [|done]. by eapply list_elem_of_lookup_2.
Qed.

Lemma worker_refusals : refusals worker_answer worker_error.
Proof. split; try done; [by intros c r (? & _)|by intros c n H']. Qed.

(** C13. What a worker does with a task: the names of the proof files stay those
    of their proofs' journals; a proof is returned only if one is sought and
    awaited, and it is a proof of the journal that the arguments of the task
    determine (or two byte strings with the same Keccak hash are at hand); an
    error says what the flags of the task allow (a size or count error only if
    the attempt was not forced, a count error only if the task derives); the
    worker itself panics only if the boot records cannot be stitched, or while
    starting the host's server or the payload client; and a task whose proof
    file is there is answered from it, and nothing is run. *)
Theorem compute_cached_proof_sound c w :
  files_ok w -> services_ok -> collects_in_driver ->
  (let '(o, w') := compute_cached_proof c w in
   files_ok w' /\ task_ends c (worker_answer c) o) /\
  forall journal r, expected_journal c = Ok journal -> c_seek_proof c = true ->
    skip_await_proof (proving (c_args c)) = false ->
    proof_files w !! proof_file c journal = Some r -> compute_cached_proof c w = (Done r, w).
Proof.
  intros Hf Hs Hcd. split; [by apply compute_cached_proof_ok|].
  intros journal r Hj Hse Haw Hr. unfold compute_cached_proof.
  rewrite Hj. unfold mbind, Pr_bind, lift_at, world. cbn [no_err map_err].
  rewrite Hr, Hse. cbn. unfold read_proof, read_bincoded_file. rewrite Haw. unfold mbind, Pr_bind, world. by rewrite Hr.
Qed.

Lemma witgen_executions shard payout dh cache boots s b j wit s' :
  run_witgen_client (R := R) shard payout dh cache boots s = (Ok (b, j, wit), s') ->
  exists root, stitched_executions wit = [recover_collected_executions (collected_executions s') root].
Proof.
  unfold run_witgen_client. intros Hw. st_inv.
  match goal with x : (BootInfo * Z)%type |- _ => destruct x as [boot ph] end. st_inv.
  match goal with x : (BootInfo * ProofJournal)%type |- _ => destruct x as [boot' j'] end. st_inv.
  unfold get_st in *. simplify_eq. cbn. eauto.
Qed.

Lemma generated_Done {A B} (m : St S A) s (k : A -> Pr (World N R) B) w b w' :
  generated m s k w = (Done b, w') -> exists a s' w1, m s = (Ok a, s') /\ k a w1 = (Done b, w').
Proof.
  unfold generated, lift_at, mbind, Pr_bind. destruct (m s) as [[a|x|x] s']; cbn; [eauto 6|done..].
Qed.

(** The witness of every source is that of [run_witgen_client], up to its image. *)
Lemma generate_witness_executions l1 args dh cache boots s w j wit frames proofs w' :
  generate_witness l1 args dh cache boots s w = (Done (j, wit, frames, proofs), w') ->
  exists b j0 wit0 s', stitched_executions wit = stitched_executions wit0 /\
    run_witgen_client (R := R) SHARD_SIZE (default 0 (payout_recipient_arg args)) dh cache boots s
      = (Ok (b, j0, wit0), s').
Proof.
  unfold generate_witness. intros Hg.
  destruct (use_hokulea args); [|destruct (use_hana args)];
    apply generated_Done in Hg as ([[a1 a2] a3] & s' & w1 & Hm & Hk).
  - apply Pr_bind_Done in Hk as ([da' pr] & w2 & _ & Hk). apply Pr_bind_Done in Hk as (fr & w3 & _ & Hk).
    unfold mret, Pr_ret in Hk. simplify_eq. unfold run_hokulea_witgen_client in Hm. st_inv.
    match goal with x : (BootInfo * ProofJournal * Witness)%type |- _ => destruct x as [[? ?] ?] end.
    st_inv. simplify_eq. cbn. eauto 8.
  - apply Pr_bind_Done in Hk as (fr & w2 & _ & Hk).
    unfold mret, Pr_ret in Hk. simplify_eq. unfold run_hana_witgen_client in Hm. st_inv.
    match goal with x : (BootInfo * ProofJournal * Witness)%type |- _ => destruct x as [[? ?] ?] end.
    st_inv. simplify_eq. cbn. eauto 8.
  - unfold mret, Pr_ret in Hk. simplify_eq. eauto 8.
Qed.

(** An environment whose driver collects nothing meets the hypothesis. *)
Lemma never_collects : (forall s, collected_executions s = []) -> collects_in_driver.
Proof.
  intros Hc args s n url args' dh cache boots w j wit frames proofs w' _ _ Hg.
  apply generate_witness_executions in Hg as (b & j0 & wit0 & s' & -> & Hr).
  apply witgen_executions in Hr as [root ->]. by rewrite Hc.
Qed.
End worker_spec.

(** ** Witnesses *)

Definition demo_recorder : Recorder Z := {|
  recorded_oracle := fun _ => vec_oracle_default; recorded_stream := fun _ => vec_oracle_default;
  recorded_blobs := fun _ => demo_witness_data; collected_executions := fun _ => [] |}.
Definition demo_client_host : ClientHost unit Z Z bytes := {|
  start_server := fun _ _ => Ok 4; server_done := fun _ n => n;
  recorded_celestia := fun _ => vec_oracle_default;
  recorded_eigen := fun _ => {| recency := []; validity := []; blob := [] |};
  celestia_da_frame := fun _ => Ok []; eigen_da_frame := fun _ => Ok [];
  l1_node_address := fun _ => None |}.
Definition demo_payload_host : PayloadHost unit := {|
  from_hex := fun _ => None; key_word := key_data; output_at_block := fun n t => (Ok (2000 + n), t);
  execution_witness := fun _ n => (None, n); kv_store := fun _ => {| kv := ∅; global_mask := 0 |};
  set_store := fun _ n => n |}.
Definition demo_task : Cached (Z * bytes) :=
  whole_task (set_request 9 2004 1004 2006 6 demo_args) demo_config 0 0 [] demo_segments [] false false true.
Definition demo_compute :=
  @compute_cached_proof unit Z (Z * bytes) unit bytes bytes bytes Z bytes (list bytes) unit unit unit demo_zkvm demo_digests demo_rlp
    demo_pot demo_keys demo_kzg demo_images demo_frames demo_env demo_executor (demo_core demo_main 9)
    demo_core_l1 demo_recorder demo_backends demo_client_host demo_payload_host demo_eigen
    demo_canoe_host.
Definition demo_disk : World unit (Z * bytes) := {|
  proof_files := {[ @proof_id demo_digests demo_image demo_journal_bytes := (demo_image, demo_journal_bytes) ]};
  node := tt |}.

(** A first call runs the client and saves its proof, which answers a second. *)
Lemma compute_cached_proof_sound_witness :
  demo_compute demo_task {| proof_files := ∅; node := tt |} =
    (Done (demo_image, demo_journal_bytes), demo_disk) /\
  (let '(o, w') := demo_compute demo_task demo_disk in
   @files_ok unit _ demo_zkvm demo_digests w' /\
   @task_ends unit Z (Z * bytes) Z bytes demo_zkvm demo_digests demo_keys demo_images demo_client_host
     demo_payload_host _ demo_task
     (@worker_answer (Z * bytes) demo_zkvm demo_digests demo_images demo_task) o) /\
  demo_compute demo_task demo_disk = (Done (demo_image, demo_journal_bytes), demo_disk).
Proof.
  split; [vm_compute; reflexivity|].
  destruct (@compute_cached_proof_sound unit Z (Z * bytes) unit bytes bytes bytes Z bytes (list bytes) unit unit unit demo_zkvm
    demo_digests demo_rlp demo_pot demo_keys demo_kzg demo_images demo_frames demo_env demo_executor
    (demo_core demo_main 9) demo_core_l1 demo_recorder demo_backends demo_client_host demo_payload_host
    demo_eigen demo_canoe_host demo_task demo_disk) as [Hends Hcached].
  - intros f r Hf. unfold demo_disk in Hf. cbn [proof_files] in Hf.
    apply lookup_singleton_Some in Hf as [<- <-]. by exists demo_image.
  - split; intros; cbn in *; by simplify_eq.
  - apply (@never_collects unit Z (Z * bytes)). reflexivity.
  - split; [exact Hends|].
    apply (Hcached (set_agreed 2002 (set_claimed 2008 8 (demo_main_journal 0)))); vm_compute; reflexivity.
Defined.
