(* ===== verification/BoundlessSpec.v ===== *)
(** * What the client of the Boundless market keeps to

    Its errors, the nonces it chooses, and that it does not pay twice for a proof
    that an earlier request still promises. *)

From S2P Require Import Prelude Bytes Journal Stitching Witgen Tasks Backend Worker Runs Floats Boundless.
Open Scope Z_scope.

(** ** Prices *)

(** C25. What an order offers, for any configuration and any count of cycles of 64 bits. Suppose the
    configured prices and stake and the market's clock are not negative, as their types have it.
    A price or a stake is the configured one, times the cycles for a price and times the millions
    of cycles begun for the stake (the repository's documentation of the stake says gigacycle), modulo
    2^256: exact unless the product exceeds 256 bits, although the number of millions goes
    through a float. Bidding does not start before the market's latest block but after it by a delay,
    and the delay and the periods are the millions of cycles times their factors, the periods one
    after another (ramp-up, lock, expiry), as floats cut to the width of the field. An offer fails only by a panic, when the start exceeds 64 bits. *)
Theorem offer_spec market cycles time :
  u64 cycles -> 0 <= time -> 0 <= boundless_cycle_min_wei market -> 0 <= boundless_cycle_max_wei market ->
  0 <= boundless_mega_cycle_stake market ->
  let millions := (cycles + 999999) / 1000000 in
  let delay := f64_as 64 (f64_mul (boundless_order_bid_delay_factor market) (f64_of_Z millions)) in
  let ramp_up := boundless_order_ramp_up_factor market in
  let lock := f64_add ramp_up (boundless_order_lock_timeout_factor market) in
  match offer market cycles time with
  | Ok o =>
      min_price o = (boundless_cycle_min_wei market * cycles) mod 2 ^ 256 /\
      max_price o = (boundless_cycle_max_wei market * cycles) mod 2 ^ 256 /\
      lock_stake o = (boundless_mega_cycle_stake market * millions) mod 2 ^ 256 /\
      (boundless_cycle_max_wei market * cycles < 2 ^ 256 ->
         max_price o = boundless_cycle_max_wei market * cycles /\
         (boundless_cycle_min_wei market <= boundless_cycle_max_wei market ->
            min_price o = boundless_cycle_min_wei market * cycles /\ min_price o <= max_price o)) /\
      (boundless_mega_cycle_stake market * millions < 2 ^ 256 ->
         lock_stake o = boundless_mega_cycle_stake market * millions) /\
      bidding_start o = time + delay /\ time <= bidding_start o /\ u64 (bidding_start o) /\
      ramp_up_period o = f64_as 32 (f64_mul ramp_up (f64_of_Z millions)) /\
      lock_timeout o = f64_as 32 (f64_mul lock (f64_of_Z millions)) /\
      timeout o = f64_as 32 (f64_mul (f64_add lock (boundless_order_expiry_factor market)) (f64_of_Z millions)) /\
      u32 (ramp_up_period o) /\ u32 (lock_timeout o) /\ u32 (timeout o)
  | Err _ => False
  | Panic _ => 2 ^ 64 <= time + delay
  end.
Proof.
  intros Hc Ht Hmin Hmax Hstake millions delay ramp_up lock. unfold offer, segment_count, u256_mul.
  assert (Hs : 0 <= millions < 2 ^ 53).
  { unfold in_width in Hc. subst millions. split; [apply Z.div_pos; lia|apply Z.div_lt_upper_bound; lia]. }
  fold millions. fold delay. rewrite (f64_of_Z_exact 256) by lia.
  assert (Hd : u64 delay) by (apply f64_as_width; lia).
  unfold in_width in *. destruct (decide (time + delay < 2 ^ 64)) as [Hl|Hl].
  - unfold u64_add. rewrite arith_fits by (unfold in_width; lia). cbn.
    split_and!; try done; try apply f64_as_width; try lia.
    + intros Hb. rewrite !Z.mod_small by nia. split; [done|]. intros Hle. rewrite Z.mod_small; nia.
    + intros Hb. rewrite Z.mod_small; nia.
  - unfold u64_add, arith, fits. by destruct (Z.leb_spec 0 (time + delay)), (Z.ltb_spec (time + delay) (2 ^ 64)); cbn; lia.
Qed.

(** ** Parts of the client that submit nothing *)

Section market_spec.
Context {N R D Seal S3 : Type} `{Market N R D Seal S3} `{Digests} `{Zkvm R}.
Context (market : MarketProviderConfig) (client : Client D).

Notation id_of := (request_id_of client).

(** The nonces for requirements, in the order in which they are tried. *)
Fixpoint nonce_at (r : Requirements) (k : nat) : Z :=
  match k with O => next_nonce r None | S k => next_nonce r (Some (nonce_at r k)) end.
Definition tried_before (r : Requirements) (k : nat) : option Z :=
  match k with O => None | S k => Some (nonce_at r k) end.

Lemma next_nonce_at r k : next_nonce r (tried_before r k) = nonce_at r k.
Proof. by destruct k. Qed.

(** The ids of the requests that the market knows of. *)
Context (on_market : N -> gset Z).

(** A call after which the market knows at least the same requests. *)
Definition grows {A} (q : N -> A * N) : Prop := forall n, on_market n ⊆ on_market (q n).2.

(** What the client relies on: requests are not removed, and the answers to
    lookups are true. *)
Record market_laws := {
  ml_found : forall id n r n', lookup_request market client id n = (RequestFound r, n') -> id ∈ on_market n;
  ml_free : forall id n n', lookup_request market client id n = (RequestNotFound, n') -> id ∉ on_market n;
  ml_lookup : forall id, grows (lookup_request market client id);
  ml_status : forall id e, grows (get_status client id e);
  ml_wait : forall id i e, grows (wait_for_request_fulfillment client id i e);
  ml_put : forall c b k data, grows (put_object c b k data);
  ml_upload : forall data, grows (client_upload_program client data) /\ grows (client_upload_input client data);
  ml_execute : forall limit w, grows (execute limit w);
  ml_time : grows (latest_timestamp client);
  ml_submit : forall o, grows (submit_offchain client o) /\ grows (submit_onchain client o);
  ml_write : forall b, grows (fs_write b);
  ml_build : grows (build_client client);
}.

(** From one state of the market to another, it turned out that a request need not
    be waited for: a request was found under the id, and it had expired by the time
    it names, or its requirements are others, or, waiting for it until that time, it
    was seen to expire or was fulfilled with a seal that is no proof. *)
Definition excused (r : Requirements) (id : Z) (n n' : N) : Prop :=
  exists q n1 expired n2,
    polled (match boundless_order_stream_url market with
      | Some _ => fetch_proof_request client id | None => get_submitted_request client id end)
      (eq LookupFailed) n (RequestFound q) n1 /\
    polled (get_status client id (pr_expires_at q)) (fun a => exists e, a = Err e) n1 (Ok expired) n2 /\
    ((expired = true /\ n' = n2) \/
     (expired = false /\ pr_requirements q <> r /\ n' = n2) \/
     (expired = false /\ pr_requirements q = r /\ exists a,
        polled (wait_for_request_fulfillment client id (boundless_order_check_interval market) (pr_expires_at q))
          (eq WaitFailed) n2 a n' /\
        (a = RequestHasExpired \/
         exists journal seal, a = Fulfilled journal seal /\ decode_seal seal (req_image_id r) journal = None))).

Section laws.
Context (L : market_laws).

(** The orders stay the same and the market grows. *)
Definition seen (os : list Order) (m : gset Z) (d : Desk N) : Prop :=
  orders d = os /\ m ⊆ on_market (host_state d).
Definition quiet {A} (m : Run (Desk N) A) : Prop :=
  forall os k, ensures (seen os k) m (fun _ => seen os k).

Lemma quiet_ret {A} (a : A) : quiet (mret a).
Proof. intros os k. by apply ensures_ret. Qed.

Lemma quiet_const {A} (o : attempt A) : quiet (once (lift_at o)).
Proof. intros os k. by apply ensures_once. Qed.

Lemma quiet_fail {A} e : quiet (fail e : Run (Desk N) A).
Proof. apply quiet_const. Qed.

Lemma quiet_bind {A B} (m : Run (Desk N) A) (f : A -> Run (Desk N) B) :
  quiet m -> (forall a, quiet (f a)) -> quiet (m ≫= f).
Proof. intros Hm Hf os k. by eapply ensures_bind; [apply Hm|intros a; apply Hf|..]. Qed.

Lemma quiet_host {A} (q : N -> A * N) : grows q -> quiet (ask (at_host q)).
Proof.
  intros Hq os k. apply ensures_ask. intros d [Ho Hk]. specialize (Hq (host_state d)).
  unfold at_host. destruct (q (host_state d)). split; cbn in *; [done|set_solver].
Qed.

Lemma quiet_loop {S A} (round : S -> Run (Desk N) (S + A)) s : (forall t, quiet (round t)) -> quiet (loop round s).
Proof.
  intros Hr os k. apply (ensures_loop (fun _ => seen os k)). intros t.
  eapply ensures_conseq; [apply Hr|done|]. by intros [[]| |].
Qed.

Lemma quiet_retry {A} (q : N -> outcome A * N) : grows q -> quiet (retry (at_host q)).
Proof.
  intros Hq. apply quiet_loop. intros ?. apply quiet_bind; [by apply quiet_host|].
  intros [] ; apply quiet_const.
Qed.

Lemma quiet_read file : quiet (read_bincoded_file file).
Proof. intros os k. by apply ensures_ask. Qed.

Lemma quiet_save data file : quiet (save_to_bincoded_file data file).
Proof.
  intros os k. apply ensures_ask. intros d [Ho Hk]. pose proof (ml_write L data (host_state d)) as Hw.
  destruct (fs_write data (host_state d)). split; cbn in *; [done|set_solver].
Qed.

Lemma grows_upload r2 key data : grows (upload (S3 := S3) (R := R) (Seal := Seal) (D := D) r2 key data).
Proof.
  intros n. unfold upload. pose proof (ml_put L (r2_client r2) (r2_bucket r2) key data n) as Hp.
  by destruct (put_object _ _ _ _ _) as [[] ?].
Qed.

Lemma grows_uploads r2 data :
  grows (upload_program (S3 := S3) (R := R) (Seal := Seal) (D := D) r2 data) /\
  grows (upload_input (S3 := S3) (R := R) (Seal := Seal) (D := D) r2 data).
Proof.
  split; [|apply grows_upload]. intros n. unfold upload_program.
  destruct (compute_image_id data); [apply grows_upload|done..].
Qed.

Lemma quiet_get_proof_request id : quiet (get_proof_request market client id).
Proof.
  apply quiet_loop. intros ?. apply quiet_bind; [apply quiet_host, L|]. intros ?. apply quiet_ret.
Qed.

Lemma quiet_retrieve_proof id image i e : quiet (retrieve_proof client id image i e).
Proof.
  apply quiet_loop. intros ?. apply quiet_bind; [apply quiet_host, L|]. intros ?. apply quiet_ret.
Qed.

Ltac grow := first [apply (ml_put L) | apply (ml_execute L) | apply (ml_time L) | apply (ml_status L)
  | apply (ml_build L) | apply (ml_lookup L) | apply (ml_upload L)].
Ltac quiet :=
  repeat match goal with
  | |- quiet (mret _) => apply quiet_ret
  | |- quiet (once (lift_at _)) => apply quiet_const
  | |- quiet (fail _) => apply quiet_fail
  | |- quiet (_ ≫= _) => apply quiet_bind; [|intros ?]
  | |- quiet (retry (at_host _)) => apply quiet_retry
  | |- quiet (ask (at_host _)) => apply quiet_host
  | |- quiet (read_bincoded_file _) => apply quiet_read
  | |- quiet (save_to_bincoded_file _ _) => apply quiet_save
  | |- quiet (get_proof_request _ _ _) => apply quiet_get_proof_request
  | |- quiet (retrieve_proof _ _ _ _ _) => apply quiet_retrieve_proof
  | |- quiet (match ?x with _ => _ end) => destruct x
  | |- grows (match ?x with _ => _ end) => destruct x
  | |- grows _ => grow
  end.

Lemma quiet_cached_url file : quiet (cached_url market file).
Proof. unfold cached_url. quiet. Qed.

Lemma quiet_program_url (r2 : option (R2Storage S3)) w : quiet (program_url market client r2 w).
Proof. unfold program_url. apply quiet_bind; [apply quiet_cached_url|intros ?]. quiet; apply grows_uploads. Qed.

Lemma quiet_input_url (r2 : option (R2Storage S3)) w : quiet (input_url market client r2 w).
Proof. unfold input_url. apply quiet_bind; [apply quiet_cached_url|intros ?]. quiet; apply grows_uploads. Qed.

Lemma quiet_cycle_count limit w : quiet (cycle_count market limit w).
Proof. unfold cycle_count. quiet. Qed.

(** ** The nonce of a submission *)

(** The request under the k-th nonce exists and need not be waited for. *)
Definition passed (r : Requirements) (d : Desk N) (k : nat) : Prop :=
  id_of (nonce_at r k) ∈ on_market (host_state d) /\
  exists n n', excused r (id_of (nonce_at r k)) n n' /\ on_market n' ⊆ on_market (host_state d).
(** A nonce that was free when the market knew the requests [m], after all the
    nonces before it. *)
Definition first_free (r : Requirements) (m : gset Z) (t : Z) (d : Desk N) : Prop :=
  exists k, t = nonce_at r k /\ id_of t ∉ m /\ forall i, (i < k)%nat -> passed r d i.

Lemma passed_later r d d' k :
  on_market (host_state d) ⊆ on_market (host_state d') -> passed r d k -> passed r d' k.
Proof. intros Hs [? (n & n' & ? & ?)]. split; [set_solver|]. exists n, n'. split; [done|set_solver]. Qed.

Lemma get_proof_request_spec id os m :
  ensures (seen os m) (get_proof_request market client id) (fun o d =>
    match o with
    | Done None => id ∉ m
    | Done (Some q) => id ∈ on_market (host_state d) /\
        exists n n', lookup_request market client id n = (RequestFound q, n')
    | _ => False
    end).
Proof.
  apply (ensures_loop (fun _ => seen os m)). intros ?.
  intros fuel x o y [Ho Hm]. unfold mbind, Run_bind, ask, once, at_host.
  destruct (lookup_request market client id (host_state x)) as [a n] eqn:E.
  pose proof (ml_lookup L id (host_state x)) as Hg. rewrite E in Hg. cbn in Hg.
  destruct a; intros [= <- <-]; cbn.
  - apply (ml_found L) in E as Hin. split; [set_solver|eauto].
  - apply (ml_free L) in E. set_solver.
  - split; cbn; [done|set_solver].
Qed.

(** The loops around one call to the market. *)
Lemma polling_polled {A B} (q : N -> A * N) (f : A -> unit + B) (again : A -> Prop) fuel d o d' :
  (forall a, again a <-> f a = inl tt) ->
  loop (fun _ : unit => a ← ask (at_host q); mret (f a)) tt fuel d = Some (o, d') ->
  exists a b, o = Done b /\ f a = inr b /\ polled q again (host_state d) a (host_state d').
Proof.
  intros Hf. unfold loop. generalize fuel at 1 as k. intros k. revert d.
  induction k as [|k IH]; intros d; [done|]. cbn. unfold mbind, Run_bind, ask, once, at_host.
  destruct (q (host_state d)) as [a n] eqn:E. cbn. destruct (f a) as [[]|b] eqn:Ef; cbn.
  - intros Er. apply IH in Er as (a' & b & -> & Hb & Hp). exists a', b. split_and!; [done..|].
    eapply polled_again; [exact E|by apply Hf|exact Hp].
  - intros [= <- <-]. exists a, b. split_and!; [done..|]. apply polled_now; [done|]. rewrite Hf. congruence.
Qed.

Lemma retry_polled {A} (q : N -> outcome A * N) fuel d o d' :
  retry (at_host q) fuel d = Some (o, d') ->
  match o with
  | Done a => polled q (fun a => exists e, a = Err e) (host_state d) (Ok a) (host_state d')
  | Failed _ => False
  | Crashed _ => True
  end.
Proof.
  unfold retry, retry_run, loop. generalize fuel at 1 as k. intros k. revert d.
  induction k as [|k IH]; intros d; [done|]. cbn. unfold mbind, Run_bind, ask, once, at_host.
  destruct (q (host_state d)) as [[a|e|w] n] eqn:E; cbn.
  - intros [= <- <-]. apply polled_now; [done|]. by intros [? ?].
  - intros Er. apply IH in Er. destruct o; [|done..]. eapply polled_again; [exact E|eauto|exact Er].
  - by intros [= <- <-].
Qed.

Lemma get_proof_request_polled id fuel d o d' :
  get_proof_request market client id fuel d = Some (o, d') ->
  match o with
  | Done (Some q) => polled (lookup_request market client id) (eq LookupFailed)
      (host_state d) (RequestFound q) (host_state d')
  | Done None => True
  | _ => False
  end.
Proof.
  intros E. apply (polling_polled _ _ (eq LookupFailed)) in E as (a & b & -> & Hf & Hp); [|by intros []].
  by destruct a; simplify_eq.
Qed.

Lemma retrieve_proof_polled id image i e fuel d o d' :
  retrieve_proof client id image i e fuel d = Some (o, d') ->
  match o with
  | Done (Some _) => True
  | Done None => exists a,
      polled (wait_for_request_fulfillment client id i e) (eq WaitFailed) (host_state d) a (host_state d') /\
      (a = RequestHasExpired \/
       exists journal seal, a = Fulfilled journal seal /\ decode_seal seal image journal = None)
  | _ => False
  end.
Proof.
  intros E. apply (polling_polled _ _ (eq WaitFailed)) in E as (a & b & -> & Hf & Hp); [|by intros []].
  destruct a; simplify_eq; [|by eauto..]. destruct (decode_seal _ _ _) eqn:Ed; [done|]. eauto 10.
Qed.

Lemma polled_grows {A} (q : N -> A * N) again n a n' :
  grows q -> polled q again n a n' -> on_market n ⊆ on_market n'.
Proof.
  intros Hq. induction 1 as [x a y E _|x a y b z E _ _ IH]; pose proof (Hq x) as Hx; rewrite E in Hx; cbn in Hx; set_solver.
Qed.

Lemma polled_found id n q n' :
  polled (lookup_request market client id) (eq LookupFailed) n (RequestFound q) n' -> id ∈ on_market n'.
Proof.
  remember (RequestFound q) as a eqn:Ea. induction 1 as [x a y E _|x a y b z E _ _ IH]; subst; [|by apply IH].
  pose proof (ml_lookup L id x) as Hx. rewrite E in Hx. cbn in Hx. apply (ml_found L) in E. set_solver.
Qed.

Lemma excused_known r id n n' : excused r id n n' -> id ∈ on_market n'.
Proof.
  intros (q & n1 & expired & n2 & Hl & Hs & Hr). apply polled_found in Hl.
  apply polled_grows in Hs; [|apply L].
  destruct Hr as [[_ ->]|[(_ & _ & ->)|(_ & _ & a & Hw & _)]]; [set_solver..|].
  apply polled_grows in Hw; [|apply L]. set_solver.
Qed.

(** One round of [look_back], at the k-th nonce: it goes on to the next nonce only
    if the request under this one is excused. *)
Lemma look_back_round_excused r skip p fuel d t d' :
  look_back_round market client r skip p fuel d = Some (Done (inl t), d') ->
  t = Some (next_nonce r p) /\ excused r (id_of (next_nonce r p)) (host_state d) (host_state d').
Proof.
  unfold look_back_round. intros E. apply run_bind_inv in E as (o & d1 & E1 & E).
  apply get_proof_request_polled in E1. destruct o as [[q|]|e|w]; [|discriminate E|done..].
  apply run_bind_inv in E as (o & d2 & E2 & E). apply retry_polled in E2.
  destruct o as [expired|e|w]; [|done|by destruct E as [[=] _]].
  assert (Hx : forall n', (expired = true /\ n' = host_state d2) \/
     (expired = false /\ pr_requirements q <> r /\ n' = host_state d2) \/
     (expired = false /\ pr_requirements q = r /\ exists a,
        polled (wait_for_request_fulfillment client (id_of (next_nonce r p))
          (boundless_order_check_interval market) (pr_expires_at q)) (eq WaitFailed) (host_state d2) a n' /\
        (a = RequestHasExpired \/
         exists journal seal, a = Fulfilled journal seal /\ decode_seal seal (req_image_id r) journal = None)) ->
     excused r (id_of (next_nonce r p)) (host_state d) n').
  { intros n' Hn. exists q, (host_state d1), expired, (host_state d2). split_and!; [exact E1|exact E2|exact Hn]. }
  destruct expired; [injection E as <- <-; split; [done|]; apply Hx; by left|].
  case_bool_decide as Hreq; [injection E as <- <-; split; [done|]; apply Hx; by right; left|].
  destruct skip; [discriminate E|].
  apply run_bind_inv in E as (o & d3 & E3 & E). apply retrieve_proof_polled in E3.
  destruct o as [[proof|]|e|w]; [discriminate E| |done..].
  injection E as <- <-. split; [done|]. apply Hx. by right; right.
Qed.

Lemma quiet_look_back_round r skip p : quiet (look_back_round market client r skip p).
Proof. unfold look_back_round. quiet. Qed.

Lemma look_back_round_spec r skip os m k :
  let J k d := forall i, (i < k)%nat -> passed r d i in
  ensures (fun d => seen os m d /\ J k d)
    (look_back_round market client r skip (tried_before r k))
    (fun o d => seen os m d /\ match o with
      | Done (inl t) => exists k, t = tried_before r k /\ J k d
      | Done (inr (None, t)) => exists n, t = Some n /\ first_free r m n d
      | _ => True
      end).
Proof.
  intros J fuel d o d' [[Ho Hm] Hj] E.
  destruct (quiet_look_back_round r skip _ os (on_market (host_state d)) _ _ _ _ ltac:(by split) E) as [Ho' Hm'].
  split; [split; [done|set_solver]|].
  assert (HJ : J k d') by (intros i Hi; eapply passed_later; [exact Hm'|by apply Hj]).
  destruct o as [[t|[[proof|] t]]| |]; [|done| |done|done].
  - apply look_back_round_excused in E as [-> He]. rewrite next_nonce_at in *. exists (Datatypes.S k).
    split; [done|]. intros i Hi. destruct (decide (i = k)) as [->|]; [|apply HJ; lia].
    split; [by eapply excused_known|]. by exists (host_state d), (host_state d').
  - unfold look_back_round in E. rewrite next_nonce_at in E.
    apply run_bind_inv in E as (o & d1 & E1 & E).
    apply (get_proof_request_spec _ os m _ d _ _ (conj Ho Hm)) in E1. destruct o as [[q|]| |]; [| |done..].
    + exfalso. apply run_bind_inv in E as (o & d2 & _ & E).
      destruct o as [[]|e|w]; [discriminate E| |by destruct E as [[=] _]..].
      case_bool_decide; [discriminate E|]. destruct skip; [discriminate E|].
      apply run_bind_inv in E as (o & d3 & _ & E).
      destruct o as [[]|e|w]; [discriminate E..|by destruct E as [[=] _]|by destruct E as [[=] _]].
    + injection E as <- <-. exists (nonce_at r k). split; [done|]. by exists k.
Qed.

Lemma look_back_spec r skip os m :
  ensures (seen os m) (look_back market client r skip None) (fun o d =>
    seen os m d /\ match o with
    | Done (None, t) => exists n, t = Some n /\ first_free r m n d
    | _ => True
    end).
Proof.
  eapply ensures_conseq;
    [apply (ensures_loop (fun prev d => exists k, prev = tried_before r k /\ seen os m d /\
       forall i, (i < k)%nat -> passed r d i))
    |intros d Hd; exists O; split_and!; [done..|intros i Hi; lia]|intros o y Ho; exact Ho].
  intros prev fuel x o y (k & -> & Hd) E.
  destruct (look_back_round_spec r skip os m k _ _ _ _ Hd E) as [Hs Ho].
  destruct o as [[t|[[proof|] t]]| |]; [|by split..]. naive_solver.
Qed.

Lemma fresh_nonce_spec r skip os m :
  boundless_look_back market = true ->
  ensures (seen os m) (fresh_nonce market client r skip) (fun o d =>
    seen os m d /\ match o with
    | Done (inr t) => first_free r m t d
    | _ => True
    end).
Proof.
  intros Hlb. unfold fresh_nonce. rewrite Hlb.
  eapply ensures_bind; [apply look_back_spec|..]; cbn beta; [|done..].
  intros [[proof|] t]; [apply ensures_ret; naive_solver|].
  intros fuel d o d' (Hd & n & -> & Hf). by intros [= <- <-].
Qed.

(** ** What is handed to the market *)

(** After a submission, at most an order of the proof asked for was added. *)
Definition orders_of (r : Requirements) (journal : bytes) (o : Order) : Prop :=
  order_requirements o = r /\ order_journal o = journal.
Definition handed (os : list Order) (m : gset Z) (P : Order -> Prop) (d : Desk N) : Prop :=
  seen os m d \/ exists o, P o /\ seen (o :: os) m d.

Lemma quiet_handed {A} (m : Run (Desk N) A) os k P :
  quiet m -> ensures (handed os k P) m (fun _ => handed os k P).
Proof.
  intros Hm fuel x o y [Hx|(ord & Hid & Hx)] E; [left|right; exists ord; split; [done|]];
    by eapply Hm.
Qed.

Lemma handed_bind {A B} (m : Run (Desk N) A) (f : A -> Run (Desk N) B) I os k P :
  ensures I m (fun _ => handed os k P) -> (forall a, ensures (handed os k P) (f a) (fun _ => handed os k P)) ->
  ensures I (m ≫= f) (fun _ => handed os k P).
Proof. intros Hm Hf. by eapply ensures_bind; [exact Hm|exact Hf|..]. Qed.

Lemma submit_handed os m (P : Order -> Prop) o :
  P o -> ensures (seen os m) (submit market client o) (fun _ => handed os m P).
Proof.
  intros HP. apply ensures_ask. intros d [Ho Hm]. right. exists o. split; [done|]. unfold seen, at_host. cbn.
  destruct (ml_submit L o) as [G1 G2].
  destruct (boundless_order_stream_url market); cbn.
  - specialize (G1 (host_state d)). destruct (submit_offchain _ _ _) as [? n']. split; cbn in *; [congruence|set_solver].
  - specialize (G2 (host_state d)). destruct (submit_onchain _ _ _) as [? n']. split; cbn in *; [congruence|set_solver].
Qed.

Lemma quiet_seen_handed {A B} (m : Run (Desk N) A) (f : A -> Run (Desk N) B) os k P :
  quiet m -> (forall a, ensures (seen os k) (f a) (fun _ => handed os k P)) ->
  ensures (seen os k) (m ≫= f) (fun _ => handed os k P).
Proof.
  intros Hm Hf. eapply ensures_bind; [apply Hm|exact Hf|..]; cbn; intros; by left.
Qed.

Lemma submit_request_spec (r2 : option (R2Storage S3)) w args r t os m :
  ensures (seen os m) (submit_request market client r2 w args r t)
    (fun _ => handed os m (fun o => order_id o = id_of t /\ orders_of r (wl_journal w) o)).
Proof.
  unfold submit_request.
  apply quiet_seen_handed; [apply quiet_program_url|intros program].
  apply quiet_seen_handed; [apply quiet_cycle_count|intros cycles].
  apply quiet_seen_handed; [apply quiet_input_url|intros input].
  apply quiet_seen_handed; [quiet|intros time].
  apply quiet_seen_handed; [quiet|intros off].
  apply quiet_seen_handed; [quiet|intros _].
  apply handed_bind; [by apply submit_handed|intros sent].
  apply handed_bind; [apply quiet_handed; quiet|intros [id e]].
  apply quiet_handed. quiet.
Qed.

(** An order was placed under the first nonce that was free. *)
Definition placed (r : Requirements) (journal : bytes) (d : Desk N) (o : Order) : Prop :=
  orders_of r journal o /\ exists k, order_id o = id_of (nonce_at r k) /\ forall i, (i < k)%nat -> passed r d i.
(** Of two orders, the older one was not accepted (the newer one has its id),
    or it need not be waited for: the market that said so knew no request that
    the market [m] does not know. *)
Definition once_only (m : gset Z) (newer older : Order) : Prop :=
  order_id older = order_id newer \/
  exists n n', excused (order_requirements newer) (order_id older) n n' /\ on_market n' ⊆ m.
Definition books (r : Requirements) (journal : bytes) (os : list Order) (d : Desk N) : Prop :=
  exists new, orders d = new ++ os /\ Forall (placed r journal d) new /\
    ForallOrdPairs (once_only (on_market (host_state d))) new.

Lemma once_only_later m m' newer older : m ⊆ m' -> once_only m newer older -> once_only m' newer older.
Proof. intros Hm [?|(n & n' & ? & ?)]; [by left|right]. exists n, n'. split; [done|set_solver]. Qed.

Lemma placed_later r journal d d' o :
  on_market (host_state d) ⊆ on_market (host_state d') -> placed r journal d o -> placed r journal d' o.
Proof. intros Hs [? (k & ? & Hp)]. split; [done|]. exists k. split; [done|]. intros i Hi. eapply passed_later; eauto. Qed.

Lemma pairs_later m m' os : m ⊆ m' -> ForallOrdPairs (once_only m) os -> ForallOrdPairs (once_only m') os.
Proof.
  intros Hm. induction 1 as [|o os Ho _ IH]; constructor; [|done].
  eapply Forall_impl; [|exact Ho]. intros older. by apply once_only_later.
Qed.

Lemma books_quiet r journal os d d' :
  seen (orders d) (on_market (host_state d)) d' -> books r journal os d -> books r journal os d'.
Proof.
  intros [Ho Hm] (new & Hn & Hp & Hf). exists new. split_and!; [congruence| |by eapply pairs_later].
  eapply Forall_impl; [|exact Hp]. intros o. by apply placed_later.
Qed.

Lemma books_submit r journal os d d' t :
  books r journal os d -> first_free r (on_market (host_state d)) t d' ->
  handed (orders d) (on_market (host_state d)) (fun o => order_id o = id_of t /\ orders_of r journal o) d' ->
  books r journal os d'.
Proof.
  intros Hb (k & -> & Hfree & Hpass) [Hs|(o & [Hid Hof] & Ho & Hm)]; [by eapply books_quiet|].
  destruct Hb as (new & Hn & Hp & Hf). exists (o :: new). rewrite Ho, Hn. split; [done|].
  split; constructor; [split; [done|by exists k]| |  |by eapply pairs_later].
  - eapply Forall_impl; [|exact Hp]. intros o'. by apply placed_later.
  - eapply Forall_impl; [|exact Hp]. intros o' [_ (k' & Hid' & Hp')]. unfold once_only.
    destruct Hof as [-> _]. rewrite Hid, Hid'.
    destruct (decide (k < k')%nat) as [Hk|Hk].
    + destruct (Hp' k Hk) as [Hin _]. done.
    + destruct (decide (k' = k)) as [->|]; [by left|right]. apply Hpass. lia.
Qed.

Lemma request_proof_books (r2 : option (R2Storage S3)) w args r os :
  boundless_look_back market = true ->
  ensures (books r (wl_journal w) os) (request_proof market client r2 w args r) (fun _ => books r (wl_journal w) os).
Proof.
  intros Hlb fuel x o y Hx. unfold request_proof, mbind, Run_bind.
  destruct (fresh_nonce market client r (skip_await_proof args) fuel x) as [[a d]|] eqn:E; [|done].
  destruct (fresh_nonce_spec r _ (orders x) (on_market (host_state x)) Hlb _ _ _ _ ltac:(by split) E) as [Hd Ha].
  destruct a as [[proof|t]|e|why]; [intros [= <- <-]; by eapply books_quiet| |intros [= <- <-]; by eapply books_quiet..].
  intros Es.
  pose proof (submit_request_spec r2 w args r t (orders d) (on_market (host_state d)) _ _ _ _ ltac:(by split) Es) as Hh.
  assert (Hm : on_market (host_state d) ⊆ on_market (host_state y)) by
    by destruct Hh as [[_ Hm]|(ord & _ & _ & Hm)].
  eapply (books_submit _ _ _ x _ t); [exact Hx| |].
  - destruct Ha as (k & -> & Hf & Hp). exists k. split; [done|]. split; [exact Hf|].
    intros i Hi. eapply passed_later; [exact Hm|by apply Hp].
  - destruct Hd as [Ho Hs]. unfold handed, seen in *. rewrite <-Ho. set_solver.
Qed.

Lemma request_until_proved_books (r2 : option (R2Storage S3)) w args r os :
  boundless_look_back market = true ->
  ensures (books r (wl_journal w) os) (request_until_proved market client r2 w args r)
    (fun _ => books r (wl_journal w) os).
Proof.
  intros Hlb. apply (ensures_loop (fun _ => books r (wl_journal w) os)). intros ?.
  apply (ensures_bind _ _ _ (fun _ => books r (wl_journal w) os)); [|..|done|done].
  - apply ensures_try. eapply ensures_conseq; [by apply request_proof_books|intros d Hd; exact Hd|].
    by intros [a|e|w'] d Hd.
  - intros [proof|[]]; first [by apply ensures_ret|by apply ensures_fail].
Qed.

End laws.
End market_spec.

(** ** The search for a nonce ends *)

Section search.
Context {N R D Seal S3 : Type} `{Market N R D Seal S3} `{Digests} `{Zkvm R}.
Context (market : MarketProviderConfig) (client : Client D) (on_market : N -> gset Z).
Notation id_of := (request_id_of client).

(** The market answers at last, and nothing is submitted in the meantime. *)
Definition keeps {A} (q : N -> A * N) : Prop := forall n, on_market (q n).2 = on_market n.
Record market_live := {
  mv_lookup : forall id n, eventually (fun a => a <> LookupFailed) (lookup_request market client id) n;
  mv_status : forall id e n, eventually (fun a => exists b : bool, a = Ok b) (get_status client id e) n;
  mv_no_panic : forall id e n w, (get_status client id e n).1 <> Panic w;
  mv_wait : forall id i e n, eventually (fun a => a <> WaitFailed) (wait_for_request_fulfillment client id i e) n;
  mv_lookup_keeps : forall id, keeps (lookup_request market client id);
  mv_status_keeps : forall id e, keeps (get_status client id e);
  mv_wait_keeps : forall id i e, keeps (wait_for_request_fulfillment client id i e);
}.
Context (L : market_laws market client on_market) (V : market_live).

(** A loop around a call that is answered at last. *)
Lemma ends_polling {A B} (q : N -> A * N) (f : A -> unit + B) (good : A -> Prop) d :
  keeps q -> (forall a, good a -> exists b, f a = inr b) ->
  eventually good q (host_state d) ->
  exists b d' n a, ends (loop (fun _ : unit => a ← ask (at_host q); mret (f a)) tt) d (Done b, d') /\
    on_market (host_state d') = on_market (host_state d) /\ (q n).1 = a /\ f a = inr b /\
    on_market n = on_market (host_state d).
Proof.
  intros Hk Hf He. assert (Hmono : forall t : unit, run_mono ((fun _ : unit => a ← ask (at_host q); mret (f a)) t))
    by (intros ?; apply mono_bind; [apply mono_ask|intros; apply mono_ret]).
  remember (host_state d) as n eqn:En. revert d En. induction He as [n Hg|n He IH]; intros d ->.
  - destruct (Hf _ Hg) as [b Hb].
    exists b, (at_host q d).2, (host_state d), (q (host_state d)).1. split_and!; try done.
    + apply ends_loop_break; [done|]. exists O. unfold mbind, Run_bind, ask, once, at_host.
      destruct (q (host_state d)) as [a n] eqn:E. cbn in *. by rewrite Hb.
    + unfold at_host. specialize (Hk (host_state d)). by destruct (q (host_state d)).
  - destruct (f (q (host_state d)).1) as [[]|b] eqn:Ef.
    + destruct (IH (at_host q d).2) as (b & d' & n & a & Hends & ? & ? & ? & ?).
      { unfold at_host. by destruct (q (host_state d)). }
      exists b, d', n, a. rewrite Hk in *. split_and!; try done.
      eapply ends_loop_continue; [done| |exact Hends]. exists O. unfold mbind, Run_bind, ask, once, at_host.
      destruct (q (host_state d)) as [a0 n0]. cbn in *. by rewrite Ef.
    + exists b, (at_host q d).2, (host_state d), (q (host_state d)).1. split_and!; try done.
      * apply ends_loop_break; [done|]. exists O. unfold mbind, Run_bind, ask, once, at_host.
        destruct (q (host_state d)) as [a n] eqn:E. cbn in *. by rewrite Ef.
      * unfold at_host. specialize (Hk (host_state d)). by destruct (q (host_state d)).
Qed.

Lemma ends_retry {A} (q : N -> outcome A * N) d :
  keeps q -> (forall n w, (q n).1 <> Panic w) ->
  eventually (fun a => exists b, a = Ok b) q (host_state d) ->
  exists b d', ends (retry (at_host q)) d (Done b, d') /\
    on_market (host_state d') = on_market (host_state d).
Proof.
  intros Hk Hp He. remember (host_state d) as n eqn:En. revert d En.
  assert (Hbreak : forall d b, (q (host_state d)).1 = Ok b ->
    ends (retry (at_host q)) d (Done b, (at_host q d).2)).
  { intros d b E. exists 1%nat. unfold retry, retry_run, loop, ask, once, at_host. cbn.
    unfold mbind, Run_bind. destruct (q (host_state d)) as [a m]. cbn in E. by subst. }
  assert (Hd : forall d, host_state (at_host q d).2 = (q (host_state d)).2).
  { intros d. unfold at_host. by destruct (q (host_state d)). }
  induction He as [n [b Hb]|n He IH]; intros d ->.
  - exists b, (at_host q d).2. split; [by apply Hbreak|]. by rewrite Hd.
  - destruct (q (host_state d)).1 as [b|e|w] eqn:Ea; [|..|by destruct (Hp (host_state d) w)].
    + exists b, (at_host q d).2. split; [by apply Hbreak|]. by rewrite Hd.
    + destruct (IH (at_host q d).2) as (b & d' & Hends & Hm); [by rewrite Hd|].
      exists b, d'. split; [|by rewrite Hm, Hk].
      eapply ends_loop_continue; [intros ?; apply mono_bind; [apply mono_ask|intros []; apply mono_once]| |exact Hends].
      exists O. unfold mbind, Run_bind, ask, once, at_host. destruct (q (host_state d)) as [a m].
      cbn in Ea. by subst.
Qed.

Lemma ends_get_proof_request id d :
  exists found d', ends (get_proof_request market client id) d (Done found, d') /\
    on_market (host_state d') = on_market (host_state d) /\
    (found = None <-> id ∉ on_market (host_state d)).
Proof.
  destruct (ends_polling (lookup_request market client id)
    (fun answer => match answer with
       | RequestFound req => inr (Some req) | RequestNotFound => inr None | LookupFailed => inl tt end)
    (fun a => a <> LookupFailed) d) as (found & d' & n & a & Hends & Hm & Ha & Hf & Hn).
  - apply V.
  - intros []; naive_solver.
  - apply V.
  - exists found, d'. split; [exact Hends|]. split; [done|]. rewrite <-Hn.
    destruct (lookup_request market client id n) as [b n'] eqn:E. cbn in Ha. subst b.
    destruct a; [| |done]; injection Hf as <-.
    + apply (ml_found _ _ _ L) in E. split; [done|]. intros Hx. set_solver.
    + by apply (ml_free _ _ _ L) in E.
Qed.

Lemma ends_retrieve_proof id image i e d :
  exists proof d', ends (retrieve_proof client id image i e) d (Done proof, d') /\
    on_market (host_state d') = on_market (host_state d).
Proof.
  destruct (ends_polling (wait_for_request_fulfillment client id i e)
    (fun answer => match answer with
       | Fulfilled journal seal => inr (decode_seal seal image journal)
       | RequestHasExpired => inr None | WaitFailed => inl tt end)
    (fun a => a <> WaitFailed) d) as (proof & d' & _ & _ & Hends & Hm & _); [apply V| |apply V|eauto].
  intros []; naive_solver.
Qed.

Lemma mono_look_back_round r skip p : run_mono (look_back_round (N := N) market client r skip p).
Proof. unfold look_back_round, get_proof_request, retrieve_proof. mono. Qed.

Lemma mono_retrieve_proof id image i e : run_mono (retrieve_proof (N := N) client id image i e).
Proof. unfold retrieve_proof. mono. Qed.

(** A round at a free nonce ends the search; any other round ends. *)
Lemma look_back_round_ends r skip k d :
  exists o d', ends (look_back_round market client r skip (tried_before r k)) d (o, d') /\
    on_market (host_state d') = on_market (host_state d) /\
    match o with
    | Done (inl t) => t = Some (nonce_at r k) /\ id_of (nonce_at r k) ∈ on_market (host_state d)
    | Done (inr (None, t)) => t = Some (nonce_at r k) /\ id_of (nonce_at r k) ∉ on_market (host_state d)
    | Done (inr (Some _, _)) => True
    | Failed e => e = NotAwaitingProof /\ skip = true
    | Crashed _ => False
    end.
Proof.
  unfold look_back_round. rewrite next_nonce_at. set (id := id_of (nonce_at r k)).
  destruct (ends_get_proof_request id d) as (found & d1 & Hends & Hm & Hf).
  assert (Hg : run_mono (get_proof_request (N := N) market client id)) by (unfold get_proof_request; mono).
  destruct found as [q|].
  2: { exists (Done (inr (None, Some (nonce_at r k)))), d1.
    split; [|split; [done|split; [done|by apply Hf]]].
    eapply ends_bind; [done|mono; apply mono_retrieve_proof|exact Hends|apply ends_ret]. }
  assert (Hin : id ∈ on_market (host_state d)) by (destruct (decide (id ∈ on_market (host_state d))); [done|naive_solver]).
  destruct (ends_retry (get_status client id (pr_expires_at q)) d1) as (expired & d2 & Hends2 & Hm2); [apply V..|].
  destruct (expired || bool_decide (pr_requirements q <> r)) eqn:Eskip.
  { exists (Done (inl (Some (nonce_at r k)))), d2. split; [|by rewrite Hm2, Hm].
    eapply ends_bind; [done|mono; apply mono_retrieve_proof|exact Hends|]. eapply ends_bind; [mono|mono; apply mono_retrieve_proof|exact Hends2|].
    destruct expired; [apply ends_ret|]. cbn in Eskip. rewrite Eskip. apply ends_ret. }
  apply orb_false_iff in Eskip as [-> Eskip]. destruct skip.
  { exists (Failed NotAwaitingProof), d2. split; [|by rewrite Hm2, Hm].
    eapply ends_bind; [done|mono; apply mono_retrieve_proof|exact Hends|]. eapply ends_bind; [mono|mono; apply mono_retrieve_proof|exact Hends2|].
    cbn. rewrite Eskip. apply ends_once. }
  destruct (ends_retrieve_proof id (req_image_id r) (boundless_order_check_interval market) (pr_expires_at q) d2)
    as (proof & d3 & Hends3 & Hm3).
  exists (Done (match proof with Some p => inr (Some p, Some (nonce_at r k)) | None => inl (Some (nonce_at r k)) end)), d3.
  split; [|rewrite Hm3, Hm2, Hm; by destruct proof].
  eapply ends_bind; [done|mono; apply mono_retrieve_proof|exact Hends|]. eapply ends_bind; [mono|mono; apply mono_retrieve_proof|exact Hends2|].
  cbn. rewrite Eskip. eapply ends_bind; [apply mono_retrieve_proof|mono|exact Hends3|apply ends_ret].
Qed.

(** A loop over the nonces, each round of which ends, and continues only at a
    nonce that is taken. *)
Lemma ends_search {A} r (round : option Z -> Run (Desk N) (option Z + A)) (M : gset Z)
    (Good : nat -> A -> Prop) (Bad : ProvingError -> Prop) K :
  (forall p, run_mono (round p)) ->
  (forall k d, on_market (host_state d) = M ->
    exists o d', ends (round (tried_before r k)) d (o, d') /\ on_market (host_state d') = M /\
      match o with
      | Done (inl t) => t = Some (nonce_at r k) /\ id_of (nonce_at r k) ∈ M
      | Done (inr a) => Good k a | Failed e => Bad e | Crashed _ => False end) ->
  id_of (nonce_at r K) ∉ M ->
  forall k d, (k <= K)%nat -> on_market (host_state d) = M -> (forall i, (i < k)%nat -> id_of (nonce_at r i) ∈ M) ->
  exists o d', ends (loop round (tried_before r k)) d (o, d') /\ on_market (host_state d') = M /\
    match o with
    | Done a => exists k, Good k a /\ forall i, (i < k)%nat -> id_of (nonce_at r i) ∈ M
    | Failed e => Bad e | Crashed _ => False end.
Proof.
  intros Hmono Hround HK k. remember (K - k)%nat as j eqn:Ej. revert k Ej.
  induction j as [|j IH]; intros k Ej d Hk Hd Hbelow;
    destruct (Hround k d Hd) as ([[t|a]|e|w] & d1 & Hends & Hd1 & Ho); try done;
    [|exists (Done a), d1; split; [by apply ends_loop_break|eauto]
     |exists (Failed e), d1; split; [by apply ends_loop_fail|eauto]
     | |exists (Done a), d1; split; [by apply ends_loop_break|eauto]
     |exists (Failed e), d1; split; [by apply ends_loop_fail|eauto]];
    destruct Ho as [-> Hin].
  - assert (k = K) as -> by lia. done.
  - destruct (IH (Datatypes.S k) ltac:(lia) d1) as (o & d' & Hends' & Hd' & Ho).
    + destruct (decide (k = K)) as [->|]; [done|lia].
    + done.
    + intros i Hi. destruct (decide (i = k)) as [->|]; [done|apply Hbelow; lia].
    + exists o, d'. split; [|done]. eapply ends_loop_continue; [done|exact Hends|exact Hends'].
Qed.

(** A nonce that was found free, in a market that knew the requests [M]. *)
Definition found_free (r : Requirements) (M : gset Z) (t : Z) : Prop :=
  exists k, t = nonce_at r k /\ id_of t ∉ M /\ forall i, (i < k)%nat -> id_of (nonce_at r i) ∈ M.

(** C23. The search for a nonce ends. Suppose the market answers every call at last and truthfully,
    nothing is submitted for this wallet in the meantime, and some nonce of the requirements has no
    request. Then the search ends, whether it looks back or not, and the nonce it gives, if it
    gives one, is the same in both cases: the first one without a request. Looking back may instead
    give a proof, or refuse to wait for one. *)
Theorem nonce_search_ends r skip d K :
  id_of (nonce_at r K) ∉ on_market (host_state d) ->
  exists o d', ends (fresh_nonce market client r skip) d (o, d') /\
    on_market (host_state d') = on_market (host_state d) /\
    match o with
    | Done (inr t) => found_free r (on_market (host_state d)) t
    | Done (inl _) => boundless_look_back market = true
    | Failed e => e = NotAwaitingProof /\ skip = true /\ boundless_look_back market = true
    | Crashed _ => False
    end.
Proof.
  intros HK. unfold fresh_nonce. set (M := on_market (host_state d)) in *.
  destruct (boundless_look_back market) eqn:Hlb.
  - destruct (ends_search r (look_back_round market client r skip) M
      (fun k '(proof, t) => match proof : option R with
         | Some _ => True | None => t = Some (nonce_at r k) /\ id_of (nonce_at r k) ∉ M end)
      (fun e => e = NotAwaitingProof /\ skip = true) K) with (k := O) (d := d)
      as ([[proof t]|e|w] & d' & Hends & Hd' & Ho); try done; [apply mono_look_back_round| |lia|lia|..].
    + intros k d1 Hd1. destruct (look_back_round_ends r skip k d1) as (o & d2 & H1' & H2' & H3').
      exists o, d2. rewrite <-Hd1. split_and!; [done|done|]. by destruct o as [[?|[[?|] ?]]| |].
    + destruct Ho as (k & Ho & Hbelow). destruct proof as [proof|].
      * exists (Done (inl proof)), d'. split; [|done].
        eapply ends_bind; [apply mono_loop, mono_look_back_round|mono|exact Hends|apply ends_ret].
      * destruct Ho as [-> Hfree]. exists (Done (inr (nonce_at r k))), d'. split; [|split; [done|by exists k]].
        eapply ends_bind; [apply mono_loop, mono_look_back_round|mono|exact Hends|].
        by exists O.
    + exists (Failed e), d'. split; [by apply ends_bind_fail|]. naive_solver.
  - destruct (ends_search r (fun p => let nonce := next_nonce r p in
        found ← get_proof_request market client (id_of nonce);
        mret match found with None => inr nonce | Some _ => inl (Some nonce) end) M
      (fun k t => t = nonce_at r k /\ id_of t ∉ M) (fun _ => False) K) with (k := O) (d := d)
      as ([t|e|w] & d' & Hends & Hd' & Ho); try done; [| |lia|lia|].
    + intros p. unfold get_proof_request. mono.
    + intros k d1 Hd1. rewrite next_nonce_at.
      destruct (ends_get_proof_request (id_of (nonce_at r k)) d1) as (found & d2 & Hends & Hm & Hf).
      eexists _, d2. split; [eapply ends_bind; [unfold get_proof_request; mono|mono|exact Hends|apply ends_ret]|].
      split; [congruence|]. rewrite Hd1 in Hf. destruct found; cbn; [|naive_solver].
      split; [done|]. destruct (decide (id_of (nonce_at r k) ∈ M)); [done|naive_solver].
    + destruct Ho as (k & [-> Hfree] & Hbelow). exists (Done (inr (nonce_at r k))), d'.
      split; [|split; [done|by exists k]].
      eapply ends_bind; [unfold get_next_fresh_nonce, get_proof_request; mono|mono|exact Hends|apply ends_ret].
Qed.
End search.

(** ** The client as a whole *)

Section client_spec.
Context {N R D Seal S3 : Type} `{Market N R D Seal S3} `{Digests} `{Zkvm R}.

(** C10. No proof is paid for twice. Assume that the market keeps the requests it has accepted and
    answers lookups truthfully ([market_laws]), and that the client looks back. Then every order
    that a run hands to the market asks for the proof of the workload: of its image and journal,
    with the market's Groth16 seal. And of any two of them, however often the run starts over and
    whatever fails in between, either both have the same id, so that at most one was accepted, or
    in the meantime the older one was seen not to be waited for: looked up, its request was found,
    and its status at the time it names was expired; or it asks for something else; or, waited for
    until that time, it was seen to expire, or to be fulfilled with a seal that is no proof. *)
Theorem orders_justified market storage domain w args (on_market : N -> gset Z) fuel d o d' :
  market_laws market (client_of market storage) on_market ->
  boundless_look_back market = true ->
  run_boundless_client market storage domain w args fuel d = Some (o, d') ->
  exists new, orders d' = new ++ orders d /\
    Forall (fun o => order_journal o = wl_journal w /\
      let r := digest_match (wl_image w) (journal_digest (wl_journal w)) in
      order_requirements o = {| req_image_id := req_image_id r; req_predicate_type := req_predicate_type r;
        req_predicate_data := req_predicate_data r; req_callback_addr := req_callback_addr r;
        req_callback_gas := req_callback_gas r; req_selector := groth16_selector |}) new /\
    ForallOrdPairs (fun newer older => order_id older = order_id newer \/
      exists n n', on_market n' ⊆ on_market (host_state d') /\
        excused market (client_of market storage) (order_requirements newer) (order_id older) n n') new.
Proof.
  intros L Hlb.
  set (B := books market (client_of market storage) on_market (requirements w) (wl_journal w) (orders d)).
  assert (Hb : ensures B (run_boundless_client market storage domain w args) (fun _ => B)).
  { unfold run_boundless_client.
    assert (Hq : forall A (m : Run (Desk N) A), quiet on_market m -> ensures B m (fun _ => B)).
    { intros A m Hm f x a y Hx E.
      pose proof (Hm (orders x) (on_market (host_state x)) f x a y ltac:(by split) E) as Hs.
      eapply books_quiet; [exact L|exact Hs|exact Hx]. }
    eapply ensures_bind; [apply Hq, quiet_const|intros r2|done..].
    eapply ensures_bind; [apply Hq, quiet_const|intros ?|done..].
    eapply ensures_bind; [apply Hq; eapply quiet_retry; [exact L|apply L]|intros ?|done..].
    by apply request_until_proved_books. }
  intros E. destruct (Hb _ _ _ _ ltac:(exists []; split; [done|split; constructor]) E) as (new & Ho & Hp & Hf).
  exists new. split_and!; [done| |].
  - eapply Forall_impl; [|exact Hp]. intros order [[Hr Hj] _]. by split.
  - clear -Hf. induction Hf as [|order os Hos _ IH]; constructor; [|done].
    eapply Forall_impl; [|exact Hos]. intros older [?|(n & n' & ? & ?)]; [by left|right; eauto].
Qed.

(** ** Errors *)

(** The errors of one request. *)
Lemma request_proof_errors market client (r2 : option (R2Storage S3)) w args r :
  fails_with (prover_error args) (request_proof (N := N) market client r2 w args r).
Proof.
  unfold request_proof, fresh_nonce, look_back, look_back_round, get_next_fresh_nonce, get_proof_request,
    submit_request, retrieve_proof, program_url, input_url, cycle_count, cached_url, submit, no_err,
    read_bincoded_file, save_to_bincoded_file.
  fails; try done; apply fails_const; intros e; case_match; intros [= <-]; done.
Qed.

(** A request that is waited for fails only for good. *)
Lemma request_until_proved_errors market client (r2 : option (R2Storage S3)) w args r :
  fails_with (fun e => prover_error args e /\ forall why, e <> OtherError why)
    (request_until_proved (N := N) market client r2 w args r).
Proof.
  apply fails_loop. intros ?.
  eapply fails_try; [apply request_proof_errors|intros a; apply fails_ret|].
  intros e He. destruct e; first [by apply fails_ret|by apply fails_fail].
Qed.

Lemma boundless_errors market storage domain w args :
  fails_with (prover_error args) (run_boundless_client (N := N) market storage domain w args).
Proof.
  unfold run_boundless_client. fails; try done.
  intros fuel x e y E. by apply request_until_proved_errors in E as [? _].
Qed.
End client_spec.

(** ** A concrete market

    It accepts every request; the first one it accepts expires at once, and every
    later one is fulfilled. *)
Module MarketDemo.
#[export] Instance digests : Digests := {|
  sha256 := demo_digest (2 ^ 224); keccak256 := demo_digest 1;
  sha256_width := demo_digest_width _; keccak256_width := demo_digest_width _ |}.
#[export] Instance zkvm : Zkvm Z := {|
  receipt_journal := fun r => be_bytes 2 r; receipt_verify := fun _ _ => Ok tt;
  journal_digest := fun j => from_be_bytes j; env_verify := fun _ _ => Ok tt |}.
Definition answer (id : Z) (n : gmap Z ProofRequest) : lookup_answer * gmap Z ProofRequest :=
  (match n !! id with Some r => RequestFound r | None => RequestNotFound end, n).
Definition accept (o : Order) (n : gmap Z ProofRequest) : outcome (Z * Z) * gmap Z ProofRequest :=
  let expires := if decide (n = ∅) then 0 else 9 in
  (Ok (order_id o, expires),
   <[order_id o := {| pr_requirements := order_requirements o; pr_expires_at := expires |}]> n).
#[export] Instance market_host : Market (gmap Z ProofRequest) Z unit unit unit := {|
  deployment_from_chain_id := fun _ => None; deployment_build := fun _ _ _ _ _ => Some tt;
  storage_from_config := fun _ => Ok tt; build_client := fun _ n => (Ok tt, n);
  wallet_address := fun k => k; request_id := fun a n => a * 2 ^ 32 + n;
  digest_match := fun image digest => {| req_image_id := image; req_predicate_type := 0;
    req_predicate_data := be_bytes 28 digest; req_callback_addr := 0; req_callback_gas := 0; req_selector := 0 |};
  groth16_selector := 5; as_le_slice := be_bytes 12;
  fetch_proof_request := fun _ => answer; get_submitted_request := fun _ => answer;
  get_status := fun _ _ e n => (Ok (e =? 0), n);
  wait_for_request_fulfillment := fun _ _ _ e n =>
    (if e =? 0 then RequestHasExpired else Fulfilled [] tt, n);
  decode_seal := fun _ image _ => Some image; s3_client := fun _ _ _ _ => tt;
  put_object := fun _ _ _ _ n => (Ok tt, n); compute_image_id := fun _ => Ok 3; hex := fun _ => "aa";
  url_parse := Ok; client_upload_program := fun _ _ n => (Ok "p", n);
  client_upload_input := fun _ _ n => (Ok "i", n); execute := fun _ _ n => (Ok [20; 21], n);
  guest_env := fun _ => Ok []; latest_timestamp := fun _ n => (Ok 1000, n); offer_build := fun _ => Ok tt;
  submit_offchain := fun _ => accept; submit_onchain := fun _ => accept;
  fs_write := fun b n => (Some b, n); bincode_string := fun _ => [];
  parse_string := fun _ => None; bincode_u64 := be_bytes 8; parse_u64 := fun b => Some (from_be_bytes b) |}.

Definition config : MarketProviderConfig := {|
  boundless_rpc_url := "http://localhost"; boundless_wallet_key := 1; boundless_chain_id := None;
  boundless_market_address := None; boundless_verifier_router_address := None;
  boundless_set_verifier_address := None; boundless_stake_token_address := None;
  boundless_order_stream_url := None; boundless_look_back := true; boundless_assume_cycle_count := None;
  boundless_cycle_min_wei := 0; boundless_cycle_max_wei := 200000000; boundless_mega_cycle_stake := 1000;
  boundless_order_bid_delay_factor := f64_lit 1 10; boundless_order_ramp_up_factor := f64_lit 1 4;
  boundless_order_lock_timeout_factor := f64_lit 3 1; boundless_order_expiry_factor := f64_lit 2 1;
  boundless_order_check_interval := 12; boundless_enable_upload_caching := true;
  boundless_order_submission_cooldown := 12 |}.
Definition storage : StorageProviderConfig := {|
  storage_provider := StorageFile; s3_access_key := None; s3_secret_key := None; s3_bucket := None;
  s3_url := None; aws_region := None; pinata_jwt := None; pinata_api_url := None;
  ipfs_gateway_url := None; file_path := None |}.
Definition workload : Workload Z := {| wl_image := 3; wl_elf := []; wl_journal := [];
  wl_slices := []; wl_frames := []; wl_proofs := [] |}.
Definition proving : ProvingArgs := {|
  payout_recipient_arg := None; segment_limit := 21; max_block_derivations := 1; max_block_executions := 1;
  max_witness_size := 1; num_concurrent_preflights := 1; skip_derivation_proof := false;
  skip_await_proof := false; hokulea_is_set := false; hana_is_set := false |}.
Definition desk : Desk (gmap Z ProofRequest) := {| cached := ∅; orders := []; host_state := ∅ |}.
Definition run := run_boundless_client (S3 := unit) config storage None workload proving 5%nat desk.

Lemma laws : market_laws (S3 := unit) config (client_of config storage) dom.
Proof.
  assert (Hg : forall A (q : gmap Z ProofRequest -> A * gmap Z ProofRequest), (forall n, (q n).2 = n) -> grows dom q)
    by (intros A q Hq n; by rewrite Hq).
  split; try (intros; apply Hg; done); try (intros; split; apply Hg; done).
  - intros id n r n'. cbn. unfold answer. destruct (n !! id) eqn:E; [|done]. intros [= <- <-]. by apply elem_of_dom_2 in E.
  - intros id n n'. cbn. unfold answer. destruct (n !! id) eqn:E; [done|]. intros _. by apply not_elem_of_dom.
  - intros o. assert (Ha : grows dom (accept o)) by (intros n; cbn; rewrite dom_insert; set_solver).
    split; exact Ha.
Qed.

(** Two orders: the first one expired. *)
Lemma two_orders : exists o d, run = Some (Done o, d) /\ length (orders d) = 2%nat.
Proof.
  assert (E : (match run with Some (Done _, d) => length (orders d) | _ => 0%nat end) = 2%nat) by (vm_compute; reflexivity).
  destruct run as [[[a| |] d]|]; try done. eauto.
Qed.

Lemma live : market_live (Seal := unit) config (client_of (S3 := unit) config storage) dom.
Proof.
  split; try done; intros; apply eventually_now; cbn; unfold answer.
  - by destruct (n !! id).
  - eauto.
  - by destruct (e =? 0).
Qed.

(** A market that knows an expired request under the first nonce. *)
Definition reqs : Requirements := requirements (S3 := unit) workload.
Definition client : Client unit := client_of (S3 := unit) config storage.
Definition after_one : Desk (gmap Z ProofRequest) := {| cached := ∅; orders := []; host_state :=
  {[ request_id_of (S3 := unit) client (nonce_at (S3 := unit) reqs 0) := {| pr_requirements := reqs; pr_expires_at := 0 |} ]} |}.
End MarketDemo.
#[local] Existing Instances MarketDemo.digests MarketDemo.zkvm MarketDemo.market_host.

Lemma nonce_search_ends_witness :
  exists o d', ends (fresh_nonce (R := Z) (S3 := unit) MarketDemo.config MarketDemo.client MarketDemo.reqs false)
    MarketDemo.after_one (o, d') /\
    match o with Done (inr t) => t = nonce_at (S3 := unit) MarketDemo.reqs 1 | _ => False end.
Proof.
  destruct (nonce_search_ends (R := Z) (Seal := unit) (S3 := unit) MarketDemo.config MarketDemo.client dom
    MarketDemo.laws MarketDemo.live MarketDemo.reqs false MarketDemo.after_one 1)
    as (o & d' & [f Hf] & _ & _).
  { apply (bool_decide_unpack _). vm_compute. exact I. }
  exists o, d'. split; [by exists f|].
  assert (Hm : run_mono (fresh_nonce (R := Z) (Seal := unit) (S3 := unit) MarketDemo.config MarketDemo.client MarketDemo.reqs false)).
  { unfold fresh_nonce, look_back, look_back_round, get_next_fresh_nonce, get_proof_request, retrieve_proof. mono. }
  assert (E : ends (fresh_nonce (R := Z) (Seal := unit) (S3 := unit) MarketDemo.config MarketDemo.client MarketDemo.reqs false)
    MarketDemo.after_one (Done (inr (nonce_at (S3 := unit) MarketDemo.reqs 1)), MarketDemo.after_one)).
  { exists 5%nat. vm_compute. reflexivity. }
  assert (Ho := ends_deterministic _ _ _ _ Hm (ex_intro _ f Hf) E). by injection Ho as -> _.
Defined.

Lemma orders_justified_witness :
  exists o d' newer older, MarketDemo.run = Some (o, d') /\ orders d' = [newer; older] /\
    (order_id older = order_id newer \/ exists n n',
       excused (S3 := unit) MarketDemo.config MarketDemo.client MarketDemo.reqs (order_id older) n n').
Proof.
  destruct MarketDemo.two_orders as (o & d' & E & Hlen).
  destruct (orders_justified MarketDemo.config MarketDemo.storage None MarketDemo.workload MarketDemo.proving
    dom 5 MarketDemo.desk (Done o) d' MarketDemo.laws eq_refl E) as (new & Hn & Hr & Hf).
  cbn in Hn. rewrite app_nil_r in Hn. subst new.
  destruct (orders d') as [|b [|a [|c l]]] eqn:Ed; [discriminate Hlen..| |discriminate Hlen].
  exists (Done o), d', b, a. split; [exact E|]. split; [exact Ed|].
  inversion Hf as [|? ? Hx _]; subst. inversion Hx as [|? ? [Hy|(n & n' & _ & Hy)] _]; subst; [by left|right].
  inversion Hr as [|? ? [_ Hb] _]; subst. cbv zeta in Hb. rewrite Hb in Hy. exists n, n'. exact Hy.
Defined.

Lemma offer_spec_witness :
  exists o, offer MarketDemo.config 2500000 1000 = Ok o /\
    min_price o <= max_price o /\ max_price o = 200000000 * 2500000 /\ lock_stake o = 3000 /\
    1000 <= bidding_start o /\ lock_timeout o = 9 /\ timeout o = 15.
Proof.
  pose proof (offer_spec MarketDemo.config 2500000 1000 ltac:(split; lia) ltac:(lia) ltac:(cbn; lia)
    ltac:(cbn; lia) ltac:(cbn; lia)) as Hspec.
  destruct (offer MarketDemo.config 2500000 1000) as [o|e|w] eqn:E; [|by vm_compute in E..].
  destruct Hspec as (_ & _ & _ & Hmax & Hstake & _ & Hbid & _).
  destruct Hmax as [Hmax Hmin]; [cbn; lia|]. destruct Hmin as [_ Hle]; [cbn; lia|].
  exists o. split; [done|]. split; [exact Hle|]. split; [exact Hmax|].
  split; [apply Hstake; vm_compute; reflexivity|]. split; [exact Hbid|].
  vm_compute in E. injection E as <-. done.
Defined.
