(* ===== verification/Bonsai.v ===== *)
(** * crates/prover/src/risczero/bonsai.rs

    The client of Bonsai: it encodes the input of the guest, starts a session,
    polls it and starts another one if it fails, and has its proof wrapped. *)

From S2P Require Import Prelude Bytes Journal Stitching Witgen Tasks Backend Worker Runs Boundless BoundlessSpec.
From coqutil Require Import Word.LittleEndianList.
Open Scope Z_scope.

(** What a status query tells of a session. *)
Record SessionStatus := { session_status : string; session_output : option string }.

Class BonsaiHost (N R : Type) := {
  bonsai_from_env : outcome unit;
  (** BONSAI_POLL_INTERVAL_MS, parsed, if it is set. *)
  poll_interval_ms : option (outcome Z);
  bonsai_api_url : bool; bonsai_api_key : bool; dev_mode : bool;
  recursion_forced : bool; groth16_receipt : R -> bool;
  receipt_words : R -> outcome bytes;
  receipt_bincode : R -> outcome bytes;
  receipt_parse : bytes -> outcome R;
  image_hex : Z -> string;
  has_img : string -> N -> outcome bool * N;
  upload_img : string -> bytes -> N -> outcome unit * N;
  bonsai_upload_input : bytes -> N -> outcome string * N;
  upload_receipt : bytes -> N -> outcome string * N;
  create_session_with_limit : string -> string -> list string -> N -> outcome string * N;
  stark_status : string -> N -> outcome SessionStatus * N;
  create_snark : string -> N -> outcome string * N;
  snark_status : string -> N -> outcome SessionStatus * N;
  download : string -> N -> outcome bytes * N;
}.

Section bonsai.
Context {N R : Type} `{BonsaiHost N R} `{Zkvm R}.

Definition should_use_bonsai : bool := negb dev_mode && bonsai_api_url && bonsai_api_key.

(** *** The input *)

(** [bytemuck::cast_slice] of little-endian words. *)
Definition cast_slice (slice : list Z) : bytes := concat (map (le_split 4) slice).
Definition frame_bytes (frame : bytes) : bytes :=
  le_split 4 (Z.of_nat (length frame) `mod` 2 ^ 32) ++ frame.
Definition witness_input (slices : list (list Z)) (frames : list bytes) : bytes :=
  concat (map cast_slice slices) ++ concat (map frame_bytes frames).

(** The receipts: read by the guest from its input, or uploaded as assumptions. *)
Definition load_receipt (acc : bytes * list string) (receipt : R) : Run N (bytes * list string) :=
  let '(input, ids) := acc in
  if recursion_forced || groth16_receipt receipt then
    words ← once (lift_at (map_err OtherError (receipt_words receipt)));
    mret (input ++ words, ids)
  else
    serialized ← once (lift_at (map_err OtherError (receipt_bincode receipt)));
    answer ← ask (upload_receipt serialized);
    id ← once (lift_at (map_err OtherError answer));
    mret (input, ids ++ [id]).
Fixpoint load_receipts (acc : bytes * list string) (receipts : list R) : Run N (bytes * list string) :=
  match receipts with
  | [] => mret acc
  | r :: receipts => acc ← load_receipt acc r; load_receipts acc receipts
  end.

(** *** Sessions *)

Definition create_stark_session (image : Z) (elf input : bytes) (assumptions : list string) : Run N string :=
  let id := image_hex image in
  present ← retry (has_img id);
  _ ← (if present : bool then mret tt else retry (upload_img id elf));
  loop (fun _ : unit =>
    input_id ← retry (bonsai_upload_input input);
    session ← ask (create_session_with_limit id input_id assumptions);
    match session with
    | Ok uuid => mret (inr uuid)
    | Err _ => mret (inl tt)
    | Panic w => once (lift_at (Crashed w))
    end) tt.

(** The stark id is used for the first attempt; every other uploads the receipt. *)
Definition create_snark_session (receipt : bytes) (stark_id : option string) : Run N string :=
  loop (fun stark_id =>
    id ← (match stark_id with Some id => mret id | None => retry (upload_receipt receipt) end);
    session ← ask (create_snark id);
    match session with
    | Ok uuid => mret (inr uuid)
    | Err _ => mret (inl None)
    | Panic w => once (lift_at (Crashed w))
    end) stark_id.

(** Downloading, decoding and checking a receipt; [None] if any of it fails. *)
Definition fetch_receipt (image : Z) (url : string) : Run N (option R) :=
  buf ← ask (download url);
  match buf with
  | Ok buf =>
      match receipt_parse buf with
      | Ok receipt =>
          match receipt_verify image receipt with
          | Ok tt => mret (Some receipt)
          | Err _ => mret None
          | Panic w => once (lift_at (Crashed w))
          end
      | Err _ => mret None
      | Panic w => once (lift_at (Crashed w))
      end
  | Err _ => mret None
  | Panic w => once (lift_at (Crashed w))
  end.

(** A polling loop: both have the same arms. *)
Definition poll_round (status : string -> N -> outcome SessionStatus * N) (restart : Run N string)
    (image : Z) (session : string) : Run N (string + R * string) :=
  res ← retry (status session);
  if bool_decide (session_status res = "RUNNING") then mret (inl session)
  else if bool_decide (session_status res = "SUCCEEDED") then
    match session_output res with
    | None => mret (inl session)
    | Some url =>
        receipt ← fetch_receipt image url;
        mret (match receipt with Some receipt => inr (receipt, session) | None => inl session end)
    end
  else session ← restart; mret (inl session).
Definition poll (status : string -> N -> outcome SessionStatus * N) (restart : Run N string)
    (image : Z) (session : string) : Run N (R * string) :=
  loop (poll_round status restart image) session.

Definition run_bonsai_client (image : Z) (elf : bytes) (slices : list (list Z)) (frames : list bytes)
    (stitched_proofs : list R) (prove_snark : bool) (args : ProvingArgs) : Run N R :=
  _ ← once (lift_at (map_err OtherError bonsai_from_env));
  '(input, assumptions) ← load_receipts (witness_input slices frames, []) stitched_proofs;
  session ← create_stark_session image elf input assumptions;
  if skip_await_proof args then fail NotAwaitingProof
  else
    _ ← once (lift_at (map_err OtherError (match poll_interval_ms with
      | Some ms => _ ← ms; Ok tt | None => Ok tt end)));
    '(stark_receipt, stark_session) ←
      poll stark_status (create_stark_session image elf input assumptions) image session;
    if negb prove_snark then mret stark_receipt
    else
      bincoded ← once (lift_at (map_err OtherError (receipt_bincode stark_receipt)));
      session ← create_snark_session bincoded (Some stark_session);
      '(receipt, _) ← poll snark_status (create_snark_session bincoded None) image session;
      mret receipt.
End bonsai.

(** ** What the client keeps to *)

Section bonsai_spec.
Context {N R : Type} `{BonsaiHost N R} `{Zkvm R}.

(** How the receipts reach the guest: as words in its input, which are read after
    the witness, or as uploads that the session names as its assumptions. *)
Inductive receipts_sent : list R -> bytes -> list string -> Prop :=
| sent_none : receipts_sent [] [] []
| sent_words r words rs input ids :
    recursion_forced || groth16_receipt r = true -> receipt_words r = Ok words ->
    receipts_sent rs input ids -> receipts_sent (r :: rs) (words ++ input) ids
| sent_upload r serialized id n n' rs input ids :
    recursion_forced || groth16_receipt r = false -> receipt_bincode r = Ok serialized ->
    upload_receipt serialized n = (Ok id, n') ->
    receipts_sent rs input ids -> receipts_sent (r :: rs) input (id :: ids).

(** A session that was started for an image, an input and assumptions. *)
Definition stark_started (image : Z) (input : bytes) (ids : list string) (session : string) : Prop :=
  exists input_id n1 n2 n3 n4, bonsai_upload_input input n1 = (Ok input_id, n2) /\
    create_session_with_limit (image_hex image) input_id ids n3 = (Ok session, n4).
(** A session that was started to wrap a receipt: that of a session, or one that
    was uploaded. *)
Definition snark_started (receipt : bytes) (stark : string) (session : string) : Prop :=
  exists target n1 n2, create_snark target n1 = (Ok session, n2) /\
    (target = stark \/ exists n3 n4, upload_receipt receipt n3 = (Ok target, n4)).
(** A receipt that a session, once it succeeded, offered for download, and that
    verifies. *)
Definition delivered (status : string -> N -> outcome SessionStatus * N) (image : Z) (session : string) (r : R) : Prop :=
  exists res url buf n1 n2 n3 n4, status session n1 = (Ok res, n2) /\
    session_status res = "SUCCEEDED" /\ session_output res = Some url /\
    download url n3 = (Ok buf, n4) /\ receipt_parse buf = Ok r /\ receipt_verify image r = Ok tt.

Abbreviation gives m P := (ensures (fun _ : N => True) m (fun o _ => match o with Done a => P a | _ => True end)).

Lemma gives_bind {A B} (m : Run N A) (f : A -> Run N B) (P : A -> Prop) (Q : B -> Prop) :
  gives m P -> (forall a, P a -> gives (f a) Q) -> gives (m ≫= f) Q.
Proof.
  intros Hm Hf. eapply ensures_bind; [exact Hm| |done|done].
  intros a fuel x o y Ha E. by apply (Hf a Ha fuel x o y I).
Qed.

Lemma gives_once {A} (m : Pr N A) (P : A -> Prop) : (forall n a n', m n = (Done a, n') -> P a) -> gives (once m) P.
Proof. intros Hm fuel x o y _ [= E]. destruct o; [by eapply Hm|done..]. Qed.

Lemma gives_const {A} (o : attempt A) (P : A -> Prop) : (forall a, o = Done a -> P a) -> gives (once (lift_at o)) P.
Proof. intros Ho. apply gives_once. intros n a n' [= E _]. auto. Qed.

Lemma gives_map_err {A} (o : outcome A) (P : A -> Prop) :
  (forall a, o = Ok a -> P a) -> gives (once (lift_at (map_err OtherError o))) P.
Proof. intros Ho. apply gives_const. destruct o; intros ? [= <-]; auto. Qed.

Lemma gives_ask {A} (q : N -> A * N) : gives (ask q) (fun a => exists n n', q n = (a, n')).
Proof. apply gives_once. intros n a n'. destruct (q n) eqn:E. intros [= <- <-]. eauto. Qed.

Lemma gives_retry {A} (q : N -> outcome A * N) : gives (retry q) (fun a => exists n n', q n = (Ok a, n')).
Proof. eapply ensures_conseq; [apply (ensures_retry (fun _ => True))|done|]. intros []; naive_solver. Qed.

Lemma gives_loop {S A} (round : S -> Run N (S + A)) s (I : S -> Prop) (P : A -> Prop) :
  I s -> (forall t, I t -> gives (round t) (fun r => match r with inl t => I t | inr a => P a end)) ->
  gives (loop round s) P.
Proof.
  intros Hs Hr. eapply ensures_conseq; [apply (ensures_loop (fun t _ => I t))|done|intros o y Ho; exact Ho].
  intros t fuel x o y Ht E. specialize (Hr t Ht fuel x o y Logic.I E). by destruct o as [[]| |].
Qed.

Lemma load_receipts_sent receipts input ids :
  gives (load_receipts (input, ids) receipts) (fun '(input', ids') => exists words uploads,
    input' = input ++ words /\ ids' = ids ++ uploads /\ receipts_sent receipts words uploads).
Proof.
  revert input ids. induction receipts as [|r receipts IH]; intros input ids; cbn [load_receipts].
  { apply ensures_ret. intros _ _. exists [], []. rewrite !app_nil_r. split_and!; [done..|constructor]. }
  apply (gives_bind _ _ (fun '(input1, ids1) => exists words uploads, input1 = input ++ words /\ ids1 = ids ++ uploads /\
    forall ws us, receipts_sent receipts ws us -> receipts_sent (r :: receipts) (words ++ ws) (uploads ++ us))).
  - unfold load_receipt. destruct (recursion_forced || groth16_receipt r) eqn:Ef.
    + eapply gives_bind; [apply gives_map_err; intros words Hw; exact Hw|]. cbn. intros words Hw.
      apply ensures_ret. intros _ _. exists words, []. rewrite app_nil_r. split_and!; [done..|].
      intros ws us Hs. by apply sent_words.
    + eapply gives_bind; [apply gives_map_err; intros s Hs; exact Hs|]. cbn. intros serialized Hs.
      eapply gives_bind; [apply gives_ask|]. cbn. intros answer (n & n' & Hu).
      eapply gives_bind; [apply gives_map_err; intros id Hid; exact Hid|]. cbn. intros id ->.
      apply ensures_ret. intros _ _. exists [], [id]. rewrite app_nil_r. split_and!; [done..|].
      intros ws us Hr. by eapply sent_upload.
  - intros [input1 ids1] (words & uploads & -> & -> & Hs).
    eapply ensures_conseq; [apply IH|done|]. intros [[input2 ids2]| |] _; [|done..].
    intros (ws & us & -> & -> & Hr). exists (words ++ ws), (uploads ++ us). rewrite !app_assoc. eauto.
Qed.

Lemma create_stark_session_started image elf input ids :
  gives (create_stark_session image elf input ids) (stark_started image input ids).
Proof.
  unfold create_stark_session. eapply gives_bind; [apply gives_retry|]. intros present _.
  eapply (gives_bind _ _ (fun _ => True)); [destruct present; by intros ? ? [] ? _ _|]. intros _ _.
  apply (gives_loop _ _ (fun _ => True)); [done|]. intros _ _.
  eapply gives_bind; [apply gives_retry|]. intros input_id (n1 & n2 & Hu).
  eapply gives_bind; [apply gives_ask|]. intros [uuid|e|w] (n3 & n4 & Hc); [..|by apply gives_const].
  - apply ensures_ret. intros _ _. by exists input_id, n1, n2, n3, n4.
  - by apply ensures_ret.
Qed.

Lemma create_snark_session_started receipt stark stark_id :
  stark_id = None \/ stark_id = Some stark ->
  gives (create_snark_session receipt stark_id) (snark_started receipt stark).
Proof.
  intros Hid. unfold create_snark_session. apply (gives_loop _ _ (fun t => t = None \/ t = Some stark)); [done|].
  intros t Ht. apply (gives_bind _ _ (fun target => target = stark \/
    exists n n', upload_receipt receipt n = (Ok target, n'))).
  - destruct Ht as [->| ->]; [|apply ensures_ret; by left].
    eapply ensures_conseq; [apply gives_retry|done|]. intros []; naive_solver.
  - intros target Htarget. eapply gives_bind; [apply gives_ask|].
    intros [uuid|e|w] (n1 & n2 & Hc); [..|by apply gives_const].
    + apply ensures_ret. intros _ _. by exists target, n1, n2.
    + apply ensures_ret. by left.
Qed.

Lemma fetch_receipt_delivered image url :
  gives (fetch_receipt image url) (fun o => match o with
    | Some r => exists buf n n', download url n = (Ok buf, n') /\ receipt_parse buf = Ok r /\ receipt_verify image r = Ok tt
    | None => True end).
Proof.
  unfold fetch_receipt. eapply gives_bind; [apply gives_ask|].
  intros [buf|e|w] (n1 & n2 & Hd); [|by apply ensures_ret|by apply gives_const].
  destruct (receipt_parse buf) as [r|e|w] eqn:Ep; [|by apply ensures_ret|by apply gives_const].
  destruct (receipt_verify image r) as [[]|e|w] eqn:Ev; [|by apply ensures_ret|by apply gives_const].
  apply ensures_ret. intros _ _. eauto 10.
Qed.

Lemma poll_delivered (P : string -> Prop) status restart image session :
  P session -> gives restart P ->
  gives (poll status restart image session) (fun '(r, s) => P s /\ delivered status image s r).
Proof.
  intros Hs Hr. apply (gives_loop _ _ P); [done|]. intros s Hp. unfold poll_round.
  eapply gives_bind; [apply gives_retry|]. intros res (n1 & n2 & Hst).
  case_bool_decide; [by apply ensures_ret|]. case_bool_decide as Hsucc.
  - destruct (session_output res) as [url|] eqn:Ho; [|by apply ensures_ret].
    eapply gives_bind; [apply fetch_receipt_delivered|]. intros [r|] Hf; [|by apply ensures_ret].
    apply ensures_ret. intros _ _. split; [done|]. destruct Hf as (buf & n3 & n4 & Hf).
    by exists res, url, buf, n1, n2, n3, n4.
  - eapply gives_bind; [exact Hr|]. intros s' Hs'. by apply ensures_ret.
Qed.

(** C11. Bonsai is not trusted, and its client returns what was asked for. Whatever Bonsai answers,
    and however often a session is started again, a returned receipt goes back to a session that was
    started for the image of the request, with the witness and the proofs of the request as its
    input: the session succeeded, and what was downloaded from it, a STARK, verifies against the
    image. If no wrapping was asked for, this is the receipt returned. Otherwise the one returned was
    downloaded from a succeeded session that was started to wrap that STARK, named by its
    session or uploaded, and it verifies against the image as well. And a client that is not
    to wait for proofs returns none. *)
Theorem bonsai_receipt_verified image elf slices frames stitched_proofs (prove_snark : bool) args fuel (n : N) r n' :
  run_bonsai_client image elf slices frames stitched_proofs prove_snark args fuel n = Some (Done r, n') ->
  skip_await_proof args = false /\ receipt_verify image r = Ok tt /\
  exists words ids session stark, receipts_sent stitched_proofs words ids /\
    stark_started image (concat (map cast_slice slices) ++ concat (map frame_bytes frames) ++ words) ids session /\
    delivered stark_status image session stark /\
    if prove_snark then exists serialized wrapping, receipt_bincode stark = Ok serialized /\
      snark_started serialized session wrapping /\ delivered snark_status image wrapping r
    else r = stark.
Proof.
  intros E. assert (Hg : gives (run_bonsai_client image elf slices frames stitched_proofs prove_snark args)
    (fun r => skip_await_proof args = false /\ exists words ids session stark, receipts_sent stitched_proofs words ids /\
      stark_started image (witness_input slices frames ++ words) ids session /\
      delivered stark_status image session stark /\
      if prove_snark then exists serialized wrapping, receipt_bincode stark = Ok serialized /\
        snark_started serialized session wrapping /\ delivered snark_status image wrapping r
      else r = stark)).
  { clear E. unfold run_bonsai_client.
    apply (gives_bind _ _ (fun _ => True)); [by apply gives_map_err|]. intros _ _.
    eapply gives_bind; [apply load_receipts_sent|]. intros [input ids] (words & ? & -> & -> & Hsent). cbn [app].
    eapply gives_bind; [apply create_stark_session_started|]. intros session Hsession.
    destruct (skip_await_proof args); [by apply gives_const|].
    apply (gives_bind _ _ (fun _ => True)); [by apply gives_map_err|]. intros _ _.
    eapply gives_bind; [eapply poll_delivered; [exact Hsession|apply create_stark_session_started]|].
    intros [stark used] [Hused Hstark]. destruct prove_snark; cbn [negb].
    - eapply gives_bind; [apply gives_map_err; intros s Hs; exact Hs|]. cbv beta. intros serialized Hbin.
      eapply gives_bind; [by apply create_snark_session_started; right|]. intros wrapping Hwrap.
      eapply gives_bind; [eapply poll_delivered; [exact Hwrap|by apply create_snark_session_started; left]|].
      intros [wrapped last] [Hlast Hdone]. apply ensures_ret. intros _ _. split; [done|]. eauto 12.
    - apply ensures_ret. intros _ _. split; [done|]. eauto 10. }
  destruct (Hg _ _ _ _ I E) as (Hskip & words & ids & session & stark & Hs & Hst & Hd & Hr).
  split; [done|]. split.
  - destruct prove_snark; [destruct Hr as (? & ? & _ & _ & Hr)|subst r; rename Hd into Hr];
      by destruct Hr as (? & ? & ? & ? & ? & ? & ? & ? & ? & ? & ? & ? & ?).
  - exists words, ids, session, stark. unfold witness_input in Hst. rewrite <-app_assoc in Hst. done.
Qed.

(** The errors of a run. *)
Lemma load_receipts_errors args acc receipts :
  fails_with (prover_error args) (load_receipts (N := N) acc receipts).
Proof.
  revert acc. induction receipts as [|r receipts IH]; intros acc; cbn; [apply fails_ret|].
  apply fails_bind; [|done]. unfold load_receipt. fails; done.
Qed.

Lemma bonsai_errors image elf slices frames stitched_proofs prove_snark args :
  fails_with (prover_error args) (run_bonsai_client (N := N) image elf slices frames stitched_proofs prove_snark args).
Proof.
  unfold run_bonsai_client. apply fails_bind; [by apply fails_other|]. intros ?.
  apply fails_bind; [apply load_receipts_errors|]. intros [input ids].
  unfold create_stark_session, create_snark_session, poll, poll_round, fetch_receipt.
  fails; try done; by apply fails_const.
Qed.

(** A session that succeeded without a receipt that verifies is asked for again,
    for ever: no new session is started. *)
Lemma unverified_never_ends status restart image session url fuel (n : N) :
  (forall n, exists n', status session n = (Ok {| session_status := "SUCCEEDED"; session_output := Some url |}, n')) ->
  (forall n, exists e n', download url n = (Err e, n')) ->
  poll status restart image session fuel n = None.
Proof.
  intros Hs Hd. unfold poll, loop. generalize fuel at 1 as k. intros k. revert n.
  induction k as [|k IH]; intros n; cbn [rounds]; [done|]. destruct fuel as [|fuel].
  - unfold poll_round, mbind, Run_bind, retry, retry_run, loop. done.
  - assert (Hr : exists n', poll_round status restart image session (S fuel) n = Some (Done (inl session), n')).
    { unfold poll_round, mbind, Run_bind, retry, retry_run, loop. cbn [rounds].
      unfold mbind, Run_bind, ask, once. destruct (Hs n) as [n1 ->]. cbn [session_status session_output mret Run_ret].
      rewrite bool_decide_false, bool_decide_true by done.
      destruct (Hd n1) as (e & n2 & E). unfold fetch_receipt, mbind, Run_bind, ask, once. rewrite E. eauto. }
    destruct Hr as [n' ->]. apply IH.
Qed.

(** *** The input of the guest *)

(** The guest's [read_frame]: a length, and as many bytes. *)
Definition read_frame (input : bytes) : option (bytes * bytes) :=
  let n := Z.to_nat (le_combine (take 4 input)) in
  if bool_decide (4 <= length input)%nat && bool_decide (n <= length input - 4)%nat
  then Some (take n (drop 4 input), drop n (drop 4 input)) else None.
Fixpoint read_frames (count : nat) (input : bytes) : option (list bytes * bytes) :=
  match count with
  | O => Some ([], input)
  | S count => '(frame, input) ← read_frame input; '(frames, input) ← read_frames count input;
               Some (frame :: frames, input)
  end.

Lemma read_frame_bytes frame rest :
  Z.of_nat (length frame) < 2 ^ 32 -> read_frame (frame_bytes frame ++ rest) = Some (frame, rest).
Proof.
  intros Hn. unfold read_frame, frame_bytes. rewrite (Z.mod_small (Z.of_nat _)) by lia.
  assert (Hl : length (le_split 4 (Z.of_nat (length frame))) = 4%nat) by apply length_le_split.
  rewrite <-!app_assoc, (take_app_length' _ _ 4), (drop_app_length' _ _ 4) by done.
  rewrite le_combine_split, Z.mod_small, Nat2Z.id by (change (Z.of_nat 4 * 8) with 32; lia).
  rewrite !length_app, Hl, !bool_decide_true by lia. cbn.
  by rewrite take_app_length, drop_app_length.
Qed.

(** The guest reads back what was sent: from the input that the client builds, the guest's
    frame reader recovers every frame of the witness, in order, and stops where the receipts that
    follow begin, provided each frame is shorter than 4 GiB. *)
Theorem bonsai_frames_roundtrip frames rest :
  Forall (fun f => Z.of_nat (length f) < 2 ^ 32) frames ->
  read_frames (length frames) (witness_input [] frames ++ rest) = Some (frames, rest).
Proof.
  unfold witness_input. cbn. induction 1 as [|frame frames Hf _ IH]; [done|]. cbn.
  rewrite <-app_assoc, read_frame_bytes by done. cbn. by rewrite IH.
Qed.
End bonsai_spec.

(** ** The services and the worker

    Any backends whose services fail only as runs of these clients fail satisfy
    what the worker expects of them. *)
Lemma services_conform {N R M D Seal S3 B} `{Backends N R} `{Zkvm R} `{Digests}
    `{Market M R D Seal S3} `{BonsaiHost B R} :
  (forall args image journal slices frames proofs n e n',
     Backend.run_boundless_client args image journal slices frames proofs n = (Failed e, n') ->
     exists market storage domain w fuel (d d' : Desk M),
       Boundless.run_boundless_client market storage domain w args fuel d = Some (Failed e, d')) ->
  (forall args image slices frames proofs snark n e n',
     Backend.run_bonsai_client args image slices frames proofs snark n = (Failed e, n') ->
     exists elf fuel (b b' : B),
       run_bonsai_client image elf slices frames proofs snark args fuel b = Some (Failed e, b')) ->
  services_ok (N := N) (R := R).
Proof.
  intros Hm Hb. split.
  - intros args image journal slices frames proofs n e n' E.
    apply Hm in E as (market & storage & domain & w & fuel & d & d' & E). by eapply boundless_errors.
  - intros args image slices frames proofs snark n e n' E.
    apply Hb in E as (elf & fuel & b & b' & E). by eapply bonsai_errors.
Qed.

(** ** A concrete service

    Its state counts the status queries: the first session fails, the second one
    runs for a while and succeeds. *)
Module BonsaiDemo.
#[export] Instance zkvm : Zkvm Z := {|
  receipt_journal := fun r => be_bytes 2 r;
  receipt_verify := fun image r => ensure (image =? r) "verification";
  journal_digest := from_be_bytes; env_verify := fun _ _ => Ok tt |}.
Definition status (_ : string) (n : Z) : outcome SessionStatus * Z :=
  (Ok (if n =? 0 then {| session_status := "FAILED"; session_output := None |}
       else if n <? 3 then {| session_status := "RUNNING"; session_output := None |}
       else {| session_status := "SUCCEEDED"; session_output := Some "url" |}), n + 1).
#[export] Instance host : BonsaiHost Z Z := {|
  bonsai_from_env := Ok tt; poll_interval_ms := None; bonsai_api_url := true; bonsai_api_key := true;
  dev_mode := false; recursion_forced := false; groth16_receipt := fun _ => false;
  receipt_words := fun r => Ok (be_bytes 2 r); receipt_bincode := fun r => Ok (be_bytes 2 r);
  receipt_parse := fun b => Ok (from_be_bytes b); image_hex := fun _ => "id";
  has_img := fun _ n => (Ok false, n); upload_img := fun _ _ n => (Ok tt, n);
  bonsai_upload_input := fun _ n => (Ok "input", n); upload_receipt := fun _ n => (Ok "receipt", n);
  create_session_with_limit := fun _ _ _ n => (Ok "session", n); stark_status := status;
  create_snark := fun _ n => (Ok "snark", n); snark_status := status;
  download := fun _ n => (Ok (be_bytes 2 3), n) |}.
Definition proving : ProvingArgs := {|
  payout_recipient_arg := None; segment_limit := 21; max_block_derivations := 1; max_block_executions := 1;
  max_witness_size := 1; num_concurrent_preflights := 1; skip_derivation_proof := false;
  skip_await_proof := false; hokulea_is_set := false; hana_is_set := false |}.
End BonsaiDemo.
#[local] Existing Instances BonsaiDemo.zkvm BonsaiDemo.host.

Lemma bonsai_receipt_verified_witness :
  run_bonsai_client (N := Z) 3 [] [] [be_bytes 3 7] [5] true BonsaiDemo.proving 6%nat 0 = Some (Done 3, 5) /\
  receipt_verify 3 3 = Ok tt /\ exists wrapping, delivered (N := Z) snark_status 3 wrapping 3.
Proof.
  assert (E : run_bonsai_client (N := Z) 3 [] [] [be_bytes 3 7] [5] true BonsaiDemo.proving 6%nat 0 = Some (Done 3, 5))
    by (vm_compute; reflexivity).
  split; [exact E|].
  destruct (bonsai_receipt_verified 3 [] [] _ _ _ _ _ _ _ _ E)
    as (_ & Hv & words & ids & session & stark & _ & _ & _ & serialized & wrapping & _ & _ & Hd).
  split; [exact Hv|]. exists wrapping. exact Hd.
Defined.

Lemma bonsai_frames_roundtrip_witness :
  read_frames 2 (witness_input [] [be_bytes 3 7; []] ++ be_bytes 2 9) = Some ([be_bytes 3 7; []], be_bytes 2 9).
Proof. apply (bonsai_frames_roundtrip [be_bytes 3 7; []] (be_bytes 2 9)). repeat constructor. Defined.
