(* ===== verification/Prover.v ===== *)
(** * crates/prover/src/prove.rs

    The prover program: a request is divided into jobs of at most
    [max_block_derivations] blocks, a job that is too large is divided further
    as results arrive, and the proofs of all jobs are composed into one. *)

From S2P Require Import Prelude Bytes Config Journal Blobs Precondition Oracle Executor L1Chain Core Stitching DA Witgen Payload Tasks TasksSpec Backend Worker.
From stdpp Require Import sorting.
Open Scope Z_scope.

(** What the two L2 nodes answer; every query is repeated until it succeeds. *)
Class L2Nodes := {
  number_of_block : Z -> Z;     (* by hash *)
  hash_of_block : Z -> Z;       (* by number *)
  output_root_at : Z -> Z;      (* by number *)
}.

(** A job that runs [compute_fpvm_proof]: its first block, whether its attempt
    is forced, and whether it results from a division (then it needs no SNARK). *)
Record Job := { job_start : Z; job_args : ProveArgs; job_force : bool; job_split : bool }.

(** Jobs run concurrently: which one ends next, and how; [None] if none ever
    does. *)
Class Jobs (X R : Type) := {
  next_proof : list Job -> X -> option (nat * (option R + ProvingError)) * X }.

Section prove.
Context {X R : Type} `{L2Nodes} `{Jobs X R}.

Definition with_claim (root number : Z) (a : ProveArgs) : ProveArgs :=
  set_request (a_l1_head a) (a_agreed_l2_output_root a) (a_agreed_l2_head_hash a) root number a.
Definition with_agreed (root hash : Z) (a : ProveArgs) : ProveArgs :=
  set_request (a_l1_head a) root hash (a_claimed_l2_output_root a) (a_claimed_l2_block_number a) a.

(** The loop that divides a request into jobs; it has no bound of its own, so
    [None] is a run that is still going after [fuel] rounds. *)
Fixpoint derivation_jobs (fuel : nat) (args : ProveArgs) (agreed_number agreed_root agreed_hash : Z)
    : option (list ProveArgs) :=
  if agreed_root =? a_claimed_l2_output_root args then Some []
  else match fuel with
  | O => None
  | S fuel =>
      let claimed_number := Z.min (sat_add 64 agreed_number (max_block_derivations (proving args)))
                              (a_claimed_l2_block_number args) in
      let claimed_root := output_root_at claimed_number in
      let job := with_claim claimed_root claimed_number (with_agreed agreed_root agreed_hash args) in
      jobs ← derivation_jobs fuel args claimed_number claimed_root (hash_of_block claimed_number);
      Some (job :: jobs)
  end.

(** The number of proofs to wait for, the jobs to dispatch (and whether they
    result from a division), the jobs that are running, and the results. *)
Record Sched := {
  required : Z; prover_queue : list (bool * ProveArgs);
  running : list Job;
  finished : list (ProveArgs * (R + ProvingError)) }.

Definition starting_block (job : ProveArgs) : Z :=
  if is_offline job then 0 else number_of_block (a_agreed_l2_head_hash job).

(** One round of the loop that dispatches pending jobs. *)
Definition dispatch (s : Sched) (have_split : bool) (job : ProveArgs)
    (queue : list (bool * ProveArgs)) : outcome Sched :=
  num_blocks ← u64_sub host (a_claimed_l2_block_number job) (starting_block job);
  let force_attempt := (num_blocks =? 1) || is_offline job in
  Ok {| required := required s; prover_queue := queue;
        running := running s ++ [{| job_start := starting_block job; job_args := job;
                                    job_force := force_attempt; job_split := have_split |}];
        finished := finished s |}.

Fixpoint dispatch_all (queue : list (bool * ProveArgs)) (s : Sched) : outcome Sched :=
  match queue with
  | [] => Ok s
  | (have_split, job) :: queue => s ← dispatch s have_split job queue; dispatch_all queue s
  end.

(** The two halves of a job. *)
Definition split_job (job : ProveArgs) (start num_blocks : Z) : outcome (ProveArgs * ProveArgs) :=
  mid_point ← u64_add host start (num_blocks / 2);
  _ ← assert_ (op_node_address job) "Missing op_node_provider";
  let mid_output := output_root_at mid_point in
  _ ← assert_ (negb (is_offline job)) "Missing l2_provider";
  Ok (with_claim mid_output mid_point job, with_agreed mid_output (hash_of_block mid_point) job).

(** A job of [running] has ended; [Err] is an error return, or the exit with
    code 111 for an insufficient L1 head. *)
Definition receive (s : Sched) (job : Job) (running : list Job)
    (result : option R + ProvingError) : outcome Sched :=
  num_blocks ← u64_sub host (a_claimed_l2_block_number (job_args job)) (job_start job);
  let split :=
    '(lower, upper) ← split_job (job_args job) (job_start job) num_blocks;
    Ok {| required := required s + 1; prover_queue := prover_queue s ++ [(true, lower); (true, upper)];
          running := running; finished := finished s |} in
  let skip := Ok {| required := required s - 1; prover_queue := prover_queue s; running := running;
                    finished := finished s |} in
  match result with
  | inl proof =>
      let result := match proof with
        | Some proof => inl proof
        | None => inr (OtherError "Missing complete proof.") end in
      Ok {| required := required s; prover_queue := prover_queue s; running := running;
            finished := finished s ++ [(job_args job, result)] |}
  | inr (WitnessSizeError _ _ _) =>
      if job_force job then Err "Received WitnessSizeError for a forced proving attempt" else split
  | inr (ExecutionError _) =>
      if job_force job then Err "Irrecoverable ZKVM execution error" else split
  | inr (OtherError e) =>
      if contains L1_HEAD_INSUFFICIENT e then Err "exit code 111" else Err e
  | inr (BlockCountError _ _ _) => Panic "BlockCountError bubbled up"
  | inr (NotSeekingProof _ _) => Panic "NotSeekingProof bubbled up"
  | inr (DerivationProofError _) => skip
  | inr NotAwaitingProof => skip
  end.

(** The main loop. *)
Fixpoint prove_loop (fuel : nat) (s : Sched) : St X Sched := fun x =>
  if Z.of_nat (length (finished s)) <? required s then
    match fuel with
    | O => (Panic "out of fuel", x)
    | S fuel =>
        match dispatch_all (prover_queue s) s with
        | Ok s =>
            match next_proof (running s) x with
            | (None, x) => (Panic "no proof ever arrives", x)
            | (Some (i, result), x) =>
                match take_at i (running s) with
                | None => (Panic "no such job", x)
                | Some (job, rest) =>
                    match receive s job rest result with
                    | Ok s => prove_loop fuel s x
                    | Err e => (Err e, x)
                    | Panic w => (Panic w, x)
                    end
                end
            end
        | Err e => (Err e, x)
        | Panic w => (Panic w, x)
        end
    end
  else (Ok s, x).

Definition sched_start (jobs : list ProveArgs) : Sched :=
  {| required := Z.of_nat (length jobs); prover_queue := (fun j => (false, j)) <$> jobs;
     running := []; finished := [] |}.

(** The jobs of a request: without both nodes, the request itself. *)
Definition requested_jobs (fuel : nat) (args : ProveArgs) : option (list ProveArgs) :=
  if negb (is_offline args) && op_node_address args
  then derivation_jobs fuel args (number_of_block (a_agreed_l2_head_hash args))
         (a_agreed_l2_output_root args) (a_agreed_l2_head_hash args)
  else Some [args].

(** ** Composition *)

Definition by_block_number (x y : ProveArgs * (R + ProvingError)) : Prop :=
  a_claimed_l2_block_number x.1 <= a_claimed_l2_block_number y.1.
#[export] Instance by_block_number_dec : RelDecision by_block_number.
Proof. intros x y. unfold by_block_number. apply _. Defined.

(** [result_pq.into_sorted_vec().into_iter().rev()], unwrapped. *)
Definition sorted_proofs (results : list (ProveArgs * (R + ProvingError))) : outcome (list R) :=
  omap_m (fun x => match x.2 with inl r => Ok r | inr _ => Panic "Failed to get result" end)
    (rev (merge_sort by_block_number results)).

(** A proving instruction with no blocks to derive. *)
Definition base_args (args : ProveArgs) : ProveArgs :=
  with_agreed (a_claimed_l2_output_root args) (hash_of_block (a_claimed_l2_block_number args)) args.

(** [StitchedBootInfo::from] a receipt. *)
Definition receipt_boot `{Zkvm R} (r : R) : outcome StitchedBootInfo :=
  journal ← decode_packed (receipt_journal r); Ok (stitched_of_journal journal).

(** The end of [prove]: the proof of the whole request, if stitching is not
    skipped.  One proof needs no composition. *)
Definition compose `{Zkvm R} `{Digests} `{Rlp} `{Pool X R} (args : ProveArgs) (config : RollupConfig)
    (precondition_hash data_hash : Z) (results : list (ProveArgs * (R + ProvingError)))
    : Pr X (option R) :=
  if skip_stitching (proving args) then mret None
  else
    proofs ← lift_at (no_err (sorted_proofs results));
    match proofs with
    | [] => mret None
    | [proof] => mret (Some proof)
    | _ =>
        _ ← lift_at (no_err (assert_ (negb (is_offline args)) "l2_provider"));
        boots ← lift_at (no_err (omap_m receipt_boot proofs));
        compute_fpvm_proof (base_args args) config precondition_hash data_hash boots proofs true
    end.

(** [prove], from the division of the request to the composed proof. *)
Definition prove `{Zkvm R} `{Digests} `{Rlp} `{Pool X R} (args : ProveArgs) (config : RollupConfig)
    (precondition_hash data_hash : Z) : Pr X (option R) := fun x =>
  let blocks := Z.to_nat (a_claimed_l2_block_number args) in
  match requested_jobs (S blocks) args with
  | None => (Crashed "still dividing", x)
  | Some jobs =>
      match prove_loop (S (2 * blocks)) (sched_start jobs) x with
      | (Ok s, x) => compose args config precondition_hash data_hash (finished s) x
      | (Err e, x) => (Failed (OtherError e), x)
      | (Panic w, x) => (Crashed w, x)
      end
  end.
End prove.

(** The jobs of a run: each is one [compute_fpvm_proof] on the pool, a SNARK
    only if the job was not divided.  [pick] chooses the job that ends next; a
    panic in a job's task means that its result never arrives. *)
Definition fpvm_jobs {X R} `{Digests} `{Rlp} `{Pool X R} (config : RollupConfig)
    (precondition_hash data_hash : Z) (pick : list Job -> X -> nat) : Jobs X R := {|
  next_proof := fun l x =>
    let i := pick l x in
    match l !! i with
    | None => (None, x)
    | Some job =>
        match compute_fpvm_proof (job_args job) config precondition_hash data_hash [] []
                (negb (job_split job)) x with
        | (Done r, x) => (Some (i, inl r), x)
        | (Failed e, x) => (Some (i, inr e), x)
        | (Crashed _, x) => (None, x)
        end
    end |}.
Arguments Sched : clear implicits.
