(* ===== verification/ProverSpec.v ===== *)
(** * What crates/prover/src/prove.rs guarantees

    The jobs always tile the blocks of the request, the loop that collects their
    results ends, and the composed proof is a proof of the whole request. *)

From S2P Require Import Prelude Tiling Bytes Config Journal Blobs Precondition Oracle Executor L1Chain Core Stitching DA Witgen Payload Tasks TasksSpec Backend Worker Prover.
From stdpp Require Import sorting.
Open Scope Z_scope.

(** ** Requests and their jobs *)

Section request.
Context `{L2Nodes}.
Variable args : ProveArgs.

Definition start_block : Z := number_of_block (a_agreed_l2_head_hash args).
Definition last_block : Z := a_claimed_l2_block_number args.
Definition num_blocks : nat := Z.to_nat (last_block - start_block).

(** The output root and the block hash at a block, the request's own values at
    its start. *)
Definition root_at (n : Z) : Z :=
  if n =? start_block then a_agreed_l2_output_root args else output_root_at n.
Definition hash_at (n : Z) : Z :=
  if n =? start_block then a_agreed_l2_head_hash args else hash_of_block n.

(** A request that agrees with the nodes. *)
Record request_ok : Prop := {
  rq_online : is_offline args = false;
  rq_node : op_node_address args = true;
  rq_range : 0 <= start_block <= last_block;
  rq_width : last_block < 2 ^ 64;
  rq_claim : root_at last_block = a_claimed_l2_output_root args;
  rq_roots : forall m n, start_block <= m <= last_block -> start_block <= n <= last_block ->
    root_at m = root_at n -> m = n;
  rq_hash : forall n, start_block < n <= last_block -> number_of_block (hash_of_block n) = n;
  rq_max : 0 < max_block_derivations (proving args) < 2 ^ 64;
}.

Abbreviation at_offset i := (start_block + Z.of_nat i).

(** The job for [k] blocks from the block at offset [i]. *)
Definition block_job (ik : nat * nat) (job : ProveArgs) : Prop :=
  let '(i, k) := ik in
  (i + k ≤ num_blocks)%nat /\ (0 < k)%nat /\
  job = with_claim (root_at (at_offset (i + k))) (at_offset (i + k))
          (with_agreed (root_at (at_offset i)) (hash_at (at_offset i)) args).

Definition within_max (s : nat * nat) : Prop :=
  Z.of_nat (snd s) <= max_block_derivations (proving args).

Section ok.
Hypothesis Hrq : request_ok.

Lemma offset_range i : (i ≤ num_blocks)%nat -> start_block <= at_offset i <= last_block.
Proof. unfold num_blocks. pose proof (rq_range Hrq). lia. Qed.

Lemma offset_claim i : (i ≤ num_blocks)%nat ->
  root_at (at_offset i) = a_claimed_l2_output_root args <-> i = num_blocks.
Proof.
  intros Hi. pose proof (rq_range Hrq). rewrite <-(rq_claim Hrq). unfold num_blocks in *. split.
  - intros E%(rq_roots Hrq); lia.
  - intros ->. f_equal. lia.
Qed.

Lemma offset_later i : (0 < i)%nat -> root_at (at_offset i) = output_root_at (at_offset i) /\
  hash_at (at_offset i) = hash_of_block (at_offset i).
Proof. intros Hi. unfold root_at, hash_at. destruct (Z.eqb_spec (at_offset i) start_block); [lia|done]. Qed.

Lemma offset_start i k job : block_job (i, k) job ->
  starting_block job = at_offset i /\ a_claimed_l2_block_number job = at_offset (i + k) /\
  u64_sub host (a_claimed_l2_block_number job) (starting_block job) = Ok (Z.of_nat k).
Proof.
  intros (Hle & Hk & ->). pose proof (rq_range Hrq) as Hr. pose proof (rq_width Hrq) as Hw.
  unfold num_blocks in Hle.
  assert (Hs : starting_block (with_claim (root_at (at_offset (i + k))) (at_offset (i + k))
    (with_agreed (root_at (at_offset i)) (hash_at (at_offset i)) args)) = at_offset i).
  { unfold starting_block. cbn. rewrite (rq_online Hrq). unfold hash_at.
    destruct (Z.eqb_spec (at_offset i) start_block) as [E|E]; [by rewrite E|].
    apply (rq_hash Hrq). lia. }
  rewrite Hs. cbn. split_and!; [done..|]. unfold u64_sub.
  rewrite arith_fits by (unfold in_width; lia). f_equal. lia.
Qed.

(** The jobs from an offset on. *)
Lemma derivation_jobs_from fuel i :
  (i ≤ num_blocks)%nat -> (num_blocks - i ≤ fuel)%nat ->
  exists segs jobs,
    derivation_jobs fuel args (at_offset i) (root_at (at_offset i)) (hash_at (at_offset i)) = Some jobs /\
    tiling i segs num_blocks /\ Forall2 block_job segs jobs /\ Forall within_max segs.
Proof.
  pose proof (rq_range Hrq) as Hr. pose proof (rq_width Hrq) as Hw. pose proof (rq_max Hrq) as Hm.
  revert i. induction fuel as [|fuel IH]; intros i Hi Hf; cbn [derivation_jobs];
    (destruct (Z.eqb_spec (root_at (at_offset i)) (a_claimed_l2_output_root args)) as [E|E];
      [exists [], []; repeat split; [by apply offset_claim|constructor..]|]);
    (assert (Hne : i <> num_blocks) by (intros X; apply E; by apply offset_claim)); [lia|].
  set (k := Z.to_nat (Z.min (max_block_derivations (proving args)) (last_block - at_offset i))).
  assert (Hk : (0 < k)%nat /\ (i + k ≤ num_blocks)%nat /\ Z.of_nat k <= max_block_derivations (proving args))
    by (unfold k, num_blocks in *; lia).
  assert (Hn : Z.min (sat_add 64 (at_offset i) (max_block_derivations (proving args))) last_block = at_offset (i + k)).
  { unfold sat_add, k, num_blocks in *. lia. }
  fold last_block. rewrite Hn. destruct (offset_later (i + k)) as [<- <-]; [lia|].
  destruct (IH (i + k)%nat) as (segs & jobs & -> & Ht & Hj & Hx); [lia..|].
  exists ((i, k) :: segs), (with_claim (root_at (at_offset (i + k))) (at_offset (i + k))
          (with_agreed (root_at (at_offset i)) (hash_at (at_offset i)) args) :: jobs).
  split_and!; [done|cbn; split_and!; [done|lia|done]|constructor; [split_and!; [lia|lia|done]|done]|].
  constructor; [unfold within_max; cbn; lia|done].
Qed.

Lemma requested_jobs_Ok fuel : (num_blocks ≤ fuel)%nat ->
  exists segs jobs, requested_jobs fuel args = Some jobs /\
    tiling 0 segs num_blocks /\ Forall2 block_job segs jobs /\ Forall within_max segs.
Proof.
  intros Hf. unfold requested_jobs. rewrite (rq_online Hrq), (rq_node Hrq). cbn [negb andb].
  pose proof (derivation_jobs_from fuel 0) as Hd. replace (at_offset 0) with start_block in Hd by lia.
  unfold root_at, hash_at in Hd. rewrite Z.eqb_refl in Hd. apply Hd; lia.
Qed.
End ok.

(** A request whose claimed root is not among the node's roots, or one with a
    limit of no blocks, is divided for ever. *)
Lemma derivation_jobs_diverges fuel number root hash :
  root <> a_claimed_l2_output_root args ->
  (forall n, n <= last_block -> output_root_at n <> a_claimed_l2_output_root args) ->
  derivation_jobs fuel args number root hash = None.
Proof.
  intros Hr Hn. revert number root hash Hr. induction fuel as [|fuel IH]; intros number root hash Hr;
    cbn [derivation_jobs]; rewrite (proj2 (Z.eqb_neq _ _) Hr); [done|].
  rewrite IH; [done|]. apply Hn. unfold last_block. lia.
Qed.

(** The division of a request into jobs: if the request agrees with the
    nodes, as many rounds as it has blocks are enough, and the jobs are for
    consecutive segments that make up its blocks, each from the output root and
    the block hash where the one before it ends, and each of at most
    [max_block_derivations] blocks.  If the claimed output root is none of the
    node's at or below the claimed block, the division never ends. *)
Theorem requested_jobs_spec fuel :
  (request_ok -> (num_blocks <= fuel)%nat ->
   exists segs jobs, requested_jobs fuel args = Some jobs /\
     tiling 0 segs num_blocks /\ Forall2 block_job segs jobs /\ Forall within_max segs) /\
  (is_offline args = false -> op_node_address args = true ->
   a_agreed_l2_output_root args <> a_claimed_l2_output_root args ->
   (forall n, n <= last_block -> output_root_at n <> a_claimed_l2_output_root args) ->
   requested_jobs fuel args = None).
Proof.
  split; [by intros; apply requested_jobs_Ok|].
  intros Hon Hop Hne Hn. unfold requested_jobs. rewrite Hon, Hop. by apply derivation_jobs_diverges.
Qed.
End request.

(** ** The scheduler *)

Section scheduler.
Context {X R : Type} `{L2Nodes} `{Jobs X R}.
Variables (args : ProveArgs) (I : X -> Prop) (proved : Job -> R -> Prop)
  (failed : Job -> ProvingError -> Prop) (stuck : Prop).
Implicit Types s : Sched R.

(** How a job may end: no job ends without a proof or an error. *)
Definition reply (job : Job) (result : option R + ProvingError) : Prop :=
  match result with
  | inl (Some r) => proved job r
  | inl None => False
  | inr e => failed job e
  end.

Definition is_block_job (job : ProveArgs) : Prop := exists ik, block_job args ik job.

(** What is known of the jobs, whichever ends next. *)
Record jobs_ok : Prop := {
  jo_next : forall l x, I x -> l <> [] -> Forall (fun job => is_block_job (job_args job)) l ->
    let '(o, x') := next_proof l x in I x' /\
    match o with
    | Some (i, result) => exists job, l !! i = Some job /\ reply job result
    | None => stuck
    end;
  jo_derivation : forall job n, failed job (DerivationProofError n) ->
    skip_derivation_proof (proving (job_args job)) = true;
  jo_waiting : forall job, failed job NotAwaitingProof ->
    skip_await_proof (proving (job_args job)) = true;
  jo_seek : forall job z t, ~ failed job (NotSeekingProof z t);
}.

(** One action of the main loop. *)
Inductive sched_step : Sched R -> Sched R -> Prop :=
| step_dispatch s b job queue s' :
    prover_queue s = (b, job) :: queue -> dispatch s b job queue = Ok s' -> sched_step s s'
| step_receive s i job rest result s' :
    take_at i (running s) = Some (job, rest) -> reply job result ->
    receive s job rest result = Ok s' -> sched_step s s'.

Definition known (job : Job) : Prop :=
  job_start job = starting_block (job_args job) /\
  job_force job = (a_claimed_l2_block_number (job_args job) - job_start job =? 1).

Definition result_ok (x : ProveArgs * (R + ProvingError)) : Prop :=
  exists job r, x = (job_args job, inl r) /\ proved job r.

Definition unresolved s : list ProveArgs := (prover_queue s).*2 ++ (job_args <$> running s).

(** The jobs that are pending, running, finished and skipped tile the request,
    and the results to wait for are counted. *)
Definition sched_inv s : Prop :=
  exists jobs skipped, tiled_by (block_job args) (num_blocks args) jobs /\
    unresolved s ++ (finished s).*1 ++ skipped ≡ₚ jobs /\
    required s = Z.of_nat (length (unresolved s)) + Z.of_nat (length (finished s)) /\
    Forall known (running s) /\ Forall result_ok (finished s) /\
    (skip_stitching (proving args) = false -> skipped = []).

(** At most this many results can arrive for a job and its parts. *)
Definition job_weight (job : ProveArgs) : nat :=
  Z.to_nat (2 * (a_claimed_l2_block_number job - starting_block job) - 1).
Definition pending s : nat := total_of job_weight (unresolved s).

Hypotheses (Hrq : request_ok args) (Hjobs : jobs_ok).

Lemma block_weight i k job : block_job args (i, k) job -> job_weight job = (2 * k - 1)%nat.
Proof. intros Hb. unfold job_weight. destruct (offset_start args Hrq i k job Hb) as (-> & -> & _). lia. Qed.

Lemma tiled_pending i segs j jobs :
  tiling i segs j -> Forall2 (block_job args) segs jobs ->
  (total_of job_weight jobs ≤ 2 * (j - i))%nat.
Proof.
  intros Ht Hf. revert i Ht. induction Hf as [|[i' k] job segs jobs Hb Hf IH]; intros i Ht; [cbn; lia|].
  cbn in Ht. destruct Ht as (-> & Hk & Ht). rewrite total_cons, (block_weight _ _ _ Hb).
  specialize (IH _ Ht). apply tiling_le in Ht. lia.
Qed.

Lemma sched_start_ok jobs :
  tiled_by (block_job args) (num_blocks args) jobs ->
  sched_inv (sched_start jobs) /\ (pending (sched_start jobs) ≤ 2 * num_blocks args)%nat.
Proof.
  intros Ht. assert (Hu : unresolved (sched_start (R := R) jobs) = jobs).
  { unfold unresolved. cbn. rewrite app_nil_r, <-list_fmap_compose. apply list_fmap_id. }
  unfold pending. rewrite Hu. split.
  - exists jobs, []. rewrite Hu. cbn. split_and!; [done|by rewrite app_nil_r|lia|constructor..|done].
  - destruct Ht as (segs & Ht & Hf). pose proof (tiled_pending _ _ _ _ Ht Hf). lia.
Qed.

(** A job of the request, and what there is to know of it. *)
Lemma sched_job s job rest :
  sched_inv s -> unresolved s ≡ₚ job :: rest ->
  exists i k, block_job args (i, k) job /\ (0 < job_weight job)%nat.
Proof.
  intros (jobs & skipped & Ht & Hp & _) Hu. rewrite Hu in Hp.
  destruct (tiled_split _ _ jobs job _ Ht (symmetry Hp)) as (i & k & Hb & _).
  exists i, k. split; [done|]. rewrite (block_weight _ _ _ Hb). destruct Hb as (_ & ? & _). lia.
Qed.

Lemma running_blocks s : sched_inv s -> Forall (fun job => is_block_job (job_args job)) (running s).
Proof.
  intros (jobs & skipped & (segs & _ & Hf) & Hp & _). apply list.Forall_forall. intros job Hin.
  assert (Hj : job_args job ∈ jobs).
  { rewrite <-Hp. unfold unresolved. rewrite !elem_of_app. left. right. by apply list_elem_of_fmap_2. }
  apply list_elem_of_lookup in Hj as [n Hn].
  destruct (Forall2_lookup_r _ _ _ _ _ Hf Hn) as (ik & _ & Hb). by exists ik.
Qed.

Lemma dispatch_ok s b job queue :
  sched_inv s -> prover_queue s = (b, job) :: queue ->
  exists s', dispatch s b job queue = Ok s' /\ sched_inv s' /\ prover_queue s' = queue /\
    pending s' = pending s /\ required s' = required s /\ finished s' = finished s /\
    length (running s') = S (length (running s)).
Proof.
  intros Hi Hq. destruct (sched_job s job (queue.*2 ++ (job_args <$> running s)) Hi) as (i & k & Hb & _).
  { unfold unresolved. by rewrite Hq. }
  destruct (offset_start args Hrq _ _ _ Hb) as (Hs & Hc & Hn). unfold dispatch. rewrite Hn.
  assert (Hoff : is_offline job = false) by (destruct Hb as (_ & _ & ->); exact (rq_online args Hrq)).
  cbn [mbind outcome_bind]. rewrite Hoff, orb_false_r. eexists. split; [done|].
  destruct Hi as (jobs & skipped & Ht & Hp & Hr & Hk & Hf & Hsk).
  match goal with |- sched_inv ?t /\ _ => assert (Hu : unresolved t ≡ₚ unresolved s) end.
  { unfold unresolved. cbn. rewrite Hq, fmap_app. cbn.
    by rewrite <-!Permutation_middle, app_nil_r. }
  split_and!; [|done|by apply total_Permutation|done|done|cbn; rewrite length_app; cbn; lia].
  exists jobs, skipped. rewrite Hu. cbn [finished required running].
  split_and!; [done..| |done|done].
  apply Forall_app. split; [done|]. constructor; [|constructor]. split; [done|]. cbn. by rewrite Hc, Hs in *;
    f_equal; lia.
Qed.

Lemma dispatch_all_ok s :
  sched_inv s ->
  exists s', dispatch_all (prover_queue s) s = Ok s' /\ rtc sched_step s s' /\ sched_inv s' /\
    prover_queue s' = [] /\ pending s' = pending s /\ required s' = required s /\
    finished s' = finished s.
Proof.
  remember (prover_queue s) as queue eqn:Hq. revert s Hq.
  induction queue as [|[b job] queue IH]; intros s Hq Hi; cbn [dispatch_all].
  { exists s. by split_and!; [|constructor|..]. }
  destruct (dispatch_ok s b job queue Hi (symmetry Hq)) as (s1 & Hd & Hi1 & Hq1 & Hp1 & Hr1 & Hf1 & _).
  rewrite Hd. cbn [mbind outcome_bind].
  destruct (IH s1 (symmetry Hq1) Hi1) as (s' & -> & Hst & Hi' & Hq' & Hp' & Hr' & Hf').
  exists s'. split_and!; [done| |done|done|congruence..].
  eapply rtc_l; [|done]. by eapply step_dispatch.
Qed.

(** The two halves of a job of more than one block. *)
Lemma split_job_ok i k job :
  block_job args (i, k) job -> (1 < k)%nat ->
  exists k1 k2 lower upper, k = (k1 + k2)%nat /\ (0 < k1)%nat /\ (0 < k2)%nat /\
    split_job job (starting_block job) (Z.of_nat k) = Ok (lower, upper) /\
    block_job args (i, k1) lower /\ block_job args ((i + k1)%nat, k2) upper.
Proof.
  intros Hb Hk. destruct (offset_start args Hrq _ _ _ Hb) as (Hs & _ & _).
  pose proof Hb as (Hle & _ & Hj). pose proof (rq_range args Hrq). pose proof (rq_width args Hrq).
  pose proof (offset_range args Hrq (i + k) Hle).
  set (k1 := Z.to_nat (Z.of_nat k / 2)).
  pose proof (Z.div_mod (Z.of_nat k) 2) as Hdm. pose proof (Z.mod_pos_bound (Z.of_nat k) 2) as Hmb.
  assert (Hk1 : Z.of_nat k1 = Z.of_nat k / 2) by (unfold k1; lia).
  assert (0 < k1 < k)%nat by lia.
  destruct (offset_later args (i + k1)) as [Hro Hho]; [lia|].
  exists k1, (k - k1)%nat. do 2 eexists. split_and!; [lia..| | |].
  - unfold split_job, u64_add. rewrite Hs, <-Hk1.
    replace (start_block args + Z.of_nat i + Z.of_nat k1) with (start_block args + Z.of_nat (i + k1)) by lia.
    rewrite arith_fits by (unfold in_width; lia). cbn [mbind outcome_bind].
    assert (Hon : op_node_address job = true /\ is_offline job = false)
      by (rewrite Hj; split; [exact (rq_node args Hrq)|exact (rq_online args Hrq)]).
    destruct Hon as [-> ->]. cbn. by rewrite <-Hro, <-Hho.
  - rewrite Hj. split_and!; [lia|lia|reflexivity].
  - rewrite Hj. split_and!; [lia|lia|]. replace (i + k1 + (k - k1))%nat with (i + k)%nat by lia. reflexivity.
Qed.

(** The state without a job that has ended, for [more] results to wait for. *)
Definition without s (rest : list Job) (more : Z) (new : list (bool * ProveArgs))
    (results : list (ProveArgs * (R + ProvingError))) : Sched R :=
  {| required := required s + more; prover_queue := prover_queue s ++ new; running := rest;
     finished := finished s ++ results |}.

Definition left_over s (rest : list Job) : list ProveArgs := (prover_queue s).*2 ++ (job_args <$> rest).

Definition leaving s (job : Job) (rest : list Job) (jobs skipped : list ProveArgs) : Prop :=
  tiled_by (block_job args) (num_blocks args) jobs /\
  job_args job :: left_over s rest ++ (finished s).*1 ++ skipped ≡ₚ jobs /\
  required s = Z.of_nat (S (length (left_over s rest))) + Z.of_nat (length (finished s)) /\
  Forall known rest /\ Forall result_ok (finished s) /\
  (skip_stitching (proving args) = false -> skipped = []) /\
  pending s = (job_weight (job_args job) + total_of job_weight (left_over s rest))%nat.

Lemma sched_leaving s i job rest :
  sched_inv s -> take_at i (running s) = Some (job, rest) ->
  known job /\ exists jobs skipped, leaving s job rest jobs skipped.
Proof.
  intros (jobs & skipped & Ht & Hp & Hreq & Hk & Hf & Hsk) [Hperm _]%take_at_Some.
  assert (Hu : unresolved s ≡ₚ job_args job :: left_over s rest).
  { unfold unresolved, left_over. rewrite Hperm. cbn. by rewrite <-Permutation_middle. }
  rewrite Hperm in Hk. apply Forall_cons in Hk as [Hj Hk]. split; [done|].
  exists jobs, skipped. pose proof (Permutation_length Hu) as Hl. rewrite Hu in Hp.
  split_and!; [done|done|cbn in Hl; lia|done..|]. unfold pending. by rewrite (total_Permutation _ _ _ Hu).
Qed.

Lemma unresolved_without s rest more new results :
  unresolved (without s rest more new results) ≡ₚ new.*2 ++ left_over s rest.
Proof.
  unfold unresolved, without, left_over. cbn [prover_queue running]. rewrite fmap_app, <-!app_assoc.
  apply Permutation_app_swap_app.
Qed.

Lemma receive_push s job rest jobs skipped r :
  leaving s job rest jobs skipped -> proved job r ->
  sched_inv (without s rest 0 [] [(job_args job, inl r)]).
Proof.
  intros (Ht & Hp & Hreq & Hk & Hf & Hsk & _) Hr. exists jobs, skipped.
  rewrite unresolved_without. cbn [required running finished without].
  split_and!; [done| |rewrite !length_app; cbn [length fmap list_fmap app]; lia|done| |done].
  - rewrite <-Hp, (fmap_app fst), <-(assoc_L (++) (finished s).*1). cbn [fmap list_fmap app fst].
    by rewrite <-!Permutation_middle.
  - apply Forall_app. split; [done|]. constructor; [|constructor]. by exists job, r.
Qed.

Lemma receive_skip s job rest jobs skipped :
  leaving s job rest jobs skipped -> skip_stitching (proving args) = true ->
  sched_inv (without s rest (-1) [] []).
Proof.
  intros (Ht & Hp & Hreq & Hk & Hf & Hsk & _) Hx. exists jobs, (job_args job :: skipped).
  rewrite unresolved_without. cbn [required running finished without]. rewrite app_nil_r.
  split_and!; [done| |cbn [fmap list_fmap app]; lia|done..|congruence]. rewrite <-Hp. by rewrite <-!Permutation_middle.
Qed.

Lemma receive_split s job rest jobs skipped i k :
  leaving s job rest jobs skipped -> block_job args (i, k) (job_args job) -> (1 < k)%nat ->
  exists lower upper,
    split_job (job_args job) (starting_block (job_args job)) (Z.of_nat k) = Ok (lower, upper) /\
    sched_inv (without s rest 1 [(true, lower); (true, upper)] []) /\
    (pending (without s rest 1 [(true, lower); (true, upper)] []) < pending s)%nat.
Proof.
  intros (Ht & Hp & Hreq & Hk & Hf & Hsk & Hw) Hb Hk1.
  destruct (tiled_split _ _ jobs _ _ Ht (symmetry Hp)) as (i' & k' & Hb' & Hsplit).
  assert (i' = i /\ k' = k) as [-> ->].
  { destruct (offset_start args Hrq _ _ _ Hb) as (E1 & E2 & _).
    destruct (offset_start args Hrq _ _ _ Hb') as (E3 & E4 & _). lia. }
  destruct (split_job_ok _ _ _ Hb Hk1) as (k1 & k2 & lower & upper & Hkk & H1 & H2 & Hs & Hl & Hu).
  exists lower, upper. split; [done|]. split.
  - destruct (Hsplit k1 k2 lower upper Hkk H1 H2 Hl Hu) as (jobs' & Ht' & Hp').
    exists jobs', skipped. rewrite unresolved_without. cbn [required running finished without].
    rewrite app_nil_r. split_and!; [done|by rewrite Hp'|cbn [fmap list_fmap app length snd]; lia|done..].
  - rewrite Hw. unfold pending. rewrite (total_Permutation _ _ _ (unresolved_without _ _ _ _ _)).
    cbn [fmap list_fmap app snd]. rewrite !total_cons, (block_weight _ _ _ Hb), (block_weight _ _ _ Hl),
      (block_weight _ _ _ Hu). lia.
Qed.

(** A job has ended; what is left is smaller. *)
Lemma receive_ok s i job rest result :
  sched_inv s -> take_at i (running s) = Some (job, rest) -> reply job result ->
  match receive s job rest result with
  | Ok s' => sched_inv s' /\ (pending s' < pending s)%nat
  | Err _ => exists e, failed job e
  | Panic _ => exists n l t, failed job (BlockCountError n l t)
  end.
Proof.
  intros Hi Ht Hr. destruct (sched_leaving _ _ _ _ Hi Ht) as ([Hst Hfo] & jobs & skipped & Hl).
  pose proof Hl as (Htl & Hp & _ & _ & _ & _ & Hw).
  destruct (tiled_split _ _ jobs _ _ Htl (symmetry Hp)) as (o & k & Hb & _).
  destruct (offset_start args Hrq _ _ _ Hb) as (_ & _ & Hn).
  pose proof Hn as [Hd _]%(arith_checked host); [|done].
  rewrite Hst, <-Hd in Hfo. assert (Hk : (0 < k)%nat) by apply Hb.
  assert (Hargs : proving (job_args job) = proving args) by (destruct Hb as (_ & _ & ->); done).
  assert (Hless : forall more results, (pending (without s rest more [] results) < pending s)%nat).
  { intros. unfold pending at 1. rewrite (total_Permutation _ _ _ (unresolved_without _ _ _ _ _)), Hw.
    rewrite (block_weight _ _ _ Hb). cbn [fmap list_fmap app]. lia. }
  unfold receive. rewrite Hst, Hn, Hfo. cbn [mbind outcome_bind].
  destruct result as [[r|]|e]; [|done|].
  { pose proof (receive_push _ _ _ _ _ r Hl Hr) as Hi'. pose proof (Hless 0 [(job_args job, inl r)]) as Hp'.
    unfold without in Hi', Hp'. by rewrite Z.add_0_r, app_nil_r in Hi', Hp'. }
  assert (Hskip : skip_stitching (proving args) = true ->
    sched_inv (without s rest (-1) [] []) /\ (pending (without s rest (-1) [] []) < pending s)%nat)
    by (intros Hx; split; [by eapply receive_skip|done]).
  assert (Hhalf : Z.of_nat k <> 1 -> _) by exact (fun H1 => receive_split _ _ _ _ _ _ _ Hl Hb ltac:(lia)).
  unfold without in Hskip, Hhalf. rewrite !app_nil_r in Hskip. setoid_rewrite app_nil_r in Hhalf.
  destruct e as [n|z t| |n l t|z l t|m|m]; cbn in Hr.
  - apply Hskip. unfold skip_stitching. rewrite <-Hargs. by rewrite (jo_derivation Hjobs _ _ Hr).
  - by apply (jo_seek Hjobs) in Hr.
  - apply Hskip. unfold skip_stitching. rewrite <-Hargs, (jo_waiting Hjobs _ Hr). apply orb_true_r.
  - eauto.
  - destruct (Z.eqb_spec (Z.of_nat k) 1); [eauto|]. destruct Hhalf as (lower & upper & -> & ?); done.
  - destruct (Z.eqb_spec (Z.of_nat k) 1); [eauto|]. destruct Hhalf as (lower & upper & -> & ?); done.
  - destruct (contains _ _); eauto.
Qed.

Lemma sched_step_inv s s' : sched_step s s' -> sched_inv s -> sched_inv s'.
Proof.
  intros [s0 b job queue s1 Hq Hd|s0 i job rest result s1 Ht Hr Hs] Hi.
  - destruct (dispatch_ok _ _ _ _ Hi Hq) as (s2 & Hd' & Hi' & _). congruence.
  - pose proof (receive_ok _ _ _ _ _ Hi Ht Hr) as Ho. rewrite Hs in Ho. apply Ho.
Qed.

Lemma prove_loop_ok fuel s x :
  I x -> sched_inv s -> (pending s ≤ fuel)%nat ->
  let '(o, x') := prove_loop fuel s x in I x' /\
  match o with
  | Ok s' => rtc sched_step s s' /\ sched_inv s' /\ unresolved s' = []
  | Err _ => exists job e, failed job e
  | Panic _ => stuck \/ exists job n l t, failed job (BlockCountError n l t)
  end.
Proof.
  revert s x. induction fuel as [|fuel IH]; intros s x Hx Hi Hw; cbn [prove_loop];
    destruct (Z.ltb_spec (Z.of_nat (length (finished s))) (required s)) as [Hlt|Hge];
    try (split; [done|]; split; [constructor|]; split; [done|];
      destruct Hi as (_ & _ & _ & _ & Hn & _); destruct (unresolved s); [done|cbn [length] in Hn; lia]);
    (destruct (unresolved s) as [|job0 rest0] eqn:Eu;
      [destruct Hi as (_ & _ & _ & _ & Hn & _); rewrite Eu in Hn; cbn in Hn; lia|]).
  { destruct (sched_job s job0 rest0 Hi) as (? & ? & _ & Hpos); [by rewrite Eu|].
    unfold pending in Hw. rewrite Eu, total_cons in Hw. lia. }
  destruct (dispatch_all_ok s Hi) as (s1 & -> & Hst & Hi1 & Hq1 & Hp1 & Hr1 & Hf1).
  assert (Hne : running s1 <> []).
  { intros E. destruct Hi1 as (_ & _ & _ & _ & Hn & _). unfold unresolved in Hn. rewrite Hq1, E in Hn.
    cbn in Hn. rewrite Hr1, Hf1 in Hn. lia. }
  pose proof (jo_next Hjobs (running s1) x Hx Hne (running_blocks s1 Hi1)) as Hnext.
  destruct (next_proof (running s1) x) as [[[i result]|] x1]; destruct Hnext as [Hx1 Hnext]; [|by auto].
  destruct Hnext as (job & Hj & Hrep).
  assert (Htake : take_at i (running s1) = Some (job, take i (running s1) ++ drop (S i) (running s1)))
    by (unfold take_at; by rewrite Hj).
  pose proof (receive_ok _ _ _ _ _ Hi1 Htake Hrep) as Hrec. rewrite Htake.
  destruct (receive _ _ _ _) as [s2|e|w] eqn:Erec; [|split; [done|]; by destruct Hrec; eauto|split; [done|]; by right; eauto].
  destruct Hrec as [Hi2 Hp2]. specialize (IH s2 x1 Hx1 Hi2 ltac:(lia)).
  destruct (prove_loop fuel s2 x1) as [[s3|e|w] x3]; destruct IH as [Hx3 IH]; (split; [done|]); [|done..].
  destruct IH as (Hst3 & Hi3 & Hu3). split; [|done].
  etrans; [exact Hst|]. eapply rtc_l; [by eapply step_receive|done].
Qed.

(** C32. The scheduler as a state machine: in every state that dispatching jobs
    and receiving their results, in any order, can lead to, the jobs that are
    pending, running, finished and skipped are for consecutive segments that make
    up the blocks of the request; the number of results to wait for counts
    exactly the unresolved and the finished ones (so the counter never
    underflows); every finished job has a proof; and no result is skipped unless
    stitching is. *)
Theorem scheduler_invariant jobs s :
  tiled_by (block_job args) (num_blocks args) jobs -> rtc sched_step (sched_start jobs) s -> sched_inv s.
Proof.
  intros Ht Hst. pose proof (proj1 (sched_start_ok jobs Ht)) as Hi.
  induction Hst as [|s1 s2 s3 Hstep _ IH]; [done|]. apply IH. by eapply sched_step_inv.
Qed.

(** The main loop is a run of that state machine, and it ends: from jobs
    that make up the request it receives at most [2 * num_blocks] results,
    whichever job ends next and however often jobs are divided.  It stops with
    nothing pending or running, or with an error of some job, and it panics only
    on a block count error or when no result arrives at all. *)
Theorem prove_loop_refines fuel jobs x :
  I x -> tiled_by (block_job args) (num_blocks args) jobs -> (2 * num_blocks args <= fuel)%nat ->
  let '(o, x') := prove_loop fuel (sched_start jobs) x in I x' /\
  match o with
  | Ok s' => rtc sched_step (sched_start jobs) s' /\ unresolved s' = [] /\
      required s' = Z.of_nat (length (finished s')) /\ Forall result_ok (finished s')
  | Err _ => exists job e, failed job e
  | Panic _ => stuck \/ exists job n l t, failed job (BlockCountError n l t)
  end.
Proof.
  intros Hx Ht Hf. destruct (sched_start_ok jobs Ht) as [Hi Hw].
  pose proof (prove_loop_ok fuel _ x Hx Hi ltac:(lia)) as Hl.
  destruct (prove_loop _ _ x) as [[s'|e|w] x']; destruct Hl as [Hx' Hl]; (split; [done|]); [|done..].
  destruct Hl as (Hst & (_ & _ & _ & _ & Hn & _ & Hr & _) & Hu). rewrite Hu in Hn. by split_and!.
Qed.
End scheduler.

(** ** Composition *)

Section sorted.
Context {R : Type} `{L2Nodes}.
Variables (args : ProveArgs) (proved : Job -> R -> Prop).
Hypothesis Hrq : request_ok args.

(** A proof of the blocks of a segment. *)
Definition segment_proved (ik : nat * nat) (r : R) : Prop :=
  exists job, block_job args ik (job_args job) /\ proved job r.

Lemma block_jobs_sorted i segs j jobs :
  tiling i segs j -> Forall2 (block_job args) segs jobs ->
  StronglySorted (fun x y => a_claimed_l2_block_number x < a_claimed_l2_block_number y) jobs /\
  Forall (fun job => start_block args + Z.of_nat i < a_claimed_l2_block_number job) jobs.
Proof.
  intros Ht Hf. revert i Ht. induction Hf as [|[i' k] job segs jobs Hb Hf IH]; intros i Ht; [by split; constructor|].
  cbn in Ht. destruct Ht as (-> & Hk & Ht). destruct (IH _ Ht) as [Hss Hlo].
  destruct (offset_start args Hrq _ _ _ Hb) as (_ & Hc & _).
  split; constructor; [done| |lia|]; apply (Forall_impl _ _ _ Hlo); intros job'; lia.
Qed.

(** The results of jobs that tile the request come out in block order. *)
Lemma sorted_proofs_ok jobs (results : list (ProveArgs * (R + ProvingError))) :
  tiled_by (block_job args) (num_blocks args) jobs -> results.*1 ≡ₚ jobs ->
  Forall (result_ok proved) results ->
  exists segs proofs, tiling 0 segs (num_blocks args) /\ Forall2 segment_proved segs proofs /\
    sorted_proofs results = Ok (rev proofs).
Proof.
  intros (segs & Ht & Hf) Hp Hr. destruct (block_jobs_sorted _ _ _ _ Ht Hf) as [Hss _].
  destruct (Permutation_map_inv fst results (symmetry Hp)) as (sorted & -> & Hperm).
  assert (Hs : sorted = merge_sort by_block_number results).
  { apply (sorted_by_key_unique (fun x => a_claimed_l2_block_number x.1)).
    - by rewrite merge_sort_Permutation.
    - clear -Hss. induction sorted as [|x l IH]; [constructor|]. cbn in Hss.
      apply StronglySorted_inv in Hss as [? Hx]. constructor; [auto|]. exact (proj1 (Forall_fmap fst _ l) Hx).
    - apply StronglySorted_merge_sort; [intros x y z|intros x y]; unfold by_block_number; lia. }
  rewrite Hperm in Hr. unfold sorted_proofs. rewrite <-Hs. clear Hs Hperm Hp Hss.
  assert (Hprf : exists proofs, Forall2 segment_proved segs proofs /\
    Forall2 (fun x r => x.2 = inl r) sorted proofs).
  { clear -Hr Hf. revert segs Hf. induction Hr as [|x l (job & r & -> & Hpr) Hr IH]; intros segs Hf; cbn in Hf.
    - apply Forall2_nil_inv_r in Hf as ->. exists []. by split.
    - apply Forall2_cons_inv_r in Hf as (ik & segs' & Hb & Hf & ->).
      destruct (IH _ Hf) as (proofs & Hfp & Hz). exists (r :: proofs).
      split; constructor; [by exists job|done..]. }
  destruct Hprf as (proofs & Hfp & Hz). exists segs, proofs. split_and!; [done..|].
  apply omap_m_Ok. rewrite !List.rev_alt. apply Forall2_reverse, (Forall2_impl _ _ _ _ Hz). by intros [a ?] r ->.
Qed.
End sorted.

Section compose.
Context {X R : Type} `{Zkvm R} `{Digests} `{Rlp} `{Images} `{Pool X R} `{L2Nodes}.
Variables (args : ProveArgs) (config : RollupConfig) (ph data_hash : Z).
Abbreviation at_offset i := (start_block args + Z.of_nat i).

(** The journal of a request that is proved as a whole. *)
Definition request_journal (a : ProveArgs) : outcome ProofJournal :=
  expected_journal (complete_task (R := R) a config ph data_hash [] [] true).

(** The boot record of the proof of a segment. *)
Definition segment_boot (ik : nat * nat) : StitchedBootInfo :=
  let '(i, k) := ik in
  {| sb_l1_head := a_l1_head args; sb_agreed_l2_output_root := root_at args (at_offset i);
     sb_claimed_l2_output_root := root_at args (at_offset (i + k));
     sb_claimed_l2_block_number := at_offset (i + k) |}.

Abbreviation image := (image_id (proving args)).
Abbreviation payout := (default 0 (payout_recipient_arg (proving args))).

(** Only the arguments and the boot records of a task determine its journal. *)
Lemma expected_journal_boots a executions boots proofs snark force seek :
  expected_journal (R := R) (whole_task a config ph data_hash executions boots proofs snark force seek) =
  j ← request_journal a;
  ofold (stitch_one (R := R) false (image_id (proving a)) (default 0 (payout_recipient_arg (proving a))) ph ∅) j boots.
Proof.
  unfold request_journal, expected_journal, stitch_boot_info, complete_task. cbn.
  destruct (journal_new _ _ _ _) as [j| |]; cbn; [|done..]. by destruct (ofold _ j boots).
Qed.

Lemma request_journal_fields a j : request_journal a = Ok j ->
  exists ch, config_hash config = Ok ch /\
  j = {| payout_recipient := default 0 (payout_recipient_arg (proving a)); precondition_hash := ph;
         pj_l1_head := a_l1_head a; pj_agreed_l2_output_root := a_agreed_l2_output_root a;
         pj_claimed_l2_output_root := a_claimed_l2_output_root a;
         pj_claimed_l2_block_number := a_claimed_l2_block_number a; pj_config_hash := ch;
         fpvm_image_id := image_id (proving a) |}.
Proof.
  unfold request_journal, expected_journal, stitch_boot_info, journal_new. cbn. intros Hj.
  destruct (config_hash config) as [ch| |]; cbn in Hj; [|done..]. injection Hj as <-. by exists ch.
Qed.

Hypothesis Hrq : request_ok args.

(** Going backwards over the segments extends a journal to the first of them. *)
Lemma stitch_backwards segs i j :
  tiling i segs (num_blocks args) -> pj_l1_head j = a_l1_head args ->
  pj_agreed_l2_output_root j = root_at args (at_offset (num_blocks args)) ->
  ofold (stitch_one (R := R) false image payout ph ∅) j (rev (segment_boot <$> segs)) =
    Ok (set_agreed (root_at args (at_offset i)) j).
Proof.
  intros Ht Hl Ha. revert i Ht. induction segs as [|[i' k] segs IH]; intros i Ht.
  { cbn in Ht. subst i. cbn. f_equal. rewrite <-Ha. by destruct j. }
  cbn [tiling] in Ht. destruct Ht as (-> & Hk & Ht). pose proof (tiling_le _ _ _ Ht) as Hle.
  cbn [fmap list_fmap rev]. rewrite ofold_app. rewrite (IH _ Ht). cbn [mbind outcome_bind ofold].
  assert (Hne : root_at args (at_offset i) <> root_at args (at_offset (i + k))).
  { pose proof (offset_range args Hrq i ltac:(lia)). pose proof (offset_range args Hrq (i + k) Hle).
    intros E%(rq_roots args Hrq); lia. }
  unfold stitch_one. cbn -[root_at start_block Z.of_nat]. rewrite Hl, Z.eqb_refl. cbn -[root_at start_block Z.of_nat].
  rewrite (proj2 (Z.eqb_neq _ _) Hne). cbn -[root_at start_block Z.of_nat]. by rewrite Z.eqb_refl.
Qed.

Lemma segment_boot_ok ik job r j :
  block_job args ik job -> request_journal job = Ok j -> wf_journal j ->
  receipt_journal r = encode_packed j -> receipt_boot r = Ok (segment_boot ik).
Proof.
  intros Hb Hj Hwf Hr. unfold receipt_boot. rewrite Hr.
  pose proof (decode_packed_spec (encode_packed j)) as Hd. pose proof (encode_packed_length j) as Hl.
  destruct (decode_packed (encode_packed j)) as [j'| |]; [|done|lia].
  destruct Hd as (_ & Hwf' & He). rewrite firstn_all2 in He by lia.
  apply encode_packed_inj in He as ->; [|done..]. cbn. f_equal.
  apply request_journal_fields in Hj as (ch & _ & ->). destruct ik as [i k].
  by destruct Hb as (_ & _ & ->).
Qed.

(** ** The whole program *)

Variables (I : X -> Prop) (answered : Cached R -> R -> Prop)
  (refused : Cached R -> ProvingError -> Prop) (crashes : Cached R -> Prop)
  (pick : list Job -> X -> nat).

(** What [prove] relies on: a pool whose proofs have the journals of their
    tasks, traces that belong to the jobs, journals that fit their encoding. *)
Record prover_ok : Prop := {
  pr_pool : pool_ok I answered refused crashes;
  pr_refusals : refusals answered refused;
  pr_journal : forall c r, answered c r ->
    exists j, expected_journal c = Ok j /\ receipt_journal r = encode_packed j;
  pr_traces : forall job snark e, is_block_job args job ->
    refused (complete_task job config ph data_hash [] [] snark) e ->
    match e with
    | BlockCountError _ _ t | WitnessSizeError _ _ t | NotSeekingProof _ t => good_trace job (concat t)
    | _ => True
    end;
  pr_widths : forall job j, is_block_job args job -> request_journal job = Ok j -> wf_journal j;
  pr_pick : forall l x, l <> [] -> (pick l x < length l)%nat;
  pr_executions : 0 <= max_block_executions (proving args);
}.
Hypothesis Hpr : prover_ok.

Definition job_proved (job : Job) (r : R) : Prop :=
  exists j, request_journal (job_args job) = Ok j /\ receipt_journal r = encode_packed j.
Definition job_failed (job : Job) (e : ProvingError) : Prop :=
  task_error (job_args job) e \/ bubbled (job_args job) config ph data_hash [] [] refused e.

Abbreviation jobs := (fpvm_jobs config ph data_hash pick).

(** The proof of any task for [a] with these boot records. *)
Lemma task_journal a boots executions proofs snark force seek r :
  answered (whole_task a config ph data_hash executions boots proofs snark force seek) r ->
  exists j, (j0 ← request_journal a;
    ofold (stitch_one (R := R) false (image_id (proving a)) (default 0 (payout_recipient_arg (proving a))) ph ∅) j0 boots)
    = Ok j /\ receipt_journal r = encode_packed j.
Proof. intros Ha. destruct (pr_journal Hpr _ _ Ha) as (j & Hj & ?). rewrite expected_journal_boots in Hj. eauto. Qed.

Lemma fpvm_jobs_ok :
  @jobs_ok X R _ jobs args I job_proved job_failed (exists c, crashes c).
Proof.
  split.
  - intros l x Hx Hne Hall. cbn. destruct (lookup_lt_is_Some_2 l _ (pr_pick Hpr l x Hne)) as [job Hl].
    rewrite Hl. destruct (proj1 (Forall_lookup _ _) Hall _ _ Hl) as [ik Hb].
    assert (Hp : proving (job_args job) = proving args) by (destruct ik, Hb as (_ & _ & ->); done).
    pose proof (compute_fpvm_proof_ends (job_args job) config ph data_hash [] [] (negb (job_split job))
      I answered refused crashes (pr_pool Hpr) (pr_refusals Hpr)
      (fun e => pr_traces Hpr _ _ e (ex_intro _ ik Hb))
      ltac:(rewrite Hp; exact (pr_executions Hpr)) x Hx) as He.
    destruct (compute_fpvm_proof _ _ _ _ _ _ _ x) as [[r|e|w] x']; destruct He as [Hx' He]; (split; [done|]).
    + exists job. split; [done|]. destruct He as (c & r' & -> & Ha & Hc). cbn.
      destruct Hc as [->|(trace & executions & new & _ & _ & ->)]; apply task_journal in Ha as (j & Hj & Hr);
        cbn [ofold] in Hj; destruct (request_journal (job_args job)) as [j0| |] eqn:Ej; cbn in Hj; simplify_eq;
        by exists j.
    + exists job. by split.
    + done.
  - intros job n [He|(t & m & l & t' & _ & He)]; [exact He|done].
  - intros job [He|(t & m & l & t' & _ & He)]; [exact He|done].
  - intros job z t [He|(t0 & m & l & t' & _ & He)]; [exact He|done].
Qed.

Definition request_proved (r : R) : Prop :=
  exists j, request_journal args = Ok j /\ receipt_journal r = encode_packed j.

(** A task that only derives has reported too many executions. *)
Definition count_refused : Prop :=
  exists c n l t, refused c (BlockCountError n l t) /\ c_seek_proof c = false.

(** How the program ends. *)
Definition program_end (o : attempt (option R)) : Prop :=
  match o with
  | Done (Some r) => skip_stitching (proving args) = false /\ request_proved r
  | Done None => skip_stitching (proving args) = true \/ start_block args = last_block args
  | Failed (DerivationProofError _) | Failed NotAwaitingProof | Failed (NotSeekingProof _ _) => False
  | Failed (BlockCountError _ _ _) => count_refused
  | Failed _ => True
  | Crashed _ => (exists c, crashes c) \/ count_refused
  end.

Lemma whole_segment_proved r :
  segment_proved args job_proved (0%nat, num_blocks args) r -> request_proved r.
Proof.
  intros (job & (Hle & Hk & Hj) & j & Hrj & Hr). exists j. split; [|done]. rewrite <-Hrj, Hj.
  pose proof (rq_range args Hrq). pose proof (rq_claim args Hrq) as Hc.
  replace (at_offset (0 + num_blocks args)) with (last_block args) by (unfold num_blocks in *; lia).
  rewrite Hc. replace (at_offset 0) with (start_block args) by lia.
  unfold root_at. by rewrite Z.eqb_refl.
Qed.

(** The boot records that the composed proof is given. *)
Lemma receipt_boots_ok segs proofs :
  Forall2 (segment_proved args job_proved) segs proofs ->
  omap_m receipt_boot (rev proofs) = Ok (rev (segment_boot <$> segs)).
Proof.
  intros Hf. apply omap_m_Ok. rewrite !List.rev_alt. apply Forall2_reverse.
  apply Forall2_fmap_r, Forall2_flip. apply (Forall2_impl _ _ _ _ Hf).
  intros ik r (job & Hb & j & Hj & Hr).
  eapply segment_boot_ok; [done..| |done]. eapply (pr_widths Hpr); [by exists ik|done].
Qed.

(** The task that only combines proofs is forced, so that it collects no trace. *)
Lemma base_task_refusals boots proofs e :
  skip_stitching (proving args) = false ->
  refused (complete_task (base_args args) config ph data_hash boots proofs true) e ->
  match e with BlockCountError _ _ _ | WitnessSizeError _ _ _ | NotSeekingProof _ _ => False | _ => True end.
Proof.
  intros [Hd _]%orb_false_elim He. pose proof (pr_refusals Hpr) as Href.
  destruct e; try done.
  - apply (rf_seek _ _ Href) in He. cbn in He. by rewrite Hd in He.
  - apply (rf_count _ _ Href) in He as [He _]. cbn in He. by rewrite Z.eqb_refl in He.
  - apply (rf_size _ _ Href) in He. cbn in He. by rewrite Z.eqb_refl in He.
Qed.

(** The composed proof is a proof of the request. *)
Lemma base_proof_ok segs executions proofs snark force seek r :
  tiling 0 segs (num_blocks args) ->
  answered (whole_task (base_args args) config ph data_hash executions (rev (segment_boot <$> segs))
    proofs snark force seek) r ->
  request_proved r.
Proof.
  intros Ht (j & Hj & Hr)%task_journal. destruct (request_journal (base_args args)) as [j0| |] eqn:Ej;
    cbn [mbind outcome_bind] in Hj; [|done..]. apply request_journal_fields in Ej as (ch & Hch & Ej).
  pose proof (rq_range args Hrq). pose proof (rq_claim args Hrq) as Hc.
  assert (Hlast : at_offset (num_blocks args) = last_block args) by (unfold num_blocks; lia).
  change (image_id (proving (base_args args))) with image in Hj.
  change (default 0 (payout_recipient_arg (proving (base_args args)))) with payout in Hj.
  rewrite (stitch_backwards segs 0 j0 Ht) in Hj; [|by rewrite Ej|by rewrite Ej, Hlast, Hc].
  injection Hj as <-. eexists. split; [|exact Hr].
  rewrite Ej. unfold request_journal, expected_journal, stitch_boot_info, journal_new. cbn -[root_at start_block].
  rewrite Hch. cbn -[root_at start_block]. f_equal. unfold set_agreed. cbn -[root_at start_block].
  f_equal. unfold root_at. rewrite (proj2 (Z.eqb_eq _ _)) by lia. done.
Qed.

Lemma compose_ok segs proofs results x :
  skip_stitching (proving args) = false ->
  tiling 0 segs (num_blocks args) -> Forall2 (segment_proved args job_proved) segs proofs ->
  sorted_proofs results = Ok (rev proofs) -> I x ->
  let '(o, x') := Prover.compose args config ph data_hash results x in I x' /\ program_end o.
Proof.
  intros Hskip Ht Hf Hs Hx. pose proof (receipt_boots_ok segs proofs Hf) as Hboots.
  pose proof (rq_range args Hrq) as Hrg.
  unfold Prover.compose. rewrite Hskip, Hs. unfold mbind at 1, Pr_bind, lift_at at 1. cbn [no_err map_err].
  destruct (rev proofs) as [|r1 [|r2 l]] eqn:Erev.
  - apply (f_equal (@rev R)) in Erev. rewrite rev_involutive in Erev. subst proofs.
    apply Forall2_nil_inv_r in Hf as ->. cbn in Ht |- *. split; [done|]. right. unfold num_blocks in Ht. lia.
  - apply (f_equal (@rev R)) in Erev. rewrite rev_involutive in Erev. subst proofs.
    apply Forall2_cons_inv_r in Hf as ([i k] & segs' & Hp & Hf & ->). apply Forall2_nil_inv_r in Hf as ->.
    cbn in Ht. destruct Ht as (-> & _ & Hk). subst k. do 2 (split; [done|]). by apply whole_segment_proved.
  - rewrite (rq_online args Hrq). unfold mbind, Pr_bind, lift_at. cbn [negb assert_ no_err map_err].
    rewrite Hboots. cbn [no_err map_err].
    pose proof (compute_fpvm_proof_ends (base_args args) config ph data_hash (rev (segment_boot <$> segs))
      (r1 :: r2 :: l) true I answered refused crashes (pr_pool Hpr) (pr_refusals Hpr)) as He.
    specialize (He ltac:(intros e Hre; apply base_task_refusals in Hre; [by destruct e|done])
      (pr_executions Hpr) x Hx).
    destruct (compute_fpvm_proof _ _ _ _ _ _ _ x) as [[r|e|w] x']; destruct He as [Hx' He]; (split; [done|]); [| |by left].
    + destruct He as (c & r' & -> & Ha & [->|(trace & executions & new & _ & _ & ->)]);
        (split; [done|]); eapply base_proof_ok; [done|exact Ha|done|exact Ha].
    + apply orb_false_elim in Hskip as [Hd Hw].
      destruct He as [He|(t & n & lim & t' & He & ->)]; [destruct e; cbn in *; first [done|congruence]|].
      do 4 eexists. split; [exact He|done].
Qed.

(** C3. What the prover program delivers for a request that agrees with the
    nodes, whatever order jobs and tasks end in and however often they must be
    divided: it neither runs for ever nor waits for a result that cannot arrive.
    A proof it returns has exactly the journal of the whole request, whether one
    job proved it or the proofs of many jobs were composed; it returns none only
    if stitching is skipped or there is nothing to prove.  Of the errors of a
    task, those that only steer the division never come out, and it panics only
    where a task does, or when a run that only derives reports too many
    executions. *)
Theorem prove_sound x :
  I x ->
  let '(o, x') := @prove X R _ jobs _ _ _ _ args config ph data_hash x in I x' /\ program_end o.
Proof.
  intros Hx. unfold prove. pose proof (rq_range args Hrq) as Hrg.
  assert (Hfuel : (num_blocks args <= Z.to_nat (a_claimed_l2_block_number args))%nat)
    by (unfold num_blocks, last_block; lia).
  destruct (requested_jobs_Ok args Hrq (S (Z.to_nat (a_claimed_l2_block_number args))))
    as (segs & js & -> & Ht & Hf & _); [lia|].
  destruct (sched_start_ok (R := R) args job_proved Hrq js (ex_intro _ segs (conj Ht Hf))) as [Hi Hw].
  pose proof (@prove_loop_ok X R _ jobs args I job_proved job_failed (exists c, crashes c) Hrq fpvm_jobs_ok
    (S (2 * Z.to_nat (a_claimed_l2_block_number args))) _ x Hx Hi ltac:(lia)) as Hl.
  destruct (prove_loop _ _ x) as [[s|e|w] x1]; destruct Hl as [Hx1 Hl]; [|by split|].
  - destruct Hl as (_ & (jobs' & skipped & Htl & Hp & _ & _ & Hr & Hsk) & Hu).
    destruct (skip_stitching (proving args)) eqn:Hskip;
      [unfold Prover.compose; rewrite Hskip; cbn; by split; [|left]|].
    rewrite Hu, (Hsk eq_refl), app_nil_r in Hp.
    destruct (sorted_proofs_ok args job_proved Hrq jobs' _ Htl Hp Hr) as (segs' & proofs & Ht' & Hf' & Hs).
    by eapply compose_ok.
  - split; [done|]. destruct Hl as [?|(job & n & l & t & [[]|(t' & ? & ? & ? & He & [= -> -> ->])])]; [by left|].
    right. do 4 eexists. split; [exact He|done].
Qed.
End compose.

(** ** A concrete run *)

Definition demo_nodes : L2Nodes := {|
  number_of_block := fun hash => hash - 1000; hash_of_block := fun n => 1000 + n;
  output_root_at := fun n => 2000 + n |}.

(** The request of [demo_args], with jobs of at most two blocks. *)
Definition demo_request : ProveArgs := {|
  a_l1_head := 9; a_agreed_l2_output_root := 2004; a_agreed_l2_head_hash := 1004;
  a_claimed_l2_output_root := 2008; a_claimed_l2_block_number := 8; is_offline := false;
  enable_experimental_witness_endpoint := false; op_node_address := true;
  proving := {| payout_recipient_arg := Some 66; segment_limit := 21; max_block_derivations := 2;
    max_block_executions := 3; max_witness_size := 100; num_concurrent_preflights := 3;
    skip_derivation_proof := false; skip_await_proof := false; hokulea_is_set := false;
    hana_is_set := false |} |}.

Abbreviation demo_journal_of := (@expected_journal (Z * bytes) demo_zkvm demo_digests demo_images).

(** The zkVM proves one block, or a composition. *)
Definition prover_result (c : Cached (Z * bytes)) : (Z * bytes) + ProvingError :=
  if negb (c_seek_proof c) then inr (NotSeekingProof 0 [])
  else if (a_claimed_l2_output_root (c_args c) - a_agreed_l2_output_root (c_args c) <=? 1)
  then match demo_journal_of c with
       | Ok j => inl (demo_image, encode_packed j)
       | _ => inr (OtherError "no journal")
       end
  else inr (ExecutionError "session limit exceeded").
Definition prover_pool : Pool nat (Z * bytes) := {|
  oneshot := fun c x => (match prover_result c with inl r => Done r | inr e => Failed e end, S x);
  next_result := fun l x =>
    match l !! 0%nat with Some c => (Some (0%nat, prover_result c), S x) | None => (None, x) end |}.
Definition prover_pick (l : list Job) (x : nat) : nat := (length l - 1)%nat.

Lemma demo_root n : @root_at demo_nodes demo_request n = 2000 + n.
Proof.
  unfold root_at. change (@start_block demo_nodes demo_request) with 4.
  destruct (Z.eqb_spec n 4) as [->|]; reflexivity.
Qed.

Lemma demo_request_ok : @request_ok demo_nodes demo_request.
Proof.
  split; rewrite ?demo_root; try done.
  - intros m n _ _. rewrite !demo_root. lia.
  - intros n _. change (1000 + n - 1000 = n). lia.
Qed.

Lemma prover_pool_ok :
  @pool_ok nat (Z * bytes) prover_pool (fun _ => True) (fun c r => prover_result c = inl r)
    (fun c e => prover_result c = inr e) (fun _ => False).
Proof.
  split.
  - intros c x _. cbn. by destruct (prover_result c).
  - intros [|c l] x _ Hl; [done|]. cbn. split; [done|]. exists c. split; [done|].
    by destruct (prover_result c).
Qed.

Lemma prover_result_refusals :
  refusals (fun c r => prover_result c = inl r) (fun c e => prover_result c = inr e).
Proof.
  split; unfold prover_result; intros c; destruct (c_seek_proof c); cbn; intros;
    repeat case_match; simplify_eq; done.
Qed.

Lemma prover_demo_ok :
  @prover_ok nat (Z * bytes) demo_zkvm demo_digests demo_rlp demo_images prover_pool demo_nodes demo_request
    demo_config 0 0 (fun _ => True) (fun c r => prover_result c = inl r)
    (fun c e => prover_result c = inr e) (fun _ => False) prover_pick.
Proof.
  split; [exact prover_pool_ok|exact prover_result_refusals| | | | |done].
  - intros c r. unfold prover_result. destruct (negb _); [done|]. destruct (_ <=? _); [|done].
    destruct (demo_journal_of c) as [j| |]; [|done..]. intros [= <-]. by exists j.
  - intros job snark e [[i k] (_ & _ & ->)] He. unfold prover_result in He.
    match type of He with (if ?b then _ else _) = _ => change b with false in He; cbv iota in He end.
    destruct (_ <=? _) in He; [destruct (demo_journal_of _) in He|]; first [discriminate He|by injection He as <-].
  - intros job j [[i k] (Hle & _ & ->)] Hj. change (num_blocks demo_request) with 4%nat in Hle.
    apply request_journal_fields in Hj as (ch & Hch & ->).
    assert (Hc : b256 ch) by (unfold config_hash in Hch; ok_inv; apply (@sha256_width demo_digests)).
    unfold wf_journal. cbn [payout_recipient precondition_hash pj_l1_head pj_agreed_l2_output_root
      pj_claimed_l2_output_root pj_claimed_l2_block_number pj_config_hash fpvm_image_id].
    change (@start_block demo_nodes demo_request) with 4.
    repeat (apply conj; [cbn -[root_at Z.of_nat Z.add in_width b256]; rewrite ?demo_root;
      first [exact Hc|unfold b256, u64, address, in_width; lia]|]).
    vm_compute. split; congruence.
  - intros [|job l] x Hl; [done|]. unfold prover_pick. cbn. lia.
Qed.

Lemma requested_jobs_spec_witness :
  exists segs jobs, @requested_jobs demo_nodes 4 demo_request = Some jobs /\
    tiling 0 segs 4 /\ Forall2 (@block_job demo_nodes demo_request) segs jobs /\
    Forall (within_max demo_request) segs.
Proof.
  apply (proj1 (@requested_jobs_spec demo_nodes demo_request 4) demo_request_ok). vm_compute. reflexivity.
Defined.

Lemma prove_sound_witness :
  let result := @prove nat (Z * bytes) demo_nodes
    (@fpvm_jobs nat _ demo_digests demo_rlp prover_pool demo_config 0 0 prover_pick)
    demo_zkvm demo_digests demo_rlp prover_pool demo_request demo_config 0 0 0%nat in
  result.2 = 7%nat /\ True /\
  @program_end (Z * bytes) demo_zkvm demo_digests demo_images demo_nodes demo_request demo_config 0 0
    (fun c e => prover_result c = inr e) (fun _ => False) result.1.
Proof.
  intros result. split; [vm_compute; reflexivity|].
  pose proof (@prove_sound nat (Z * bytes) demo_zkvm demo_digests demo_rlp demo_images prover_pool demo_nodes
    demo_request demo_config 0 0 demo_request_ok (fun _ => True) (fun c r => prover_result c = inl r)
    (fun c e => prover_result c = inr e) (fun _ => False) prover_pick prover_demo_ok 0%nat I) as H.
  subst result. destruct (@prove _ _ _ _ _ _ _ _ _ _ _ _ _). exact H.
Defined.

(** The two jobs of the request, and the loop on them: both are divided. *)
Definition demo_jobs : list ProveArgs :=
  match @requested_jobs demo_nodes 4 demo_request with Some l => l | None => [] end.
Abbreviation demo_fpvm_jobs :=
  (@fpvm_jobs nat (Z * bytes) demo_digests demo_rlp prover_pool demo_config 0 0 prover_pick).
Abbreviation demo_proved :=
  (@job_proved (Z * bytes) demo_zkvm demo_digests demo_images demo_config 0 0).
Abbreviation demo_failed :=
  (@job_failed (Z * bytes) demo_config 0 0 (fun c e => prover_result c = inr e)).
Definition demo_loop : outcome (Sched (Z * bytes)) * nat :=
  @prove_loop nat (Z * bytes) demo_nodes demo_fpvm_jobs 8 (sched_start demo_jobs) 0%nat.

Lemma demo_jobs_tile : tiled_by (@block_job demo_nodes demo_request) 4 demo_jobs.
Proof.
  destruct (@requested_jobs_Ok demo_nodes demo_request demo_request_ok 4) as (segs & jobs & Hj & Ht & Hf & _);
    [vm_compute; reflexivity|].
  unfold demo_jobs. rewrite Hj. by exists segs.
Qed.

Lemma demo_jobs_ok :
  @jobs_ok nat (Z * bytes) demo_nodes demo_fpvm_jobs demo_request (fun _ => True) demo_proved demo_failed
    (exists c : Cached (Z * bytes), False).
Proof. eapply fpvm_jobs_ok, prover_demo_ok. Qed.

Lemma demo_loop_steps :
  exists s, demo_loop.1 = Ok s /\ length (finished s) = 4%nat /\
    rtc (@sched_step (Z * bytes) demo_nodes demo_proved demo_failed) (sched_start demo_jobs) s.
Proof.
  assert (Hend : exists s x, demo_loop = (Ok s, x) /\ length (finished s) = 4%nat)
    by (do 2 eexists; split; [vm_compute; reflexivity|reflexivity]).
  destruct Hend as (s & x & Hend & Hlen). exists s. rewrite Hend. do 2 (split; [done|]).
  destruct (@sched_start_ok (Z * bytes) demo_nodes demo_request demo_proved demo_request_ok demo_jobs
    demo_jobs_tile) as [Hi Hw].
  pose proof (@prove_loop_ok nat (Z * bytes) demo_nodes demo_fpvm_jobs demo_request (fun _ => True) demo_proved
    demo_failed _ demo_request_ok demo_jobs_ok 8 _ 0%nat I Hi Hw) as Hl.
  unfold demo_loop in Hend. rewrite Hend in Hl. apply Hl.
Qed.

Lemma scheduler_invariant_witness :
  exists s, length (finished s) = 4%nat /\
    @sched_inv (Z * bytes) demo_nodes demo_request demo_proved s.
Proof.
  destruct demo_loop_steps as (s & _ & Hlen & Hst). exists s. split; [exact Hlen|].
  apply (@scheduler_invariant nat (Z * bytes) demo_nodes demo_fpvm_jobs demo_request (fun _ => True)
    demo_proved demo_failed _ demo_request_ok demo_jobs_ok demo_jobs s demo_jobs_tile Hst).
Defined.

Lemma prove_loop_refines_witness :
  let '(o, x') := demo_loop in True /\
  match o with
  | Ok s' => rtc (@sched_step (Z * bytes) demo_nodes demo_proved demo_failed) (sched_start demo_jobs) s' /\
      unresolved s' = [] /\ required s' = Z.of_nat (length (finished s')) /\
      Forall (result_ok demo_proved) (finished s')
  | Err _ => exists job e, demo_failed job e
  | Panic _ => (exists c : Cached (Z * bytes), False) \/ exists job n l t, demo_failed job (BlockCountError n l t)
  end.
Proof.
  apply (@prove_loop_refines nat (Z * bytes) demo_nodes demo_fpvm_jobs demo_request (fun _ => True)
    demo_proved demo_failed _ demo_request_ok demo_jobs_ok 8 demo_jobs 0%nat I demo_jobs_tile).
  vm_compute. reflexivity.
Defined.
