(* ===== verification/Preflight.v ===== *)
(** * crates/prover/src/preflight.rs and the set-up of prove.rs

    What happens before a request is divided: the precondition data is put
    together from the arguments and stored under its hash, and native runs over
    parts of the request fill the store. *)

From S2P Require Import Prelude Tiling Bytes Config Journal Blobs Precondition Oracle Executor L1Chain Core Stitching DA Witgen Payload Tasks TasksSpec Backend Worker Prover ProverSpec.

(** A block of L1 by its hash: its reference, and the versioned hashes of each
    of its transactions that has any. *)
Class L1Node := { l1_block : Z -> BlockInfo * list (option (list Z)) }.

(** The arguments that describe a precondition. *)
Record PreconditionArgs := {
  precondition_params : list Z; precondition_block_hashes : list Z; precondition_blob_hashes : list Z }.

Section precondition_data.
Context `{L1Node} `{Digests} `{Pot}.

(** The position of the first blob with the hash among those of the block. *)
Fixpoint blob_position (wanted : Z) (hashes : list Z) (blob_index : Z) : option Z :=
  match hashes with
  | [] => None
  | blob :: hashes =>
      if blob =? wanted then Some blob_index else blob_position wanted hashes (blob_index + 1)
  end.

Definition get_blob_fetch_request (block_hash blob_hash : Z) : outcome BlobFetchRequest :=
  let '(block_ref, transactions) := l1_block block_hash in
  match blob_position blob_hash (concat (default [] <$> transactions)) 0 with
  | None => Err "Could not find blob"
  | Some blob_index =>
      Ok {| block_ref := block_ref; blob_hash := {| ibh_index := blob_index; ibh_hash := blob_hash |} |}
  end.

(** The data, and the store with its serialization; [key_word] is the word of
    the store for a preimage key. *)
Definition fetch_precondition_data `{PreimageKeys} (key_word : PreimageKey -> Z) (cfg : PreconditionArgs)
    : St RWLKeyValueStore (option PreconditionValidationData) :=
  let hash_arguments := [bool_decide (precondition_params cfg = []);
    bool_decide (precondition_block_hashes cfg = []); bool_decide (precondition_blob_hashes cfg = [])] in
  if forallb negb hash_arguments then
    if negb (length (precondition_block_hashes cfg) =? length (precondition_blob_hashes cfg))%nat
    then lift (Err "Blob reference mismatch")
    else
      match precondition_params cfg with
      | [number; count; span] =>
          fetch_requests ← lift (omap_m (fun x => get_blob_fetch_request x.1 x.2)
            (zip (precondition_block_hashes cfg) (precondition_blob_hashes cfg)));
          let data := Validity number count span fetch_requests in
          hash ← lift (precondition_data_hash data);
          bytes ← lift (to_vec data);
          store ← get_st;
          _ ← put_st (kv_set (key_word (key_new hash Sha256)) bytes store);
          mret (Some data)
      | _ => lift (Err "Too many precondition_params values provided")
      end
  else if existsb negb hash_arguments
  then lift (Err "Insufficient number of arguments provided for precondition hash.")
  else mret None.

(** The two hashes that the tasks of the request carry. *)
Definition precondition_hashes (data : option PreconditionValidationData) : outcome (Z * Z) :=
  match data with
  | Some data => hash ← precondition_data_hash data; Ok (pvd_precondition_hash data, hash)
  | None => Ok (0, 0)
  end.
End precondition_data.

(** ** The concurrent preflight *)

Section preflight.
Context `{L2Nodes}.

(** The jobs, by one query of an output root each; there are at most as many
    rounds as blocks. *)
Fixpoint preflight_jobs (fuel : nat) (output_at_block : Z -> outcome Z) (args : ProveArgs)
    (num_blocks blocks_per_thread extra_blocks : Z) : outcome (list ProveArgs) :=
  if 0 <? num_blocks then
    match fuel with
    | O => Panic "out of fuel"
    | S fuel =>
        let processed_blocks := if 0 <? extra_blocks then blocks_per_thread + 1 else blocks_per_thread in
        let extra_blocks := if 0 <? extra_blocks then extra_blocks - 1 else extra_blocks in
        let num_blocks := sat_sub num_blocks processed_blocks in
        claimed ← u64_add host (number_of_block (a_agreed_l2_head_hash args)) processed_blocks;
        claimed_root ← output_at_block claimed;
        let args := with_claim claimed_root claimed args in
        let next := if 0 <? num_blocks
          then with_agreed (a_claimed_l2_output_root args) (hash_of_block claimed) args else args in
        jobs ← preflight_jobs fuel output_at_block next num_blocks blocks_per_thread extra_blocks;
        Ok (args :: jobs)
    end
  else Ok [].

Definition all_preflight_jobs (output_at_block : Z -> outcome Z) (args : ProveArgs) : outcome (list ProveArgs) :=
  let starting_block := number_of_block (a_agreed_l2_head_hash args) in
  num_blocks ← u64_sub host (a_claimed_l2_block_number args) starting_block;
  if num_blocks =? 0 then Ok []
  else
    blocks_per_thread ← u64_div num_blocks (num_concurrent_preflights (proving args));
    extra_blocks ← u64_rem num_blocks (num_concurrent_preflights (proving args));
    preflight_jobs (Z.to_nat num_blocks) output_at_block args num_blocks blocks_per_thread extra_blocks.

(** The tasks are run, not proved; their errors are logged, a panic of one is an
    error. *)
Fixpoint run_preflights {X R} `{Pool X R} (config : RollupConfig) (jobs : list ProveArgs) : Pr X unit :=
  match jobs with
  | [] => mret tt
  | job :: jobs => fun x =>
      match oneshot (whole_task job config 0 0 [] [] [] false true false) x with
      | (Crashed w, x) => (Failed (OtherError w), x)
      | (_, x) => run_preflights config jobs x
      end
  end.

Definition concurrent_execution_preflight {X R} `{Pool X R} (output_at_block : Z -> outcome Z)
    (args : ProveArgs) (config : RollupConfig) : Pr X unit :=
  jobs ← lift_at (no_err (all_preflight_jobs output_at_block args)); run_preflights config jobs.
End preflight.

(** ** Properties *)

Section preflight_spec.
Context `{L2Nodes}.
Variables (args : ProveArgs) (output_at_block : Z -> outcome Z).
Hypotheses (Hrq : request_ok args)
  (Hnode : forall n, start_block args < n <= last_block args -> output_at_block n = Ok (output_root_at n)).
Abbreviation at_offset i := (start_block args + Z.of_nat i).

(** The request from an offset on. *)
Definition from_offset (i : nat) (a : ProveArgs) : Prop :=
  exists root number, a = with_claim root number (with_agreed (root_at args (at_offset i)) (hash_at args (at_offset i)) args).

Lemma from_offset_start i a : (i <= num_blocks args)%nat -> from_offset i a ->
  number_of_block (a_agreed_l2_head_hash a) = at_offset i.
Proof.
  intros Hi (root & number & ->). pose proof (offset_range args Hrq i Hi) as Hr. cbn. unfold hash_at.
  destruct (Z.eqb_spec (at_offset i) (start_block args)) as [E|E]; [by rewrite E|].
  apply (rq_hash args Hrq). lia.
Qed.

Definition even_sizes (q : Z) (s : nat * nat) : Prop := Z.of_nat (snd s) = q \/ Z.of_nat (snd s) = q + 1.

Lemma preflight_jobs_from fuel i a q extra threads :
  from_offset i a -> (i <= num_blocks args)%nat -> 0 <= q -> 0 <= extra <= threads ->
  (num_blocks args - i <= fuel)%nat -> Z.of_nat (num_blocks args - i) = q * threads + extra ->
  exists segs jobs,
    preflight_jobs fuel output_at_block a (Z.of_nat (num_blocks args - i)) q extra = Ok jobs /\
    tiling i segs (num_blocks args) /\ Forall2 (block_job args) segs jobs /\
    Forall (even_sizes q) segs /\ Z.of_nat (length jobs) <= threads.
Proof.
  pose proof (rq_range args Hrq) as Hrg. pose proof (rq_width args Hrq) as Hw.
  revert i a extra threads. induction fuel as [|fuel IH]; intros i a extra threads Ha Hi Hq He Hf Hn;
    cbn [preflight_jobs]; (destruct (Z.ltb_spec 0 (Z.of_nat (num_blocks args - i))) as [Hpos|Hz];
      [|exists [], []; split_and!; [done|change (i = num_blocks args); lia|constructor..|cbn [length]; lia]]); [lia|].
  assert (Hsize : exists k : nat, (if 0 <? extra then q + 1 else q) = Z.of_nat k /\ (0 < k)%nat /\
    even_sizes q (i, k) /\
    (k <= num_blocks args - i)%nat /\ 0 < threads /\
    Z.of_nat (num_blocks args - (i + k)) = q * (threads - 1) + (if 0 <? extra then extra - 1 else extra) /\
    0 <= (if 0 <? extra then extra - 1 else extra) <= threads - 1).
  { assert (0 < threads) by (destruct (Z.eq_dec threads 0); [subst; lia|lia]).
    assert (Hm : 0 <= q * (threads - 1)) by (apply Z.mul_nonneg_nonneg; lia).
    assert (Hq0 : 0 < extra \/ 0 < q) by (destruct (Z.eq_dec q 0); [subst; lia|lia]).
    unfold even_sizes. destruct (Z.ltb_spec 0 extra);
      [exists (Z.to_nat (q + 1))|exists (Z.to_nat q)]; cbn [snd]; repeat (apply conj; [lia|]); lia. }
  destruct Hsize as (k & -> & Hk & Heven & Hki & Hth & Hrest & Hex).
  rewrite (from_offset_start _ _ Hi Ha).
  assert (Hclaim : at_offset i + Z.of_nat k = at_offset (i + k)) by lia. unfold u64_add. rewrite Hclaim.
  assert (Hlast : at_offset (i + k) <= last_block args) by (unfold num_blocks in *; lia).
  rewrite arith_fits by (unfold in_width; lia). cbn [mbind outcome_bind].
  rewrite Hnode by lia. cbn [mbind outcome_bind].
  replace (sat_sub (Z.of_nat (num_blocks args - i)) (Z.of_nat k)) with (Z.of_nat (num_blocks args - (i + k)))
    by (unfold sat_sub; lia).
  destruct (offset_later args (i + k)) as [Hro Hho]; [lia|]. rewrite <-Hro, <-Hho.
  set (job := with_claim (root_at args (at_offset (i + k))) (at_offset (i + k)) a).
  assert (Hjob : block_job args (i, k) job).
  { destruct Ha as (root & number & ->). split_and!; [lia|done|reflexivity]. }
  match goal with |- context [preflight_jobs fuel _ ?n _ _ _] => set (next := n) end.
  assert (Hnext : (i + k)%nat = num_blocks args \/ from_offset (i + k) next).
  { destruct (decide (i + k = num_blocks args)%nat) as [|Hne]; [by left|right].
    unfold next. rewrite (proj2 (Z.ltb_lt _ _)) by lia.
    destruct Ha as (root & number & ->). do 2 eexists. reflexivity. }
  assert (Hrec : exists segs jobs,
    preflight_jobs fuel output_at_block next (Z.of_nat (num_blocks args - (i + k))) q
      (if 0 <? extra then extra - 1 else extra) = Ok jobs /\
    tiling (i + k) segs (num_blocks args) /\ Forall2 (block_job args) segs jobs /\
    Forall (even_sizes q) segs /\ Z.of_nat (length jobs) <= threads - 1).
  { destruct Hnext as [Hend|Hnext]; [|apply IH; [done|lia..]].
    exists [], []. rewrite Hend, Nat.sub_diag. split_and!; [by destruct fuel|done|constructor..|cbn; lia]. }
  destruct Hrec as (segs & jobs & -> & Ht & Hfj & Hev & Hlen).
  exists ((i, k) :: segs), (job :: jobs). split_and!; [done|cbn; split_and!; [done|lia|done]|by constructor| |cbn [length]; lia].
  by constructor.
Qed.

(** The concurrent preflight covers the request: its jobs are for consecutive
    segments that make up exactly the blocks of the request, there are at most
    [num_concurrent_preflights] of them, and their sizes differ by at most one.
    A request without blocks has no jobs. *)
Theorem preflight_jobs_tile :
  0 < num_concurrent_preflights (proving args) ->
  exists segs jobs, all_preflight_jobs output_at_block args = Ok jobs /\
    tiling 0 segs (num_blocks args) /\ Forall2 (block_job args) segs jobs /\
    Forall (even_sizes (Z.of_nat (num_blocks args) / num_concurrent_preflights (proving args))) segs /\
    Z.of_nat (length jobs) <= num_concurrent_preflights (proving args).
Proof.
  intros Hth. pose proof (rq_range args Hrq) as Hrg. pose proof (rq_width args Hrq) as Hw.
  unfold all_preflight_jobs. fold (start_block args) (last_block args). unfold u64_sub.
  assert (Hn : last_block args - start_block args = Z.of_nat (num_blocks args)) by (unfold num_blocks; lia).
  rewrite Hn, arith_fits by (unfold in_width; lia). cbn [mbind outcome_bind].
  destruct (Z.eqb_spec (Z.of_nat (num_blocks args)) 0) as [Hz|Hnz].
  { exists [], []. split_and!; [done|change (0%nat = num_blocks args); lia|constructor..|cbn [length]; lia]. }
  unfold u64_div, u64_rem. rewrite (proj2 (Z.eqb_neq _ _)) by lia. cbn [mbind outcome_bind].
  pose proof (Z.div_mod (Z.of_nat (num_blocks args)) (num_concurrent_preflights (proving args))) as Hdm.
  pose proof (Z.mod_pos_bound (Z.of_nat (num_blocks args)) _ Hth).
  pose proof (preflight_jobs_from (Z.to_nat (Z.of_nat (num_blocks args))) 0 args
    (Z.of_nat (num_blocks args) / num_concurrent_preflights (proving args))
    (Z.of_nat (num_blocks args) `mod` num_concurrent_preflights (proving args))
    (num_concurrent_preflights (proving args))) as Hj.
  rewrite Nat.sub_0_r in Hj. apply Hj; [|lia|apply Z.div_pos; lia|lia|lia|lia].
  exists (a_claimed_l2_output_root args), (a_claimed_l2_block_number args).
  replace (at_offset 0) with (start_block args) by lia. unfold root_at, hash_at. rewrite Z.eqb_refl.
  by destruct args.
Qed.
End preflight_spec.

Section precondition_spec.
Context `{L1Node} `{Digests} `{Pot} `{PreimageKeys}.

Lemma blob_position_Some wanted hashes i j :
  blob_position wanted hashes i = Some j <->
  exists k, j = i + Z.of_nat k /\ hashes !! k = Some wanted /\ wanted ∉ take k hashes.
Proof.
  revert i. induction hashes as [|h hashes IH]; intros i; cbn; [naive_solver|].
  destruct (Z.eqb_spec h wanted) as [->|Hne].
  - split; [intros [= <-]; exists 0%nat; split_and!; [lia|done|set_solver]|].
    intros (k & -> & _ & Hni). destruct k; [f_equal; lia|]. set_solver.
  - rewrite IH. split.
    + intros (k & -> & Hk & Hni). exists (S k). split_and!; [lia|done|set_solver].
    + intros (k & -> & Hk & Hni). destruct k as [|k]; [cbn in Hk; congruence|].
      exists k. cbn in Hk, Hni. split_and!; [lia|done|set_solver].
Qed.

(** A request names the first blob of its block with its hash. *)
Definition requests_blob (block_hash blob_hash : Z) (r : BlobFetchRequest) : Prop :=
  let hashes := concat (default [] <$> (l1_block block_hash).2) in
  block_ref r = (l1_block block_hash).1 /\ ibh_hash (Blobs.blob_hash r) = blob_hash /\
  exists k, ibh_index (Blobs.blob_hash r) = Z.of_nat k /\ hashes !! k = Some blob_hash /\
    blob_hash ∉ take k hashes.

Lemma get_blob_fetch_request_Ok block_hash blob_hash r :
  get_blob_fetch_request block_hash blob_hash = Ok r -> requests_blob block_hash blob_hash r.
Proof.
  unfold get_blob_fetch_request, requests_blob. destruct (l1_block block_hash) as [ref txs]. cbn [fst snd].
  destruct (blob_position _ _ _) as [j|] eqn:E; [|done]. intros [= <-]. cbn.
  apply blob_position_Some in E as (k & -> & Hk & Hni). split_and!; [done..|]. by exists k.
Qed.

(** The precondition data of a request: none without arguments; otherwise the
    three parameters and, for each pair of a block hash and a blob hash, the first
    such blob of that block.  Its precondition hash is that of the parameters and
    the given blob hashes, so it does not depend on the node, and its
    serialization is stored under the SHA-256 hash that the tasks carry. *)
Theorem fetch_precondition_data_spec key_word cfg store d store' :
  fetch_precondition_data key_word cfg store = (Ok d, store') ->
  match d with
  | None => precondition_params cfg = [] /\ precondition_block_hashes cfg = [] /\
      precondition_blob_hashes cfg = [] /\ store' = store
  | Some (Validity number count span requests) =>
      precondition_params cfg = [number; count; span] /\
      Forall2 (fun x r => requests_blob x.1 x.2 r)
        (zip (precondition_block_hashes cfg) (precondition_blob_hashes cfg)) requests /\
      exists hash data,
        precondition_hashes d = Ok (validity_precondition_hash number count span
          (blobs_hash (precondition_blob_hashes cfg)), hash) /\
        to_vec (Validity number count span requests) = Ok data /\ hash = sha256 data /\
        kv_get (key_word (key_new hash Sha256)) store' = Some data
  end.
Proof.
  unfold fetch_precondition_data. cbn [forallb existsb]. rewrite !andb_true_r, !orb_false_r.
  destruct (negb _ && _) eqn:Eall.
  2:{ destruct (negb _ || _) eqn:Eany; [done|]. intros [= <- <-].
      apply orb_false_elim in Eany as [E1 [E2 E3]%orb_false_elim]. bools. by split_and!. }
  destruct (negb _) eqn:Elen in |- *; [done|]. bools.
  destruct (precondition_params cfg) as [|number [|count [|span [|]]]]; try done.
  intros Hf. st_inv. unfold get_st, put_st in *. simplify_eq.
  match goal with Hr : omap_m _ _ = Ok ?rs |- _ => rename rs into requests; apply omap_m_Ok in Hr as Hreq end.
  assert (Hrs : Forall2 (fun x r => requests_blob x.1 x.2 r)
    (zip (precondition_block_hashes cfg) (precondition_blob_hashes cfg)) requests).
  { eapply Forall2_impl; [|exact Hreq]. intros [bh h] r. apply get_blob_fetch_request_Ok. }
  assert (Hhashes : request_hashes requests = precondition_blob_hashes cfg).
  { apply Nat.eqb_eq in Elen. revert Hrs Elen. clear. generalize (precondition_block_hashes cfg) as bs.
    generalize (precondition_blob_hashes cfg) as hs. intros hs bs. revert bs requests.
    induction hs as [|h hs IH]; intros [|b bs] rs Hrs Hlen; try done; cbn in *.
    - by apply Forall2_nil_inv_l in Hrs as ->.
    - apply Forall2_cons_inv_l in Hrs as (r & rs' & (_ & Hh & _) & Hrs & ->).
      unfold request_hashes. rewrite fmap_cons. f_equal; [exact Hh|]. apply (IH bs rs' Hrs). lia. }
  split_and!; [done|done|]. do 2 eexists. cbn [precondition_hashes pvd_precondition_hash].
  rewrite Hhashes, E0. cbn [mbind outcome_bind]. split_and!; [reflexivity|exact E1| |].
  - unfold precondition_data_hash in E0. rewrite E1 in E0. by injection E0 as <-.
  - by rewrite kv_get_set, decide_True.
Qed.
End precondition_spec.

(** ** Concrete runs *)

(** The four blocks of the request, on three threads: two, one and one. *)
Lemma preflight_jobs_tile_witness :
  exists segs jobs,
    @all_preflight_jobs demo_nodes (fun n => Ok (2000 + n)) demo_request = Ok jobs /\
    tiling 0 segs (@num_blocks demo_nodes demo_request) /\
    Forall2 (@block_job demo_nodes demo_request) segs jobs /\ Forall (even_sizes (4 / 3)) segs /\
    Z.of_nat (length jobs) <= 3.
Proof.
  apply (@preflight_jobs_tile demo_nodes demo_request (fun n => Ok (2000 + n)) demo_request_ok); [|reflexivity].
  intros n _. reflexivity.
Defined.

Definition demo_l1_node : L1Node := {| l1_block := fun hash =>
  ({| bk_hash := hash; bk_number := 50; bk_parent_hash := 0; bk_timestamp := 600 |},
   [Some [70; 71]; None; Some [72]]) |}.
Definition demo_precondition_args : PreconditionArgs := {|
  precondition_params := [4; 3; 2]; precondition_block_hashes := [77; 77];
  precondition_blob_hashes := [72; 70] |}.
Definition demo_store : RWLKeyValueStore := {| kv := ∅; global_mask := 0 |}.

Lemma fetch_precondition_data_spec_witness :
  exists requests store', Forall2 (fun x r => @requests_blob demo_l1_node x.1 x.2 r) [(77, 72); (77, 70)] requests /\
  exists hash data,
    @precondition_hashes demo_digests demo_pot (Some (Validity 4 3 2 requests)) =
      Ok (@validity_precondition_hash demo_digests 4 3 2 (@blobs_hash demo_digests [72; 70]), hash) /\
    @to_vec demo_pot (Validity 4 3 2 requests) = Ok data /\ hash = @sha256 demo_digests data /\
    kv_get (key_data (@key_new demo_keys hash Sha256)) store' = Some data.
Proof.
  destruct (@fetch_precondition_data demo_l1_node demo_digests demo_pot demo_keys key_data demo_precondition_args demo_store)
    as [o store'] eqn:E.
  assert (Hd : exists requests, o = Ok (Some (Validity 4 3 2 requests))).
  { apply (f_equal fst) in E. cbn [fst] in E. rewrite <-E. eexists. vm_compute. reflexivity. }
  destruct Hd as [requests ->]. exists requests, store'.
  apply (@fetch_precondition_data_spec demo_l1_node demo_digests demo_pot demo_keys key_data demo_precondition_args
    demo_store _ store' E).
Defined.
