(* ===== verification/Deployment.v ===== *)
(** * crates/sync/src/{stall,deployment}.rs and provider/beacon.rs

    Reading the chain: contract calls that are repeated until they succeed,
    the parameters of a deployment, and blobs from the consensus layer. *)

From S2P Require Import Prelude Bytes Config Blobs.

(** The contract functions that the agents read. *)
Inductive Call :=
| ParentGame | KAILUA_TREASURY | GameIndex | ParentGameIndex | Proposer_ | CreatedAt | RootClaim
| L2BlockNumber | L1Head | Signature_ | ResolvedAt | Status | PROPOSAL_BLOBS | PROPOSAL_OUTPUT_COUNT
| ProposalBlobHashes (i : Z) | ChildCount | ValidChildSignature | RISC_ZERO_VERIFIER | FPVM_IMAGE_ID
| ROLLUP_CONFIG_HASH | OUTPUT_BLOCK_SPAN | GAME_TYPE | DISPUTE_GAME_FACTORY | MAX_CLOCK_DURATION
| GENESIS_TIME_STAMP | L2_BLOCK_TIME | LastResolved | EliminationRound (proposer : Z)
| DisputeGameFactory | GameCount | GameImpls (game_type : Z)
| ProofStatus (signature : Z) | ChallengerDuration (time : Z) | Vanguard | VanguardAdvantage
| ParticipationBond | PaidBonds (proposer : Z) | BlobsHash | ProvenAt (signature : Z)
| VerifyIntermediateOutput (position output_fe : Z) (commitment proof : bytes)
| Games (game_type root_claim : Z) (extra_data : bytes)
| OptimismPortal | Owner | InitBonds (game_type : Z) | SELECTOR | Guardian.

(** A blob sidecar of the consensus layer. *)
Record BlobData := { bd_index : Z; bd_blob : bytes; bd_kzg_commitment : bytes }.

(** The nodes the program asks.  [eth_call] is the answer to the attempt that
    succeeds (a pair, type and proxy, for [gameAtIndex]); [pruneChildren] is
    called once and may fail. *)
Class Nodes (S : Type) := {
  eth_call : Z -> Call -> S -> Z * S;
  game_at_index : Z -> Z -> S -> (Z * Z) * S;
  eth_call_prune : Z -> Z -> St S Z;
  beacon_sidecars : Z -> S -> list BlobData * S;
}.

Section deployment.
Context {S : Type} `{Nodes S} `{Kzg}.

(** [stall_with_context]: retries for ever, so that only the answer returns. *)
Definition stall (contract : Z) (c : Call) : St S Z := fun s =>
  let '(v, s) := eth_call contract c s in (Ok v, s).

(** [Uint::to::<u64>()]. *)
Definition to_u64 (v : Z) : outcome Z := if fits 64 v then Ok v else Panic "Overflow".
Definition stall_u64 (contract : Z) (c : Call) : St S Z := v ← stall contract c; lift (to_u64 v).

(** A task that is joined with [?]: its panic is the caller's error.  The tasks
    of a load only read, they are run here in the order of their joins. *)
Definition joined {A} (m : St S A) : St S A := fun s =>
  let '(r, s) := m s in (match r with Panic _ => Err "JoinError" | r => r end, s).

(** ** SyncDeployment *)

Record SyncDeployment := {
  treasury : Z; game : Z; verifier : Z; image_id : Z; cfg_hash : Z; proposal_output_count : Z;
  output_block_span : Z; proposal_blobs : Z; game_type : Z; factory : Z; timeout : Z;
  genesis_time : Z; dep_block_time : Z;
}.

Definition KAILUA_GAME_TYPE : Z := 1337.

Definition deployment_load (config : RollupConfig) (game_impl_address : option Z) : St S SyncDeployment :=
  dgf_address ← stall (l1_system_config_address config) DisputeGameFactory;
  game_count ← stall_u64 dgf_address GameCount;
  latest_game_impl_addr ← stall dgf_address (GameImpls KAILUA_GAME_TYPE);
  let game := default latest_game_impl_addr game_impl_address in
  if game =? 0 then lift (Panic "Fault proof game is not installed!")
  else
    treasury ← stall game KAILUA_TREASURY;
    verifier ← stall game RISC_ZERO_VERIFIER;
    image_id ← stall game FPVM_IMAGE_ID;
    cfg_hash ← stall game ROLLUP_CONFIG_HASH;
    proposal_output_count ← stall game PROPOSAL_OUTPUT_COUNT;
    output_block_span ← stall game OUTPUT_BLOCK_SPAN;
    proposal_blobs ← stall game PROPOSAL_BLOBS;
    game_type ← stall game GAME_TYPE;
    factory ← stall game DISPUTE_GAME_FACTORY;
    timeout ← stall game MAX_CLOCK_DURATION;
    genesis_time ← stall_u64 game GENESIS_TIME_STAMP;
    block_time ← stall_u64 game L2_BLOCK_TIME;
    mret {| treasury := treasury; game := game; verifier := verifier; image_id := image_id;
            cfg_hash := cfg_hash; proposal_output_count := proposal_output_count;
            output_block_span := output_block_span; proposal_blobs := proposal_blobs;
            game_type := game_type `mod` 256; factory := factory; timeout := timeout;
            genesis_time := genesis_time; dep_block_time := block_time |}.

Definition min_proposal_time (d : SyncDeployment) (proposal_block_number : Z) : outcome Z :=
  p ← u64_mul host proposal_block_number (dep_block_time d);
  t ← u64_add host (genesis_time d) p;
  u64_add host t 1.

Definition blocks_per_proposal (d : SyncDeployment) : outcome Z :=
  u64_mul host (proposal_output_count d) (output_block_span d).

(** ** Blobs of the consensus layer *)

Record BlobProvider := { beacon_genesis_time : Z; seconds_per_slot : Z }.

Definition slot (p : BlobProvider) (timestamp : Z) : outcome Z :=
  d ← u64_sub host timestamp (beacon_genesis_time p);
  u64_div d (seconds_per_slot p).

(** The first sidecar whose commitment has the versioned hash. *)
Fixpoint find_blob (blob_hash : Z) (blobs : list BlobData) : outcome BlobData :=
  match blobs with
  | [] => Err "Blob not found in slot"
  | blob :: blobs =>
      if kzg_to_versioned_hash (bd_kzg_commitment blob) =? blob_hash then Ok blob
      else find_blob blob_hash blobs
  end.

Definition get_blob (p : BlobProvider) (timestamp blob_hash : Z) : St S BlobData :=
  slot ← lift (slot p timestamp);
  blobs ← (fun s => let '(bs, s) := beacon_sidecars slot s in (Ok bs, s));
  lift (find_blob blob_hash blobs).

(** alloy's [BlobTransactionSidecar]. *)
Record BlobTransactionSidecar := { sc_blobs : list bytes; sc_commitments : list bytes; sc_proofs : list bytes }.

Definition sidecar_entry (blob : bytes) : outcome (bytes * bytes * bytes) :=
  c_kzg_blob ← blob_from_bytes blob;
  commitment ← expect "Failed to convert blob to commitment" (blob_to_kzg_commitment c_kzg_blob);
  proof ← compute_blob_kzg_proof c_kzg_blob commitment;
  Ok (blob, commitment, proof).

Definition blob_sidecar (blob_data : list bytes) : outcome BlobTransactionSidecar :=
  entries ← omap_m sidecar_entry blob_data;
  Ok {| sc_blobs := (fun e => e.1.1) <$> entries; sc_commitments := (fun e => e.1.2) <$> entries;
        sc_proofs := snd <$> entries |}.
End deployment.

(** ** Lemmas *)

Section lemmas.
Context {S : Type} `{Nodes S} `{Kzg}.

Lemma stall_Ok contract c (s s' : S) v : stall contract c s = (Ok v, s') <-> eth_call contract c s = (v, s').
Proof. unfold stall. destruct (eth_call contract c s). naive_solver. Qed.

(** What the chain answered to a query, at some point. *)
Definition answered (contract : Z) (c : Call) (v : Z) : Prop := exists s : S, (eth_call contract c s).1 = v.

Lemma stall_answered contract c (s s' : S) v : stall contract c s = (Ok v, s') -> answered contract c v.
Proof. intros E%stall_Ok. exists s. by rewrite E. Qed.

Lemma stall_u64_answered contract c (s s' : S) v : stall_u64 contract c s = (Ok v, s') -> answered contract c v.
Proof.
  unfold stall_u64. intros (x & s1 & Hx%stall_answered & Hv)%St_bind_Ok. apply lift_Ok in Hv as [Hv _].
  unfold to_u64 in Hv. destruct (fits 64 x); [|done]. by apply Ok_inj in Hv as <-.
Qed.

Lemma joined_Ok {A} (m : St S A) s a s' : joined m s = (Ok a, s') <-> m s = (Ok a, s').
Proof. unfold joined. destruct (m s) as [[] ?]; naive_solver. Qed.

Lemma to_u64_Ok v r : to_u64 v = Ok r <-> r = v /\ u64 v.
Proof. unfold to_u64. rewrite <-fits_spec. destruct (fits 64 v); naive_solver. Qed.

Lemma find_blob_Ok h blobs b :
  find_blob h blobs = Ok b -> b ∈ blobs /\ kzg_to_versioned_hash (bd_kzg_commitment b) = h.
Proof.
  induction blobs as [|x blobs IH]; cbn; [done|]. destruct (_ =? _) eqn:E; bools.
  - intros [= <-]. split; [left|done].
  - intros [? ?]%IH. split; [by right|done].
Qed.

Lemma get_blob_Ok p ts h (s : S) b s' :
  get_blob p ts h s = (Ok b, s') -> kzg_to_versioned_hash (bd_kzg_commitment b) = h.
Proof.
  unfold get_blob. intros (sl & s1 & _ & Hg)%St_bind_Ok. apply St_bind_Ok in Hg as (bs & s2 & _ & Hg).
  st_inv. by apply find_blob_Ok in Hg as [_ ?].
Qed.

(** A blob is one of those that the consensus layer serves for the slot of the
    timestamp. *)
Definition served_in (p : BlobProvider) (timestamp : Z) (b : BlobData) : Prop :=
  beacon_genesis_time p <= timestamp /\ seconds_per_slot p <> 0 /\ exists s : S,
    b ∈ (beacon_sidecars ((timestamp - beacon_genesis_time p) / seconds_per_slot p) s).1.

Lemma get_blob_served p ts h (s : S) b s' :
  get_blob p ts h s = (Ok b, s') -> served_in p ts b /\ kzg_to_versioned_hash (bd_kzg_commitment b) = h.
Proof.
  intros Hg. split; [|by eapply get_blob_Ok]. revert Hg.
  unfold get_blob. intros (sl & s1 & Hsl & Hg)%St_bind_Ok. apply St_bind_Ok in Hg as (bs & s2 & Hb & Hg).
  apply lift_Ok in Hsl as [Hsl ->]. apply lift_Ok in Hg as [Hg _]. apply find_blob_Ok in Hg as [Hin _].
  unfold slot in Hsl. ok_inv. apply (arith_checked host) in E as [-> Hw]; [|done].
  unfold u64_div in Hsl. destruct (seconds_per_slot p =? 0) eqn:Ez; bools; [done|]. apply Ok_inj in Hsl as <-.
  split; [unfold in_width in Hw; lia|]. split; [done|]. exists s.
  destruct (beacon_sidecars _ s) as [bs' s'']. by simplify_eq.
Qed.

Lemma blob_sidecar_blobs bs sc : blob_sidecar bs = Ok sc -> sc_blobs sc = bs.
Proof.
  unfold blob_sidecar. intros Hs. ok_inv. subst. cbn. apply omap_m_Ok in E.
  induction E as [|b [[b' c] q] bs l Hb _ IH]; [done|]. cbn. rewrite IH.
  unfold sidecar_entry in Hb. ok_inv. by simplify_eq.
Qed.
End lemmas.
