(* ===== verification/Beacon.v ===== *)
(** * crates/sync/src/provider/beacon.rs, [BlobProvider::new]

    The provider of blobs asks the consensus layer once for the parameters of
    its slots, which it reports as decimal strings. *)

From S2P Require Import Prelude Bytes Config RollupSource Blobs Deployment.
From Stdlib Require Import Ascii.
From stdpp Require Import pretty.
Open Scope Z_scope.

(** A query of the consensus layer, repeated until there is an answer in time. *)
Class BeaconNode (S : Type) := { client_get : string -> string -> S -> Value * S }.

(** [str::parse::<u64>]: an optional sign, and then at least one digit. *)
Definition digit (c : ascii) : option Z :=
  let d := Z.of_N (N_of_ascii c) - 48 in if (0 <=? d) && (d <=? 9) then Some d else None.
Fixpoint parse_digits (acc : Z) (s : string) : outcome Z :=
  match s with
  | EmptyString => Ok acc
  | String c s =>
      match digit c with
      | None => Err "invalid digit found in string"
      | Some d =>
          let acc := acc * 10 + d in
          if fits 64 acc then parse_digits acc s else Err "number too large to fit in target type"
      end
  end.
Definition parse_u64 (s : string) : outcome Z :=
  match s with
  | EmptyString => Err "cannot parse integer from empty string"
  | String "+" EmptyString => Err "invalid digit found in string"
  | String "+" s => parse_digits 0 s
  | s => parse_digits 0 s
  end.

(** [trim_end_matches('/')]. *)
Fixpoint trim_end (s : string) : string :=
  match s with
  | EmptyString => EmptyString
  | String c s =>
      match trim_end s with
      | EmptyString => if Ascii.eqb c "/" then EmptyString else String c EmptyString
      | s => String c s
      end
  end.

Section beacon.
Context {S : Type} `{BeaconNode S}.

Definition ask_beacon (endpoint path : string) : St S Value := fun s =>
  let '(v, s) := client_get endpoint path s in (Ok v, s).

(** The endpoint that is kept, and the parameters of the slots. *)
Definition blob_provider_new (cl_node_endpoint : string) : St S (string * BlobProvider) :=
  let cl_node_endpoint := trim_end cl_node_endpoint in
  genesis ← ask_beacon cl_node_endpoint "eth/v1/beacon/genesis";
  genesis_time ← lift (ok_or "genesis time is None" (as_str (get (get genesis "data") "genesis_time")));
  genesis_time ← lift (parse_u64 genesis_time);
  spec ← ask_beacon cl_node_endpoint "eth/v1/config/spec";
  seconds_per_slot ← lift (ok_or "seconds per slot is None" (as_str (get (get spec "data") "SECONDS_PER_SLOT")));
  seconds_per_slot ← lift (parse_u64 seconds_per_slot);
  mret (cl_node_endpoint, {| beacon_genesis_time := genesis_time; seconds_per_slot := seconds_per_slot |}).
End beacon.

(** ** Reading numbers *)

Lemma parse_digits_bound s acc v : u64 acc -> parse_digits acc s = Ok v -> u64 v.
Proof.
  revert acc. induction s as [|c s IH]; intros acc Ha; cbn; [by intros [= <-]|].
  destruct (digit c) as [d|]; [|done]. destruct (fits 64 _) eqn:E; [|done]. apply IH. by apply fits_spec.
Qed.

Lemma parse_u64_bound s v : parse_u64 s = Ok v -> u64 v.
Proof.
  assert (H0 : u64 0) by (unfold in_width; lia).
  unfold parse_u64. destruct s as [|c s]; [done|].
  destruct c as [[] [] [] [] [] [] [] []]; try (by apply parse_digits_bound).
  destruct s; [done|by apply parse_digits_bound].
Qed.

Lemma digit_char x : (x < 10)%N -> digit (pretty_N_char x) = Some (Z.of_N x).
Proof.
  intros Hx. assert (x = 0 \/ x = 1 \/ x = 2 \/ x = 3 \/ x = 4 \/ x = 5 \/ x = 6 \/ x = 7 \/ x = 8 \/ x = 9)%N
    as Hd by lia.
  by repeat destruct Hd as [->|Hd]; [..|subst].
Qed.

Lemma parse_pretty_go x s :
  Z.of_N x < 2 ^ 64 -> parse_digits 0 (pretty_N_go x s) = parse_digits (Z.of_N x) s.
Proof.
  revert s. induction (N.lt_wf_0 x) as [x _ IH]. intros s Hx.
  destruct (decide (x = 0)%N) as [->|Hn]; [by rewrite pretty_N_go_0|].
  rewrite pretty_N_go_step by lia. rewrite IH; [|apply N.div_lt; lia|].
  2:{ pose proof (N.Div0.div_le_upper_bound x 10 x ltac:(lia)). lia. }
  cbn [parse_digits]. rewrite digit_char by (apply N.mod_lt; lia).
  assert (E : Z.of_N (x `div` 10) * 10 + Z.of_N (x `mod` 10) = Z.of_N x).
  { pose proof (N.div_mod x 10 ltac:(lia)). lia. }
  rewrite E. replace (fits 64 (Z.of_N x)) with true; [done|].
  symmetry. apply fits_spec. unfold in_width. lia.
Qed.

Lemma parse_u64_digits s v : s <> EmptyString -> parse_digits 0 s = Ok v -> parse_u64 s = Ok v.
Proof.
  unfold parse_u64. destruct s as [|c s]; [done|]. intros _.
  destruct c as [[] [] [] [] [] [] [] []]; done.
Qed.

(** A number is read back as it is written. *)
Lemma parse_u64_pretty n : u64 (Z.of_N n) -> parse_u64 (pretty n) = Ok (Z.of_N n).
Proof.
  intros [_ Hn]. unfold pretty, pretty_N. destruct (decide (n = 0)%N) as [->|Hz]; [done|].
  pose proof (parse_pretty_go n EmptyString Hn) as E. apply parse_u64_digits; [|exact E].
  intros Hs. rewrite Hs in E. cbn in E. injection E as E. lia.
Qed.

Section beacon_spec.
Context {S : Type} `{BeaconNode S}.

(** The parameters of the slots are machine words, as they were reported. *)
Theorem blob_provider_words endpoint (s s' : S) e p :
  blob_provider_new endpoint s = (Ok (e, p), s') ->
  e = trim_end endpoint /\ u64 (beacon_genesis_time p) /\ u64 (seconds_per_slot p).
Proof.
  unfold blob_provider_new. intros (genesis & s1 & _ & Hr)%St_bind_Ok.
  apply St_bind_Ok in Hr as (gt & ? & [_ ->]%lift_Ok & Hr).
  apply St_bind_Ok in Hr as (g & ? & [Hg%parse_u64_bound ->]%lift_Ok & Hr).
  apply St_bind_Ok in Hr as (spec & s2 & _ & Hr).
  apply St_bind_Ok in Hr as (st & ? & [_ ->]%lift_Ok & Hr).
  apply St_bind_Ok in Hr as (sec & ? & [Hs%parse_u64_bound ->]%lift_Ok & Hr).
  by injection Hr as <- <- _.
Qed.

(** From a consensus layer that reports its parameters as the standard says, the provider is
    made, and it computes slots from the reported times. *)
Theorem blob_provider_made endpoint (s0 s1 s2 : S) genesis spec (g sec : N) :
  client_get (trim_end endpoint) "eth/v1/beacon/genesis" s0 = (genesis, s1) ->
  client_get (trim_end endpoint) "eth/v1/config/spec" s1 = (spec, s2) ->
  get (get genesis "data") "genesis_time" = VString (pretty g) ->
  get (get spec "data") "SECONDS_PER_SLOT" = VString (pretty sec) ->
  u64 (Z.of_N g) -> u64 (Z.of_N sec) ->
  exists p, blob_provider_new endpoint s0 = (Ok (trim_end endpoint, p), s2) /\
    forall t, 0 < Z.of_N sec -> Z.of_N g <= t -> u64 t ->
      slot p t = Ok ((t - Z.of_N g) / Z.of_N sec).
Proof.
  intros Eg Es Hg Hs Wg Ws. eexists. unfold blob_provider_new, ask_beacon, mbind, St_bind, lift.
  rewrite Eg, Hg. cbn [as_str ok_or]. rewrite (parse_u64_pretty g Wg).
  rewrite Es, Hs. cbn [as_str ok_or]. rewrite (parse_u64_pretty sec Ws). split; [reflexivity|].
  intros t Hsec Ht Wt. unfold slot. cbn [beacon_genesis_time seconds_per_slot].
  unfold u64_sub. rewrite arith_fits by (unfold in_width in *; lia). cbn. unfold u64_div.
  destruct (Z.of_N sec =? 0) eqn:E; bools; [lia|done].
Qed.
End beacon_spec.

(** The genesis and the slots of Ethereum. *)
Module BeaconDemo.
Definition data (key value : string) : Value := VObject [("data"%string, VObject [(key, VString value)])].
#[export] Instance node : BeaconNode nat := {|
  client_get := fun _ path n => (if bool_decide (path = "eth/v1/beacon/genesis")
    then data "genesis_time" "1606824023" else data "SECONDS_PER_SLOT" "12", S n) |}.
Definition provider : BlobProvider := {| beacon_genesis_time := 1606824023; seconds_per_slot := 12 |}.
End BeaconDemo.
#[local] Existing Instance BeaconDemo.node.

Example mainnet_slots :
  blob_provider_new "http://beacon//" 0%nat = (Ok ("http://beacon"%string, BeaconDemo.provider), 2%nat) /\
  slot BeaconDemo.provider 1710338135 = Ok 8626176.
Proof. vm_compute. split; reflexivity. Qed.
