(* ===== verification/Proposal.v ===== *)
(** * crates/sync/src/{proposal,fault}.rs

    A proposal as the agents keep it: loaded from its contract and its blobs,
    with a verdict on each of its commitments. *)

From S2P Require Import Prelude Bytes Config Blobs Precondition Deployment.
From stdpp Require Import sorting.
Open Scope Z_scope.

Inductive Fault := Output (index : nat) | Trail (index : nat).

Definition is_trail (f : Fault) : bool := match f with Trail _ => true | Output _ => false end.
Definition is_output (f : Fault) : bool := match f with Output _ => true | Trail _ => false end.
Definition divergence_point (f : Fault) : nat := match f with Output i | Trail i => i end.

Record Proposal := {
  contract : Z; p_treasury : Z; index_ : Z; parent : Z; proposer : Z; created_at : Z;
  io_blobs : list (Z * BlobData); io_field_elements : list Z; trail_field_elements : list Z;
  output_root : Z; output_block_number : Z; l1_head : Z; signature : Z;
  children : gset Z; successor : option Z;
  correct_io : list (option bool); correct_trail : list (option bool);
  correct_claim : option bool; correct_parent : option bool;
  canonical : option bool; resolved_at : Z;
}.

Inductive ProposalSync := SUCCESS (contract l1_head : Z) | DELAYED (block : Z) | IGNORED (contract l1_head : Z).

Definition as_delayed (p : Proposal) : ProposalSync := DELAYED (output_block_number p).
Definition as_ignored (p : Proposal) : ProposalSync := IGNORED (contract p) (l1_head p).
Definition as_success (p : Proposal) : ProposalSync := SUCCESS (contract p) (l1_head p).

(** ** Loading *)

Section load.
Context {S : Type} `{Nodes S} `{Kzg}.

Definition load_treasury (address : Z) : St S Proposal :=
  index ← joined (stall_u64 address GameIndex);
  treasury ← joined (stall address KAILUA_TREASURY);
  created_at ← joined (stall address CreatedAt);
  output_root ← joined (stall address RootClaim);
  output_block_number ← joined (stall_u64 address L2BlockNumber);
  l1_head ← joined (stall address L1Head);
  signature ← joined (stall address Signature_);
  resolved_at ← joined (stall address ResolvedAt);
  mret {| contract := address; p_treasury := treasury; index_ := index; parent := index;
          proposer := address; created_at := created_at; io_blobs := []; io_field_elements := [];
          trail_field_elements := []; output_root := output_root;
          output_block_number := output_block_number; l1_head := l1_head; signature := signature;
          children := ∅; successor := None; correct_io := []; correct_trail := [];
          correct_claim := Some true; correct_parent := Some true; canonical := None;
          resolved_at := resolved_at |}.

(** What the loop over the blobs of a game accumulates. *)
Record IoData := { blobs_ : list (Z * BlobData); io_ : list Z; trail_ : list Z }.

(** [proposal_output_count - (io_field_elements.len() as u64) - 1]. *)
Definition io_remaining (proposal_output_count : Z) (d : IoData) : outcome Z :=
  r ← u64_sub host proposal_output_count (Z.of_nat (length (io_ d)));
  u64_sub host r 1.

Definition add_blob (proposal_output_count : Z) (hash : Z) (blob_data : BlobData) (d : IoData)
    : outcome IoData :=
  remaining ← io_remaining proposal_output_count d;
  let io_in_blob := Z.to_nat (Z.min remaining FIELD_ELEMENTS_PER_BLOB) in
  io ← intermediate_outputs (bd_blob blob_data) io_in_blob;
  trail ← trail_data (bd_blob blob_data) io_in_blob;
  Ok {| blobs_ := blobs_ d ++ [(hash, blob_data)]; io_ := io_ d ++ io; trail_ := trail_ d ++ trail |}.

Fixpoint load_blobs (da : BlobProvider) (address created_at proposal_output_count : Z)
    (proposal_blobs : nat) (d : IoData) : St S IoData :=
  match proposal_blobs with
  | O => mret d
  | Datatypes.S n =>
      blob_kzg_hash ← stall address (ProposalBlobHashes (Z.of_nat (length (blobs_ d))));
      blob_data ← get_blob da created_at blob_kzg_hash;
      d ← lift (add_blob proposal_output_count blob_kzg_hash blob_data d);
      load_blobs da address created_at proposal_output_count n d
  end.

Definition load_game (da : BlobProvider) (address : Z) : St S Proposal :=
  created_at ← joined (stall address CreatedAt);
  proposal_blobs ← joined (stall address PROPOSAL_BLOBS);
  proposal_output_count ← joined (stall address PROPOSAL_OUTPUT_COUNT);
  d ← load_blobs da address created_at proposal_output_count (Z.to_nat proposal_blobs)
        {| blobs_ := []; io_ := []; trail_ := [] |};
  treasury ← joined (stall address KAILUA_TREASURY);
  index ← joined (stall_u64 address GameIndex);
  parent ← joined (stall address ParentGameIndex);
  proposer ← joined (stall address Proposer_);
  output_root ← joined (stall address RootClaim);
  output_block_number ← joined (stall_u64 address L2BlockNumber);
  l1_head ← joined (stall address L1Head);
  signature ← joined (stall address Signature_);
  outputs ← lift (u64_sub host proposal_output_count 1);
  resolved_at ← joined (stall address ResolvedAt);
  mret {| contract := address; p_treasury := treasury; index_ := index; parent := parent;
          proposer := proposer; created_at := created_at; io_blobs := blobs_ d;
          io_field_elements := io_ d; trail_field_elements := trail_ d;
          output_root := output_root; output_block_number := output_block_number;
          l1_head := l1_head; signature := signature; children := ∅; successor := None;
          correct_io := replicate (Z.to_nat outputs) None;
          correct_trail := replicate (length (trail_ d)) None;
          correct_claim := None; correct_parent := None; canonical := None;
          resolved_at := resolved_at |}.

Definition load (da : BlobProvider) (address : Z) : St S Proposal :=
  parent_address ← stall address ParentGame;
  if parent_address =? address then load_treasury address else load_game da address.
End load.

(** ** Verdicts *)

Definition is_false (c : option bool) : bool := bool_decide (c = Some false).
Definition is_none (c : option bool) : bool := bool_decide (c = None).

Definition is_correct (p : Proposal) : option bool :=
  if is_false (correct_parent p) then Some false
  else if is_false (correct_claim p) then Some false
  else if existsb is_false (correct_io p) then Some false
  else if existsb is_false (correct_trail p) then Some false
  else if is_none (correct_parent p) || is_none (correct_claim p)
       || existsb is_none (correct_io p) || existsb is_none (correct_trail p) then None
  else Some true.

(** The first position with a false verdict. *)
Definition first_false (l : list (option bool)) : option nat :=
  fst <$> list_find (fun c => c = Some false) l.

Definition fault (p : Proposal) : option Fault :=
  match first_false (correct_trail p) with
  | Some i => Some (Trail (length (io_field_elements p) + i + 1))
  | None =>
      match first_false (correct_io p) with
      | Some i => Some (Output i)
      | None =>
          if is_false (correct_claim p) then Some (Output (length (io_field_elements p))) else None
      end
  end.

(** ** Pointers *)

Definition has_parent (p : Proposal) : bool := negb (index_ p =? parent p).

Definition set_children (c : gset Z) (p : Proposal) : Proposal :=
  {| contract := contract p; p_treasury := p_treasury p; index_ := index_ p; parent := parent p;
     proposer := proposer p; created_at := created_at p; io_blobs := io_blobs p;
     io_field_elements := io_field_elements p; trail_field_elements := trail_field_elements p;
     output_root := output_root p; output_block_number := output_block_number p;
     l1_head := l1_head p; signature := signature p; children := c; successor := successor p;
     correct_io := correct_io p; correct_trail := correct_trail p; correct_claim := correct_claim p;
     correct_parent := correct_parent p; canonical := canonical p; resolved_at := resolved_at p |}.

Definition append_child (child_index : Z) (p : Proposal) : Proposal * bool :=
  (set_children ({[child_index]} ∪ children p) p, negb (bool_decide (child_index ∈ children p))).

(** The children in the order of the [BTreeSet]. *)
Definition children_list (p : Proposal) : list Z := merge_sort Z.le (elements (children p)).

Definition child_index (p : Proposal) (proposal_index : Z) : option nat :=
  fst <$> list_find (fun idx => idx = proposal_index) (children_list p).

Definition requires_vanguard_advantage (p : Proposal) (proposer vanguard : Z) : bool :=
  if (vanguard =? 0) || (vanguard =? proposer) then false else bool_decide (children p = ∅).

(** ** Field elements *)

Section field_elements.
Context `{Kzg}.

Definition io_blob_for (p : Proposal) (position : Z) : outcome (Z * BlobData) :=
  index (io_blobs p) (Z.to_nat (position / FIELD_ELEMENTS_PER_BLOB)).

Definition io_commitment_for (p : Proposal) (position : Z) : outcome bytes :=
  blob ← io_blob_for p position; Ok (bd_kzg_commitment (snd blob)).

Definition io_proof_for (p : Proposal) (position : Z) : outcome bytes :=
  io_blob ← io_blob_for p position;
  '(proof, _) ← blob_fe_proof (bd_blob (snd io_blob)) (position `mod` FIELD_ELEMENTS_PER_BLOB);
  Ok proof.

Definition output_fe_at (p : Proposal) (position : Z) : outcome Z :=
  let io_count := Z.of_nat (length (io_field_elements p)) in
  if position <? io_count then index (io_field_elements p) (Z.to_nat position)
  else if position =? io_count then Ok (hash_to_fe (output_root p))
  else index (trail_field_elements p) (Z.to_nat (position - io_count - 1)).

(** [Blob::right_padding_from]. *)
Definition BLOB_BYTES : nat := Z.to_nat (32 * FIELD_ELEMENTS_PER_BLOB).
Definition right_padding_from (b : bytes) : bytes := b ++ zeros (BLOB_BYTES - length b).

(** The loop of [create_sidecar]; a round consumes at least one element. *)
Fixpoint sidecar_blobs (fuel : nat) (io_field_elements : list Z) (io_blobs : list bytes) : list bytes :=
  match fuel with
  | O => io_blobs
  | Datatypes.S fuel =>
      let start := (length io_blobs * Z.to_nat FIELD_ELEMENTS_PER_BLOB)%nat in
      if (length io_field_elements <=? start)%nat then io_blobs
      else
        let last := Nat.min (start + Z.to_nat FIELD_ELEMENTS_PER_BLOB) (length io_field_elements) in
        let io_bytes := concat (be_bytes 32 <$> take (last - start) (drop start io_field_elements)) in
        sidecar_blobs fuel io_field_elements (io_blobs ++ [right_padding_from io_bytes])
  end.

Definition create_sidecar (io_field_elements : list Z) : outcome BlobTransactionSidecar :=
  blob_sidecar (sidecar_blobs (length io_field_elements) io_field_elements []).
End field_elements.

Definition proposal_blobs_hash `{Digests} (p : Proposal) : Z := blobs_hash (fst <$> io_blobs p).

(** ** Resolution *)

Definition parse_finality (game_status : Z) : outcome (option bool) :=
  if game_status =? 0 then Ok None
  else if game_status =? 1 then Ok (Some false)
  else if game_status =? 2 then Ok (Some true)
  else Err "Invalid game status".

Section resolution.
Context {S : Type} `{Nodes S}.

Definition fetch_parent_tournament_survivor (p : Proposal) : St S (option Z) :=
  if negb (has_parent p) then mret (Some (contract p))
  else
    parent_tournament ← stall (contract p) ParentGame;
    children ← stall parent_tournament ChildCount;
    survivor ← eth_call_prune parent_tournament (children * 2 `mod` 2 ^ 256);
    mret (if survivor =? 0 then None else Some survivor).

Definition fetch_parent_tournament_survivor_status (p : Proposal) : St S (option bool) :=
  survivor ← fetch_parent_tournament_survivor p;
  mret ((fun survivor => survivor =? contract p) <$> survivor).

Definition fetch_finality (p : Proposal) : St S (option bool) :=
  status ← stall (contract p) Status; lift (parse_finality status).

Definition fetch_resolved_at (p : Proposal) : St S Z := stall (contract p) ResolvedAt.

Definition fetch_is_successor_validity_proven (p : Proposal) : St S bool :=
  signature ← stall (contract p) ValidChildSignature; mret (negb (signature =? 0)).
End resolution.

(** ** Lemmas: the field elements of a game *)

Abbreviation FE := (Z.to_nat FIELD_ELEMENTS_PER_BLOB).

(** A blob and all its field elements. *)
Definition holds_fes (blob : bytes) (fes : list Z) : Prop := field_elements blob (seq 0 FE) = Ok fes.

Lemma FE_Z : Z.of_nat FE = 4096.
Proof. reflexivity. Qed.

Lemma field_elements_length blob l fes : field_elements blob l = Ok fes -> length fes = length l.
Proof. intros H%omap_m_Ok. symmetry. by eapply Forall2_length. Qed.

Lemma holds_fes_length blob fes : holds_fes blob fes -> length fes = FE.
Proof. unfold holds_fes. generalize FE as n. intros n H%field_elements_length. by rewrite length_seq in H. Qed.

Lemma holds_fes_lookup blob fes i v :
  holds_fes blob fes -> fes !! i = Some v -> field_element blob i = Ok v.
Proof.
  unfold holds_fes, field_elements. generalize FE as n. intros n H%omap_m_Ok Hi.
  destruct (Forall2_lookup_r _ _ _ _ _ H Hi) as (j & Hj & Hv). by apply lookup_seq in Hj as [-> _].
Qed.

Lemma field_elements_app blob l k fl fk :
  field_elements blob l = Ok fl -> field_elements blob k = Ok fk ->
  field_elements blob (l ++ k) = Ok (fl ++ fk).
Proof. unfold field_elements. intros H1 H2. by rewrite omap_m_app, H1, H2. Qed.

(** The two halves into which the loop splits a blob. *)
Lemma split_blob blob k io trail :
  (k ≤ FE)%nat -> intermediate_outputs blob k = Ok io -> trail_data blob k = Ok trail ->
  holds_fes blob (io ++ trail) /\ length io = k.
Proof.
  unfold holds_fes, intermediate_outputs, trail_data. generalize FE as n. intros n Hk Hio Htr. split.
  - replace n with (k + (n - k))%nat by lia. rewrite seq_app. by apply field_elements_app.
  - apply field_elements_length in Hio. by rewrite length_seq in Hio.
Qed.

Lemma split_blob_inv blob k fes :
  (k ≤ FE)%nat -> holds_fes blob fes ->
  intermediate_outputs blob k = Ok (take k fes) /\ trail_data blob k = Ok (drop k fes).
Proof.
  unfold holds_fes, intermediate_outputs, trail_data. generalize FE as n. intros n Hk Hf.
  revert Hf. replace n with (k + (n - k))%nat at 1 by lia. rewrite seq_app. cbn [Nat.add].
  unfold field_elements. rewrite omap_m_app. intros Hf. ok_inv.
  apply (field_elements_length blob) in E as El. rewrite length_seq in El.
  by rewrite take_app_length', drop_app_length' by done.
Qed.

(** The loop invariant: the blobs' elements are the outputs followed by the
    trail, which starts once all outputs are read. *)
Definition io_inv `{Kzg} (count : Z) (d : IoData) : Prop :=
  Forall (fun b => kzg_to_versioned_hash (bd_kzg_commitment (snd b)) = fst b) (blobs_ d) /\
  exists fes, Forall2 (fun b f => holds_fes (bd_blob (snd b)) f) (blobs_ d) fes /\
    concat fes = io_ d ++ trail_ d /\
    Z.of_nat (length (io_ d)) = Z.min (Z.max 0 (count - 1)) (4096 * Z.of_nat (length (blobs_ d))) /\
    (trail_ d = [] \/ Z.of_nat (length (io_ d)) = count - 1).

Lemma io_inv_init `{Kzg} count : io_inv count {| blobs_ := []; io_ := []; trail_ := [] |}.
Proof. split; [constructor|]. exists []. cbn. split_and!; [constructor|done|lia|by left]. Qed.

Lemma io_remaining_Ok count d r :
  io_remaining count d = Ok r -> r = count - Z.of_nat (length (io_ d)) - 1 /\ 0 <= r.
Proof.
  unfold io_remaining, u64_sub. intros H. ok_inv.
  apply (arith_checked host) in E as [-> ?], H as [-> ?]; [|done..]. unfold in_width in *. lia.
Qed.

Lemma add_blob_inv `{Kzg} count h b d d' :
  io_inv count d -> kzg_to_versioned_hash (bd_kzg_commitment b) = h ->
  add_blob count h b d = Ok d' -> io_inv count d'.
Proof.
  intros (Hh & fes & Hf & Hc & Hl & Ht) Hb Ha. unfold add_blob in Ha. ok_inv.
  apply io_remaining_Ok in E as [-> Hr]. cbn [blobs_ io_ trail_].
  assert (Hk : (Z.to_nat (Z.min (count - Z.of_nat (length (io_ d)) - 1) FIELD_ELEMENTS_PER_BLOB) ≤ FE)%nat) by lia.
  destruct (split_blob _ _ _ _ Hk E0 E1) as [Hs Hlen].
  assert (FIELD_ELEMENTS_PER_BLOB = 4096) as EF by reflexivity.
  assert (length (x0 ++ x1) = FE) as Hall by (by eapply holds_fes_length). rewrite length_app in Hall.
  split; [apply Forall_app_2; [done|by repeat constructor]|].
  exists (fes ++ [x0 ++ x1]). cbn [blobs_ io_ trail_]. rewrite concat_app. cbn [concat]. rewrite app_nil_r.
  split_and!.
  - apply Forall2_app; [done|]. by repeat constructor.
  - rewrite Hc. destruct Ht as [->|Ht]; [by rewrite !app_nil_r, <-!app_assoc|].
    rewrite Ht in Hlen. replace (count - (count - 1) - 1) with 0 in Hlen by lia.
    cbn in Hlen. apply nil_length_inv in Hlen as ->. by rewrite app_nil_r, <-app_assoc.
  - rewrite !length_app, !Nat2Z.inj_add. cbn [length]. pose proof FE_Z. lia.
  - rewrite length_app, Nat2Z.inj_add. pose proof FE_Z.
    destruct (decide (FIELD_ELEMENTS_PER_BLOB <= count - Z.of_nat (length (io_ d)) - 1)) as [Hle|Hlt]; [|right; lia].
    destruct Ht as [->|Ht]; [left|lia]. assert (length x1 = 0)%nat as ->%nil_length_inv by lia. done.
Qed.

Lemma load_blobs_inv {S} `{Nodes S} `{Kzg} da address created count n d (s : S) d' s' :
  io_inv count d -> load_blobs da address created count n d s = (Ok d', s') ->
  io_inv count d' /\ length (blobs_ d') = (length (blobs_ d) + n)%nat.
Proof.
  revert d s. induction n as [|n IH]; intros d s Hd Hl; cbn [load_blobs] in Hl.
  - st_inv. split; [done|lia].
  - st_inv. apply get_blob_Ok in E0. pose proof (add_blob_inv _ _ _ _ _ Hd E0 E1) as Hd'.
    apply IH in Hl as [? Hlen]; [|done]. split; [done|].
    unfold add_blob in E1. ok_inv. subst. cbn [blobs_] in Hlen. rewrite length_app in Hlen. cbn in Hlen. lia.
Qed.

(** Each blob was asked for by the hash that the contract answers for its place. *)
Lemma load_blobs_recorded {S} `{Nodes S} `{Kzg} da address created count n d (s : S) d' s' k h b :
  load_blobs da address created count n d s = (Ok d', s') -> (length (blobs_ d) ≤ k)%nat ->
  blobs_ d' !! k = Some (h, b) ->
  answered (S := S) address (ProposalBlobHashes (Z.of_nat k)) h /\ served_in (S := S) da created b /\
  kzg_to_versioned_hash (bd_kzg_commitment b) = h.
Proof.
  revert d s. induction n as [|n IH]; intros d s Hl Hk Hb; cbn [load_blobs] in Hl.
  - st_inv. apply lookup_lt_Some in Hb. lia.
  - apply St_bind_Ok in Hl as (h0 & s1 & Hh%stall_answered & Hl).
    apply St_bind_Ok in Hl as (b0 & s2 & [Hserved Hv]%get_blob_served & Hl).
    apply St_bind_Ok in Hl as (d1 & s3 & [Ha ->]%lift_Ok & Hl).
    assert (Hd1 : blobs_ d1 = blobs_ d ++ [(h0, b0)]) by (unfold add_blob in Ha; ok_inv; by subst).
    destruct (decide (k = length (blobs_ d))) as [->|Hne].
    + assert (Hpre : forall n d s, load_blobs da address created count n d s = (Ok d', s') ->
        exists more, blobs_ d' = blobs_ d ++ more).
      { clear. induction n as [|n IH]; intros d s Hl; cbn [load_blobs] in Hl.
        - st_inv. exists []. by rewrite app_nil_r.
        - st_inv. apply IH in Hl as [more ->]. unfold add_blob in E1. ok_inv. subst. cbn [blobs_].
          eexists. by rewrite <-app_assoc. }
      destruct (Hpre _ _ _ Hl) as [more Hm]. rewrite Hm, Hd1, <-app_assoc, lookup_app_r, Nat.sub_diag in Hb by lia.
      cbn in Hb. by simplify_eq.
    + eapply IH; [exact Hl| |done]. rewrite Hd1, length_app. cbn. lia.
Qed.

Lemma concat_fes_lookup (bs : list (Z * BlobData)) fes n v :
  Forall2 (fun b f => holds_fes (bd_blob (snd b)) f) bs fes -> concat fes !! n = Some v ->
  exists b, bs !! (n / FE)%nat = Some b /\ field_element (bd_blob (snd b)) (n `mod` FE)%nat = Ok v.
Proof.
  assert (FE <> 0)%nat as HF by (pose proof FE_Z; lia).
  intros Hf. revert n. induction Hf as [|b f bs fes Hb _ IH]; intros n Hn; [done|]. cbn in Hn.
  pose proof (holds_fes_length _ _ Hb) as Hlen.
  apply lookup_app_Some in Hn as [Hn|[Hge Hn]].
  - pose proof (lookup_lt_Some _ _ _ Hn). exists b.
    rewrite Nat.div_small, Nat.mod_small by lia. split; [done|]. by eapply holds_fes_lookup.
  - apply IH in Hn as (b' & Hl & Hv). exists b'. rewrite Hlen in Hl, Hv.
    replace n with (n - FE + 1 * FE)%nat by lia.
    rewrite Nat.div_add, Nat.Div0.mod_add by done. by rewrite Nat.add_1_r.
Qed.

Lemma index_Ok {A} (l : list A) i v : index l i = Ok v <-> l !! i = Some v.
Proof. apply unwrap_Ok. Qed.

(** The value at a place of the blobs: the 32 bytes there, in big-endian order,
    which are below the modulus. *)
Definition element_at (bs : list (Z * BlobData)) (n : nat) (v : Z) : Prop :=
  exists h b, bs !! (n / FE)%nat = Some (h, b) /\ (32 * (n `mod` FE) + 32 ≤ length (bd_blob b))%nat /\
    v = from_be_bytes (take 32 (drop (32 * (n `mod` FE)) (bd_blob b))) /\ v < BLS_MODULUS.

Lemma concat_fes_element bs fes n v :
  Forall2 (fun b f => holds_fes (bd_blob (snd b)) f) bs fes -> concat fes !! n = Some v -> element_at bs n v.
Proof.
  intros Hf Hn. destruct (concat_fes_lookup _ _ _ _ Hf Hn) as ([h b] & Hb & Hv). exists h, b. split; [done|].
  rewrite field_element_spec in Hv. cbn [snd] in Hv. case_bool_decide; [|done].
  destruct (_ <? _) eqn:E in Hv; [|done]. apply Ok_inj in Hv as <-. bools. by split_and!.
Qed.

(** The commitments in order: the intermediate outputs, the claim, the trail. *)
Definition committed_elements (p : Proposal) : list Z :=
  io_field_elements p ++ (output_root p `mod` BLS_MODULUS) :: trail_field_elements p.

Lemma output_fe_at_Ok `{Kzg} p position v :
  0 <= position -> output_fe_at p position = Ok v -> committed_elements p !! Z.to_nat position = Some v.
Proof.
  intros Hp. unfold output_fe_at, committed_elements. destruct (position <? _) eqn:E1; bools.
  { rewrite index_Ok. intros Hv. by apply lookup_app_l_Some. }
  rewrite lookup_app_r by lia. destruct (position =? _) eqn:E2; bools.
  { intros <-%Ok_inj. replace (_ - _)%nat with 0%nat by lia. done. }
  rewrite index_Ok. intros <-. rewrite (lookup_cons_ne_0 _ _ (_ - _)%nat) by lia. f_equal. lia.
Qed.

(** What a loaded game holds of its blobs. *)
Definition game_inv `{Kzg} (p : Proposal) : Prop :=
  io_inv (Z.of_nat (length (correct_io p)) + 1)
    {| blobs_ := io_blobs p; io_ := io_field_elements p; trail_ := trail_field_elements p |} /\
  length (correct_trail p) = length (trail_field_elements p).

Lemma load_game_inv {S} `{Nodes S} `{Kzg} da address (s : S) p s' :
  load_game da address s = (Ok p, s') ->
  game_inv p /\ is_none (correct_claim p) = true /\ is_none (correct_parent p) = true /\
  Forall (fun c => c = None) (correct_io p ++ correct_trail p).
Proof.
  unfold load_game. intros Hl. st_inv.
  match goal with X : load_blobs _ _ _ _ _ _ _ = _ |- _ =>
    destruct (load_blobs_inv _ _ _ _ _ _ _ _ _ (io_inv_init _) X) as [Hinv _] end.
  match goal with X : u64_sub host _ 1 = Ok _ |- _ => apply (arith_checked host) in X as [-> [? _]]; [|done] end.
  unfold game_inv. cbn [correct_io correct_trail correct_claim correct_parent io_blobs io_field_elements
    trail_field_elements]. rewrite !length_replicate, Z2Nat.id by lia.
  replace (x1 - 1 + 1) with x1 by lia. destruct x2. split_and!; [done|done|done|done|].
  by apply Forall_app_2; apply Forall_replicate.
Qed.

(** The element of the blobs at a position past which the claim is skipped. *)
Definition blob_position (p : Proposal) (position : Z) : Z :=
  if position <? Z.of_nat (length (io_field_elements p)) then position else position - 1.

Lemma output_fe_at_blob `{Kzg} p position v :
  game_inv p -> 0 <= position -> position <> Z.of_nat (length (io_field_elements p)) ->
  output_fe_at p position = Ok v ->
  exists h b, io_blob_for p (blob_position p position) = Ok (h, b) /\
    kzg_to_versioned_hash (bd_kzg_commitment b) = h /\
    field_element (bd_blob b) (Z.to_nat (blob_position p position `mod` FIELD_ELEMENTS_PER_BLOB)) = Ok v.
Proof.
  intros [(Hh & fes & Hf & Hc & _) _] Hpos Hne Ho. cbn [blobs_ io_ trail_] in *.
  assert (Hl : concat fes !! Z.to_nat (blob_position p position) = Some v).
  { unfold output_fe_at, blob_position in *. rewrite Hc.
    destruct (position <? _) eqn:E; bools.
    - apply index_Ok in Ho. by apply lookup_app_l_Some.
    - rewrite (proj2 (Z.eqb_neq _ _) Hne) in Ho. apply index_Ok in Ho.
      rewrite lookup_app_r by lia. rewrite <-Ho. f_equal. lia. }
  destruct (concat_fes_lookup _ _ _ _ Hf Hl) as ([h b] & Hb & Hv).
  assert (Hq : 0 <= blob_position p position) by (unfold blob_position; destruct (_ <? _) eqn:E; bools; lia).
  exists h, b. unfold io_blob_for. rewrite index_Ok, Z2Nat.inj_div, Z2Nat.inj_mod by done.
  split_and!; [done| |done].
  rewrite List.Forall_forall in Hh. apply (Hh (h, b)). apply list_elem_of_In. by eapply list_elem_of_lookup_2.
Qed.

(** ** Lemmas: publishing *)

Lemma blob_of_app f g : blob_of (f ++ g) = blob_of f ++ blob_of g.
Proof. unfold blob_of. by rewrite fmap_app, concat_app. Qed.

Lemma blob_of_zeros n : blob_of (replicate n 0) = zeros (32 * n).
Proof.
  assert (be_bytes 32 0 = zeros 32) as Hz by (vm_compute; reflexivity).
  induction n as [|n IH]; [done|].
  change (blob_of (replicate (S n) 0)) with (be_bytes 32 0 ++ blob_of (replicate n 0)).
  rewrite IH, Hz. unfold zeros. rewrite <-replicate_add. f_equal. lia.
Qed.

Lemma right_padding_blob_of f :
  (length f ≤ FE)%nat -> right_padding_from (blob_of f) = blob_of (f ++ replicate (FE - length f) 0).
Proof.
  intros Hl. unfold right_padding_from. rewrite blob_of_app, blob_of_zeros, length_blob_of. do 2 f_equal.
  unfold BLOB_BYTES. rewrite Z2Nat.inj_mul by done. change (Z.to_nat 32) with 32%nat. lia.
Qed.

(** The blobs hold the elements from [start] on, padded to whole blobs. *)
Lemma sidecar_blobs_spec fuel fes acc :
  (length fes ≤ fuel + length acc * FE)%nat ->
  exists fs n, sidecar_blobs fuel fes acc = acc ++ (blob_of <$> fs) /\
    Forall (fun f => length f = FE) fs /\ (n < FE)%nat /\
    concat fs = drop (length acc * FE) fes ++ replicate n 0.
Proof.
  assert (0 < FE)%nat as HF by (pose proof FE_Z; lia).
  revert acc. induction fuel as [|fuel IH]; intros acc Hfuel; cbn [sidecar_blobs].
  { exists [], 0%nat. cbn [fmap list_fmap]. rewrite drop_ge, app_nil_r by lia. by split_and!. }
  destruct (_ <=? _)%nat eqn:E.
  { apply Nat.leb_le in E. exists [], 0%nat. cbn [fmap list_fmap]. rewrite drop_ge, app_nil_r by lia. by split_and!. }
  apply Nat.leb_gt in E. set (start := (length acc * FE)%nat) in *.
  set (last := Nat.min (start + FE) (length fes)). set (f := take (last - start) (drop start fes)).
  assert (length f = last - start)%nat as Hlf by (unfold f; rewrite length_take, length_drop; lia).
  change (concat (be_bytes 32 <$> f)) with (blob_of f). rewrite right_padding_blob_of by lia.
  destruct (IH (acc ++ [blob_of (f ++ replicate (FE - length f) 0)])) as (fs & n & Hr & Hfs & Hn & Hc).
  { rewrite length_app. cbn [length]. lia. }
  rewrite length_app in Hc. cbn [length] in Hc.
  destruct (decide (start + FE <= length fes)%nat) as [Hle|Hgt].
  - exists (f :: fs), n.
    assert (f ++ replicate (FE - length f) 0 = f) as Hpad
      by (replace (FE - length f)%nat with 0%nat by lia; apply app_nil_r).
    rewrite Hpad in Hr |- *.
    split_and!; [by rewrite Hr, <-app_assoc|constructor; [lia|done]|done|].
    cbn [concat]. rewrite Hc. unfold f. replace (last - start)%nat with FE by lia.
    replace ((length acc + 1) * FE)%nat with (start + FE)%nat by lia.
    by rewrite <-drop_drop, app_assoc, take_drop.
  - exists ((f ++ replicate (FE - length f) 0) :: fs), (FE - length f + n)%nat.
    assert (drop ((length acc + 1) * FE) fes = []) as Hd by (apply drop_ge; lia).
    rewrite Hd in Hc. cbn [app] in Hc.
    assert (fs = []) as ->.
    { destruct fs as [|g fs]; [done|]. apply Forall_cons_iff in Hfs as [Hg _].
      apply (f_equal length) in Hc. cbn [concat] in Hc. rewrite length_app, length_replicate in Hc. lia. }
    cbn in Hc. assert (n = 0)%nat as -> by (destruct n; [done|discriminate Hc]).
    split_and!; [by rewrite Hr, <-app_assoc|constructor; [rewrite length_app, length_replicate; lia|done]|lia|].
    cbn [concat]. rewrite app_nil_r, Nat.add_0_r. f_equal. unfold f. apply take_ge. rewrite length_drop. lia.
Qed.

Lemma sidecar_elements `{Kzg} fes sc :
  Forall (fun x => 0 <= x < BLS_MODULUS) fes -> create_sidecar fes = Ok sc ->
  exists fs n, Forall2 holds_fes (sc_blobs sc) fs /\ (n < FE)%nat /\ concat fs = fes ++ replicate n 0.
Proof.
  intros Hr Hs. apply blob_sidecar_blobs in Hs. rewrite Hs.
  destruct (sidecar_blobs_spec (length fes) fes []) as (fs & n & -> & Hl & Hn & Hc); [cbn; lia|].
  cbn in Hc. rewrite drop_0 in Hc. exists fs, n. split_and!; [|done|done].
  assert (Hb : Forall (fun f => Forall (fun x => 0 <= x < BLS_MODULUS) f) fs).
  { assert (Hz : Forall (fun x => 0 <= x < BLS_MODULUS) (concat fs)).
    { rewrite Hc. apply Forall_app_2; [done|]. by apply Forall_replicate. }
    clear -Hz. induction fs as [|f fs IH]; [constructor|]. cbn in Hz. apply Forall_app in Hz as [? ?].
    constructor; auto. }
  clear Hc Hs. cbn [app]. induction fs as [|f fs IH]; [constructor|].
  apply Forall_cons_iff in Hl as [Hlf Hl], Hb as [Hbf Hb]. cbn [fmap list_fmap]. constructor; [|by apply IH].
  unfold holds_fes. rewrite field_elements_blob_of by (done || lia).
  by rewrite drop_0, take_ge by lia.
Qed.

Lemma holds_fes_all (bs : list bytes) f1 f2 :
  Forall2 holds_fes bs f1 -> Forall2 holds_fes bs f2 -> f1 = f2.
Proof.
  intros H1. revert f2. induction H1 as [|b f bs f1 Hb _ IH]; intros f2 H2; inversion H2 as [|? f' ? ? Hb']; [done|].
  subst. unfold holds_fes in *. rewrite Hb in Hb'. apply Ok_inj in Hb' as <-. f_equal. auto.
Qed.

Lemma concat_length_FE bs fes : Forall2 holds_fes bs fes -> length (concat fes) = (length bs * FE)%nat.
Proof.
  induction 1 as [|b f bs fes Hb _ IH]; [done|]. cbn [concat length]. rewrite length_app, IH.
  apply holds_fes_length in Hb. lia.
Qed.

(** ** Lemmas: openings and children *)

(** A position of the blobs with the commitment there, and an opening. *)
Definition opens_position `{Kzg} (p : Proposal) (position : Z) (commitment proof : bytes) : Prop :=
  exists h b, io_blobs p !! Z.to_nat (position / 4096) = Some (h, b) /\ commitment = bd_kzg_commitment b /\
    opened_at (bd_blob b) (position `mod` 4096) proof.

Lemma io_proof_for_Ok `{Kzg} p position c w :
  io_commitment_for p position = Ok c -> io_proof_for p position = Ok w -> opens_position p position c w.
Proof.
  unfold io_commitment_for, io_proof_for, io_blob_for. intros Hc Hw. ok_inv. destruct x0 as [w' value]. ok_inv.
  assert (x1 = x) as -> by congruence. apply index_Ok in E. destruct x as [h b]. exists h, b.
  split; [exact E|]. split; [done|]. apply blob_fe_proof_opened; [by apply Z.mod_pos_bound|]. by exists value.
Qed.

Lemma io_proof_for_Err `{Kzg} p position c e :
  io_commitment_for p position = Ok c -> io_proof_for p position = Err e ->
  exists h b, io_blobs p !! Z.to_nat (position / 4096) = Some (h, b) /\ c = bd_kzg_commitment b /\
    ~ exists w, opened_at (bd_blob b) (position `mod` 4096) w.
Proof.
  unfold io_commitment_for, io_proof_for, io_blob_for. intros Hc Hw.
  change FIELD_ELEMENTS_PER_BLOB with 4096 in *.
  destruct (index (io_blobs p) _) as [[h b]|?|?] eqn:E; [|done..]. cbn in *.
  exists h, b. split; [by apply index_Ok|]. split; [by apply Ok_inj in Hc as <-|]. intros [w Ho].
  apply blob_fe_proof_opened in Ho as [value Hv]; [|by apply Z.mod_pos_bound]. by rewrite Hv in Hw.
Qed.

(** In a sorted list without duplicates the smaller elements come before. *)
Lemma sorted_filter_lt (l : list Z) k x :
  StronglySorted Z.le l -> base.NoDup l -> l !! k = Some x -> length (filter (fun c => c < x) l) = k.
Proof.
  intros Hs. revert k. induction Hs as [|y l _ IH Hy]; intros k Hn Hk; [done|].
  apply list.NoDup_cons in Hn as [Hin Hn]. rewrite list.Forall_forall in Hy. destruct k as [|k]; cbn in Hk.
  - injection Hk as ->. rewrite filter_cons_False by lia.
    assert (Hf : filter (fun c => c < x) l = []); [|by rewrite Hf].
    destruct (filter (fun c => c < x) l) as [|c t] eqn:Ef; [done|].
    assert (Hc : c ∈ filter (fun c => c < x) l) by (rewrite Ef; left).
    apply list_elem_of_filter in Hc as [? Hl]. specialize (Hy c Hl). lia.
  - assert (y < x).
    { apply list_elem_of_lookup_2 in Hk. specialize (Hy x Hk). destruct (decide (y = x)); [congruence|lia]. }
    rewrite filter_cons_True by done. cbn. f_equal. by apply IH.
Qed.

(** The place of a child is the number of children with smaller indices. *)
Lemma child_index_Some p i ci :
  child_index p i = Some ci -> i ∈ children p /\ ci = size (filter (fun c => c < i) (children p)).
Proof.
  unfold child_index. intros ([k c] & Hf & ->)%fmap_Some. apply list_find_Some in Hf as (Hk & -> & _). cbn.
  assert (Hperm : children_list p ≡ₚ elements (children p)) by apply merge_sort_Permutation.
  assert (Hi : i ∈ children p).
  { apply elem_of_elements. rewrite <-Hperm. by eapply list_elem_of_lookup_2. }
  split; [done|]. symmetry.
  transitivity (length (filter (fun c => c < i) (children_list p))).
  - unfold size, set_size. cbn. apply Permutation_length. rewrite Hperm.
    apply NoDup_Permutation; [apply NoDup_elements|apply NoDup_filter, NoDup_elements|].
    intros x. rewrite elem_of_elements, elem_of_filter, list_elem_of_filter, elem_of_elements. done.
  - apply sorted_filter_lt; [|rewrite Hperm; apply NoDup_elements|done].
    apply (StronglySorted_merge_sort Z.le).
Qed.

(** ** Lemmas: sidecars *)

(** A sidecar whose blobs hold the given elements, padded with zeros to whole
    blobs, each with its commitment and a proof for it. *)
Definition sidecar_of `{Kzg} (fes : list Z) (sc : BlobTransactionSidecar) : Prop :=
  exists fs n, sc_blobs sc = blob_of <$> fs /\ Forall (fun f => length f = FE) fs /\ (n < FE)%nat /\
    concat fs = fes ++ replicate n 0 /\
    Forall2 (fun b c => exists k, blob_from_bytes b = Ok k /\ blob_to_kzg_commitment k = Ok c)
      (sc_blobs sc) (sc_commitments sc) /\
    Forall2 (fun bc w => exists k, blob_from_bytes bc.1 = Ok k /\ compute_blob_kzg_proof k bc.2 = Ok w)
      (zip (sc_blobs sc) (sc_commitments sc)) (sc_proofs sc).

Lemma blob_sidecar_entries `{Kzg} bs sc :
  blob_sidecar bs = Ok sc -> sc_blobs sc = bs /\
  Forall2 (fun b c => exists k, blob_from_bytes b = Ok k /\ blob_to_kzg_commitment k = Ok c) bs (sc_commitments sc) /\
  Forall2 (fun bc w => exists k, blob_from_bytes bc.1 = Ok k /\ compute_blob_kzg_proof k bc.2 = Ok w)
    (zip bs (sc_commitments sc)) (sc_proofs sc).
Proof.
  intros Hs. split; [by apply blob_sidecar_blobs|]. unfold blob_sidecar in Hs. ok_inv. subst. cbn.
  apply omap_m_Ok in E. induction E as [|b [[b' c] w] bs l Hb _ [IH1 IH2]]; [split; constructor|].
  unfold sidecar_entry in Hb. destruct (blob_from_bytes b) as [k|?|?] eqn:Ek; [|done..]. cbn in Hb.
  destruct (blob_to_kzg_commitment k) as [c'|?|?] eqn:Ec; [|done..]. cbn in Hb. ok_inv. simplify_eq.
  cbn. split; (constructor; [by exists k|done]).
Qed.

Lemma create_sidecar_of `{Kzg} fes sc : create_sidecar fes = Ok sc -> sidecar_of fes sc.
Proof.
  unfold create_sidecar, sidecar_of. intros (Hb & Hc & Hw)%blob_sidecar_entries.
  destruct (sidecar_blobs_spec (length fes) fes []) as (fs & n & Hr & Hl & Hn & Hcat); [cbn; lia|].
  cbn in Hcat. rewrite drop_0 in Hcat. rewrite Hr in Hb. cbn in Hb. exists fs, n. rewrite Hr in Hc, Hw. cbn in Hc, Hw.
  rewrite Hb. by split_and!.
Qed.

(** ** Lemmas: verdicts *)

Lemma first_false_Some l i :
  first_false l = Some i <-> l !! i = Some (Some false) /\ forall j, (j < i)%nat -> l !! j <> Some (Some false).
Proof.
  unfold first_false. split.
  - intros H. apply fmap_Some in H as ([k c] & Hf & ->). apply list_find_Some in Hf as (Hk & -> & Hj).
    split; [done|]. intros j Hlt Hjf. eapply Hj; [exact Hjf|done|done].
  - intros [Hi Hj]. apply fmap_Some. exists (i, Some false). split; [|done].
    apply list_find_Some. split_and!; [done|done|]. intros j c Hc Hlt ->. by eapply Hj.
Qed.

Lemma first_false_None l : first_false l = None <-> Some false ∉ l.
Proof.
  unfold first_false. rewrite fmap_None, list_find_None, List.Forall_forall.
  split; [intros H Hin|intros H x Hin ->]; eapply H; try done; by apply list_elem_of_In.
Qed.

Lemma existsb_bool_decide {A} (P : A -> Prop) `{forall x, Decision (P x)} l :
  existsb (fun x => bool_decide (P x)) l = true <-> exists x, x ∈ l /\ P x.
Proof.
  rewrite existsb_exists. split; intros (x & Hin & Hx); exists x; (split; [by apply list_elem_of_In|by case_bool_decide]).
Qed.

Lemma existsb_is_false l : existsb is_false l = true <-> Some false ∈ l.
Proof. etransitivity; [apply (existsb_bool_decide (fun c => c = Some false))|naive_solver]. Qed.

Lemma existsb_is_none l : existsb is_none l = true <-> None ∈ l.
Proof. etransitivity; [apply (existsb_bool_decide (fun c => c = None))|naive_solver]. Qed.

Lemma is_correct_false p :
  is_correct p = Some false <->
  correct_parent p = Some false \/ correct_claim p = Some false \/
  Some false ∈ correct_io p \/ Some false ∈ correct_trail p.
Proof.
  rewrite <-!existsb_is_false. unfold is_correct, is_false at 1 2.
  do 2 (case_bool_decide; [naive_solver|]).
  destruct (existsb is_false (correct_io p)); [naive_solver|].
  destruct (existsb is_false (correct_trail p)); [naive_solver|].
  destruct (_ || _); naive_solver.
Qed.

Lemma is_correct_true p :
  is_correct p = Some true <->
  correct_parent p = Some true /\ correct_claim p = Some true /\
  Forall (fun c => c = Some true) (correct_io p ++ correct_trail p).
Proof.
  assert (Hl : forall l, Forall (fun c => c = Some true) l <->
    existsb is_false l = false /\ existsb is_none l = false).
  { intros l. rewrite <-!not_true_iff_false, existsb_is_false, existsb_is_none, List.Forall_forall. split.
    - intros H. split; intros Hin%list_elem_of_In%H; done.
    - intros [H1 H2] [[]|] Hin%list_elem_of_In; done. }
  rewrite Forall_app, !Hl. unfold is_correct, is_false at 1 2, is_none at 1 2.
  destruct (correct_parent p) as [[]|], (correct_claim p) as [[]|],
    (existsb is_false (correct_io p)), (existsb is_false (correct_trail p)),
    (existsb is_none (correct_io p)), (existsb is_none (correct_trail p)); cbn;
    (split; [try discriminate|intros (? & ? & [? ?] & [? ?]); try discriminate]; done).
Qed.

(** ** Properties *)

(** C28. A loaded game holds what its contract says and its blobs commit to.
    Each field is the contract's answer for it.  There are as many blobs as the
    contract says; the one at each place is served by the consensus layer for
    the slot of the game's creation, and its commitment has the hash that the
    contract records for that place.  The intermediate outputs, and after them
    the trail, are the field elements of the blobs in order; [output_fe_at]
    counts the root claim between the two.  There is a verdict to give for each
    intermediate output and each trailing element, and none is given yet. *)
Theorem load_game_spec {S} `{Nodes S} `{Kzg} da address (s : S) p s' :
  load_game da address s = (Ok p, s') ->
  (contract p = address /\ answered (S := S) address GameIndex (index_ p) /\
   answered (S := S) address ParentGameIndex (parent p) /\ answered (S := S) address Proposer_ (proposer p) /\
   answered (S := S) address CreatedAt (created_at p) /\ answered (S := S) address RootClaim (output_root p) /\
   answered (S := S) address L2BlockNumber (output_block_number p) /\
   answered (S := S) address L1Head (l1_head p) /\ answered (S := S) address Signature_ (signature p) /\
   answered (S := S) address KAILUA_TREASURY (p_treasury p) /\
   answered (S := S) address ResolvedAt (resolved_at p)) /\
  (exists n, answered (S := S) address PROPOSAL_BLOBS n /\ length (io_blobs p) = Z.to_nat n) /\
  (forall k h b, io_blobs p !! k = Some (h, b) ->
     answered (S := S) address (ProposalBlobHashes (Z.of_nat k)) h /\
     served_in (S := S) da (created_at p) b /\ kzg_to_versioned_hash (bd_kzg_commitment b) = h) /\
  (forall i v, io_field_elements p !! i = Some v -> element_at (io_blobs p) i v) /\
  (forall i v, trail_field_elements p !! i = Some v ->
     element_at (io_blobs p) (length (io_field_elements p) + i) v) /\
  (forall position v, 0 <= position -> output_fe_at p position = Ok v ->
     (io_field_elements p ++ (output_root p `mod` BLS_MODULUS) :: trail_field_elements p) !! Z.to_nat position = Some v) /\
  (exists n, answered (S := S) address PROPOSAL_OUTPUT_COUNT n /\ 1 <= n /\
     correct_io p = replicate (Z.to_nat (n - 1)) None /\
     Z.of_nat (length (io_field_elements p)) = Z.min (n - 1) (4096 * Z.of_nat (length (io_blobs p)))) /\
  correct_trail p = replicate (length (trail_field_elements p)) None /\
  correct_claim p = None /\ correct_parent p = None.
Proof.
  intros Hl. pose proof (load_game_inv _ _ _ _ _ Hl) as ([(_ & fes & Hf & Hc & Hlen & _) _] & _).
  cbn [blobs_ io_ trail_] in *. unfold load_game in Hl. st_inv.
  repeat match goal with X : joined _ _ = (Ok _, _) |- _ => apply (proj1 (joined_Ok _ _ _ _)) in X end.
  repeat match goal with
  | X : stall _ _ _ = (Ok _, _) |- _ => apply stall_answered in X
  | X : stall_u64 _ _ _ = (Ok _, _) |- _ => apply stall_u64_answered in X end.
  match goal with X : u64_sub host _ 1 = Ok _ |- _ => apply (arith_checked host) in X as [-> [? _]]; [|done] end.
  match goal with X : load_blobs _ _ _ _ _ _ _ = _ |- _ =>
    pose proof (fun k h b => load_blobs_recorded _ _ _ _ _ _ _ _ _ k h b X) as Hrec;
    apply load_blobs_inv in X as [_ Hn]; [|apply io_inv_init] end.
  cbn [blobs_ io_ trail_ length contract index_ parent proposer created_at output_root output_block_number l1_head
    signature p_treasury resolved_at io_blobs io_field_elements trail_field_elements correct_io correct_trail
    correct_claim correct_parent] in *.
  split_and!; try done; [by eexists|intros k h b; apply Hrec; lia| | | |].
  - intros i v Hi. eapply concat_fes_element; [done|]. rewrite Hc. by apply lookup_app_l_Some.
  - intros i v Hi. eapply concat_fes_element; [done|]. rewrite Hc, lookup_app_r by lia. rewrite <-Hi. f_equal. lia.
  - intros position v. apply output_fe_at_Ok.
  - eexists. split_and!; [done|lia|done|]. rewrite length_replicate in Hlen. lia.
Qed.

(** Publishing and loading are inverse: if a game is loaded whose blobs are
    those of [create_sidecar] for some field elements below the modulus, and it
    expects as many intermediate outputs, then it holds exactly these elements,
    and its trailing data is zero. *)
Theorem sidecar_roundtrip {S} `{Nodes S} `{Kzg} fes sc da address (s : S) p s' :
  Forall (fun x => 0 <= x < BLS_MODULUS) fes -> create_sidecar fes = Ok sc ->
  load_game da address s = (Ok p, s') ->
  (fun b => bd_blob (snd b)) <$> io_blobs p = sc_blobs sc -> length (correct_io p) = length fes ->
  io_field_elements p = fes /\ Forall (fun x => x = 0) (trail_field_elements p).
Proof.
  intros Hr Hs (Hinv & _)%load_game_inv Hb Hlen. destruct Hinv as [(_ & fs & Hf & Hc & Hl & _) _].
  cbn [blobs_ io_ trail_] in *.
  destruct (sidecar_elements _ _ Hr Hs) as (gs & n & Hg & Hn & Hcg).
  assert (Hf' : Forall2 holds_fes (sc_blobs sc) fs) by (rewrite <-Hb; by apply Forall2_fmap_l).
  rewrite (holds_fes_all _ _ _ Hf' Hg) in Hc. rewrite Hcg in Hc.
  pose proof (concat_length_FE _ _ Hg) as Hbl. rewrite Hcg, length_app, length_replicate, <-Hb, length_fmap in Hbl.
  pose proof FE_Z. assert (length (io_field_elements p) = length fes) as Hio by nia.
  apply app_inj_1 in Hc as [<- <-]; [|done]. split; [done|]. by apply Forall_replicate.
Qed.

(** The verdict and the reported fault of a proposal agree: it is incorrect
    exactly if its parent is or a fault is reported; it is correct exactly if
    everything was checked and found right; and the reported fault is the first
    wrong trailing element (counted after the outputs and the claim), else the
    first wrong intermediate output, else a wrong claim. *)
Theorem fault_spec p :
  (is_correct p = Some false <-> correct_parent p = Some false \/ fault p <> None) /\
  (is_correct p = Some true <-> correct_parent p = Some true /\ correct_claim p = Some true /\
     Forall (fun c => c = Some true) (correct_io p ++ correct_trail p)) /\
  match fault p with
  | Some (Trail n) => exists i, n = (length (io_field_elements p) + i + 1)%nat /\
      correct_trail p !! i = Some (Some false) /\
      forall j, (j < i)%nat -> correct_trail p !! j <> Some (Some false)
  | Some (Output n) => Some false ∉ correct_trail p /\
      ((correct_io p !! n = Some (Some false) /\
        forall j, (j < n)%nat -> correct_io p !! j <> Some (Some false)) \/
       (n = length (io_field_elements p) /\ correct_claim p = Some false /\ Some false ∉ correct_io p))
  | None => Some false ∉ correct_trail p ++ correct_io p /\ correct_claim p <> Some false
  end.
Proof.
  assert (Hf : fault p <> None <->
    correct_claim p = Some false \/ Some false ∈ correct_io p \/ Some false ∈ correct_trail p).
  { unfold fault, is_false. destruct (first_false (correct_trail p)) as [i|] eqn:Et.
    - apply first_false_Some in Et as [Et%list_elem_of_lookup_2 _]. naive_solver.
    - apply first_false_None in Et. destruct (first_false (correct_io p)) as [i|] eqn:Ei.
      + apply first_false_Some in Ei as [Ei%list_elem_of_lookup_2 _]. naive_solver.
      + apply first_false_None in Ei. case_bool_decide; naive_solver. }
  split; [rewrite Hf; apply is_correct_false|]. split; [apply is_correct_true|].
  clear Hf. unfold fault, is_false. destruct (first_false (correct_trail p)) as [i|] eqn:Et.
  - apply first_false_Some in Et as [? ?]. by exists i.
  - apply first_false_None in Et. destruct (first_false (correct_io p)) as [i|] eqn:Ei.
    + apply first_false_Some in Ei. split; [done|by left].
    + apply first_false_None in Ei. case_bool_decide; [split; [done|by right]|].
      split; [|done]. rewrite elem_of_app. naive_solver.
Qed.

(** The position of the fault: the first wrong trailing element, else the first
    wrong output, else the claim. *)
Definition faulty_position (p : Proposal) (position : Z) : Prop :=
  (exists k, position = Z.of_nat (length (io_field_elements p)) + Z.of_nat k + 1 /\
     correct_trail p !! k = Some (Some false) /\
     forall j, (j < k)%nat -> correct_trail p !! j <> Some (Some false)) \/
  Some false ∉ correct_trail p /\
  ((exists k, position = Z.of_nat k /\ correct_io p !! k = Some (Some false) /\
      forall j, (j < k)%nat -> correct_io p !! j <> Some (Some false)) \/
   (position = Z.of_nat (length (io_field_elements p)) /\ Some false ∉ correct_io p /\ correct_claim p = Some false)).

Lemma fault_position p f : fault p = Some f -> faulty_position p (Z.of_nat (divergence_point f)).
Proof.
  intros Hf. pose proof (fault_spec p) as (_ & _ & Hs). rewrite Hf in Hs. unfold faulty_position.
  destruct f as [n|n]; cbn [divergence_point].
  - destruct Hs as [Ht [Hio|(-> & Hc & Hio)]]; right; (split; [done|]); [left; by exists n|by right].
  - destruct Hs as (k & -> & Hk). left. exists k. split; [lia|done].
Qed.

(** ** Witnesses *)

(** Game 6 at address 500, with two intermediate outputs, 11 and 12. *)
Definition demo_outputs : list Z := [11; 12].
Definition demo_padding : list Z := replicate (FE - 2) 0.
Definition demo_blob_data : BlobData :=
  {| bd_index := 2; bd_blob := blob_of (demo_outputs ++ demo_padding); bd_kzg_commitment := be_bytes 2 77 |}.
Definition demo_nodes : Nodes unit := {|
  eth_call := fun contract c s =>
    (match c with
     | GameIndex => 6 | ParentGameIndex => 5 | ParentGame => 400 | KAILUA_TREASURY => 400
     | PROPOSAL_BLOBS => 1 | PROPOSAL_OUTPUT_COUNT => 3 | ProposalBlobHashes _ => 77
     | CreatedAt => 1000 | Proposer_ => 9 | RootClaim => 13 | L2BlockNumber => 106 | L1Head => 8
     | _ => 0
     end, s);
  game_at_index := fun _ _ s => ((1337, 500), s);
  eth_call_prune := fun _ _ s => (Ok 500, s);
  beacon_sidecars := fun _ s => ([demo_blob_data], s) |}.
Definition demo_da : BlobProvider := {| beacon_genesis_time := 0; seconds_per_slot := 12 |}.
Definition demo_game : Proposal := {|
  contract := 500; p_treasury := 400; index_ := 6; parent := 5; proposer := 9; created_at := 1000;
  io_blobs := [(77, demo_blob_data)]; io_field_elements := demo_outputs;
  trail_field_elements := demo_padding; output_root := 13; output_block_number := 106; l1_head := 8;
  signature := 0; children := ∅; successor := None; correct_io := [None; None];
  correct_trail := replicate (length demo_padding) None; correct_claim := None; correct_parent := None;
  canonical := None; resolved_at := 0 |}.

Lemma demo_fes_range : Forall (fun x => 0 <= x < BLS_MODULUS) (demo_outputs ++ demo_padding).
Proof.
  apply Forall_app_2; [|by apply Forall_replicate]. repeat constructor; done.
Qed.

Lemma demo_holds : holds_fes (bd_blob demo_blob_data) (demo_outputs ++ demo_padding).
Proof.
  unfold holds_fes. cbn [bd_blob demo_blob_data].
  assert (length (demo_outputs ++ demo_padding) = FE) as Hl.
  { unfold demo_padding. rewrite length_app, length_replicate. pose proof FE_Z. cbn [length demo_outputs]. lia. }
  rewrite field_elements_blob_of; [|by rewrite Hl|apply demo_fes_range]. by rewrite drop_0, take_ge by lia.
Qed.

Lemma demo_add_blob :
  add_blob 3 77 demo_blob_data {| blobs_ := []; io_ := []; trail_ := [] |} =
    Ok {| blobs_ := [(77, demo_blob_data)]; io_ := demo_outputs; trail_ := demo_padding |}.
Proof.
  destruct (split_blob_inv (bd_blob demo_blob_data) 2 _ ltac:(pose proof FE_Z; lia) demo_holds) as [H1 H2].
  unfold add_blob. change (io_remaining 3 _) with (Ok 2 : outcome Z).
  cbn [mbind outcome_bind]. change (Z.to_nat (Z.min 2 FIELD_ELEMENTS_PER_BLOB)) with 2%nat.
  by rewrite H1, H2.
Qed.

Lemma demo_load_game : @load_game unit demo_nodes demo_kzg demo_da 500 tt = (Ok demo_game, tt).
Proof.
  assert (Hb : @load_blobs unit demo_nodes demo_kzg demo_da 500 1000 3 1
      {| blobs_ := []; io_ := []; trail_ := [] |} tt =
    (Ok {| blobs_ := [(77, demo_blob_data)]; io_ := demo_outputs; trail_ := demo_padding |}, tt)).
  { cbn [load_blobs]. unfold mbind, St_bind. unfold stall, get_blob. cbn [eth_call demo_nodes].
    unfold mbind, St_bind, lift at 1. change (slot demo_da 1000) with (Ok 83 : outcome Z).
    cbn [beacon_sidecars demo_nodes]. unfold lift at 1.
    change (@find_blob demo_kzg 77 [demo_blob_data]) with (Ok demo_blob_data). cbv beta iota.
    unfold lift. by rewrite demo_add_blob. }
  unfold load_game. do 3 (apply St_bind_Ok; do 2 eexists; split; [reflexivity|]).
  apply St_bind_Ok. do 2 eexists. split; [exact Hb|].
  repeat (apply St_bind_Ok; do 2 eexists; split; [reflexivity|]). reflexivity.
Qed.

Lemma load_game_spec_witness :
  contract demo_game = 500 /\
  (forall k h b, io_blobs demo_game !! k = Some (h, b) ->
     @answered unit demo_nodes 500 (ProposalBlobHashes (Z.of_nat k)) h) /\
  (forall i v, io_field_elements demo_game !! i = Some v -> element_at (io_blobs demo_game) i v).
Proof.
  destruct (@load_game_spec unit demo_nodes demo_kzg demo_da 500 tt demo_game tt demo_load_game)
    as ([Hc _] & _ & Hb & He & _).
  split; [exact Hc|]. split; [|exact He]. intros k h b Hk. exact (proj1 (Hb k h b Hk)).
Defined.

Definition demo_sidecar : BlobTransactionSidecar := {|
  sc_blobs := [bd_blob demo_blob_data]; sc_commitments := [bd_blob demo_blob_data]; sc_proofs := [[]] |}.

Lemma demo_sidecar_blobs : sidecar_blobs (length demo_outputs) demo_outputs [] = [bd_blob demo_blob_data].
Proof.
  pose proof FE_Z.
  destruct (sidecar_blobs_spec (length demo_outputs) demo_outputs []) as (fs & n & -> & Hl & Hn & Hc);
    [cbn; lia|].
  cbn [length Nat.mul app] in Hc |- *. rewrite drop_0 in Hc.
  destruct fs as [|f [|g fs]]; [discriminate Hc| |].
  - apply Forall_cons_iff in Hl as [Hl _]. cbn [concat] in Hc. rewrite app_nil_r in Hc.
    assert (n = FE - 2)%nat as ->; [|by rewrite Hc].
    apply (f_equal length) in Hc. rewrite length_app, length_replicate in Hc. cbn [length demo_outputs] in Hc. lia.
  - apply Forall_cons_iff in Hl as [Hf Hl]. apply Forall_cons_iff in Hl as [Hg _].
    apply (f_equal length) in Hc. cbn [concat] in Hc.
    rewrite !length_app, length_replicate in Hc. cbn [length demo_outputs] in Hc. lia.
Qed.

Lemma demo_create_sidecar : @create_sidecar demo_kzg demo_outputs = Ok demo_sidecar.
Proof. unfold create_sidecar. by rewrite demo_sidecar_blobs. Qed.

Lemma sidecar_roundtrip_witness :
  io_field_elements demo_game = demo_outputs /\ Forall (fun x => x = 0) (trail_field_elements demo_game).
Proof.
  apply (@sidecar_roundtrip unit demo_nodes demo_kzg demo_outputs demo_sidecar demo_da 500 tt demo_game tt).
  - repeat constructor; done.
  - exact demo_create_sidecar.
  - exact demo_load_game.
  - reflexivity.
  - reflexivity.
Defined.
