(* ===== verification/Agent.v ===== *)
(** * crates/sync/src/{cursor,agent}.rs

    The agent that follows a deployment: it keeps the output roots reported by
    the op-node, loads the proposals of the factory in order, judges them, and
    follows the canonical chain of proposals and its resolution. *)

From S2P Require Import Prelude Bytes Config Blobs Precondition Deployment Proposal.

(** ** The cursor *)

Record SyncCursor := {
  canonical_proposal_tip : Z; next_factory_index : Z; delayed_factory_indices : list Z;
  last_output_index : Z; last_resolved_game : Z;
}.

Definition has_next (game_count : Z) (c : SyncCursor) : bool :=
  negb (bool_decide (delayed_factory_indices c = [])) || (next_factory_index c <? game_count).

Definition set_delayed (l : list Z) (c : SyncCursor) : SyncCursor :=
  {| canonical_proposal_tip := canonical_proposal_tip c; next_factory_index := next_factory_index c;
     delayed_factory_indices := l; last_output_index := last_output_index c;
     last_resolved_game := last_resolved_game c |}.
Definition set_next (i : Z) (c : SyncCursor) : SyncCursor :=
  {| canonical_proposal_tip := canonical_proposal_tip c; next_factory_index := i;
     delayed_factory_indices := delayed_factory_indices c; last_output_index := last_output_index c;
     last_resolved_game := last_resolved_game c |}.
Definition set_tip (i : Z) (c : SyncCursor) : SyncCursor :=
  {| canonical_proposal_tip := i; next_factory_index := next_factory_index c;
     delayed_factory_indices := delayed_factory_indices c; last_output_index := last_output_index c;
     last_resolved_game := last_resolved_game c |}.
Definition set_last_output (i : Z) (c : SyncCursor) : SyncCursor :=
  {| canonical_proposal_tip := canonical_proposal_tip c; next_factory_index := next_factory_index c;
     delayed_factory_indices := delayed_factory_indices c; last_output_index := i;
     last_resolved_game := last_resolved_game c |}.
Definition set_last_resolved (i : Z) (c : SyncCursor) : SyncCursor :=
  {| canonical_proposal_tip := canonical_proposal_tip c; next_factory_index := next_factory_index c;
     delayed_factory_indices := delayed_factory_indices c; last_output_index := last_output_index c;
     last_resolved_game := i |}.

Definition next_index (c : SyncCursor) : Z * SyncCursor :=
  match delayed_factory_indices c with
  | i :: l => (i, set_delayed l c)
  | [] => (next_factory_index c, c)
  end.

Definition load_delayed_indices (new_indices : list Z) (c : SyncCursor) : SyncCursor :=
  set_delayed (new_indices ++ delayed_factory_indices c) c.

Definition cursor_load {S} `{Nodes S} (deployment : SyncDeployment) (starting_proposal : option Z)
    : St S SyncCursor :=
  anchor_address ← match starting_proposal with
    | Some address => mret address
    | None => stall (treasury deployment) LastResolved
    end;
  if anchor_address =? 0
  then lift (Err "No resolved games found. Deployment has not been fully configured.")
  else
    anchor_treasury ← stall anchor_address KAILUA_TREASURY;
    if negb (anchor_treasury =? treasury deployment)
    then lift (Err "Anchor is not part of the correct deployment.")
    else
      anchor_index ← stall_u64 anchor_address GameIndex;
      status ← stall anchor_address Status;
      finality ← lift (parse_finality status);
      if negb (bool_decide (finality = Some true)) then lift (Err "Anchor game is not finalized.")
      else
        anchor_block_height ← stall_u64 anchor_address L2BlockNumber;
        parent_address ← stall anchor_address ParentGame;
        last_output_index ←
          (if parent_address =? anchor_address then mret anchor_block_height
           else
             blocks ← lift (blocks_per_proposal deployment);
             lift (u64_sub host anchor_block_height blocks));
        mret {| canonical_proposal_tip := anchor_index; next_factory_index := anchor_index;
                delayed_factory_indices := []; last_output_index := last_output_index;
                last_resolved_game := anchor_index |}.

(** ** The agent *)

(** The node queries of the agent, each retried until it is answered:
    the output root at an L2 block, the number of the safe L2 head if the
    answer has one, and the number of the L1 block with a hash. *)
Class OpNode (S : Type) := {
  output_at_block : Z -> S -> Z * S;
  safe_l2_number : S -> option Z * S;
  l1_block_number : Z -> S -> Z * S;
}.

Record SyncAgent := {
  deployment : SyncDeployment; da_provider : BlobProvider; db : gmap Z Z; cursor : SyncCursor;
  outputs : gmap Z Z; proposals : gmap Z Proposal; eliminations : gmap Z Z;
  l1_heads : gmap Z (Z * Z); l1_heads_inv : gmap Z (Z * Z);
}.

Definition with_cursor (c : SyncCursor) (a : SyncAgent) : SyncAgent :=
  {| deployment := deployment a; da_provider := da_provider a; db := db a; cursor := c;
     outputs := outputs a; proposals := proposals a; eliminations := eliminations a;
     l1_heads := l1_heads a; l1_heads_inv := l1_heads_inv a |}.
Definition with_outputs (o d : gmap Z Z) (a : SyncAgent) : SyncAgent :=
  {| deployment := deployment a; da_provider := da_provider a; db := d; cursor := cursor a;
     outputs := o; proposals := proposals a; eliminations := eliminations a;
     l1_heads := l1_heads a; l1_heads_inv := l1_heads_inv a |}.
Definition with_proposals (p : gmap Z Proposal) (a : SyncAgent) : SyncAgent :=
  {| deployment := deployment a; da_provider := da_provider a; db := db a; cursor := cursor a;
     outputs := outputs a; proposals := p; eliminations := eliminations a;
     l1_heads := l1_heads a; l1_heads_inv := l1_heads_inv a |}.
Definition with_eliminations (e : gmap Z Z) (a : SyncAgent) : SyncAgent :=
  {| deployment := deployment a; da_provider := da_provider a; db := db a; cursor := cursor a;
     outputs := outputs a; proposals := proposals a; eliminations := e;
     l1_heads := l1_heads a; l1_heads_inv := l1_heads_inv a |}.
Definition with_l1_heads (h : gmap Z (Z * Z)) (i : gmap Z (Z * Z)) (a : SyncAgent) : SyncAgent :=
  {| deployment := deployment a; da_provider := da_provider a; db := db a; cursor := cursor a;
     outputs := outputs a; proposals := proposals a; eliminations := eliminations a;
     l1_heads := h; l1_heads_inv := i |}.

(** [SyncAgent::new], from the rollup configuration and the persisted outputs;
    a devnet build accepts any image. *)
Definition agent_new {S} `{Nodes S} `{Digests} (devnet : bool) (known_image_ids : list Z)
    (config : RollupConfig) (da : BlobProvider) (db : gmap Z Z)
    (game_impl_address anchor_address : option Z) : St S SyncAgent :=
  rollup_config_hash ← lift (expect "Configuration hash derivation error" (config_hash config));
  deployment ← deployment_load config game_impl_address;
  if negb devnet && negb (bool_decide (image_id deployment ∈ known_image_ids))
  then lift (Err "Deployment image ID unknown.")
  else
    cursor ← cursor_load deployment anchor_address;
    mret {| deployment := deployment; da_provider := da; db := db; cursor := cursor; outputs := ∅;
            proposals := ∅; eliminations := ∅; l1_heads := ∅; l1_heads_inv := ∅ |}.

(** [entry(..)], [Vacant]: insert only what is missing. *)
Definition insert_vacant {A} (k : Z) (v : A) (m : gmap Z A) : gmap Z A :=
  match m !! k with Some _ => m | None => <[k := v]> m end.

Definition cached_output_at_block (a : SyncAgent) (block_number : Z) : option Z := outputs a !! block_number.

(** ** Output roots *)

(** [(start..=end).step_by(step)] for [start <= end] and a step that is not 0. *)
Definition stepped (start end_ step : Z) : list Z :=
  (fun k => start + Z.of_nat k * step) <$> seq 0 (Z.to_nat ((end_ - start) / step + 1)).

Definition record_output (i output : Z) (a : SyncAgent) : SyncAgent :=
  let c := if last_output_index (cursor a) <? i then set_last_output i (cursor a) else cursor a in
  with_cursor c (with_outputs (<[i := output]> (outputs a)) (db a) a).

(** A persisted output root, if there is one. *)
Definition load_persisted (a : SyncAgent) (i : Z) : SyncAgent :=
  match db a !! i with Some output => record_output i output a | None => a end.

Section outputs.
Context {S : Type} `{OpNode S}.

Definition fetch_output (i : Z) (w : S * SyncAgent) : S * SyncAgent :=
  let '(s, a) := w in
  let '(output, s) := output_at_block i s in
  let a := record_output i output a in
  (s, with_outputs (outputs a) (<[i := output]> (db a)) a).

(** One round of [sync_outputs]: the blocks from [start] to [end_]. *)
Definition sync_chunk (start end_ step : Z) (w : S * SyncAgent) : S * SyncAgent :=
  let blocks := stepped start end_ step in
  let a := foldl load_persisted (snd w) blocks in
  foldl (fun w i => fetch_output i w) (fst w, a)
    (filter (fun i => outputs a !! i = None) blocks).

Fixpoint sync_outputs (fuel : nat) (start end_ step : Z) (w : S * SyncAgent)
    : outcome unit * (S * SyncAgent) :=
  match fuel with
  | O => (Panic "out of fuel", w)
  | Datatypes.S fuel =>
      if end_ <? start then (Ok tt, w)
      else
        match (m ← u64_mul host 128 step; u64_add host start m) with
        | Ok limit =>
            let last := Z.min end_ limit in
            if step =? 0 then (Panic "assertion failed: step != 0", w)
            else
              let w := sync_chunk start last step w in
              match u64_add host last step with
              | Ok start => sync_outputs fuel start end_ step w
              | Err e => (Err e, w)
              | Panic p => (Panic p, w)
              end
        | Err e => (Err e, w)
        | Panic p => (Panic p, w)
        end
  end.

(** Rounds enough for every block to be visited. *)
Definition sync_fuel (start end_ : Z) : nat := Z.to_nat (end_ - start + 1) + 1.
End outputs.

(** ** Judging a proposal *)

Definition set_verdicts (io trail : list (option bool)) (claim par : option bool) (p : Proposal) : Proposal :=
  {| contract := contract p; p_treasury := p_treasury p; index_ := index_ p; parent := parent p;
     proposer := proposer p; created_at := created_at p; io_blobs := io_blobs p;
     io_field_elements := io_field_elements p; trail_field_elements := trail_field_elements p;
     output_root := output_root p; output_block_number := output_block_number p;
     l1_head := l1_head p; signature := signature p; children := children p; successor := successor p;
     correct_io := io; correct_trail := trail; correct_claim := claim; correct_parent := par;
     canonical := canonical p; resolved_at := resolved_at p |}.
Definition set_canonical (c : option bool) (p : Proposal) : Proposal :=
  {| contract := contract p; p_treasury := p_treasury p; index_ := index_ p; parent := parent p;
     proposer := proposer p; created_at := created_at p; io_blobs := io_blobs p;
     io_field_elements := io_field_elements p; trail_field_elements := trail_field_elements p;
     output_root := output_root p; output_block_number := output_block_number p;
     l1_head := l1_head p; signature := signature p; children := children p; successor := successor p;
     correct_io := correct_io p; correct_trail := correct_trail p; correct_claim := correct_claim p;
     correct_parent := correct_parent p; canonical := c; resolved_at := resolved_at p |}.
Definition set_links (succ : option Z) (resolved : Z) (p : Proposal) : Proposal :=
  {| contract := contract p; p_treasury := p_treasury p; index_ := index_ p; parent := parent p;
     proposer := proposer p; created_at := created_at p; io_blobs := io_blobs p;
     io_field_elements := io_field_elements p; trail_field_elements := trail_field_elements p;
     output_root := output_root p; output_block_number := output_block_number p;
     l1_head := l1_head p; signature := signature p; children := children p; successor := succ;
     correct_io := correct_io p; correct_trail := correct_trail p; correct_claim := correct_claim p;
     correct_parent := correct_parent p; canonical := canonical p; resolved_at := resolved |}.

(** [proposal.correct_io[i] = ..] for every intermediate output. *)
Definition judge_output (a : SyncAgent) (starting_block_number : Z) (verdicts : list (option bool))
    (x : nat * Z) : outcome (list (option bool)) :=
  let '(i, output_fe) := x in
  offset ← u64_mul host (Z.of_nat i + 1) (output_block_span (deployment a));
  io_number ← u64_add host starting_block_number offset;
  output_hash ← ok_or "Failed to fetch output hash for block." (cached_output_at_block a io_number);
  _ ← index verdicts i;
  Ok (<[i := Some (hash_to_fe output_hash =? output_fe)]> verdicts).

Definition judge_trail (verdicts : list (option bool)) (x : nat * Z) : outcome (list (option bool)) :=
  let '(i, output_fe) := x in
  _ ← index verdicts i; Ok (<[i := Some (output_fe =? 0)]> verdicts).

Definition is_parent_correct (a : SyncAgent) (p : Proposal) : outcome bool :=
  if resolved_at p =? 0 then
    match proposals a !! parent p with
    | Some parent => unwrap "Attempted to process child before deciding parent correctness"
                       (is_correct parent)
    | None => Ok false
    end
  else Ok true.

(** The proposal with its verdicts, and its correctness. *)
Definition assess_correctness (a : SyncAgent) (p : Proposal) : outcome (Proposal * bool) :=
  if negb (has_parent p) then Ok (p, true)
  else
    parent_correct ← is_parent_correct a p;
    local_claim ← ok_or "Failed to fetch local claim for proposal."
      (cached_output_at_block a (output_block_number p));
    blocks ← blocks_per_proposal (deployment a);
    let starting_block_number := sat_sub (output_block_number p) blocks in
    io ← ofold (judge_output a starting_block_number) (correct_io p) (imap pair (io_field_elements p));
    trail ← ofold judge_trail (correct_trail p) (imap pair (trail_field_elements p));
    let p := set_verdicts io trail (Some (local_claim =? output_root p)) (Some parent_correct) p in
    correct ← ok_or "Failed to assess correctness. Is op-node synced far enough?" (is_correct p);
    Ok (p, correct).

Definition canonical_tip (a : SyncAgent) : option Proposal :=
  proposals a !! canonical_proposal_tip (cursor a).
Definition canonical_tip_height (a : SyncAgent) : option Z := output_block_number <$> canonical_tip a.

Definition was_proposer_eliminated_before (a : SyncAgent) (p : Proposal) : bool :=
  match eliminations a !! proposer p with Some round => round <? index_ p | None => false end.

(** The proposal with its [canonical] flag set; [None] leaves it undecided. *)
Definition determine_if_canonical (a : SyncAgent) (p : Proposal) : option Proposal :=
  match is_correct p with
  | None => None
  | Some correct =>
      let c :=
        if correct && negb (was_proposer_eliminated_before a p)
        then match canonical_tip_height a with
             | None => true
             | Some h => h <? output_block_number p
             end
        else false in
      Some (set_canonical (Some c) p)
  end.

Definition determine_tournament_participation (a : SyncAgent) (p : Proposal) : outcome bool * SyncAgent :=
  if negb (has_parent p) then (Ok true, a)
  else if negb (resolved_at p =? 0) then (Ok true, a)
  else
    match proposals a !! parent p with
    | None => (Ok false, a)
    | Some par =>
        let par := fst (append_child (index_ p) par) in
        let a := with_proposals (<[parent p := par]> (proposals a)) a in
        if was_proposer_eliminated_before a p then (Ok false, a)
        else if negb (default false (canonical par)) then (Ok false, a)
        else
          match successor par with
          | None => (Ok true, a)
          | Some i =>
              (successor ← unwrap "successor" (proposals a !! i);
               age ← u64_sub host (created_at p) (created_at successor);
               Ok (negb (timeout (deployment a) <=? age)), a)
          end
    end.

(** ** One proposal of the factory *)

Section sync.
Context {S : Type} `{Nodes S} `{OpNode S} `{Kzg}.
Abbreviation W := (S * SyncAgent)%type.

(** A node query, and an update of the agent. *)
Definition on_node {A} (m : St S A) : St W A := fun w =>
  let '(r, s) := m (fst w) in (r, (s, snd w)).
Definition get_agent : St W SyncAgent := fun w => (Ok (snd w), w).
Definition put_agent (a : SyncAgent) : St W unit := fun w => (Ok tt, (fst w, a)).
Definition modify_agent (f : SyncAgent -> SyncAgent) : St W unit := fun w => (Ok tt, (fst w, f (snd w))).

Definition sync_l1_head (proposal l1_head : Z) : St W unit :=
  number ← on_node (fun s => let '(n, s) := l1_block_number l1_head s in (Ok n, s));
  modify_agent (fun a =>
    with_l1_heads (insert_vacant number (proposal, l1_head) (l1_heads a))
                  (insert_vacant l1_head (proposal, number) (l1_heads_inv a)) a).

(** The elimination round of a proposer the agent does not know. *)
Definition sync_elimination (proposer : Z) : St W unit :=
  a ← get_agent;
  match eliminations a !! proposer with
  | Some _ => mret tt
  | None =>
      elimination_round ← on_node (stall_u64 (treasury (deployment a)) (EliminationRound proposer));
      if 0 <? elimination_round
      then put_agent (with_eliminations (<[proposer := elimination_round]> (eliminations a)) a)
      else mret tt
  end.

(** [sync_proposal], from the point where the proposal takes part. *)
Definition judge_proposal (p : Proposal) : St W ProposalSync :=
  a ← get_agent;
  '(p, _) ← lift (assess_correctness a p);
  p ← lift (ok_or "Failed to determine if proposal is canonical." (determine_if_canonical a p));
  let ps := match canonical p with
    | Some true =>
        match proposals a !! parent p with
        | Some par => <[parent p := set_links (Some (index_ p)) (resolved_at par) par]> (proposals a)
        | None => proposals a
        end
    | _ => proposals a
    end in
  _ ← put_agent (with_proposals (<[index_ p := p]> ps) a);
  mret (as_success p).

Definition sync_proposal (factory index : Z) : St W ProposalSync :=
  '(game_type, game_address) ← on_node (fun s => let '(g, s) := game_at_index factory index s in (Ok g, s));
  if negb (game_type =? KAILUA_GAME_TYPE) then mret (IGNORED game_address 0)
  else
    a ← get_agent;
    p ← on_node (load (da_provider a) game_address);
    if negb (p_treasury p =? treasury (deployment a)) then mret (as_ignored p)
    else if negb (bool_decide (proposals a = ∅)) && bool_decide (proposals a !! parent p = None)
    then mret (as_ignored p)
    else
      _ ← sync_elimination (proposer p);
      a ← get_agent;
      limit ← lift (u64_add host (last_output_index (cursor a)) (output_block_span (deployment a)));
      if limit <? output_block_number p then mret (as_delayed p)
      else
        participates ← (fun w => let '(r, a) := determine_tournament_participation (snd w) p in (r, (fst w, a)));
        if negb participates then mret (as_ignored p) else judge_proposal p.
End sync.

(** ** Pruning *)

Definition min_key {A} (m : gmap Z A) : option Z :=
  foldr (fun k o => Some (match o with None => k | Some k' => Z.min k k' end)) None (fst <$> map_to_list m).

(** Proposals from the earliest to the last resolved one, exclusive. *)
Definition prune_proposals (a : SyncAgent) : SyncAgent :=
  with_proposals (filter (fun kv => last_resolved_game (cursor a) <= fst kv) (proposals a)) a.

Fixpoint prune_outputs (count : nat) (i earliest_output : Z) (a : SyncAgent) : outcome unit * SyncAgent :=
  match count with
  | O => (Ok tt, a)
  | S count =>
      match u64_mul host i (output_block_span (deployment a)) with
      | Ok d =>
          let output_number := sat_sub earliest_output d in
          match outputs a !! output_number with
          | None => (Ok tt, a)
          | Some _ =>
              prune_outputs count (i + 1) earliest_output
                (with_outputs (delete output_number (outputs a)) (delete output_number (db a)) a)
          end
      | Err e => (Err e, a)
      | Panic p => (Panic p, a)
      end
  end.

Definition prune_l1_heads (block_no : Z) (a : SyncAgent) : SyncAgent :=
  let old := filter (fun kv => fst kv < block_no) (l1_heads a) in
  let inv := foldr (fun kv m => delete (snd (snd kv)) m) (l1_heads_inv a) (map_to_list old) in
  with_l1_heads (filter (fun kv => block_no <= fst kv) (l1_heads a)) inv a.

Definition prune_data (a : SyncAgent) : outcome (gset Z) * SyncAgent :=
  if bool_decide (proposals a = ∅) then (Ok ∅, a)
  else
    let last := last_resolved_game (cursor a) in
    let freed := filter (fun k => k < last) (dom (proposals a)) in
    let a := prune_proposals a in
    let c := set_delayed (filter (fun i => last <= i) (delayed_factory_indices (cursor a))) (cursor a) in
    let a := with_cursor c a in
    match proposals a !! last with
    | None => (Err "Last resolved game is missing from database.", a)
    | Some last_resolved_proposal =>
        match blocks_per_proposal (deployment a) with
        | Ok blocks =>
            let earliest_output := sat_sub (output_block_number last_resolved_proposal) blocks in
            let '(r, a) := prune_outputs (Z.to_nat earliest_output) 1 earliest_output a in
            match r with
            | Ok _ =>
                match l1_heads_inv a !! l1_head last_resolved_proposal with
                | None => (Err "Inverse pointer data missing for latest resolved game l1 head", a)
                | Some (_, block_no) => (Ok freed, prune_l1_heads block_no a)
                end
            | Err e => (Err e, a)
            | Panic p => (Panic p, a)
            end
        | Err e => (Err e, a)
        | Panic p => (Panic p, a)
        end
    end.

(** ** One synchronization *)

Section sync_loop.
Context {S : Type} `{Nodes S} `{OpNode S} `{Kzg}.
Abbreviation W := (S * SyncAgent)%type.

(** The op-node's safe head, and the output roots up to it. *)
Definition sync_safe_head (op_rpc_delay : Z) : St W Z :=
  safe ← on_node (fun s => let '(n, s) := safe_l2_number s in (Ok n, s));
  safe ← lift (ok_or "failed to parse safe_l2" safe);
  let safe_l2_number := sat_sub safe op_rpc_delay in
  a ← get_agent;
  blocks ← lift (blocks_per_proposal (deployment a));
  limit ← lift (u64_add host (last_output_index (cursor a)) blocks);
  let output_block_number := Z.min safe_l2_number limit in
  next ← lift (u64_add host (last_output_index (cursor a)) (output_block_span (deployment a)));
  _ ← (if next <? output_block_number
       then sync_outputs (sync_fuel (last_output_index (cursor a)) output_block_number)
              (last_output_index (cursor a)) output_block_number (output_block_span (deployment a))
       else mret tt);
  mret safe_l2_number.

(** What is done with a processed proposal that was stored. *)
Definition on_success (contract l1_head : Z) : St W unit :=
  _ ← sync_l1_head contract l1_head;
  a ← get_agent;
  p ← lift (ok_or "Failed to load immediately processed proposal"
              (proposals a !! next_factory_index (cursor a)));
  match canonical p, is_correct p with
  | Some true, _ =>
      let c := set_tip (index_ p) (cursor a) in
      put_agent (with_cursor (if negb (resolved_at p =? 0) then set_last_resolved (index_ p) c else c) a)
  | _, Some false =>
      put_agent (with_eliminations (insert_vacant (proposer p) (index_ p) (eliminations a)) a)
  | _, _ => mret tt
  end.

(** The end of a round: the next factory index moves past the one processed. *)
Definition advance_next (proposal_index : Z) : St W unit := modify_agent (fun a =>
  if proposal_index =? next_factory_index (cursor a)
  then with_cursor (set_next (next_factory_index (cursor a) + 1) (cursor a)) a else a).

(** One round of the loop over delayed and new proposals: the indices delayed
    so far, and whether the loop goes on.  A failure to load ends the loop, a
    failure of [on_success] ends the synchronization. *)
Definition sync_round (factory safe_l2_number : Z) (delayed : list Z) : St W (list Z * bool) :=
  a ← get_agent;
  let '(proposal_index, c) := next_index (cursor a) in
  _ ← put_agent (with_cursor c a);
  result ← (fun w => match sync_proposal factory proposal_index w with
              | (Ok r, w) => (Ok (Some r), w)
              | (Err _, w) => (Ok None, w)
              | (Panic p, w) => (Panic p, w)
              end);
  match result with
  | Some (IGNORED contract l1_head) =>
      _ ← (if negb (l1_head =? 0) then sync_l1_head contract l1_head else mret tt);
      _ ← advance_next proposal_index;
      mret (delayed, true)
  | Some (DELAYED proposal_block) =>
      if proposal_block <? safe_l2_number then mret (delayed, false)
      else
        _ ← advance_next proposal_index;
        mret (delayed ++ [proposal_index], true)
  | Some (SUCCESS contract l1_head) =>
      _ ← on_success contract l1_head;
      _ ← advance_next proposal_index;
      mret (delayed, true)
  | None => mret (delayed, false)
  end.

(** The loop; [stuck] would report a lack of fuel. *)
Fixpoint sync_loop (stuck : string) (fuel : nat) (factory game_count safe_l2_number : Z)
    (delayed : list Z) : St W (list Z) :=
  match fuel with
  | O => lift (Panic stuck)
  | Datatypes.S fuel =>
      a ← get_agent;
      if negb (has_next game_count (cursor a)) then mret delayed
      else
        '(delayed, more) ← sync_round factory safe_l2_number delayed;
        if more : bool then sync_loop stuck fuel factory game_count safe_l2_number delayed
        else mret delayed
  end.

(** A failure to prune is only logged. *)
Definition prune_logged : St W unit := fun w =>
  match prune_data (snd w) with
  | (Panic p, a) => (Panic p, (fst w, a))
  | (_, a) => (Ok tt, (fst w, a))
  end.

(** One round of the loop that follows resolutions along the successors, and
    whether it goes on. *)
Definition resolve_round : St W bool :=
  a ← get_agent;
  last ← lift (ok_or "Last resolved proposal missing from database."
                 (proposals a !! last_resolved_game (cursor a)));
  match successor last with
  | None => mret false
  | Some i =>
      p ← lift (ok_or "Last unresolved proposal missing from database." (proposals a !! i));
      resolved_at ← on_node (fetch_resolved_at p);
      if resolved_at =? 0 then mret false
      else
        _ ← modify_agent (fun a =>
              with_cursor (set_last_resolved i (cursor a))
                (with_proposals (<[i := set_links (successor p) resolved_at p]> (proposals a)) a));
        _ ← prune_logged;
        mret true
  end.

Fixpoint resolve_loop (stuck : string) (fuel : nat) : St W unit :=
  match fuel with
  | O => lift (Panic stuck)
  | Datatypes.S fuel =>
      more ← resolve_round;
      if more : bool then resolve_loop stuck fuel else mret tt
  end.

(** [final_l2_block]: a deployment that is wound down ends with an error. *)
Definition FINAL_L2_BLOCK_RESOLVED : string := "Last resolved proposal l2 block reached final l2 block.".
Definition check_final (final_l2_block : option Z) : St W unit :=
  match final_l2_block with
  | None => mret tt
  | Some final_l2_block =>
      a ← get_agent;
      p ← lift (ok_or "Last resolved proposal missing from database."
                  (proposals a !! last_resolved_game (cursor a)));
      lift (ensure (negb (final_l2_block <=? output_block_number p))
              FINAL_L2_BLOCK_RESOLVED)
  end.

Definition sync (op_rpc_delay : Z) (final_l2_block : option Z) : St W (list Z) :=
  safe_l2_number ← sync_safe_head op_rpc_delay;
  a ← get_agent;
  game_count ← on_node (stall_u64 (factory (deployment a)) GameCount);
  let first_factory_index := next_factory_index (cursor a) in
  delayed_indices ← sync_loop "out of fuel"
    (length (delayed_factory_indices (cursor a)) + Z.to_nat (game_count - first_factory_index) + 1)
    (factory (deployment a)) game_count safe_l2_number [];
  _ ← modify_agent (fun a => with_cursor (load_delayed_indices delayed_indices (cursor a)) a);
  a ← get_agent;
  _ ← resolve_loop "out of fuel" (Datatypes.S (Datatypes.S (size (proposals a))));
  _ ← check_final final_l2_block;
  a ← get_agent;
  mret (filter (fun p => is_Some (proposals a !! p))
         ((fun k => first_factory_index + Z.of_nat k) <$>
            seq 0 (Z.to_nat (next_factory_index (cursor a) - first_factory_index)))).
End sync_loop.

(** ** Lemmas: verdicts *)

(** A loop that writes one verdict after the other. *)
Lemma ofold_verdicts {X} (g : nat -> X -> outcome (option bool))
    (f : list (option bool) -> nat * X -> outcome (list (option bool))) l :
  (forall v i x, f v (i, x) = (b ← g i x; _ ← index v i; Ok (<[i := b]> v))) ->
  forall k v v', ofold f v (imap (fun i x => ((k + i)%nat, x)) l) = Ok v' ->
  length v' = length v /\
  (forall i x, l !! i = Some x -> exists b, g (k + i)%nat x = Ok b /\ v' !! (k + i)%nat = Some b) /\
  (forall j, (j < k)%nat -> v' !! j = v !! j).
Proof.
  intros Hf. induction l as [|x l IH]; intros k v v' Ho; cbn [imap ofold] in Ho.
  - apply Ok_inj in Ho as <-. done.
  - rewrite Hf in Ho. ok_inv.
    rewrite (imap_ext _ (fun i y => ((S k + i)%nat, y))) in Ho
      by (intros i y _; cbn; f_equal; lia).
    apply IH in Ho as (Hlen & Hl & Hj). rewrite length_insert in Hlen. split; [done|]. split.
    + intros [|i] y Hy; cbn in Hy; [|destruct (Hl i y Hy) as (b & ? & ?); exists b; by rewrite Nat.add_succ_r].
      simplify_eq. exists x1. rewrite Nat.add_0_r in *. split; [done|].
      rewrite Hj by lia. apply list_lookup_insert_eq. apply index_Ok in E1. by eapply lookup_lt_Some.
    + intros j Hlt. rewrite Hj by lia. apply list_lookup_insert_ne. lia.
Qed.

Lemma imap_pair_0 {X} (l : list X) : imap pair l = imap (fun i x => ((0 + i)%nat, x)) l.
Proof. by apply imap_ext. Qed.

(** The verdict of [judge_output] on one element. *)
Definition judge (a : SyncAgent) (start : Z) (i : nat) (fe : Z) : outcome (option bool) :=
  offset ← u64_mul host (Z.of_nat i + 1) (output_block_span (deployment a));
  io_number ← u64_add host start offset;
  h ← ok_or "Failed to fetch output hash for block." (cached_output_at_block a io_number);
  Ok (Some (hash_to_fe h =? fe)).

Lemma judge_output_eq a start v i fe :
  judge_output a start v (i, fe) = (b ← judge a start i fe; _ ← index v i; Ok (<[i := b]> v)).
Proof.
  unfold judge_output, judge. destruct (u64_mul _ _ _); cbn; [|done..].
  destruct (u64_add _ _ _); cbn; [|done..]. by destruct (cached_output_at_block _ _).
Qed.

Lemma judge_Ok a start i fe b :
  judge a start i fe = Ok b <->
  in_width 64 ((Z.of_nat i + 1) * output_block_span (deployment a)) /\
  in_width 64 (start + (Z.of_nat i + 1) * output_block_span (deployment a)) /\
  exists h, outputs a !! (start + (Z.of_nat i + 1) * output_block_span (deployment a)) = Some h /\
    b = Some (hash_to_fe h =? fe).
Proof.
  unfold judge, cached_output_at_block, u64_mul, u64_add. split.
  - intros Hj. ok_inv. subst. apply (arith_checked host) in E as [-> ?], E0 as [-> ?]; [|done..]. eauto 10.
  - intros (H1 & H2 & h & Hh & ->). rewrite arith_fits by done. cbn. rewrite arith_fits by done. cbn.
    by rewrite Hh.
Qed.

(** The block numbers an honest proposal's outputs belong to. *)
Definition starting_block (a : SyncAgent) (p : Proposal) : Z :=
  sat_sub (output_block_number p) (proposal_output_count (deployment a) * output_block_span (deployment a)).

(** What it means for a proposal to be right, by the agent's own outputs. *)
Definition matches_outputs (a : SyncAgent) (p : Proposal) : Prop :=
  outputs a !! output_block_number p = Some (output_root p) /\
  (forall i fe, io_field_elements p !! i = Some fe ->
     exists h, outputs a !! (starting_block a p + (Z.of_nat i + 1) * output_block_span (deployment a)) = Some h /\
       hash_to_fe h = fe) /\
  Forall (fun fe => fe = 0) (trail_field_elements p).

Definition parent_right (a : SyncAgent) (p : Proposal) : Prop :=
  resolved_at p <> 0 \/ exists par, proposals a !! parent p = Some par /\ is_correct par = Some true.

Lemma is_parent_correct_Ok a p b : is_parent_correct a p = Ok b -> b = true <-> parent_right a p.
Proof.
  unfold is_parent_correct, parent_right. destruct (resolved_at p =? 0) eqn:Er; bools.
  - destruct (proposals a !! parent p) as [par|]; intros Hb; ok_inv; split.
    + intros ->. right. eauto.
    + intros [?|(par' & Hp & Hc)]; [done|]. simplify_eq. by simplify_eq.
    + done.
    + intros [?|(? & ? & ?)]; done.
  - intros [= <-]. split; [by left|done].
Qed.

Lemma Forall_Some_true (l : list (option bool)) n :
  length l = n -> Forall (fun c => c = Some true) l <-> forall i, (i < n)%nat -> l !! i = Some (Some true).
Proof.
  intros Hl. rewrite List.Forall_forall. split.
  - intros H i Hi. destruct (lookup_lt_is_Some_2 l i) as [c Hc]; [lia|]. rewrite Hc. f_equal.
    apply H. apply list_elem_of_In. by eapply list_elem_of_lookup_2.
  - intros H c (i & Hi)%list_elem_of_In%list_elem_of_lookup_1.
    pose proof (lookup_lt_Some _ _ _ Hi). rewrite H in Hi by lia. by simplify_eq.
Qed.

Lemma assess_correctness_Ok a p p' correct :
  assess_correctness a p = Ok (p', correct) -> has_parent p = true ->
  exists io trail claim par, p' = set_verdicts io trail (Some claim) (Some par) p /\
    is_correct p' = Some correct /\ is_parent_correct a p = Ok par /\
    (exists local, outputs a !! output_block_number p = Some local /\ claim = (local =? output_root p)) /\
    length io = length (correct_io p) /\ length trail = length (correct_trail p) /\
    (forall i fe, io_field_elements p !! i = Some fe ->
       exists b, judge a (starting_block a p) i fe = Ok b /\ io !! i = Some b) /\
    (forall i fe, trail_field_elements p !! i = Some fe -> trail !! i = Some (Some (fe =? 0))).
Proof.
  unfold assess_correctness. intros Ha Hp. rewrite Hp in Ha. cbn [negb] in Ha. ok_inv.
  apply pair_equal_spec in Ha as [<- <-].
  unfold blocks_per_proposal, u64_mul in E1. apply (arith_checked host) in E1 as [-> _]; [|done].
  rewrite imap_pair_0 in E2, E3.
  destruct (ofold_verdicts _ _ _ (judge_output_eq a _) _ _ _ E2) as (Hl1 & Hio & _).
  destruct (ofold_verdicts (fun _ fe => Ok (Some (fe =? 0))) judge_trail _ (fun _ _ _ => eq_refl) _ _ _ E3)
    as (Hl2 & Htr & _).
  eexists _, _, _, _. split_and!; [done|done|done|eauto|done|done|exact Hio|].
  intros i fe Hi. destruct (Htr i fe Hi) as (b & Hb & Hl). by apply Ok_inj in Hb as <-.
Qed.

(** A list of verdicts is all right exactly if each element passes its test. *)
Lemma verdicts_right (verdicts : list (option bool)) (l : list Z) (test : nat -> Z -> Prop) :
  length verdicts = length l ->
  (forall i x, l !! i = Some x -> exists b, verdicts !! i = Some (Some b) /\ (b = true <-> test i x)) ->
  Forall (fun c => c = Some true) verdicts <-> forall i x, l !! i = Some x -> test i x.
Proof.
  intros Hlen Hv. rewrite (Forall_Some_true _ (length l)) by done. split.
  - intros H i x Hx. destruct (Hv i x Hx) as (b & Hb & <-). apply lookup_lt_Some in Hx.
    rewrite (H i Hx) in Hb. by simplify_eq.
  - intros H i Hi. destruct (lookup_lt_is_Some_2 l i Hi) as [x Hx].
    destruct (Hv i x Hx) as (b & Hb & Ht). rewrite Hb. do 2 f_equal. apply Ht. eauto.
Qed.

Lemma is_correct_decided p c : is_correct p = Some c -> c = true <-> is_correct p = Some true.
Proof. intros ->. by destruct c. Qed.

(** ** Lemmas: the invariant *)

(** Every stored proposal is filed under its index and decided; the canonical
    ones are correct; successors are later and stored. *)
Record props_inv (ps : gmap Z Proposal) : Prop := {
  inv_key : forall k p, ps !! k = Some p -> index_ p = k;
  inv_decided : forall k p, ps !! k = Some p ->
    is_Some (is_correct p) /\ is_Some (canonical p) /\ (canonical p = Some true -> is_correct p = Some true);
  inv_successor : forall k p j, ps !! k = Some p -> successor p = Some j -> k < j /\ is_Some (ps !! j);
}.

(** An update of a stored proposal that touches neither its index, nor its
    verdicts, nor its successor. *)
Lemma props_inv_update ps k p q :
  props_inv ps -> ps !! k = Some p -> index_ q = index_ p -> is_correct q = is_correct p ->
  canonical q = canonical p -> successor q = successor p -> props_inv (<[k := q]> ps).
Proof.
  intros [H1 H2 H3] Hp Hi Hc Hn Hs. split; intros k' p'; rewrite lookup_insert; case_decide; subst.
  - intros [= <-]. rewrite Hi. eauto.
  - eauto.
  - intros [= <-]. rewrite Hc, Hn. eauto.
  - eauto.
  - intros j [= <-] Hj. rewrite Hs in Hj. destruct (H3 _ _ _ Hp Hj) as [? ?]. split; [done|].
    rewrite lookup_insert. case_decide; [done|auto].
  - intros j Hk' Hj. destruct (H3 _ _ _ Hk' Hj) as [? ?]. split; [done|].
    rewrite lookup_insert. case_decide; [done|auto].
Qed.

(** A new proposal. *)
Lemma props_inv_new ps p :
  props_inv ps -> is_Some (is_correct p) -> is_Some (canonical p) ->
  (canonical p = Some true -> is_correct p = Some true) -> successor p = None ->
  props_inv (<[index_ p := p]> ps).
Proof.
  intros [H1 H2 H3] Hc Hn Ht Hs. split; intros k' p'; rewrite lookup_insert; case_decide; subst.
  - by intros [= <-].
  - eauto.
  - by intros [= <-].
  - eauto.
  - intros j [= <-] Hj. congruence.
  - intros j Hk' Hj. destruct (H3 _ _ _ Hk' Hj) as [? ?]. split; [done|].
    rewrite lookup_insert. case_decide; [done|auto].
Qed.

(** A new canonical proposal, as the successor of its parent. *)
Lemma props_inv_child ps p par :
  props_inv ps -> is_Some (is_correct p) -> is_Some (canonical p) ->
  (canonical p = Some true -> is_correct p = Some true) -> successor p = None ->
  ps !! parent p = Some par -> parent p <= index_ p ->
  props_inv (<[index_ p := p]> (<[parent p := set_links (Some (index_ p)) (resolved_at par) par]> ps)).
Proof.
  intros Hps Hc Hn Ht Hs Hpar Hle.
  destruct (decide (parent p = index_ p)) as [He|Hne].
  { rewrite He, insert_insert_eq. by apply props_inv_new. }
  rewrite insert_insert_ne by done.
  pose proof (props_inv_new ps p Hps Hc Hn Ht Hs) as [H1 H2 H3]. destruct Hps as [G1 G2 G3].
  split; intros k' p'; rewrite lookup_insert; case_decide; subst; eauto.
  - intros [= <-]. cbn. eauto.
  - intros [= <-]. exact (G2 _ _ Hpar).
  - intros j [= <-] [= <-]. split; [lia|]. rewrite lookup_insert_ne, lookup_insert_eq by done. done.
  - intros j Hk' Hj. destruct (H3 _ _ _ Hk' Hj) as [? ?]. split; [done|].
    rewrite lookup_insert. case_decide; [done|auto].
Qed.

(** Forgetting everything before an index. *)
Lemma props_inv_filter ps n :
  props_inv ps -> props_inv (filter (fun kv => n <= fst kv) ps).
Proof.
  intros [H1 H2 H3]. split; intros k p.
  - intros [? ?]%map_lookup_filter_Some. eauto.
  - intros [? ?]%map_lookup_filter_Some. eauto.
  - intros j [Hk Hle]%map_lookup_filter_Some Hj. destruct (H3 _ _ _ Hk Hj) as [? [q Hq]]. split; [done|].
    exists q. apply map_lookup_filter_Some. split; [done|]. cbn in *. lia.
Qed.

Lemma load_facts {S} `{Nodes S} `{Kzg} da address (s : S) p s' :
  load da address s = (Ok p, s') -> successor p = None /\ canonical p = None.
Proof.
  unfold load. intros Hl. st_inv. destruct (_ =? _).
  - unfold load_treasury in Hl. by st_inv.
  - unfold load_game in Hl. by st_inv.
Qed.

Lemma assess_correctness_keeps a p p' c :
  assess_correctness a p = Ok (p', c) ->
  successor p' = successor p /\ parent p' = parent p /\ index_ p' = index_ p.
Proof.
  destruct (has_parent p) eqn:Hp; intros Ha.
  - destruct (assess_correctness_Ok _ _ _ _ Ha Hp) as (? & ? & ? & ? & -> & _). done.
  - unfold assess_correctness in Ha. rewrite Hp in Ha. cbn in Ha. apply Ok_inj in Ha. by simplify_eq.
Qed.

(** The decision: correct, by a proposer in good standing, and higher than the
    tip. *)
Lemma determine_if_canonical_Some a p p' :
  determine_if_canonical a p = Some p' ->
  exists c b, is_correct p = Some c /\ p' = set_canonical (Some b) p /\
    (b = true <-> c = true /\ was_proposer_eliminated_before a p = false /\
       forall h, canonical_tip_height a = Some h -> h < output_block_number p).
Proof.
  unfold determine_if_canonical. destruct (is_correct p) as [c|]; [|done]. intros [= <-].
  exists c. eexists. split_and!; [done|done|].
  destruct c, (was_proposer_eliminated_before a p); cbn; try naive_solver.
  destruct (canonical_tip_height a); [rewrite Z.ltb_lt|]; naive_solver.
Qed.

(** What the outputs are synchronized with does not touch the proposals. *)
Lemma load_persisted_proposals bs a : proposals (foldl load_persisted a bs) = proposals a.
Proof.
  revert a. induction bs as [|b bs IH]; intros a; [done|]. cbn. rewrite IH.
  unfold load_persisted. by destruct (db a !! b).
Qed.

Lemma prune_outputs_frame count i earliest a :
  let a' := (prune_outputs count i earliest a).2 in
  proposals a' = proposals a /\ cursor a' = cursor a /\ l1_heads a' = l1_heads a /\
  l1_heads_inv a' = l1_heads_inv a.
Proof.
  revert i a. induction count as [|count IH]; intros i a; [done|]. cbn [prune_outputs].
  destruct (u64_mul _ _ _) as [d|?|?]; [|done..]. destruct (outputs a !! _); [|done]. exact (IH (i + 1) (with_outputs _ _ a)).
Qed.

Lemma prune_data_proposals a :
  proposals (prune_data a).2 = proposals a \/ proposals (prune_data a).2 = proposals (prune_proposals a).
Proof.
  unfold prune_data. case_bool_decide; [by left|right]. set (a' := with_cursor _ _).
  assert (Ha : proposals a' = proposals (prune_proposals a)) by done.
  destruct (proposals a' !! _) as [last|]; [|done]. destruct (blocks_per_proposal _) as [blocks|?|?]; [|done..].
  set (e := sat_sub _ _).
  pose proof (prune_outputs_frame (Z.to_nat e) 1 e a') as (Hp & _).
  destruct (prune_outputs (Z.to_nat e) 1 e a') as [[]  a'']; cbn [snd] in *; [|by rewrite Hp..].
  destruct (l1_heads_inv a'' !! _) as [[? b]|]; cbn; by rewrite Hp.
Qed.

Section invariant.
Context {S : Type} `{Nodes S} `{OpNode S} `{Kzg}.
Abbreviation W := (S * SyncAgent)%type.

(** Contracts are created after their parents. *)
Definition parents_first : Prop := forall da address (s : S) p s',
  load da address s = (Ok p, s') -> parent p <= index_ p.

Definition inv (w : W) : Prop := props_inv (proposals (snd w)).

Lemma fetch_outputs_proposals l (w : W) :
  proposals (foldl (fun w i => fetch_output i w) w l).2 = proposals w.2.
Proof.
  revert w. induction l as [|i l IH]; intros w; [done|]. cbn [foldl]. rewrite IH.
  unfold fetch_output. destruct w as [s a]. by destruct (output_at_block i s).
Qed.

Lemma sync_outputs_proposals fuel start end_ step (w : W) :
  proposals (sync_outputs fuel start end_ step w).2.2 = proposals w.2.
Proof.
  revert start w. induction fuel as [|fuel IH]; intros start w; [done|]. cbn [sync_outputs].
  destruct (end_ <? start); [done|]. destruct (u64_mul host 128 step ≫= _); [|done..].
  destruct (step =? 0); [done|]. destruct (u64_add host _ step); [rewrite IH| |];
    unfold sync_chunk; cbn [fst snd]; rewrite fetch_outputs_proposals; cbn [fst snd]; apply load_persisted_proposals.
Qed.

Lemma triple_frame {A} (m : St W A) :
  (forall w, proposals (m w).2.2 = proposals w.2) -> triple inv m (fun _ => inv) inv.
Proof.
  intros Hm w Hw. specialize (Hm w). unfold inv in *. destruct (m w) as [[] w']; cbn in *; by rewrite Hm.
Qed.

Lemma on_node_frame {A} (m : St S A) w : proposals (on_node m w).2.2 = proposals w.2.
Proof. unfold on_node. by destruct (m w.1). Qed.

Lemma triple_get (P : W -> Prop) E :
  triple P get_agent (fun a w => a = snd w /\ P w) E.
Proof. intros w Hw. done. Qed.

(** The agent is read, then a call runs that keeps the invariant whatever was
    read. *)
Lemma triple_get_inv {A} (f : SyncAgent -> St W A) Q :
  (forall a, props_inv (proposals a) -> triple (fun w => a = snd w /\ inv w) (f a) Q inv) ->
  triple inv (a ← get_agent; f a) Q inv.
Proof.
  intros Hf. eapply triple_bind; [apply triple_get|]. intros a w [-> Hw]. by apply Hf.
Qed.

Lemma sync_l1_head_inv proposal h : triple inv (sync_l1_head proposal h) (fun _ => inv) inv.
Proof.
  apply triple_frame. intros [s a]. unfold sync_l1_head, mbind, St_bind, on_node. cbn.
  by destruct (l1_block_number h s).
Qed.

Lemma sync_elimination_inv z : triple inv (sync_elimination z) (fun _ => inv) inv.
Proof.
  apply triple_frame. intros [s a]. unfold sync_elimination, mbind, St_bind, get_agent. cbn.
  destruct (eliminations a !! z); [done|]. unfold on_node. cbn.
  destruct (stall_u64 _ _ s) as [[r|?|?] s']; [|done..]. by destruct (0 <? r).
Qed.

Lemma advance_next_inv i : triple inv (advance_next i) (fun _ => inv) inv.
Proof.
  apply triple_frame. intros [s a]. unfold advance_next, modify_agent. cbn. by destruct (i =? _).
Qed.

Lemma on_success_inv c h : triple inv (on_success c h) (fun _ => inv) inv.
Proof.
  unfold on_success. eapply triple_bind; [apply sync_l1_head_inv|]. intros []. cbv beta.
  apply triple_frame. intros [s a]. unfold mbind, St_bind, get_agent, lift. cbn.
  destruct (proposals a !! _) as [p|]; [|done]. cbn.
  destruct (canonical p) as [[]|]; [done|destruct (is_correct p) as [[]|]; done..].
Qed.

Lemma sync_safe_head_inv d : triple inv (sync_safe_head d) (fun _ => inv) inv.
Proof.
  unfold sync_safe_head. eapply triple_bind; [apply triple_frame, on_node_frame|]. intros n.
  eapply (triple_bind _ _ (fun _ => inv)); [apply triple_lift; eauto|]. intros m. cbv beta.
  apply triple_frame. intros w. unfold mbind, St_bind, get_agent, lift.
  destruct (blocks_per_proposal _) as [blocks|?|?]; [|done..].
  destruct (u64_add host _ blocks); [|done..]. destruct (u64_add host _ (output_block_span _)); [|done..].
  destruct (_ <? _); [|done].
  match goal with |- context [sync_outputs ?f ?x ?y ?z ?v] =>
    pose proof (sync_outputs_proposals f x y z v) as Hs; destruct (sync_outputs f x y z v) as [[] w'] end;
    exact Hs.
Qed.

Lemma judge_proposal_inv p :
  successor p = None -> parent p <= index_ p ->
  triple inv (judge_proposal p) (fun _ => inv) inv.
Proof.
  intros Hs Hle [s a] Hw. unfold judge_proposal, mbind, St_bind, get_agent, lift, put_agent, mret, St_ret.
  cbn [fst snd]. destruct (assess_correctness a p) as [[q c]|?|?] eqn:Ea; [|done..].
  destruct (assess_correctness_keeps _ _ _ _ Ea) as (Hs' & Hp' & Hi').
  destruct (determine_if_canonical a q) as [r|] eqn:Ed; cbn [ok_or]; [|done].
  apply determine_if_canonical_Some in Ed as (b & d & Hb & -> & Hd).
  unfold inv in *. cbn [fst snd with_proposals proposals] in *.
  assert (Hc : is_Some (is_correct (set_canonical (Some d) q))) by (exists b; exact Hb).
  assert (Ht : canonical (set_canonical (Some d) q) = Some true -> is_correct (set_canonical (Some d) q) = Some true).
  { cbn. intros [= ->]. change (is_correct q = Some true). rewrite Hb. f_equal. by apply Hd. }
  assert (Hn : is_Some (canonical (set_canonical (Some d) q))) by by eexists.
  assert (Hsq : successor (set_canonical (Some d) q) = None) by (cbn; congruence).
  pose proof (props_inv_new _ _ Hw Hc Hn Ht Hsq) as Hnew.
  pose proof (fun par => props_inv_child _ _ par Hw Hc Hn Ht Hsq) as Hchild.
  cbn [canonical parent index_ set_canonical] in *. rewrite Hp', Hi' in *.
  destruct d; [|done]. destruct (proposals a !! parent p) as [par|] eqn:Epar; [|done]. by apply Hchild.
Qed.

Lemma participation_inv p (w : W) :
  inv w -> inv (w.1, (determine_tournament_participation w.2 p).2).
Proof.
  destruct w as [s a]. unfold inv, determine_tournament_participation. cbn [fst snd]. intros Hw.
  destruct (negb (has_parent p)); [done|]. destruct (negb (resolved_at p =? 0)); [done|].
  destruct (proposals a !! parent p) as [par|] eqn:Ep; [|done].
  assert (props_inv (<[parent p := (append_child (index_ p) par).1]> (proposals a)))
    by (by eapply props_inv_update).
  destruct (was_proposer_eliminated_before _ _); [done|]. destruct (negb _); [done|].
  destruct (successor _); done.
Qed.

Lemma sync_proposal_inv f i : parents_first -> triple inv (sync_proposal f i) (fun _ => inv) inv.
Proof.
  intros Hpf. unfold sync_proposal. eapply triple_bind; [apply triple_frame, on_node_frame|].
  intros [game_type game_address]. cbv beta. apply triple_if; intros _; [by apply triple_ret|].
  apply triple_get_inv. intros a _.
  apply (triple_bind _ _ (fun p w => inv w /\ successor p = None /\ parent p <= index_ p)).
  { intros [s b] [-> Hb]. unfold on_node. cbn [fst snd].
    destruct (load (da_provider b) game_address s) as [[p|?|?] s'] eqn:El; [|done..].
    split; [done|]. split; [by eapply load_facts|by eapply Hpf]. }
  intros p. apply triple_if; intros _; [apply triple_ret; by intros ? [? _]|].
  apply triple_if; intros _; [apply triple_ret; by intros ? [? _]|].
  intros w (Hw & Hsucc & Hle). revert w Hw.
  change (triple inv (_ ← sync_elimination (proposer p); a ← get_agent;
      limit ← lift (u64_add host (last_output_index (cursor a)) (output_block_span (deployment a)));
      if limit <? output_block_number p then mret (as_delayed p)
      else
        participates ← (fun w => let '(r, a) := determine_tournament_participation (snd w) p in (r, (fst w, a)));
        if negb participates then mret (as_ignored p) else judge_proposal p) (fun _ => inv) inv).
  eapply triple_bind; [apply sync_elimination_inv|]. intros []. cbv beta.
  apply triple_get_inv. intros a' _. apply (triple_bind _ _ (fun _ => inv)).
  { apply triple_lift; [by intros ? ? [_ ?]|by intros ? [_ ?]]. }
  intros limit. apply triple_if; intros _; [by apply triple_ret|].
  apply (triple_bind _ _ (fun _ => inv)).
  { intros w Hw. pose proof (participation_inv p w Hw) as Hi.
    destruct (determine_tournament_participation w.2 p) as [[] a'']; exact Hi. }
  intros []; cbn [negb]; [by apply judge_proposal_inv|by apply triple_ret].
Qed.

Lemma sync_round_inv f safe delayed :
  parents_first -> triple inv (sync_round f safe delayed) (fun _ => inv) inv.
Proof.
  intros Hpf. unfold sync_round. apply triple_get_inv. intros a Ha.
  destruct (next_index (cursor a)) as [i c]. apply (triple_bind _ _ (fun _ => inv)).
  { by intros w [-> Hw]. }
  intros []. apply (triple_bind _ _ (fun _ => inv)).
  { intros w Hw. pose proof (sync_proposal_inv f i Hpf w Hw) as Hi.
    by destruct (sync_proposal f i w) as [[] w']. }
  intros [[c' h|b|c' h]|]; [| | |by apply triple_ret].
  - eapply triple_bind; [apply on_success_inv|]. intros []. cbv beta.
    eapply triple_bind; [apply advance_next_inv|]. intros []. by apply triple_ret.
  - apply triple_if; intros _; [by apply triple_ret|].
    eapply triple_bind; [apply advance_next_inv|]. intros []. by apply triple_ret.
  - apply (triple_bind _ _ (fun _ => inv)).
    { apply triple_if; intros _; [apply sync_l1_head_inv|by apply triple_ret]. }
    intros []. eapply triple_bind; [apply advance_next_inv|]. intros []. by apply triple_ret.
Qed.

Lemma sync_loop_inv stuck fuel f n safe delayed :
  parents_first -> triple inv (sync_loop stuck fuel f n safe delayed) (fun _ => inv) inv.
Proof.
  intros Hpf. revert delayed. induction fuel as [|fuel IH]; intros delayed; cbn [sync_loop].
  { by apply triple_lift. }
  apply triple_get_inv. intros a Ha. apply triple_if; intros _; [by apply triple_ret; intros ? [_ ?]|].
  apply (triple_bind _ _ (fun _ => inv)).
  { eapply triple_conseq; [by apply sync_round_inv|by intros ? [_ ?]|done|done]. }
  intros [delayed' []]; [apply IH|by apply triple_ret].
Qed.

(** A round that goes on adopted a later resolved proposal. *)
Lemma resolve_round_triple :
  triple inv resolve_round (fun _ => inv) inv.
Proof.
  unfold resolve_round. apply triple_get_inv. intros a _.
  apply (triple_bind _ _ (fun _ w => a = snd w /\ inv w)); [apply triple_lift; [done|by intros ? [_ ?]]|].
  intros last. destruct (successor last) as [i|]; [|by apply triple_ret; intros ? [_ ?]].
  apply (triple_bind _ _ (fun p w => proposals w.2 !! i = Some p /\ inv w)).
  { apply triple_lift; [|by intros ? [_ ?]]. intros w p [-> Hw] Hp. by apply ok_or_Ok in Hp. }
  intros p. apply (triple_bind _ _ (fun _ w => proposals w.2 !! i = Some p /\ inv w)).
  { intros w [Hp Hw]. unfold on_node. by destruct (fetch_resolved_at p w.1) as [[] ?]. }
  intros resolved. apply triple_if; intros _; [by apply triple_ret; intros ? [_ ?]|].
  apply (triple_bind _ _ (fun _ => inv)).
  { intros [s b] [Hp Hw]. unfold modify_agent, inv in *. cbn in *. by eapply props_inv_update. }
  intros []. apply (triple_bind _ _ (fun _ => inv)); [|intros []; by apply triple_ret].
  intros [s b] Hw. unfold inv, prune_logged in *. cbn [fst snd] in *.
  assert (Hi : props_inv (proposals (prune_data b).2)).
  { destruct (prune_data_proposals b) as [->| ->]; [done|by apply props_inv_filter]. }
  by destruct (prune_data b) as [[] b'].
Qed.

Lemma resolve_loop_inv stuck fuel : triple inv (resolve_loop stuck fuel) (fun _ => inv) inv.
Proof.
  induction fuel as [|fuel IH]; cbn [resolve_loop]; [by apply triple_lift|].
  eapply triple_bind; [apply resolve_round_triple|]. intros []; [apply IH|by apply triple_ret].
Qed.

Lemma check_final_inv final : triple inv (check_final final) (fun _ => inv) inv.
Proof.
  apply triple_frame. intros w. unfold check_final. destruct final as [n|]; [|done].
  unfold mbind, St_bind, get_agent, lift. by destruct (proposals w.2 !! _).
Qed.

Lemma sync_inv delay final : parents_first -> triple inv (sync delay final) (fun _ => inv) inv.
Proof.
  intros Hpf. unfold sync. eapply triple_bind; [apply sync_safe_head_inv|]. intros safe. cbv beta.
  apply triple_get_inv. intros a _. apply (triple_bind _ _ (fun _ => inv)).
  { intros w [_ Hw]. unfold inv in *. pose proof (on_node_frame (stall_u64 (factory (deployment a)) GameCount) w) as Hf.
    destruct (on_node _ w) as [[] w']; cbn in *; by rewrite Hf. }
  intros count. eapply triple_bind; [by apply sync_loop_inv|]. intros delayed. cbv beta.
  apply (triple_bind _ _ (fun _ => inv)); [by apply triple_frame|]. intros [].
  apply triple_get_inv. intros a' _. apply (triple_bind _ _ (fun _ => inv)).
  { eapply triple_conseq; [apply resolve_loop_inv|by intros ? [_ ?]|done|done]. }
  intros []. eapply triple_bind; [apply check_final_inv|]. intros []. cbv beta.
  apply triple_get_inv. intros a'' _. apply triple_ret. by intros ? [_ ?].
Qed.

(** ** Lemmas: termination *)

(** A call that does not move the cursor. *)
Definition keeps_cursor {A} (m : St W A) : Prop := forall w, cursor (m w).2.2 = cursor w.2.

Lemma keeps_bind {A B} (m : St W A) (f : A -> St W B) :
  keeps_cursor m -> (forall a, keeps_cursor (f a)) -> keeps_cursor (m ≫= f).
Proof.
  intros Hm Hf w. unfold mbind, St_bind. specialize (Hm w).
  destruct (m w) as [[a|?|?] w']; cbn in *; [|done..]. by rewrite (Hf a w').
Qed.

Lemma keeps_on_node {A} (m : St S A) : keeps_cursor (on_node m).
Proof. intros w. unfold on_node. by destruct (m w.1). Qed.

Lemma sync_proposal_cursor f i : keeps_cursor (sync_proposal f i).
Proof.
  assert (Hl : forall A (o : outcome A), keeps_cursor (lift o)) by done.
  assert (Hr : forall A (x : A), keeps_cursor (mret x)) by done.
  assert (Hg : keeps_cursor get_agent) by done.
  unfold sync_proposal. apply keeps_bind; [apply keeps_on_node|]. intros [gt ga].
  destruct (negb _); [apply Hr|]. apply keeps_bind; [done|]. intros a.
  apply keeps_bind; [apply keeps_on_node|]. intros p. destruct (negb _); [apply Hr|].
  destruct (_ && _); [apply Hr|]. apply keeps_bind.
  { unfold sync_elimination. intros w. unfold mbind, St_bind, get_agent. cbn.
    destruct (eliminations w.2 !! _); [done|]. unfold on_node. destruct w as [s b]. cbn.
    destruct (stall_u64 _ _ s) as [[r|?|?] s']; [|done..]. by destruct (0 <? r). }
  intros []. apply keeps_bind; [done|]. intros b. apply keeps_bind; [apply Hl|]. intros limit.
  destruct (_ <? _); [apply Hr|]. apply keeps_bind.
  { intros [s c]. cbn. unfold determine_tournament_participation.
    destruct (negb (has_parent p)); [done|]. destruct (negb (resolved_at p =? 0)); [done|].
    destruct (proposals c !! parent p); [|done]. destruct (was_proposer_eliminated_before _ _); [done|].
    destruct (negb _); [done|]. by destruct (successor _). }
  intros []; cbn [negb]; [|apply Hr]. unfold judge_proposal. intros [s c].
  unfold mbind, St_bind, get_agent, lift. cbn. destruct (assess_correctness c p) as [[q ?]|?|?]; [|done..].
  by destruct (determine_if_canonical c q).
Qed.

(** The rounds that the loop over the proposals has left. *)
Definition rounds (game_count : Z) (w : W) : nat :=
  length (delayed_factory_indices (cursor w.2)) + Z.to_nat (game_count - next_factory_index (cursor w.2)).

(** Calls of a round leave the queue and the next index alone. *)
Definition same_queue (w w' : W) : Prop :=
  delayed_factory_indices (cursor w'.2) = delayed_factory_indices (cursor w.2) /\
  next_factory_index (cursor w'.2) = next_factory_index (cursor w.2).

Lemma sync_l1_head_queue c h w : same_queue w (sync_l1_head c h w).2.
Proof. destruct w as [s a]. unfold sync_l1_head, mbind, St_bind, on_node. cbn. by destruct (l1_block_number h s). Qed.

Lemma on_success_queue c h w : same_queue w (on_success c h w).2.
Proof.
  unfold on_success. pose proof (sync_l1_head_queue c h w) as [Hd Hn]. unfold mbind, St_bind.
  destruct (sync_l1_head c h w) as [[[]|?|?] w']; cbn [fst snd] in *; [|done..].
  unfold get_agent, lift. cbn [fst snd]. destruct (proposals w'.2 !! _) as [p|]; [|done]. cbn [ok_or].
  destruct (canonical p) as [[]|]; [|by destruct (is_correct p) as [[]|]..].
  unfold same_queue. cbn. by destruct (negb _).
Qed.

Lemma next_index_rounds n (c c' : SyncCursor) i :
  has_next n c = true -> next_index c = (i, c') ->
  next_factory_index c' = next_factory_index c /\
  forall next, next = (if i =? next_factory_index c then next_factory_index c + 1 else next_factory_index c) ->
  (length (delayed_factory_indices c') + Z.to_nat (n - next) <
   length (delayed_factory_indices c) + Z.to_nat (n - next_factory_index c))%nat.
Proof.
  unfold has_next, next_index. destruct (delayed_factory_indices c) as [|j l] eqn:Ed; intros Hn [= <- <-].
  - rewrite bool_decide_true in Hn by done. cbn in Hn. bools. split; [done|].
    intros next ->. rewrite Z.eqb_refl, Ed. cbn. lia.
  - split; [done|]. intros next ->. cbn. destruct (_ =? _); lia.
Qed.

Lemma advance_next_queue i (w : W) :
  cursor (advance_next i w).2.2 =
    let c := cursor w.2 in
    set_next (if i =? next_factory_index c then next_factory_index c + 1 else next_factory_index c) c.
Proof. unfold advance_next, modify_agent. cbn. destruct (i =? _); [done|]. by destruct (cursor w.2). Qed.

(** A round that lets the loop go on leaves fewer rounds. *)
Lemma sync_round_rounds f n safe delayed w r w' :
  has_next n (cursor w.2) = true -> sync_round f safe delayed w = (Ok (r, true), w') ->
  (rounds n w' < rounds n w)%nat.
Proof.
  intros Hn Hr. unfold sync_round in Hr.
  apply St_bind_Ok in Hr as (a & w1 & [= <- <-] & Hr).
  destruct (next_index (cursor w.2)) as [i c] eqn:Ei.
  apply St_bind_Ok in Hr as ([] & w2 & Hw2 & Hr). apply pair_equal_spec in Hw2 as [_ <-].
  apply St_bind_Ok in Hr as (res & w3 & Hp & Hr).
  assert (Hq : cursor w3.2 = c).
  { pose proof (sync_proposal_cursor f i (w.1, with_cursor c w.2)) as Hk.
    destruct (sync_proposal f i _) as [[]  w4]; simplify_eq; exact Hk. }
  destruct (next_index_rounds _ _ _ _ Hn Ei) as [Hnext Hlt].
  assert (Hend : forall w4 w5, same_queue w3 w4 -> advance_next i w4 = (Ok tt, w5) -> (rounds n w5 < rounds n w)%nat).
  { intros w4 w5 [Hd Hx] Ha. pose proof (advance_next_queue i w4) as Hc. rewrite Ha in Hc. cbn [snd] in Hc.
    unfold rounds. rewrite Hc. cbn. rewrite Hd, Hx, Hq, Hnext. by apply Hlt. }
  destruct res as [[c' h|b|c' h]|]; [| | |by st_inv].
  - apply St_bind_Ok in Hr as ([] & w4 & Hs & Hr). apply St_bind_Ok in Hr as ([] & w5 & Ha & Hr).
    st_inv. simplify_eq. eapply Hend; [|exact Ha]. pose proof (on_success_queue c' h w3) as Hqq. by rewrite Hs in Hqq.
  - destruct (b <? safe); [by st_inv|]. apply St_bind_Ok in Hr as ([] & w5 & Ha & Hr).
    st_inv. simplify_eq. by eapply Hend.
  - apply St_bind_Ok in Hr as ([] & w4 & Hs & Hr). apply St_bind_Ok in Hr as ([] & w5 & Ha & Hr).
    st_inv. simplify_eq. eapply Hend; [|exact Ha]. destruct (negb _).
    + pose proof (sync_l1_head_queue c' h w3) as Hqq. by rewrite Hs in Hqq.
    + by apply pair_equal_spec in Hs as [_ <-].
Qed.

Lemma sync_loop_terminates stuck stuck' f n safe fuel delayed w :
  (rounds n w < fuel)%nat ->
  sync_loop stuck fuel f n safe delayed w = sync_loop stuck' fuel f n safe delayed w.
Proof.
  revert delayed w. induction fuel as [|fuel IH]; intros delayed w Hm; [lia|]. cbn [sync_loop].
  change ((if negb (has_next n (cursor w.2)) then mret delayed
     else '(delayed, more) ← sync_round f safe delayed;
       if more : bool then sync_loop stuck fuel f n safe delayed else mret delayed) w =
    (if negb (has_next n (cursor w.2)) then mret delayed
     else '(delayed, more) ← sync_round f safe delayed;
       if more : bool then sync_loop stuck' fuel f n safe delayed else mret delayed) w).
  destruct (has_next n (cursor w.2)) eqn:Hn; [|done]. cbn [negb]. unfold mbind, St_bind.
  destruct (sync_round f safe delayed w) as [[[r []]|?|?] w'] eqn:Er; [|done..].
  apply IH. pose proof (sync_round_rounds _ _ _ _ _ _ _ Hn Er). lia.
Qed.

(** The stored proposals that follow the last resolved one. *)
Definition unresolved (a : SyncAgent) : gset Z :=
  filter (fun k => last_resolved_game (cursor a) < k) (dom (proposals a)).

Lemma prune_data_dom a : dom (proposals (prune_data a).2) ⊆ dom (proposals a).
Proof.
  destruct (prune_data_proposals a) as [->| ->]; [done|]. apply dom_filter_subseteq.
Qed.

Lemma prune_data_last a : last_resolved_game (cursor (prune_data a).2) = last_resolved_game (cursor a).
Proof.
  unfold prune_data. case_bool_decide; [done|]. set (a' := with_cursor _ _).
  assert (Ha : last_resolved_game (cursor a') = last_resolved_game (cursor a)) by done.
  destruct (proposals a' !! _) as [last|]; [|done]. destruct (blocks_per_proposal _) as [blocks|?|?]; [|done..].
  set (e := sat_sub _ _). pose proof (prune_outputs_frame (Z.to_nat e) 1 e a') as (_ & Hc & _).
  destruct (prune_outputs (Z.to_nat e) 1 e a') as [[] a'']; cbn [snd] in *; [|by rewrite Hc..].
  destruct (l1_heads_inv a'' !! _) as [[? b]|]; cbn; by rewrite Hc.
Qed.

Lemma resolve_round_unresolved w w' :
  inv w -> resolve_round w = (Ok true, w') -> (size (unresolved w'.2) < size (unresolved w.2))%nat.
Proof.
  intros Hw Hr. unfold resolve_round in Hr. apply St_bind_Ok in Hr as (a & w1 & [= <- <-] & Hr).
  apply St_bind_Ok in Hr as (last & w2 & Hlast & Hr). apply lift_Ok in Hlast as [Hlast%ok_or_Ok ->].
  destruct (successor last) as [i|] eqn:Es; [|by st_inv].
  apply St_bind_Ok in Hr as (p & w2 & Hp & Hr). apply lift_Ok in Hp as [Hp%ok_or_Ok ->].
  destruct (inv_successor _ Hw _ _ _ Hlast Es) as [Hlt _].
  apply St_bind_Ok in Hr as (at_ & w2 & Hat & Hr).
  assert (w2.2 = w.2) as Hw2.
  { unfold on_node in Hat. destruct (fetch_resolved_at p w.1) as [? ?]. by apply pair_equal_spec in Hat as [_ <-]. }
  destruct (at_ =? 0); [by st_inv|].
  apply St_bind_Ok in Hr as ([] & w3 & Hm & Hr). apply pair_equal_spec in Hm as [_ <-].
  apply St_bind_Ok in Hr as ([] & w4 & Hpr & Hr). st_inv. rewrite Hw2 in Hpr. unfold prune_logged in Hpr.
  cbn [fst snd] in Hpr. set (b := with_cursor _ _) in Hpr.
  assert (Hw' : w'.2 = (prune_data b).2) by (destruct (prune_data b) as [[] ?]; by simplify_eq).
  rewrite Hw'. apply subset_size. unfold unresolved. rewrite prune_data_last.
  pose proof (prune_data_dom b) as Hdom.
  assert (Hb : dom (proposals b) = dom (proposals w.2)).
  { unfold b. cbn. rewrite dom_insert_lookup_L; [done|by eexists]. }
  rewrite Hb in Hdom. change (last_resolved_game (cursor b)) with i.
  apply strict_spec_alt. split.
  - intros k [? Hk]%elem_of_filter. apply elem_of_filter. split; [lia|by apply Hdom].
  - intros Heq. assert (Hi : i ∈ filter (fun k => last_resolved_game (cursor w.2) < k) (dom (proposals w.2))).
    { apply elem_of_filter. split; [done|]. apply elem_of_dom. by eexists. }
    rewrite <-Heq in Hi. apply elem_of_filter in Hi as [? _]. lia.
Qed.

Lemma resolve_loop_terminates stuck stuck' fuel w :
  inv w -> (size (unresolved w.2) < fuel)%nat -> resolve_loop stuck fuel w = resolve_loop stuck' fuel w.
Proof.
  revert w. induction fuel as [|fuel IH]; intros w Hw Hm; [lia|]. cbn [resolve_loop]. unfold mbind, St_bind.
  pose proof (resolve_round_triple w Hw) as Hi.
  destruct (resolve_round w) as [[[]|?|?] w'] eqn:Er; [|done..].
  apply IH; [exact Hi|]. pose proof (resolve_round_unresolved _ _ Hw Er). lia.
Qed.

Lemma unresolved_size a : (size (unresolved a) <= size (proposals a))%nat.
Proof. rewrite <-size_dom. apply subseteq_size. unfold unresolved. intros k Hk%elem_of_filter. by destruct Hk. Qed.

(** ** Lemmas: the output roots *)

(** The blocks [V] were brought in: each has an output root, the new ones are
    persisted and not above the last output index, and no other block changed. *)
Record synced (V : Z -> Prop) (a a' : SyncAgent) : Prop := {
  synced_in : forall b, V b -> is_Some (outputs a' !! b);
  synced_new : forall b, V b -> outputs a !! b = None ->
    db a' !! b = outputs a' !! b /\ b <= last_output_index (cursor a');
  synced_out : forall b, ~ V b -> outputs a' !! b = outputs a !! b /\ db a' !! b = db a !! b;
  synced_last : last_output_index (cursor a) <= last_output_index (cursor a');
}.

Lemma synced_trans (V1 V2 : Z -> Prop) a a1 a2 :
  (forall b, V1 b -> V2 b -> False) -> synced V1 a a1 -> synced V2 a1 a2 ->
  synced (fun b => V1 b \/ V2 b) a a2.
Proof.
  intros Hd [I1 N1 O1 L1] [I2 N2 O2 L2]. split; [| | |lia].
  - intros b [Hb|Hb]; [|auto]. destruct (O2 b) as [-> _]; [eauto|auto].
  - intros b [Hb|Hb] Hn.
    + destruct (O2 b) as [-> ->]; [eauto|]. destruct (N1 b Hb Hn). split; [done|lia].
    + apply N2; [done|]. destruct (O1 b) as [-> _]; [eauto|done].
  - intros b Hb. destruct (O2 b) as [-> ->]; [tauto|]. apply O1. tauto.
Qed.

Lemma record_output_facts i o a :
  outputs (record_output i o a) = <[i := o]> (outputs a) /\ db (record_output i o a) = db a /\
  last_output_index (cursor (record_output i o a)) = Z.max i (last_output_index (cursor a)).
Proof.
  unfold record_output. cbn. split_and!; [done..|]. destruct (_ <? _) eqn:E; bools; cbn; lia.
Qed.

(** Loading what is persisted. *)
Lemma load_persisted_facts l a :
  let a' := foldl load_persisted a l in
  db a' = db a /\ last_output_index (cursor a) <= last_output_index (cursor a') /\
  forall b, (b ∉ l -> outputs a' !! b = outputs a !! b) /\
    (b ∈ l -> match db a !! b with
              | Some o => outputs a' !! b = Some o /\ b <= last_output_index (cursor a')
              | None => outputs a' !! b = outputs a !! b
              end).
Proof.
  revert a. induction l as [|i l IH]; intros a; cbn [foldl].
  { split_and!; [done|lia|]. intros b. split; [done|]. by intros Hin%elem_of_nil. }
  destruct (IH (load_persisted a i)) as (Hdb & Hlast & Hb).
  assert (Hd : db (load_persisted a i) = db a).
  { unfold load_persisted. destruct (db a !! i) as [o|]; [apply record_output_facts|done]. }
  assert (Hl : last_output_index (cursor a) <= last_output_index (cursor (load_persisted a i))).
  { unfold load_persisted. destruct (db a !! i) as [o|]; [|lia].
    destruct (record_output_facts i o a) as (_ & _ & ->). lia. }
  rewrite Hd in Hdb. split_and!; [done|lia|]. intros b. specialize (Hb b) as [Hout Hin]. rewrite Hd in Hin.
  assert (Hi : outputs (load_persisted a i) !! b =
    if decide (b = i) then match db a !! i with Some o => Some o | None => outputs a !! b end else outputs a !! b).
  { unfold load_persisted. destruct (db a !! i) as [o|]; [|by case_decide].
    destruct (record_output_facts i o a) as (-> & _ & _). rewrite lookup_insert.
    repeat case_decide; congruence. }
  rewrite not_elem_of_cons, elem_of_cons. split.
  - intros [? ?]. rewrite Hout, Hi by done. by rewrite decide_False.
  - intros Hb. destruct (decide (b ∈ l)) as [Hbl|Hbl].
    + specialize (Hin Hbl). destruct (db a !! b) as [o|] eqn:Eo; [done|]. rewrite Hin, Hi.
      case_decide; [|done]. subst. by rewrite Eo.
    + destruct Hb as [->|]; [|done]. rewrite Hout, Hi, decide_True by done.
      destruct (db a !! i) as [o|] eqn:Eo; [|done]. split; [done|].
      revert Hlast. unfold load_persisted at 1. rewrite Eo.
      destruct (record_output_facts i o a) as (_ & _ & ->). lia.
Qed.

(** Fetching the rest. *)
Lemma fetch_outputs_facts l (w : W) :
  let a := w.2 in let a' := (foldl (fun w i => fetch_output i w) w l).2 in
  last_output_index (cursor a) <= last_output_index (cursor a') /\
  forall b, (b ∉ l -> outputs a' !! b = outputs a !! b /\ db a' !! b = db a !! b) /\
    (b ∈ l -> is_Some (outputs a' !! b) /\ db a' !! b = outputs a' !! b /\ b <= last_output_index (cursor a')).
Proof.
  revert w. induction l as [|i l IH]; intros w; cbn [foldl].
  { split; [lia|]. intros b. split; [done|]. by intros Hin%elem_of_nil. }
  destruct (IH (fetch_output i w)) as (Hlast & Hb). destruct w as [s a]. cbn [snd] in *.
  assert (exists o, outputs (fetch_output i (s, a)).2 = <[i := o]> (outputs a) /\
      db (fetch_output i (s, a)).2 = <[i := o]> (db a) /\
      last_output_index (cursor (fetch_output i (s, a)).2) = Z.max i (last_output_index (cursor a)))
    as (o & Ho & Hd & Hl).
  { unfold fetch_output. destruct (output_at_block i s) as [o s']. exists o. cbn [snd].
    destruct (record_output_facts i o a) as (H1' & H2' & H3'). by split_and!. }
  rewrite Ho, Hd, Hl in *. split; [lia|]. intros b. specialize (Hb b) as [Hout Hin].
  rewrite not_elem_of_cons, elem_of_cons. split.
  - intros [? Hbl]. destruct (Hout Hbl) as [-> ->]. by rewrite !lookup_insert_ne by done.
  - intros Hb. destruct (decide (b ∈ l)) as [Hbl|Hbl]; [auto|]. destruct Hb as [->|]; [|done].
    destruct (Hout Hbl) as [-> ->]. rewrite !lookup_insert_eq. split_and!; [by eexists|done|lia].
Qed.

Lemma elem_of_stepped start end_ step b :
  0 < step -> b ∈ stepped start end_ step <-> exists k, 0 <= k /\ b = start + k * step /\ b <= end_ /\ start <= end_.
Proof.
  intros Hs. unfold stepped. rewrite list_elem_of_fmap. setoid_rewrite elem_of_seq. split.
  - intros (k & -> & _ & Hk). exists (Z.of_nat k). split_and!; [lia|done| |].
    + assert (Z.of_nat k <= (end_ - start) / step) by lia. pose proof (Z.mul_div_le (end_ - start) step). nia.
    + assert (0 <= (end_ - start) / step) by lia. pose proof (Z.mul_div_le (end_ - start) step). nia.
  - intros (k & Hk & -> & He & Hse). exists (Z.to_nat k). rewrite Z2Nat.id by done. split_and!; [done|lia|].
    assert (k <= (end_ - start) / step) by (apply Z.div_le_lower_bound; lia). lia.
Qed.

Lemma sync_chunk_synced start end_ step (w : W) :
  0 < step -> synced (fun b => b ∈ stepped start end_ step) w.2 (sync_chunk start end_ step w).2.
Proof.
  intros Hs. unfold sync_chunk. set (l := stepped start end_ step). set (a := foldl load_persisted w.2 l).
  destruct (load_persisted_facts l w.2) as (Hdb & Hl1 & Hp). fold a in Hdb, Hl1, Hp.
  set (l' := filter (fun i => outputs a !! i = None) l).
  destruct (fetch_outputs_facts l' (w.1, a)) as (Hl2 & Hf). cbn [snd] in Hl2, Hf.
  set (a' := (foldl _ _ l').2) in *.
  assert (Hin' : forall b, b ∈ l' <-> outputs a !! b = None /\ b ∈ l) by (intros; unfold l'; by rewrite list_elem_of_filter).
  split; [| | |cbn; lia].
  - intros b Hb. destruct (Hf b) as [Hout Hin]. destruct (outputs a !! b) as [o|] eqn:Eo.
    + destruct Hout as [-> _]; [rewrite Hin', Eo; naive_solver|by eexists].
    + apply Hin. by rewrite Hin'.
  - intros b Hb Hn. destruct (Hf b) as [Hout Hin]. destruct (Hp b) as [_ Hpb]. specialize (Hpb Hb).
    destruct (outputs a !! b) as [o|] eqn:Eo.
    + destruct Hout as [-> ->]; [rewrite Hin', Eo; naive_solver|]. rewrite Hdb.
      destruct (db w.2 !! b) as [o'|]; [|congruence]. destruct Hpb as [? ?]. split; [congruence|lia].
    + destruct Hin as (_ & ? & ?); [by rewrite Hin'|done].
  - intros b Hb. destruct (Hf b) as [Hout _]. destruct (Hp b) as [Hpo _].
    destruct Hout as [-> ->]; [rewrite Hin'; tauto|]. rewrite Hdb. auto.
Qed.

(** The blocks [start], [start + step], ... up to [end_]. *)
Definition visited (start end_ step b : Z) : Prop := exists k, 0 <= k /\ b = start + k * step /\ b <= end_.

Lemma synced_ext (V V' : Z -> Prop) a a' : (forall b, V b <-> V' b) -> synced V a a' -> synced V' a a'.
Proof.
  intros HV [I N O L]. split; [| | |done]; intros b Hb.
  - by apply I, HV.
  - by apply N, HV.
  - apply O. by rewrite HV.
Qed.

Lemma sync_outputs_synced fuel start end_ step (w : W) :
  0 <= start -> 0 < step -> end_ + 128 * step < 2 ^ 64 ->
  (Z.to_nat (end_ - start + 1) < fuel)%nat ->
  exists w', sync_outputs fuel start end_ step w = (Ok tt, w') /\ synced (visited start end_ step) w.2 w'.2.
Proof.
  intros Hs Hstep Hbig. revert start Hs w. induction fuel as [|fuel IH]; intros start Hs w Hf; [lia|].
  cbn [sync_outputs]. destruct (end_ <? start) eqn:E; bools.
  { exists w. split; [done|]. split; [| |done|lia]; intros b (k & ? & ? & ?); nia. }
  unfold u64_mul, u64_add. rewrite (arith_fits host 64 (128 * step)) by (unfold in_width; lia).
  cbn [mbind outcome_bind]. rewrite (arith_fits host 64 (start + 128 * step)) by (unfold in_width; lia).
  rewrite (proj2 (Z.eqb_neq step 0)) by lia. set (last := Z.min end_ (start + 128 * step)).
  rewrite (arith_fits host 64 (last + step)) by (unfold in_width; lia).
  destruct (IH (last + step) ltac:(lia) (sync_chunk start last step w) ltac:(lia)) as (w' & -> & Hw').
  exists w'. split; [done|]. pose proof (sync_chunk_synced start last step w Hstep) as Hc.
  eapply synced_ext; [|eapply synced_trans; [|exact Hc|exact Hw']].
  - intros b. cbv beta. rewrite elem_of_stepped by done. unfold visited. split.
    + intros [(k & ? & -> & ? & ?)|(k & ? & -> & ?)]; [exists k; lia|].
      destruct (decide (end_ <= start + 128 * step)); [exfalso; nia|].
      exists (k + 129). nia.
    + intros (k & ? & -> & ?). destruct (decide (start + k * step <= last)); [left; exists k; lia|right].
      exists (k - 129). split; nia.
  - intros b. cbv beta. rewrite elem_of_stepped by done. intros (k & ? & -> & ? & ?) (j & ? & ? & ?). nia.
Qed.
End invariant.

(** ** Properties *)

(** C27. The agent's verdict is the truth by its own outputs: if
    [assess_correctness] judges a game whose lists of verdicts are as long as
    its lists of elements, the verdict is positive exactly if the game was
    resolved already or its parent is known to be correct, its root claim is
    the output root of its block, each intermediate element is the field
    element of the output root of its block (counted from the start of the
    proposal in steps of the output span), and its trailing data is zero. *)
Theorem assess_correctness_spec a p p' correct :
  assess_correctness a p = Ok (p', correct) -> has_parent p = true ->
  length (correct_io p) = length (io_field_elements p) ->
  length (correct_trail p) = length (trail_field_elements p) ->
  is_correct p' = Some correct /\ (correct = true <-> parent_right a p /\ matches_outputs a p).
Proof.
  intros Ha Hp Hl1 Hl2.
  destruct (assess_correctness_Ok _ _ _ _ Ha Hp) as
    (io & trail & claim & par & -> & Hc & Hpar & (local & Hlocal & ->) & Hio & Htr & Hjio & Hjtr).
  split; [done|]. rewrite (is_correct_decided _ _ Hc), is_correct_true, Forall_app.
  cbn [set_verdicts correct_parent correct_claim correct_io correct_trail].
  apply is_parent_correct_Ok in Hpar. unfold matches_outputs. rewrite <-Hpar, Hlocal.
  rewrite (verdicts_right io (io_field_elements p) (fun i fe =>
    exists h, outputs a !! (starting_block a p + (Z.of_nat i + 1) * output_block_span (deployment a)) = Some h /\
      hash_to_fe h = fe)); [|by rewrite Hio| ].
  2:{ intros i fe Hi. destruct (Hjio i fe Hi) as (b & (_ & _ & h & Hh & ->)%judge_Ok & Hl).
      eexists. split; [exact Hl|]. rewrite Z.eqb_eq, Hh. naive_solver. }
  rewrite (verdicts_right trail (trail_field_elements p) (fun _ fe => fe = 0)); [|by rewrite Htr|].
  2:{ intros i fe Hi. eexists. split; [by apply Hjtr|]. apply Z.eqb_eq. }
  rewrite (Forall_lookup _ (trail_field_elements p)).
  destruct (Z.eqb_spec local (output_root p)); naive_solver.
Qed.

(** [sync_outputs] brings in every output root it is asked for: without
    overflow it terminates, and then each block from [start] in steps of [step]
    up to [end_] has an output root; those that were missing are also persisted
    and not above the last output index, which never decreases; no other
    block's output root, in memory or persisted, has changed. *)
Theorem sync_outputs_spec {S} `{OpNode S} start end_ step (s : S) a :
  0 <= start -> 0 < step -> end_ + 128 * step < 2 ^ 64 ->
  exists s' a', sync_outputs (sync_fuel start end_) start end_ step (s, a) = (Ok tt, (s', a')) /\
    synced (visited start end_ step) a a'.
Proof.
  intros. destruct (sync_outputs_synced (sync_fuel start end_) start end_ step (s, a)) as ([s' a'] & ? & ?);
    [done..|unfold sync_fuel; lia|]. by exists s', a'.
Qed.

(** C8. The agent's store is consistent, whatever a synchronization meets: if
    contracts are created after their parents, then after [sync], successful or
    not, every stored proposal is still filed under its index and decided, a
    canonical one is correct, and a successor is stored and later than its
    parent (so that looking a successor up never panics). *)
Theorem sync_preserves_store {S} `{Nodes S} `{OpNode S} `{Kzg} delay final (s : S) a :
  parents_first (S := S) -> props_inv (proposals a) ->
  props_inv (proposals (sync delay final (s, a)).2.2).
Proof. intros Hpf Ha. exact (triple_invariant inv _ (s, a) (sync_inv delay final Hpf) Ha). Qed.

(** The two loops of [sync] end: the loop over the proposals within as many
    rounds as there are delayed indices and new games, and, from a consistent
    store, the loop over the resolutions within as many as there are stored
    proposals; with more fuel than that, what they would do without fuel does
    not matter. *)
Theorem sync_loops_terminate {S} `{Nodes S} `{OpNode S} `{Kzg} (s : S) a stuck stuck' fuel :
  (forall f n safe delayed,
     (length (delayed_factory_indices (cursor a)) + Z.to_nat (n - next_factory_index (cursor a)) < fuel)%nat ->
     sync_loop stuck fuel f n safe delayed (s, a) = sync_loop stuck' fuel f n safe delayed (s, a)) /\
  (props_inv (proposals a) -> (size (proposals a) < fuel)%nat ->
     resolve_loop stuck fuel (s, a) = resolve_loop stuck' fuel (s, a)).
Proof.
  split.
  - intros f n safe delayed Hf. by apply sync_loop_terminates.
  - intros Ha Hf. apply resolve_loop_terminates; [done|]. pose proof (unresolved_size a). cbn. lia.
Qed.

(** ** Delayed proposals and single outputs

    Three situations that the loop does not handle as intended. *)

Section defects.
Context {S : Type} `{Nodes S} `{OpNode S} `{Kzg}.

Lemma next_index_delayed (c : SyncCursor) i l :
  delayed_factory_indices c = i :: l -> next_index c = (i, set_delayed l c).
Proof. unfold next_index. by intros ->. Qed.

Lemma St_bind_run {X A B} (m : St X A) (f : A -> St X B) x r x' :
  m x = (r, x') -> (m ≫= f) x = match r with
                                | Ok a => f a x' | Err e => (Err e, x') | Panic w => (Panic w, x') end.
Proof. unfold mbind, St_bind. by intros ->. Qed.

Lemma on_success_missing c h (w : S * SyncAgent) :
  proposals w.2 !! next_factory_index (cursor w.2) = None ->
  exists w', on_success c h w = (Err "Failed to load immediately processed proposal", w') /\
    proposals w'.2 = proposals w.2 /\ cursor w'.2 = cursor w.2.
Proof.
  intros Hn. destruct w as [s a]. unfold on_success.
  destruct (l1_block_number h s) as [k s'] eqn:El.
  eexists. erewrite St_bind_run; [|unfold sync_l1_head, on_node, mbind, St_bind; cbn; by rewrite El].
  cbv beta iota. erewrite St_bind_run by done. cbv beta iota.
  erewrite St_bind_run; [|unfold lift; cbn in *; by rewrite Hn]. done.
Qed.

(** The state in which a round calls [sync_proposal] on a delayed index. *)
Definition popped (l : list Z) (s : S) (a : SyncAgent) : S * SyncAgent :=
  (s, with_cursor (set_delayed l (cursor a)) a).

Lemma sync_loop_delayed stuck fuel f n safe delayed i l (s : S) a r w' :
  delayed_factory_indices (cursor a) = i :: l -> sync_proposal f i (popped l s a) = (Ok r, w') ->
  sync_loop stuck (Datatypes.S fuel) f n safe delayed (s, a) =
  ('(delayed, more) ←
     match r with
     | IGNORED contract l1_head =>
         _ ← (if negb (l1_head =? 0) then sync_l1_head contract l1_head else mret tt);
         _ ← advance_next i;
         mret (delayed, true)
     | DELAYED proposal_block =>
         if proposal_block <? safe then mret (delayed, false)
         else _ ← advance_next i; mret (delayed ++ [i], true)
     | SUCCESS contract l1_head =>
         _ ← on_success contract l1_head; _ ← advance_next i; mret (delayed, true)
     end;
   if more : bool then sync_loop stuck fuel f n safe delayed else mret delayed) w'.
Proof.
  intros Hd Hp. cbn [sync_loop]. erewrite St_bind_run by done. cbv beta iota. cbn [snd].
  assert (has_next n (cursor a) = true) as -> by (unfold has_next; by rewrite Hd). cbn [negb].
  assert (Hr : sync_round f safe delayed (s, a) =
    (match r with
     | IGNORED contract l1_head =>
         _ ← (if negb (l1_head =? 0) then sync_l1_head contract l1_head else mret tt);
         _ ← advance_next i;
         mret (delayed, true)
     | DELAYED proposal_block =>
         if proposal_block <? safe then mret (delayed, false)
         else _ ← advance_next i; mret (delayed ++ [i], true)
     | SUCCESS contract l1_head =>
         _ ← on_success contract l1_head; _ ← advance_next i; mret (delayed, true)
     end : St (S * SyncAgent) (list Z * bool)) w').
  { unfold sync_round. erewrite St_bind_run by done. cbv beta iota. cbn [snd].
    rewrite (next_index_delayed _ _ _ Hd). erewrite St_bind_run by done. cbv beta iota.
    erewrite St_bind_run; [|unfold popped in Hp; cbn [fst]; by rewrite Hp]. cbv beta iota. by destruct r. }
  unfold mbind at 1, St_bind at 1. rewrite Hr. by destruct r.
Qed.

(** A delayed proposal that is processed successfully is looked up under the
    next factory index, where there is nothing: the synchronization fails, and
    although the proposal is stored the tip does not move to it. *)
Theorem delayed_success_aborts stuck fuel f n safe delayed i l (s : S) a c h w' :
  delayed_factory_indices (cursor a) = i :: l ->
  sync_proposal f i (popped l s a) = (Ok (SUCCESS c h), w') ->
  proposals w'.2 !! next_factory_index (cursor a) = None ->
  exists w'', sync_loop stuck (Datatypes.S fuel) f n safe delayed (s, a) =
      (Err "Failed to load immediately processed proposal", w'') /\
    proposals w''.2 = proposals w'.2 /\ cursor w''.2 = set_delayed l (cursor a).
Proof.
  intros Hd Hp Hn. pose proof (sync_proposal_cursor f i (popped l s a)) as Hc. rewrite Hp in Hc. cbn in Hc.
  rewrite (sync_loop_delayed _ _ _ _ _ _ _ _ _ _ _ _ Hd Hp).
  destruct (on_success_missing c h w') as (w'' & Hs & Hps & Hcs); [by rewrite Hc|].
  exists w''. split; [|by rewrite Hcs].
  erewrite St_bind_run; [|erewrite St_bind_run by exact Hs; reflexivity]. done.
Qed.

(** A delayed proposal that is still ahead of the agent, but not of the
    op-node, is dropped: it is in neither queue afterwards. *)
Theorem delayed_dropped stuck fuel f n safe delayed i l (s : S) a b w' :
  delayed_factory_indices (cursor a) = i :: l ->
  sync_proposal f i (popped l s a) = (Ok (DELAYED b), w') -> b < safe ->
  sync_loop stuck (Datatypes.S fuel) f n safe delayed (s, a) = (Ok delayed, w') /\
  cursor w'.2 = set_delayed l (cursor a).
Proof.
  intros Hd Hp Hb. pose proof (sync_proposal_cursor f i (popped l s a)) as Hc. rewrite Hp in Hc.
  split; [|exact Hc]. rewrite (sync_loop_delayed _ _ _ _ _ _ _ _ _ _ _ _ Hd Hp).
  by rewrite (proj2 (Z.ltb_lt _ _)) by done.
Qed.

(** With a single output per proposal the agent never asks for an output root:
    the bound it syncs to is the one it must exceed. *)
Theorem single_output_never_syncs delay (w w' : S * SyncAgent) r :
  proposal_output_count (deployment w.2) = 1 -> sync_safe_head delay w = (r, w') -> w'.2 = w.2.
Proof.
  intros H1' Hs. destruct w as [s a]. cbn [snd] in *.
  unfold sync_safe_head, mbind, St_bind, on_node, get_agent, lift in Hs. cbn [fst snd] in Hs.
  destruct (safe_l2_number s) as [[m|] s']; cbn [ok_or fst snd] in Hs; [|by simplify_eq].
  destruct (blocks_per_proposal (deployment a)) as [blocks|?|?] eqn:Eb; [|by simplify_eq..].
  unfold blocks_per_proposal, u64_mul in Eb. apply (arith_checked host) in Eb as [-> _]; [|done].
  rewrite H1', Z.mul_1_l in Hs.
  destruct (u64_add host _ _) as [limit|?|?] eqn:El; [|by simplify_eq..].
  assert (limit <? Z.min (sat_sub m delay) limit = false) as Hf by (apply Z.ltb_ge; lia).
  rewrite Hf in Hs. unfold mret, St_ret in Hs. by simplify_eq.
Qed.
End defects.

(** ** Witnesses *)

Definition demo_deployment : SyncDeployment := {|
  treasury := 400; game := 399; verifier := 398; image_id := 55; cfg_hash := 1; proposal_output_count := 2;
  output_block_span := 2; proposal_blobs := 1; game_type := 57; factory := 300; timeout := 3600;
  genesis_time := 0; dep_block_time := 2 |}.
Definition demo_cursor : SyncCursor := {|
  canonical_proposal_tip := 5; next_factory_index := 6; delayed_factory_indices := [];
  last_output_index := 100; last_resolved_game := 5 |}.

(** The treasury's proposal, 5, for block 100; the output root at a block is
    2000 plus its number. *)
Definition demo_anchor : Proposal := {|
  contract := 400; p_treasury := 400; index_ := 5; parent := 5; proposer := 400; created_at := 900;
  io_blobs := []; io_field_elements := []; trail_field_elements := []; output_root := 2100;
  output_block_number := 100; l1_head := 8; signature := 0; children := ∅; successor := None;
  correct_io := []; correct_trail := []; correct_claim := Some true; correct_parent := Some true;
  canonical := Some true; resolved_at := 901 |}.
Definition demo_agent : SyncAgent := {|
  deployment := demo_deployment; da_provider := demo_da; db := ∅; cursor := demo_cursor;
  outputs := {[ 102 := 2102; 104 := 2104 ]}; proposals := {[ 5 := demo_anchor ]}; eliminations := ∅;
  l1_heads := ∅; l1_heads_inv := ∅ |}.
Definition demo_op_node : OpNode unit := {|
  output_at_block := fun b s => (2000 + b, s); safe_l2_number := fun s => (Some 110, s);
  l1_block_number := fun h s => (h, s) |}.

(** A child for block 104, with one intermediate output and two trailing
    elements. *)
Definition demo_child : Proposal := {|
  contract := 500; p_treasury := 400; index_ := 6; parent := 5; proposer := 9; created_at := 1000;
  io_blobs := []; io_field_elements := [2102]; trail_field_elements := [0; 0]; output_root := 2104;
  output_block_number := 104; l1_head := 8; signature := 0; children := ∅; successor := None;
  correct_io := [None]; correct_trail := [None; None]; correct_claim := None; correct_parent := None;
  canonical := None; resolved_at := 0 |}.

Lemma assess_correctness_spec_witness :
  let p' := set_verdicts [Some true] [Some true; Some true] (Some true) (Some true) demo_child in
  is_correct p' = Some true /\ (true = true <-> parent_right demo_agent demo_child /\ matches_outputs demo_agent demo_child).
Proof.
  apply (assess_correctness_spec demo_agent demo_child).
  - vm_compute. reflexivity.
  - reflexivity.
  - reflexivity.
  - reflexivity.
Defined.

Lemma sync_outputs_spec_witness :
  exists s' a', @sync_outputs unit demo_op_node (sync_fuel 100 104) 100 104 2 (tt, demo_agent) = (Ok tt, (s', a')) /\
    synced (visited 100 104 2) demo_agent a'.
Proof. apply (@sync_outputs_spec unit demo_op_node 100 104 2 tt demo_agent); reflexivity || lia. Defined.

Lemma demo_parents_first : @parents_first unit demo_nodes demo_kzg.
Proof.
  intros da address s p s' Hl. unfold load in Hl. st_inv. destruct (_ =? _).
  - unfold load_treasury in Hl. by st_inv.
  - unfold load_game in Hl. st_inv. cbn [parent index_].
    repeat match goal with X : joined (stall_u64 _ GameIndex) _ = _ |- _ => vm_compute in X; injection X as <- _
    | X : joined (stall _ ParentGameIndex) _ = _ |- _ => vm_compute in X; injection X as <- _ end. lia.
Qed.

Lemma demo_props_inv : props_inv (proposals demo_agent).
Proof.
  unfold demo_agent. cbn [proposals].
  split.
  - by intros k p [<- <-]%lookup_singleton_Some.
  - intros k p [<- <-]%lookup_singleton_Some. split_and!; [by eexists..|done].
  - by intros k p j [<- <-]%lookup_singleton_Some.
Qed.

Lemma sync_preserves_store_witness :
  props_inv (proposals (@sync unit demo_nodes demo_op_node demo_kzg 0 None (tt, demo_agent)).2.2).
Proof.
  apply (@sync_preserves_store unit demo_nodes demo_op_node demo_kzg 0 None tt demo_agent).
  - exact demo_parents_first.
  - exact demo_props_inv.
Defined.

Lemma sync_loops_terminate_witness :
  @resolve_loop unit demo_nodes "a"%string 2 (tt, demo_agent) = @resolve_loop unit demo_nodes "b"%string 2 (tt, demo_agent).
Proof.
  destruct (@sync_loops_terminate unit demo_nodes demo_op_node demo_kzg tt demo_agent "a"%string "b"%string 2) as [_ Hr].
  apply Hr; [exact demo_props_inv|]. vm_compute. lia.
Defined.
