(* ===== verification/FastTrack.v ===== *)
(** * bin/cli/src/fast_track.rs

    The migration of a rollup to Kailua: the contracts that are deployed, and the
    calls through the Safe that owns the factory, in their order. *)

From S2P Require Import Prelude Bytes Config Deployment Transact Witgen Agent.
Open Scope Z_scope.

Record FastTrackArgs := {
  ft_starting_block_number : Z; ft_proposal_output_count : Z; ft_output_block_span : Z;
  ft_collateral_amount : Z; ft_verifier_contract : option string; ft_challenge_timeout : Z;
  ft_deployer_signer : SignerArgs; ft_owner_signer : SignerArgs; ft_guardian_signer : option SignerArgs;
  ft_vanguard_address : option string; ft_vanguard_advantage : option Z;
  ft_respect_kailua_proposals : bool;
}.

(** The calls that go through the Safe. *)
Inductive OwnerCall :=
| SetImplementation (game_type impl : Z)
| SetInitBond (game_type bond : Z)
| ResolveGame
| SetParticipationBond (bond : Z)
| AssignVanguard (vanguard advantage : Z).

Inductive DeployTx :=
| DeployRouter (owner : Z)
| DeployGroth16 (control_root control_id : bytes)
| AddVerifier (router selector verifier : Z)
| DeployTreasury (verifier image_id config_hash output_count span game_type portal root_claim block : Z)
| ProposeRoot (treasury root_claim : Z) (extra_data : bytes)
| DeployGame (treasury genesis_time block_time timeout : Z)
| ExecTransaction (safe : Z) (call : SafeCall)
| SetRespectedGameType (portal game_type : Z).

(** The encoding of calls by the contract bindings, the constants of the
    verifier of risc0, and alloy's parser of addresses. *)
Class Bindings := {
  call_data : OwnerCall -> bytes;
  ALLOWED_CONTROL_ROOT : bytes;
  BN254_IDENTITY_CONTROL_ID : bytes;
  parse_address : string -> outcome Z;
}.
(** The owners of a Safe, and a transaction, sent by an account: the address of
    the contract that its receipt names. *)
Class DeployHost (S : Type) := {
  get_owners : Z -> S -> list Z * S;
  transact : Z -> DeployTx -> St S (option Z);
}.

Section fast_track.
Context {S : Type} `{Nodes S} `{OpNode S} `{Signers S} `{DeployHost S} `{Bindings} `{Digests} `{Images}.

(** The nodes, and what was sent, with its sender. *)
Abbreviation W := (S * list (Z * DeployTx))%type.
Definition transact_with_context (from : Z) (tx : DeployTx) : St W (option Z) := fun '(s, sent) =>
  let '(r, s) := transact from tx s in (r, (s, sent ++ [(from, tx)])).
Definition ask (contract : Z) (c : Call) : St W Z := on_fst (stall contract c).

(** [exec_safe_txn] of a call that carries no value and no gas limit. *)
Definition safe_tx (safe owner target : Z) (call : OwnerCall) : outcome DeployTx :=
  call ← exec_safe_txn (Some target) None (Some (call_data call)) None owner;
  Ok (ExecTransaction safe call).
Definition exec_owner_call (safe owner target : Z) (call : OwnerCall) : St W unit :=
  tx ← lift (safe_tx safe owner target call);
  _ ← transact_with_context owner tx;
  mret tt.

Definition deploy_verifier (deployer owner : Z) : St W Z :=
  receipt ← transact_with_context deployer (DeployRouter owner);
  verifier_contract ← lift (ok_or "RiscZeroVerifierRouter not deployed" receipt);
  receipt ← transact_with_context deployer
    (DeployGroth16 ALLOWED_CONTROL_ROOT (rev BN254_IDENTITY_CONTROL_ID));
  groth16_verifier ← lift (ok_or "RiscZeroGroth16Verifier not deployed" receipt);
  selector ← ask groth16_verifier SELECTOR;
  _ ← transact_with_context owner (AddVerifier verifier_contract selector groth16_verifier);
  mret verifier_contract.

(** The owner's wallet has to be the only owner of the Safe. *)
Definition open_safe (config : RollupConfig) (args : FastTrackArgs) (factory : Z) : St W (Z * Z) :=
  owner ← on_fst (args_to_wallet (ft_owner_signer args) (Some (l1_chain_id config)));
  _ ← ask factory GameCount;
  safe ← ask factory Owner;
  safe_owners ← on_fst (fun s => let '(owners, s) := get_owners safe s in (Ok owners, s));
  first ← lift (unwrap "first" (head safe_owners));
  _ ← lift (ensure (first =? owner) "Incorrect owner key.");
  _ ← lift (ensure (length safe_owners =? 1)%nat "Expected exactly one owner of safe account.");
  mret (safe, owner).

Definition anchor_data (args : FastTrackArgs) (treasury : Z) : bytes :=
  be_bytes 8 (ft_starting_block_number args) ++ address_bytes treasury.
(** The loop that waits for the first game; [None] if it is still waiting. *)
Fixpoint await_game (fuel : nat) (factory root_claim : Z) (data : bytes) : St W (option Z) :=
  match fuel with
  | O => mret None
  | Datatypes.S fuel =>
      result ← ask factory (Games KAILUA_GAME_TYPE root_claim data);
      if result =? 0 then await_game fuel factory root_claim data else mret (Some result)
  end.

(** The treasury, as the implementation of games, with its first game and bond. *)
Definition install_treasury (fuel : nat) (args : FastTrackArgs) (rollup_config_hash portal factory safe owner deployer verifier : Z)
    : St W (option Z) :=
  root_claim ← on_fst (fun s => let '(h, s) := output_at_block (ft_starting_block_number args) s in (Ok h, s));
  receipt ← transact_with_context deployer
    (DeployTreasury verifier KONA_ID rollup_config_hash (ft_proposal_output_count args)
       (ft_output_block_span args) KAILUA_GAME_TYPE portal root_claim (ft_starting_block_number args));
  treasury ← lift (ok_or "KailuaTreasury not deployed" receipt);
  _ ← exec_owner_call safe owner factory (SetImplementation KAILUA_GAME_TYPE treasury);
  installed ← ask factory (GameImpls KAILUA_GAME_TYPE);
  _ ← lift (assert_ (installed =? treasury) "gameImpls");
  init_bond ← ask factory (InitBonds KAILUA_GAME_TYPE);
  _ ← (if negb (init_bond =? 0) then
         _ ← exec_owner_call safe owner factory (SetInitBond KAILUA_GAME_TYPE 0);
         bond ← ask factory (InitBonds KAILUA_GAME_TYPE);
         lift (assert_ (bond =? 0) "initBonds")
       else mret tt);
  _ ← transact_with_context deployer (ProposeRoot treasury root_claim (anchor_data args treasury));
  instance ← await_game fuel factory root_claim (anchor_data args treasury);
  match instance with
  | None => mret None
  | Some instance =>
      status ← ask instance Status;
      _ ← (if status =? 0 then exec_owner_call safe owner instance ResolveGame else mret tt);
      _ ← exec_owner_call safe owner treasury (SetParticipationBond (ft_collateral_amount args));
      bond ← ask treasury ParticipationBond;
      _ ← lift (assert_ (bond =? ft_collateral_amount args) "participationBond");
      mret (Some treasury)
  end.

Definition assign_vanguard (args : FastTrackArgs) (safe owner treasury : Z) : St W unit :=
  match ft_vanguard_address args with
  | None => mret tt
  | Some address =>
      vanguard ← lift (parse_address address);
      let advantage := default (Z.shiftr u64_MAX 4) (ft_vanguard_advantage args) in
      exec_owner_call safe owner treasury (AssignVanguard vanguard advantage)
  end.

(** The game takes the place of the treasury. *)
Definition install_game (config : RollupConfig) (args : FastTrackArgs) (factory safe owner deployer treasury : Z) : St W unit :=
  receipt ← transact_with_context deployer
    (DeployGame treasury (l2_time (genesis config)) (block_time config) (ft_challenge_timeout args));
  game ← lift (ok_or "KailuaGame not deployed" receipt);
  _ ← exec_owner_call safe owner factory (SetImplementation KAILUA_GAME_TYPE game);
  assign_vanguard args safe owner treasury.

Definition respect_kailua (config : RollupConfig) (args : FastTrackArgs) (portal : Z) : St W unit :=
  if ft_respect_kailua_proposals args then
    signer ← lift (ok_or "Guardian signer not provided" (ft_guardian_signer args));
    guardian ← on_fst (args_to_wallet signer (Some (l1_chain_id config)));
    portal_guardian ← ask portal Guardian;
    _ ← lift (ensure (portal_guardian =? guardian) "OptimismPortal2 Guardian");
    _ ← transact_with_context guardian (SetRespectedGameType portal KAILUA_GAME_TYPE);
    mret tt
  else mret tt.

(** [fast_track], with the fetched configuration; [false] if it is still waiting
    for the first game. *)
Definition fast_track (fuel : nat) (config : RollupConfig) (args : FastTrackArgs) : St W bool :=
  rollup_config_hash ← lift (config_hash config);
  portal ← ask (l1_system_config_address config) OptimismPortal;
  factory ← ask (l1_system_config_address config) DisputeGameFactory;
  '(safe, owner) ← open_safe config args factory;
  deployer ← on_fst (args_to_wallet (ft_deployer_signer args) (Some (l1_chain_id config)));
  verifier ← (match ft_verifier_contract args with
              | None => deploy_verifier deployer owner
              | Some address => lift (parse_address address)
              end);
  treasury ← install_treasury fuel args rollup_config_hash portal factory safe owner deployer verifier;
  match treasury with
  | None => mret false
  | Some treasury =>
      _ ← install_game config args factory safe owner deployer treasury;
      _ ← respect_kailua config args portal;
      mret true
  end.
End fast_track.

(** ** What is sent *)

Section fast_track_spec.
Context {S : Type} `{Nodes S} `{OpNode S} `{Signers S} `{DeployHost S} `{Bindings} `{Digests} `{Images}.
Variables (config : RollupConfig) (args : FastTrackArgs).
Abbreviation W := (S * list (Z * DeployTx))%type.
Abbreviation log := (list (Z * DeployTx)).

(** A call through the Safe: exactly this call, without value, approved by the owner. *)
Definition owner_tx (safe owner target : Z) (call : OwnerCall) : Z * DeployTx :=
  (owner, ExecTransaction safe {|
     safe_to := target; safe_value := 0; safe_data := call_data call; safe_operation := 0;
     safe_tx_gas := 0; safe_base_gas := 0; safe_gas_price := 0; safe_gas_token := 0;
     safe_refund_receiver := 0; safe_signatures := approval owner |}).

(** The accounts and contracts of a migration. *)
Record Upgrade := {
  u_hash : Z; u_portal : Z; u_factory : Z; u_safe : Z; u_owner : Z; u_deployer : Z;
  u_groth16 : Z; u_selector : Z; u_verifier : Z; u_root : Z; u_treasury : Z; u_init_bond : Z;
  u_instance : Z; u_status : Z; u_game : Z; u_vanguard : Z; u_guardian : Z;
}.

Definition verifier_plan (deployer owner verifier groth16 selector : Z) : log :=
  [(deployer, DeployRouter owner);
   (deployer, DeployGroth16 ALLOWED_CONTROL_ROOT (rev BN254_IDENTITY_CONTROL_ID));
   (owner, AddVerifier verifier selector groth16)].
Definition treasury_deployment (hash portal verifier root : Z) : DeployTx :=
  DeployTreasury verifier KONA_ID hash (ft_proposal_output_count args) (ft_output_block_span args)
    KAILUA_GAME_TYPE portal root (ft_starting_block_number args).
Definition treasury_plan (hash portal factory safe owner deployer verifier root treasury init_bond instance status : Z) : log :=
  [(deployer, treasury_deployment hash portal verifier root);
   owner_tx safe owner factory (SetImplementation KAILUA_GAME_TYPE treasury)] ++
  (if negb (init_bond =? 0) then [owner_tx safe owner factory (SetInitBond KAILUA_GAME_TYPE 0)] else []) ++
  [(deployer, ProposeRoot treasury root (anchor_data args treasury))] ++
  (if status =? 0 then [owner_tx safe owner instance ResolveGame] else []) ++
  [owner_tx safe owner treasury (SetParticipationBond (ft_collateral_amount args))].
Definition game_deployment (treasury : Z) : DeployTx :=
  DeployGame treasury (l2_time (genesis config)) (block_time config) (ft_challenge_timeout args).
Definition game_plan (factory safe owner deployer treasury game vanguard : Z) : log :=
  [(deployer, game_deployment treasury);
   owner_tx safe owner factory (SetImplementation KAILUA_GAME_TYPE game)] ++
  (if bool_decide (is_Some (ft_vanguard_address args)) then
     [owner_tx safe owner treasury
        (AssignVanguard vanguard (default (Z.shiftr u64_MAX 4) (ft_vanguard_advantage args)))]
   else []).

(** The verifier, given or deployed. *)
Definition verifier_part (deployer owner verifier groth16 selector : Z) : log :=
  if bool_decide (is_Some (ft_verifier_contract args)) then []
  else verifier_plan deployer owner verifier groth16 selector.

(** Everything but the last transaction, and the last one. *)
Definition installation (u : Upgrade) : log :=
  verifier_part (u_deployer u) (u_owner u) (u_verifier u) (u_groth16 u) (u_selector u) ++
  treasury_plan (u_hash u) (u_portal u) (u_factory u) (u_safe u) (u_owner u) (u_deployer u)
    (u_verifier u) (u_root u) (u_treasury u) (u_init_bond u) (u_instance u) (u_status u) ++
  game_plan (u_factory u) (u_safe u) (u_owner u) (u_deployer u) (u_treasury u) (u_game u) (u_vanguard u).
(** The account of a signer, and the contract that a transaction created. *)
Definition account (signer : SignerArgs) (a : Z) : Prop :=
  exists s s' : S, args_to_wallet signer (Some (l1_chain_id config)) s = (Ok a, s').
Definition created (from : Z) (tx : DeployTx) (contract : Z) : Prop :=
  exists s s' : S, transact from tx s = (Ok (Some contract), s').
Definition sole_owner (safe owner : Z) : Prop := exists s : S, (get_owners safe s).1 = [owner].

(** Steps: from a log, to a log. *)
Definition logged (l : log) (w : W) : Prop := w.2 = l.

Section steps.
Context {B : Type} (Q : B -> W -> Prop) (E : W -> Prop).

Lemma step_send l from tx (k : option Z -> St W B) :
  (forall w, logged (l ++ [(from, tx)]) w -> E w) ->
  (forall r, (exists s s' : S, transact from tx s = (Ok r, s')) -> triple (logged (l ++ [(from, tx)])) (k r) Q E) ->
  triple (logged l) (transact_with_context from tx ≫= k) Q E.
Proof.
  intros HE Hk [s l'] Hl. unfold logged in Hl. cbn in Hl. subst l'.
  unfold mbind, St_bind, transact_with_context.
  destruct (transact from tx s) as [[r|e|w] s'] eqn:Et; [|by apply HE..]. apply Hk; eauto. done.
Qed.

Lemma step_ask {A} l (m : St S A) (k : A -> St W B) :
  (forall w, logged l w -> E w) ->
  (forall a, (exists s s' : S, m s = (Ok a, s')) -> triple (logged l) (k a) Q E) ->
  triple (logged l) (on_fst m ≫= k) Q E.
Proof.
  intros HE Hk [s l'] Hl. unfold logged in Hl. cbn in Hl. subst l'. unfold mbind, St_bind, on_fst.
  destruct (m s) as [[a|e|w] s'] eqn:Em; [|by apply HE..]. apply Hk; eauto. done.
Qed.

Lemma step_lift {A} l (o : outcome A) (k : A -> St W B) :
  (forall w, logged l w -> E w) -> (forall a, o = Ok a -> triple (logged l) (k a) Q E) ->
  triple (logged l) (lift o ≫= k) Q E.
Proof.
  intros HE Hk w Hl. unfold mbind, St_bind, lift. destruct o as [a|e|y] eqn:Eo; [|by apply HE..]. by apply Hk.
Qed.

Lemma step_query l contract c (k : Z -> St W B) :
  (forall w, logged l w -> E w) -> (forall v, answered contract c v -> triple (logged l) (k v) Q E) ->
  triple (logged l) (ask contract c ≫= k) Q E.
Proof. intros HE Hk. apply step_ask; [done|]. intros v (s & s' & Es%stall_answered). by apply Hk. Qed.

Lemma step_owner_call l safe owner target call (k : unit -> St W B) :
  (forall w, logged (l ++ [owner_tx safe owner target call]) w -> E w) ->
  triple (logged (l ++ [owner_tx safe owner target call])) (k tt) Q E ->
  triple (logged l) (exec_owner_call safe owner target call ≫= k) Q E.
Proof.
  intros HE Hk [s l'] Hl. unfold logged in Hl. cbn in Hl. subst l'.
  unfold exec_owner_call, safe_tx, exec_safe_txn, mbind, St_bind, lift, transact_with_context. cbn.
  destruct (transact _ _ s) as [[r|e|w] s'] eqn:Et; [|by apply HE..]. by apply Hk.
Qed.
End steps.

(** [m] sends a part of a plan, and all of it if it succeeds. *)
Definition follows {A U} (m : St W A) (plan : U -> log) (good : U -> A -> Prop) : Prop :=
  forall l, triple (logged l) m (fun a w => exists u, logged (l ++ plan u) w /\ good u a)
    (fun w => exists u, w.2 `prefix_of` l ++ plan u).

Lemma logged_prefix l new plan (w : W) : logged (l ++ new) w -> new `prefix_of` plan -> w.2 `prefix_of` l ++ plan.
Proof. intros -> Hp. by apply prefix_app. Qed.
Lemma logged_none l plan (w : W) : logged l w -> w.2 `prefix_of` l ++ plan.
Proof. intros ->. by apply prefix_app_r. Qed.
(** [m] and then returning its result. *)
Lemma triple_tail {A} P (m : St W A) Q E : triple P (m ≫= mret) Q E -> triple P m Q E.
Proof. intros Hm w Hw. specialize (Hm w Hw). unfold mbind, St_bind in Hm. by destruct (m w) as [[] ?]. Qed.

(** A part that is only done under a condition, after which [F] holds. *)
Lemma step_if {A} l (b : bool) (m : St W unit) new (F : Prop) (k : unit -> St W A) Q (E : W -> Prop) :
  (b = true -> triple (logged l) m (fun _ w => logged (l ++ new) w /\ F) E) -> (b = false -> F) ->
  (F -> triple (logged (l ++ if b then new else [])) (k tt) Q E) ->
  triple (logged l) ((if b then m else mret tt) ≫= k) Q E.
Proof.
  intros Hm HF Hk. apply triple_bind with (Q := fun _ w => logged (l ++ if b then new else []) w /\ F).
  - destruct b; [by apply Hm|]. apply triple_ret. intros w Hw. split; [by rewrite app_nil_r|by apply HF].
  - intros [] w [Hw H']. by apply (Hk H').
Qed.

(** A part of the run that is described by some facts [u]. *)
Lemma step_part {A B U} l (m : St W A) (R : U -> A -> W -> Prop) (F : U -> W -> Prop) (k : A -> St W B) Q (E : W -> Prop) :
  triple (logged l) m (fun a w => exists u, R u a w) (fun w => exists u, F u w) ->
  (forall u w, F u w -> E w) -> (forall u a, triple (R u a) (k a) Q E) -> triple (logged l) (m ≫= k) Q E.
Proof.
  intros Hm HF Hk. eapply triple_bind.
  - eapply triple_conseq; [exact Hm|done|intros a w Hw; exact Hw|]. intros w [u Hu]. by eapply HF.
  - intros a w [u Hu]. by apply (Hk u).
Qed.
Lemma triple_pure {A} (P : W -> Prop) (F : Prop) (m : St W A) Q E :
  (F -> triple P m Q E) -> triple (fun w => P w /\ F) m Q E.
Proof. intros Hm w [Hw HF]. by apply Hm. Qed.

(** What was sent so far is the beginning of the plan [u]. *)
Ltac so_far u :=
  let w := fresh "w" in let Hw := fresh "Hw" in
  intros w Hw; exists u; rewrite <-?app_assoc in Hw;
  first [by apply logged_none | eapply logged_prefix; [exact Hw|]];
  cbn; rewrite ?bool_decide_true by done; repeat case_match; try done;
  repeat first [apply prefix_nil | apply prefix_cons].

Lemma deploy_verifier_follows deployer owner :
  follows (deploy_verifier deployer owner)
    (fun '(verifier, groth16, selector) => verifier_plan deployer owner verifier groth16 selector)
    (fun '(verifier, groth16, selector) a => a = verifier /\ created deployer (DeployRouter owner) verifier /\
       created deployer (DeployGroth16 ALLOWED_CONTROL_ROOT (rev BN254_IDENTITY_CONTROL_ID)) groth16 /\
       answered groth16 SELECTOR selector).
Proof.
  intros l. unfold deploy_verifier.
  apply step_send; [so_far (0, 0, 0)|]. intros receipt Hr.
  apply step_lift; [so_far (0, 0, 0)|]. intros verifier ->%ok_or_Ok.
  apply step_send; [so_far (0, 0, 0)|]. intros receipt Hg.
  apply step_lift; [so_far (0, 0, 0)|]. intros groth16 ->%ok_or_Ok.
  apply step_query; [so_far (0, 0, 0)|]. intros selector Hs.
  apply step_send; [so_far (verifier, groth16, selector)|]. intros _ _.
  apply triple_ret. intros w Hw. exists (verifier, groth16, selector). by rewrite <-!app_assoc in Hw.
Qed.

(** The treasury of a plan, as it was found on the chain. *)
Definition treasury_installed (hash portal factory deployer verifier root treasury instance : Z) : Prop :=
  (exists s : S, (output_at_block (ft_starting_block_number args) s).1 = root) /\
  created deployer (treasury_deployment hash portal verifier root) treasury /\
  answered factory (GameImpls KAILUA_GAME_TYPE) treasury /\ answered factory (InitBonds KAILUA_GAME_TYPE) 0 /\
  instance <> 0 /\ answered factory (Games KAILUA_GAME_TYPE root (anchor_data args treasury)) instance /\
  answered treasury ParticipationBond (ft_collateral_amount args).

Lemma step_await {B} l fuel factory root data (k : option Z -> St W B) Q (E : W -> Prop) :
  (forall w, logged l w -> E w) -> triple (logged l) (k None) Q E ->
  (forall i, i <> 0 -> answered factory (Games KAILUA_GAME_TYPE root data) i -> triple (logged l) (k (Some i)) Q E) ->
  triple (logged l) (await_game fuel factory root data ≫= k) Q E.
Proof.
  intros HE Hn Hs. apply triple_bind with (Q := fun r w => logged l w /\
    match r with None => True | Some i => i <> 0 /\ answered factory (Games KAILUA_GAME_TYPE root data) i end).
  - induction fuel as [|fuel IH]; cbn [await_game]; [by apply triple_ret|].
    apply step_query; [done|]. intros i Hi. destruct (i =? 0) eqn:Ei; [done|]. bools. by apply triple_ret.
  - intros [i|] w [Hw Hi]; [destruct Hi; by apply (Hs i)|by apply Hn].
Qed.

Definition TreasuryFacts : Type := Z * Z * Z * Z * Z.

Lemma install_treasury_follows fuel hash portal factory safe owner deployer verifier l :
  triple (logged l) (install_treasury fuel args hash portal factory safe owner deployer verifier)
    (fun a w => exists '((root, treasury, init_bond, instance, status) : TreasuryFacts),
       let plan := treasury_plan hash portal factory safe owner deployer verifier root treasury init_bond instance status in
       match a with
       | None => w.2 `prefix_of` l ++ plan
       | Some a => logged (l ++ plan) w /\ a = treasury /\
           treasury_installed hash portal factory deployer verifier root treasury instance
       end)
    (fun w => exists '((root, treasury, init_bond, instance, status) : TreasuryFacts), w.2 `prefix_of` l ++
       treasury_plan hash portal factory safe owner deployer verifier root treasury init_bond instance status).
Proof.
  unfold install_treasury.
  apply step_ask; [so_far (0, 0, 0, 0, 0)|]. intros root (s & s' & Hroot).
  destruct (output_at_block _ s) as [h s''] eqn:Eh. injection Hroot as -> _.
  apply step_send; [so_far (root, 0, 0, 0, 0)|]. intros receipt Hr.
  apply step_lift; [so_far (root, 0, 0, 0, 0)|]. intros treasury ->%ok_or_Ok.
  apply step_owner_call; [so_far (root, treasury, 0, 0, 0)|].
  apply step_query; [so_far (root, treasury, 0, 0, 0)|]. intros installed Hi.
  apply step_lift; [so_far (root, treasury, 0, 0, 0)|]. intros [] ->%assert_Ok%Z.eqb_eq.
  apply step_query; [so_far (root, treasury, 0, 0, 0)|]. intros init_bond Hb.
  eapply (step_if _ _ _ _ (answered factory (InitBonds KAILUA_GAME_TYPE) 0)).
  { intros Hn. apply step_owner_call; [so_far (root, treasury, init_bond, 0, 0)|].
    apply step_query; [so_far (root, treasury, init_bond, 0, 0)|]. intros bond Hb0.
    intros w Hw. destruct (bond =? 0) eqn:E0; cbn; [bools; by subst bond|].
    revert w Hw. so_far (root, treasury, init_bond, 0, 0). }
  { intros ->%negb_false_iff%Z.eqb_eq. done. }
  intros Hb0. apply step_send; [so_far (root, treasury, init_bond, 0, 0)|]. intros _ _.
  apply step_await; [so_far (root, treasury, init_bond, 0, 0)|apply triple_ret; so_far (root, treasury, init_bond, 0, 0)|].
  intros instance Hne Hin.
  apply step_query; [so_far (root, treasury, init_bond, instance, 0)|]. intros status _.
  eapply (step_if _ _ _ _ True); [|done|intros _].
  { intros Hs. apply triple_tail, step_owner_call; [so_far (root, treasury, init_bond, instance, status)|].
    by apply triple_ret. }
  apply step_owner_call; [so_far (root, treasury, init_bond, instance, status)|].
  apply step_query; [so_far (root, treasury, init_bond, instance, status)|]. intros bond Hbond.
  apply step_lift; [so_far (root, treasury, init_bond, instance, status)|]. intros [] ->%assert_Ok%Z.eqb_eq.
  apply triple_ret. intros w Hw. exists (root, treasury, init_bond, instance, status).
  split; [by rewrite <-!app_assoc in Hw|split; [done|]]. split; [exists s; by rewrite Eh|by split_and!].
Qed.

Definition vanguard_parsed (vanguard : Z) : Prop :=
  forall address, ft_vanguard_address args = Some address -> parse_address address = Ok vanguard.

Lemma install_game_follows factory safe owner deployer treasury :
  follows (install_game config args factory safe owner deployer treasury)
    (fun '(game, vanguard) => game_plan factory safe owner deployer treasury game vanguard)
    (fun '(game, vanguard) _ => created deployer (game_deployment treasury) game /\ vanguard_parsed vanguard).
Proof.
  intros l. unfold install_game.
  apply step_send; [so_far (0, 0)|]. intros receipt Hr.
  apply step_lift; [so_far (0, 0)|]. intros game ->%ok_or_Ok.
  apply step_owner_call; [so_far (game, 0)|].
  unfold assign_vanguard, game_plan, vanguard_parsed. destruct (ft_vanguard_address args) as [address|] eqn:Ea.
  - apply step_lift; [so_far (game, 0)|]. intros vanguard Hv.
    apply triple_tail, step_owner_call; [so_far (game, vanguard)|].
    apply triple_ret. intros w Hw. exists (game, vanguard). rewrite bool_decide_true by done.
    split; [by rewrite <-!app_assoc in Hw|]. split; [done|]. by intros ? [= <-].
  - apply triple_ret. intros w Hw. exists (game, 0). rewrite bool_decide_false by (by intros []).
    split; [by rewrite <-!app_assoc in Hw|]. done.
Qed.

(** The guardian of the portal is the account that sends the last transaction. *)
Definition guardian_matches (portal guardian : Z) : Prop :=
  exists signer, ft_guardian_signer args = Some signer /\ account signer guardian /\ answered portal Guardian guardian.
Definition respected (portal guardian : Z) : log :=
  if ft_respect_kailua_proposals args then [(guardian, SetRespectedGameType portal KAILUA_GAME_TYPE)] else [].

Lemma respect_kailua_triple portal l :
  let sent w := exists guardian, logged (l ++ respected portal guardian) w /\
    (ft_respect_kailua_proposals args = true -> guardian_matches portal guardian) in
  triple (logged l) (respect_kailua config args portal) (fun _ => sent) (fun w => logged l w \/ sent w).
Proof.
  intros sent. unfold respect_kailua, sent, respected. destruct (ft_respect_kailua_proposals args).
  2:{ apply triple_ret. intros w Hw. exists 0. by rewrite app_nil_r. }
  apply step_lift; [by left|]. intros signer Hs%ok_or_Ok.
  apply step_ask; [by left|]. intros guardian Hg.
  apply step_query; [by left|]. intros portal_guardian Ha.
  apply step_lift; [by left|]. intros [] ->%ensure_Ok%Z.eqb_eq.
  assert (guardian_matches portal guardian) by by exists signer.
  apply step_send; [by right; exists guardian|]. intros _ _. apply triple_ret. by exists guardian.
Qed.

(** Who may start: the configuration has a digest, and the Safe that owns the factory has one
    owner, the given account. *)
Record entitled (u : Upgrade) : Prop := {
  en_hash : config_hash config = Ok (u_hash u);
  en_portal : answered (l1_system_config_address config) OptimismPortal (u_portal u);
  en_factory : answered (l1_system_config_address config) DisputeGameFactory (u_factory u);
  en_safe : answered (u_factory u) Owner (u_safe u);
  en_owner : account (ft_owner_signer args) (u_owner u);
  en_sole : sole_owner (u_safe u) (u_owner u);
}.
(** The verifier is the given one, or the one that was deployed. *)
Definition verifier_installed (u : Upgrade) : Prop :=
  match ft_verifier_contract args with
  | Some address => parse_address address = Ok (u_verifier u)
  | None =>
      created (u_deployer u) (DeployRouter (u_owner u)) (u_verifier u) /\
      created (u_deployer u) (DeployGroth16 ALLOWED_CONTROL_ROOT (rev BN254_IDENTITY_CONTROL_ID)) (u_groth16 u) /\
      answered (u_groth16 u) SELECTOR (u_selector u)
  end.
Record installed (u : Upgrade) : Prop := {
  in_deployer : account (ft_deployer_signer args) (u_deployer u);
  in_verifier : verifier_installed u;
  in_treasury : treasury_installed (u_hash u) (u_portal u) (u_factory u) (u_deployer u) (u_verifier u)
    (u_root u) (u_treasury u) (u_instance u);
  in_game : created (u_deployer u) (game_deployment (u_treasury u)) (u_game u);
  in_vanguard : vanguard_parsed (u_vanguard u);
}.

Lemma open_safe_entitled factory l :
  triple (logged l) (open_safe config args factory)
    (fun '(safe, owner) w => logged l w /\ account (ft_owner_signer args) owner /\ answered factory Owner safe /\
       sole_owner safe owner) (logged l).
Proof.
  unfold open_safe. apply step_ask; [done|]. intros owner Ho. apply step_query; [done|]. intros count _.
  apply step_query; [done|]. intros safe Hs. apply step_ask; [done|]. intros owners (s & s' & He).
  apply step_lift; [done|]. intros first Hf%unwrap_Ok. apply step_lift; [done|]. intros [] ->%ensure_Ok%Z.eqb_eq.
  apply step_lift; [done|]. intros [] Hl%ensure_Ok%Nat.eqb_eq. apply triple_ret. intros w Hw. split_and!; try done.
  exists s. destruct (get_owners safe s) as [os ?]. injection He as -> _. cbn.
  destruct owners as [|o [|]]; [done| |done]. by injection Hf as ->.
Qed.

(** A migration that has begun, and one that is complete. *)
Definition begun (u : Upgrade) (sent : log) : Prop := entitled u /\ sent `prefix_of` installation u.
Definition complete (u : Upgrade) (sent : log) : Prop :=
  entitled u /\ installed u /\ sent = installation u ++ respected (u_portal u) (u_guardian u) /\
  (ft_respect_kailua_proposals args = true -> guardian_matches (u_portal u) (u_guardian u)).
Definition in_progress (w : W) : Prop := w.2 = [] \/ (exists u, begun u w.2) \/ exists u, complete u w.2.

Lemma verifier_part_follows deployer owner :
  follows (match ft_verifier_contract args with
           | None => deploy_verifier deployer owner
           | Some address => lift (parse_address address)
           end)
    (fun '(verifier, groth16, selector) => verifier_part deployer owner verifier groth16 selector)
    (fun '(verifier, groth16, selector) a => a = verifier /\
       match ft_verifier_contract args with
       | Some address => parse_address address = Ok verifier
       | None => created deployer (DeployRouter owner) verifier /\
           created deployer (DeployGroth16 ALLOWED_CONTROL_ROOT (rev BN254_IDENTITY_CONTROL_ID)) groth16 /\
           answered groth16 SELECTOR selector
       end).
Proof.
  unfold verifier_part. destruct (ft_verifier_contract args) as [address|]; [|exact (deploy_verifier_follows deployer owner)].
  intros l w Hw. unfold lift. destruct (parse_address address) as [verifier|e|y] eqn:Ep.
  - exists (verifier, 0, 0). by rewrite app_nil_r.
  - exists (0, 0, 0). by apply logged_none.
  - exists (0, 0, 0). by apply logged_none.
Qed.

(** The facts of the parts, put together. *)
Definition Facts : Type := (Z * Z * Z) * TreasuryFacts * (Z * Z) * Z.
Definition upgrade_of (hash portal factory safe owner deployer : Z) (v : Facts) : Upgrade :=
  let '((verifier, groth16, selector), (root, treasury, init_bond, instance, status), (game, vanguard), guardian) := v in
  {| u_hash := hash; u_portal := portal; u_factory := factory; u_safe := safe; u_owner := owner;
     u_deployer := deployer; u_groth16 := groth16; u_selector := selector; u_verifier := verifier;
     u_root := root; u_treasury := treasury; u_init_bond := init_bond; u_instance := instance;
     u_status := status; u_game := game; u_vanguard := vanguard; u_guardian := guardian |}.

Lemma install_triple fuel hash portal factory safe owner deployer :
  let u := upgrade_of hash portal factory safe owner deployer in
  (forall v, entitled (u v)) -> account (ft_deployer_signer args) deployer ->
  triple (logged [])
    (verifier ← (match ft_verifier_contract args with
                 | None => deploy_verifier deployer owner
                 | Some address => lift (parse_address address)
                 end);
     treasury ← install_treasury fuel args hash portal factory safe owner deployer verifier;
     match treasury with
     | None => mret false
     | Some treasury =>
         _ ← install_game config args factory safe owner deployer treasury;
         _ ← respect_kailua config args portal;
         mret true
     end)
    (fun b w => exists u, if b : bool then complete u w.2 else begun u w.2) in_progress.
Proof.
  intros u Hen Hd. eapply step_part; [apply (verifier_part_follows deployer owner [])| |].
  { intros [[verifier groth16] selector] w Hw. right; left.
    exists (u ((verifier, groth16, selector), (0, 0, 0, 0, 0), (0, 0), 0)). split; [apply Hen|]. by apply prefix_app_r. }
  intros [[verifier groth16] selector] a. apply triple_pure. intros [-> Hv]. rewrite app_nil_l.
  eapply step_part; [apply install_treasury_follows| |].
  { intros [[[[root treasury] init_bond] instance] status] w Hw. right; left.
    exists (u ((verifier, groth16, selector), (root, treasury, init_bond, instance, status), (0, 0), 0)).
    split; [apply Hen|]. unfold installation. rewrite app_assoc. by apply prefix_app_r. }
  intros [[[[root treasury] init_bond] instance] status] [a|].
  2:{ apply triple_ret. intros w Hw.
    exists (u ((verifier, groth16, selector), (root, treasury, init_bond, instance, status), (0, 0), 0)).
    split; [apply Hen|]. unfold installation. rewrite app_assoc. by apply prefix_app_r. }
  apply triple_pure. intros [-> Ht].
  eapply step_part; [apply install_game_follows| |].
  { intros [game vanguard] w Hw. right; left.
    exists (u ((verifier, groth16, selector), (root, treasury, init_bond, instance, status), (game, vanguard), 0)).
    split; [apply Hen|]. unfold installation. rewrite app_assoc. done. }
  intros [game vanguard] []. apply triple_pure. intros [Hg Hvan].
  set (v guardian := ((verifier, groth16, selector), (root, treasury, init_bond, instance, status), (game, vanguard), guardian) : Facts).
  assert (Hin : forall guardian, installed (u (v guardian))) by by split.
  assert (Hplan : forall guardian w, logged (((verifier_part deployer owner verifier groth16 selector ++
      treasury_plan hash portal factory safe owner deployer verifier root treasury init_bond instance status) ++
      game_plan factory safe owner deployer treasury game vanguard) ++ respected portal guardian) w ->
      w.2 = installation (u (v guardian)) ++ respected portal guardian).
  { intros guardian w ->. unfold installation. by rewrite <-!app_assoc. }
  eapply triple_bind; [eapply triple_conseq; [apply respect_kailua_triple|done|intros a w Hw; exact Hw|]|].
  - intros w [Hw|(guardian & Hw & Hm)]; right; [left|right].
    + exists (u (v 0)). split; [apply Hen|]. rewrite <-app_assoc in Hw. by rewrite Hw.
    + exists (u (v guardian)). split_and!; [done..|by apply Hplan|done].
  - intros []. apply triple_ret. intros w (guardian & Hw & Hm).
    exists (u (v guardian)). split_and!; [done..|by apply Hplan|done].
Qed.

(** C22. How a rollup is migrated. Whatever the nodes answer and wherever a migration stops, nothing
    is sent unless the Safe that owns the factory has exactly one owner, the owner's account; what
    was sent is the beginning of one plan: the verifier (unless one is given), the treasury with the
    digest of the configuration and the image of the program, its installation in the factory, its
    first game and its bond, then the game, its installation and the vanguard; calls to owned
    contracts go through the Safe, approved by the owner, without value. The respected game type is
    set last, by the portal's guardian and only if everything before it is in place: the treasury is
    the one that was deployed for the node's output root and that the factory then gave, without
    initial bond, with the given collateral. A successful migration has sent the whole plan. *)
Theorem migration_in_order fuel (s : S) r s' sent :
  fast_track fuel config args (s, []) = (r, (s', sent)) ->
  (sent = [] \/ exists u, begun u sent \/ complete u sent) /\ (r = Ok true -> exists u, complete u sent).
Proof.
  assert (triple (logged []) (fast_track fuel config args)
    (fun b w => exists u, if b : bool then complete u w.2 else begun u w.2) in_progress) as Ht.
  { unfold fast_track. apply step_lift; [by left|]. intros hash Hh.
    apply step_query; [by left|]. intros portal Hp. apply step_query; [by left|]. intros factory Hf.
    eapply triple_bind; [eapply triple_conseq; [apply open_safe_entitled|done|intros a w Hw; exact Hw|by left]|].
    intros [safe owner]. apply triple_pure. intros (Ho & Hs & Hsole).
    apply step_ask; [by left|]. intros deployer Hd. apply install_triple; [|done].
    intros [[[[[verifier groth16] selector] [[[[root treasury] init_bond] instance] status]] [game vanguard]] guardian].
    by split. }
  intros E. specialize (Ht (s, []) eq_refl). rewrite E in Ht.
  destruct r as [[]|e|w]; cbn in Ht.
  - destruct Ht as [u Hu]. split; [|by exists u]. right. exists u. by right.
  - destruct Ht as [u Hu]. split; [|done]. right. exists u. by left.
  - split; [|done]. destruct Ht as [?|[[u ?]|[u ?]]]; [by left|right; exists u; by left|right; exists u; by right].
  - split; [|done]. destruct Ht as [?|[[u ?]|[u ?]]]; [by left|right; exists u; by left|right; exists u; by right].
Qed.
End fast_track_spec.

(** ** A run

    The state is the factory's initial bond, which the migration sets to zero. *)
Module MigrationDemo.
#[export] Instance nodes : Nodes Z := {|
  eth_call := fun _ c bond =>
    (match c with
     | DisputeGameFactory => 10 | OptimismPortal => 11 | Owner => 12 | GameImpls _ => 102 | InitBonds _ => bond
     | Games _ _ _ => 104 | ParticipationBond => 5000 | SELECTOR => 7 | Guardian => 9 | _ => 0
     end, bond);
  game_at_index := fun _ _ s => ((0, 0), s);
  eth_call_prune := fun _ _ s => (Ok 0, s);
  beacon_sidecars := fun _ s => ([], s) |}.
#[export] Instance op : OpNode Z := {|
  output_at_block := fun n s => (1000 + n, s); safe_l2_number := fun s => (None, s); l1_block_number := fun h s => (h, s) |}.
#[export] Instance signers : Signers Z := {|
  local_signer := fun key => Ok (Z.of_nat (String.length key)); aws_signer := fun _ _ s => (Ok 1, s);
  gcp_client := fun s => (Ok tt, s); gcp_signer := fun _ _ _ _ _ s => (Ok 1, s) |}.
#[export] Instance bindings : Bindings := {|
  call_data := fun c => match c with SetInitBond _ _ => [Byte.x02] | _ => [Byte.x01] end;
  ALLOWED_CONTROL_ROOT := [Byte.x01; Byte.x02]; BN254_IDENTITY_CONTROL_ID := [Byte.x03; Byte.x04];
  parse_address := fun a => Ok (Z.of_nat (String.length a)) |}.
#[export] Instance accounts : DeployHost Z := {|
  get_owners := fun _ s => ([5], s);
  transact := fun _ tx bond => match tx with
    | DeployRouter _ => (Ok (Some 100), bond) | DeployGroth16 _ _ => (Ok (Some 101), bond)
    | DeployTreasury _ _ _ _ _ _ _ _ _ => (Ok (Some 102), bond) | DeployGame _ _ _ _ => (Ok (Some 103), bond)
    | ExecTransaction _ call => (Ok None, if bool_decide (safe_data call = [Byte.x02]) then 0 else bond)
    | _ => (Ok None, bond)
    end |}.
#[export] Instance images : Images := {| KONA_ID := 77; HANA_ID := 78; HOKULEA_ID := 79; DA_HOKULEA_ID := 0 |}.
#[export] Instance digests : Digests := demo_digests.
Definition args : FastTrackArgs := {|
  ft_starting_block_number := 50; ft_proposal_output_count := 4; ft_output_block_span := 2;
  ft_collateral_amount := 5000; ft_verifier_contract := None; ft_challenge_timeout := 600;
  ft_deployer_signer := signer_of_key "deploy"; ft_owner_signer := signer_of_key "owner";
  ft_guardian_signer := Some (signer_of_key "guardians"); ft_vanguard_address := Some "0xabc"%string;
  ft_vanguard_advantage := None; ft_respect_kailua_proposals := true |}.
End MigrationDemo.
#[local] Existing Instances MigrationDemo.nodes MigrationDemo.op MigrationDemo.signers MigrationDemo.bindings
  MigrationDemo.accounts MigrationDemo.images MigrationDemo.digests.

Lemma migration_in_order_witness :
  exists sent u, fast_track 3 demo_config MigrationDemo.args (30, []) = (Ok true, (0, sent)) /\ length sent = 13%nat /\
    complete demo_config MigrationDemo.args u sent.
Proof.
  set (run := fast_track 3 demo_config MigrationDemo.args (30, [])).
  assert (Hv : run.1 = Ok true /\ run.2.1 = 0 /\ length run.2.2 = 13%nat) by (vm_compute; by split_and!).
  unfold run in *. destruct (fast_track 3 demo_config MigrationDemo.args (30, [])) as [r [s' sent]] eqn:E.
  destruct (migration_in_order demo_config MigrationDemo.args 3 30 r s' sent E) as [_ Hu].
  cbn [fst snd] in Hv. destruct Hv as (-> & -> & Hl). destruct (Hu eq_refl) as [u Hc]. by exists sent, u.
Defined.
