(* ===== verification/Rpc.v ===== *)
(** * crates/rpc/src/{api,sync,requests}.rs

    The RPC server: it follows the canonical proposals of its own agent and tells
    a client which of their contracts covers an L2 block. *)

From S2P Require Import Prelude Bytes Blobs Deployment Proposal Agent.
Open Scope Z_scope.

(** ** The cache *)

(** [BTreeMap<u64, Address>]: from an output's block number to its contract. *)
Abbreviation KailuaServerCache := (gmap Z Z).

(** [range(number..).next()]. *)
Definition lowest_from (number : Z) (cache : KailuaServerCache) : option (Z * Z) :=
  map_fold (fun k a best => if k <? number then best else
    match best with Some (k', _) => if k' <? k then best else Some (k, a) | None => Some (k, a) end)
    None cache.
Definition game_address_for_block_by_number (cache : KailuaServerCache) (number : Z) : option Z :=
  snd <$> lowest_from number cache.

(** [extend]: a later entry replaces an earlier one. *)
Definition extend (entries : list (Z * Z)) (cache : KailuaServerCache) : KailuaServerCache :=
  foldl (fun cache '(k, a) => <[k := a]> cache) cache entries.

(** ** The protocols that are served *)

Inductive ServerProtocols := HttpAndWs | HttpOnly | WsOnly.
Definition server_config (disable_http disable_ws : bool) : option ServerProtocols :=
  match disable_http, disable_ws with
  | false, false => Some HttpAndWs
  | false, true => Some HttpOnly
  | true, false => Some WsOnly
  | true, true => None
  end.

(** ** Following the agent *)

Section sync.
Context {S : Type} `{Nodes S} `{OpNode S} `{Kzg}.
Abbreviation W := (S * SyncAgent)%type.

(** The entry of a loaded proposal, unless it is passed over. *)
Definition new_entry (final_l2_block : option Z) (a : SyncAgent) (proposal_index : Z) : option (Z * Z) :=
  match proposals a !! proposal_index with
  | None => None
  | Some proposal =>
      if negb (default false (canonical proposal)) then None
      else if match final_l2_block with
              | Some final => final <=? output_block_number proposal | None => false end then None
      else Some (output_block_number proposal, contract proposal)
  end.
Definition new_entries (final_l2_block : option Z) (a : SyncAgent) (loaded : list Z) : list (Z * Z) :=
  omap (new_entry final_l2_block a) loaded.

(** One iteration, and whether the loop goes on.  An error loads nothing. *)
Definition handle_sync_round (op_rpc_delay : Z) (final_l2_block : option Z) : St (W * KailuaServerCache) bool :=
  fun '(w, cache) =>
    let '(r, w) := sync op_rpc_delay final_l2_block w in
    let go loaded := (Ok true, (w, extend (new_entries final_l2_block (snd w) loaded) cache)) in
    match r with
    | Ok loaded => go loaded
    | Err e => if contains FINAL_L2_BLOCK_RESOLVED e then (Ok false, (w, cache)) else go []
    | Panic why => (Panic why, (w, cache))
    end.

(** The states of the server between two iterations. *)
Inductive serves (delay : Z) (final : option Z) (x : W * KailuaServerCache) : W * KailuaServerCache -> Prop :=
| serves_start : serves delay final x x
| serves_round y z : serves delay final x y -> handle_sync_round delay final y = (Ok true, z) ->
    serves delay final x z.
End sync.

(** ** The answer to a request *)

Lemma lowest_from_spec number (cache : KailuaServerCache) :
  match lowest_from number cache with
  | Some (k, a) => number <= k /\ cache !! k = Some a /\
      forall k', number <= k' -> is_Some (cache !! k') -> k <= k'
  | None => forall k, number <= k -> cache !! k = None
  end.
Proof.
  unfold lowest_from. apply (map_fold_weak_ind (fun best m => match best with
    | Some (k, a) => number <= k /\ m !! k = Some a /\ forall k', number <= k' -> is_Some (m !! k') -> k <= k'
    | None => forall k, number <= k -> m !! k = None end)); [by intros; rewrite lookup_empty|].
  intros k a m best Hk IH. destruct (Z.ltb_spec k number).
  { destruct best as [[k' b]|].
    - destruct IH as (? & ? & Hmin). split_and!; [done|by rewrite lookup_insert_ne by lia|].
      intros j Hj. rewrite lookup_insert_ne by lia. auto.
    - intros j Hj. rewrite lookup_insert_ne by lia. auto. }
  destruct best as [[k' b]|]; [destruct IH as (Hn & Hb & Hmin); destruct (Z.ltb_spec k' k)|].
  - split_and!; [done|by rewrite lookup_insert_ne by lia|]. intros j Hj. rewrite lookup_insert.
    case_decide; [lia|auto].
  - split_and!; [done|by rewrite lookup_insert_eq|]. intros j Hj. rewrite lookup_insert.
    case_decide; [lia|]. intros Hm. specialize (Hmin j Hj Hm). lia.
  - split_and!; [done|by rewrite lookup_insert_eq|]. intros j Hj. rewrite lookup_insert.
    case_decide; [lia|]. rewrite IH by done. by intros [].
Qed.

Lemma lookup_extend entries (cache : KailuaServerCache) k a :
  extend entries cache !! k = Some a -> (k, a) ∈ entries \/ cache !! k = Some a.
Proof.
  unfold extend. revert cache. induction entries as [|[k' b] entries IH]; intros cache; cbn; [by right|].
  intros [Hin|Hl]%IH; [left; by right|]. rewrite lookup_insert in Hl. case_decide; [|by right].
  simplify_eq. left. left.
Qed.

Lemma extend_covers entries (cache : KailuaServerCache) k :
  (exists a, (k, a) ∈ entries) \/ is_Some (cache !! k) -> is_Some (extend entries cache !! k).
Proof.
  unfold extend. revert cache. induction entries as [|[k' b] entries IH]; intros cache [[a Ha]|Hc]; cbn.
  - by apply elem_of_nil in Ha.
  - done.
  - apply IH. apply elem_of_cons in Ha as [[= -> ->]|Ha]; [right; by rewrite lookup_insert_eq|left; eauto].
  - apply IH. right. rewrite lookup_insert. by case_decide.
Qed.

Section rpc_spec.
Context {S : Type} `{Nodes S} `{OpNode S} `{Kzg}.
Implicit Types w : S * SyncAgent.

(** A proposal that the server tracks. *)
Definition tracked (final : option Z) (a : SyncAgent) (k address : Z) : Prop :=
  exists i p, proposals a !! i = Some p /\ canonical p = Some true /\
    output_block_number p = k /\ contract p = address /\
    (forall f, final = Some f -> k < f).

Lemma new_entry_tracked final a i k address :
  new_entry final a i = Some (k, address) -> tracked final a k address.
Proof.
  unfold new_entry. destruct (proposals a !! i) as [p|] eqn:Hp; [|done].
  destruct (canonical p) as [[]|] eqn:Hc; cbn; try done.
  destruct final as [f|]; [destruct (Z.leb_spec f (output_block_number p)); [done|]|];
    intros [= <- <-]; exists i, p; split_and!; try done. by intros ? [= <-].
Qed.

Lemma round_cache delay final w cache b w' cache' :
  handle_sync_round delay final (w, cache) = (Ok b, (w', cache')) ->
  w' = (sync delay final w).2 /\
  (forall k a, cache' !! k = Some a -> cache !! k = Some a \/ tracked final w'.2 k a) /\
  (forall k, is_Some (cache !! k) -> is_Some (cache' !! k)).
Proof.
  unfold handle_sync_round. destruct (sync delay final w) as [[loaded|e|why] v]; [| |done].
  - intros [= <- <- <-]. split; [done|]. split.
    + intros k a [Hin|]%lookup_extend; [|by left]. right.
      apply list_elem_of_omap in Hin as (i & _ & Hi). by eapply new_entry_tracked.
    + intros k Hk. apply extend_covers. by right.
  - destruct (contains _ _); intros [= <- <- <-]; split_and!; auto.
Qed.

(** C26. The server points to the right contract. Assume that a game's parent was created before it
    ([parents_first]) and start from a store that satisfies its invariant, with an empty cache. Run any
    number of iterations. An address that is returned for a block is the contract of a proposal that the
    agent held, after some iteration, as canonical and correct, whose output is at or after
    the block and before the final block; and no block in between has an entry of its own. *)
Theorem served_address_tracked delay final w w' cache n address :
  parents_first (S := S) -> props_inv (proposals w.2) ->
  serves delay final (w, ∅) (w', cache) ->
  game_address_for_block_by_number cache n = Some address ->
  exists v c i p, serves delay final (w, ∅) (v, c) /\ proposals v.2 !! i = Some p /\
    canonical p = Some true /\ is_correct p = Some true /\ contract p = address /\
    n <= output_block_number p /\ (forall f, final = Some f -> output_block_number p < f) /\
    forall k, n <= k < output_block_number p -> cache !! k = None.
Proof.
  intros Hpf Hw Hserves.
  assert (Hinv : forall y, serves delay final (w, ∅) y -> props_inv (proposals y.1.2)).
  { intros y Hy. induction Hy as [|[v c] [v' c'] _ IH E]; [done|].
    apply round_cache in E as [-> _]. destruct v as [s a].
    exact (triple_invariant inv _ (s, a) (sync_inv delay final Hpf) IH). }
  assert (Hall : forall y, serves delay final (w, ∅) y -> forall k a, y.2 !! k = Some a ->
    exists v c, serves delay final (w, ∅) (v, c) /\ tracked final v.2 k a).
  { intros y Hy. induction Hy as [|[v c] [v' c'] Hy IH E]; [by intros k a Ha; cbn in Ha; rewrite lookup_empty in Ha|].
    intros k a Ha. pose proof E as E'. apply round_cache in E' as (_ & Hc & _).
    destruct (Hc k a Ha) as [?|Ht]; [by apply IH|]. exists v', c'. split; [by econstructor|done]. }
  unfold game_address_for_block_by_number. pose proof (lowest_from_spec n cache) as Hl.
  destruct (lowest_from n cache) as [[k a]|]; [|done]. cbn. intros [= ->].
  destruct Hl as (Hn & Ha & Hmin).
  destruct (Hall _ Hserves k address Ha) as (v & c & Hv & i & p & Hp & Hc & <- & Hcon & Hf).
  exists v, c, i, p. split_and!; try done.
  - destruct (inv_decided _ (Hinv _ Hv) i p Hp) as (_ & _ & Hcor). by apply Hcor.
  - intros k Hk. apply eq_None_not_Some. intros Hs. specialize (Hmin k ltac:(lia) Hs). lia.
Qed.

(** What was loaded as canonical is served from then on. *)
Lemma served_from_then_on delay final w cache loaded w' cache' y i p n :
  sync delay final w = (Ok loaded, w') ->
  handle_sync_round delay final (w, cache) = (Ok true, (w', cache')) ->
  i ∈ loaded -> proposals w'.2 !! i = Some p -> canonical p = Some true ->
  (forall f, final = Some f -> output_block_number p < f) ->
  serves delay final (w', cache') y -> n <= output_block_number p ->
  exists k address, lowest_from n y.2 = Some (k, address) /\ k <= output_block_number p.
Proof.
  intros Es Er Hi Hp Hc Hf Hy Hn.
  assert (Hs : is_Some (y.2 !! output_block_number p)).
  { induction Hy as [|[v c] [v' c'] _ IH E].
    - unfold handle_sync_round in Er. rewrite Es in Er. injection Er as <-. apply extend_covers. left.
      exists (contract p). apply list_elem_of_omap. exists i. split; [done|].
      unfold new_entry. rewrite Hp, Hc. cbn. destruct final as [f|]; [|done].
      specialize (Hf f eq_refl). by destruct (Z.leb_spec f (output_block_number p)); [lia|].
    - apply round_cache in E as (_ & _ & Hmono). by apply Hmono. }
  pose proof (lowest_from_spec n y.2) as Hl. destruct (lowest_from n y.2) as [[k a]|].
  - destruct Hl as (_ & _ & Hmin). exists k, a. split; [done|]. by apply Hmin.
  - rewrite Hl in Hs by done. by destruct Hs.
Qed.
End rpc_spec.

(** ** A concrete server

    A new agent loads the treasury's proposal, 5, for block 100. *)
Definition rpc_nodes : Nodes unit := {|
  eth_call := fun contract c s =>
    (match c with
     | GameCount => 6 | GameIndex => 5 | ParentGame => 400 | KAILUA_TREASURY => 400 | CreatedAt => 900 | RootClaim => 2100
     | L2BlockNumber => 100 | L1Head => 8 | ResolvedAt => 901 | _ => 0
     end, s);
  game_at_index := fun _ _ s => ((KAILUA_GAME_TYPE, 400), s);
  eth_call_prune := fun _ _ s => (Ok 500, s);
  beacon_sidecars := fun _ s => ([], s) |}.
Definition rpc_agent : SyncAgent := {|
  deployment := demo_deployment; da_provider := demo_da; db := ∅;
  cursor := {| canonical_proposal_tip := 5; next_factory_index := 5; delayed_factory_indices := [];
    last_output_index := 100; last_resolved_game := 5 |};
  outputs := ∅; proposals := ∅; eliminations := ∅; l1_heads := ∅; l1_heads_inv := ∅ |}.
Definition rpc_state : (unit * SyncAgent) * KailuaServerCache :=
  (@handle_sync_round unit rpc_nodes demo_op_node demo_kzg 0 (Some 200) (tt, rpc_agent, ∅)).2.

Lemma rpc_parents_first : @parents_first unit rpc_nodes demo_kzg.
Proof.
  intros da address s p s' Hl. unfold load in Hl. st_inv. destruct (_ =? _).
  - unfold load_treasury in Hl. by st_inv.
  - unfold load_game in Hl. st_inv. cbn [parent index_].
    repeat match goal with X : joined (stall_u64 _ GameIndex) _ = _ |- _ => vm_compute in X; injection X as <- _
    | X : joined (stall _ ParentGameIndex) _ = _ |- _ => vm_compute in X; injection X as <- _ end. lia.
Qed.

Lemma served_address_tracked_witness :
  game_address_for_block_by_number rpc_state.2 60 = Some 400 /\
  exists v c i p, @serves unit rpc_nodes demo_op_node demo_kzg 0 (Some 200) (tt, rpc_agent, ∅) (v, c) /\
    proposals v.2 !! i = Some p /\ canonical p = Some true /\ is_correct p = Some true /\ contract p = 400 /\
    60 <= output_block_number p /\ (forall f, Some 200 = Some f -> output_block_number p < f) /\
    forall k, 60 <= k < output_block_number p -> rpc_state.2 !! k = None.
Proof.
  split; [vm_compute; reflexivity|].
  apply (@served_address_tracked unit rpc_nodes demo_op_node demo_kzg 0 (Some 200) (tt, rpc_agent) rpc_state.1 rpc_state.2 60 400).
  - exact rpc_parents_first.
  - split; intros k p; cbn; by rewrite lookup_empty.
  - eapply serves_round; [apply serves_start|]. vm_compute. reflexivity.
  - vm_compute. reflexivity.
Defined.
