(* ===== verification/Validator.v ===== *)
(** * crates/validator/src/proposals/{mod,processing,dispatch,receipts,trails}.rs,
    channel.rs and requests.rs

    The validator's loop: new proposals are judged and queued for the proof they
    call for, requests leave the queues when their time has come, and proofs that
    come back are published on chain. *)

From S2P Require Import Prelude Bytes Config Journal Blobs Precondition Stitching Deployment Proposal Agent.
From stdpp Require Import sorting.
Open Scope Z_scope.

(** ** Messages, transactions and queues *)

(** [Message], from and to the prover. *)
Inductive Message (R : Type) :=
| MProposal (index : Z) (precondition_validation_data : option PreconditionValidationData)
    (l1_head agreed_l2_head_hash agreed_l2_output_root claimed_l2_block_number claimed_l2_output_root : Z)
| MProof (index : Z) (receipt : option R).
Arguments MProposal {R}. Arguments MProof {R}.

(** The contract calls that the validator sends. *)
Inductive Transaction :=
| ProveValidity (tournament payout l1_head_contract : Z) (child_index : nat) (seal : bytes)
| ProveOutputFault (tournament payout l1_head_contract : Z) (child_index : nat) (divergence_point : Z)
    (seal : bytes) (agreed_output_root claimed_output_root output_fe : Z) (commitments proofs : list bytes)
| ProveTrailFault (tournament recipient : Z) (child_index : nat) (divergence_point output_fe : Z)
    (commitment proof : bytes).

(** [risc0_zkvm::InnerReceipt], as far as the seal depends on it. *)
Inductive InnerReceipt := Fake (claim_digest : bytes) | Groth16 (verifier_parameters seal : bytes) | OtherReceipt.
Class Receipts (R : Type) := { inner : R -> InnerReceipt }.

Definition encode_seal {R} `{Receipts R} (receipt : R) : outcome bytes :=
  match inner receipt with
  | Fake seal => Ok ([Byte.xff; Byte.xff; Byte.xff; Byte.xff] ++ seal)
  | Groth16 verifier_parameters seal => selector ← slice verifier_parameters 0 4; Ok (selector ++ seal)
  | OtherReceipt => Err "Unsupported receipt type"
  end.

(** [BinaryHeap<(Reverse<u64>, u64)>]: a list in the order in which the entries
    are popped, the earliest first, and of those the largest index. *)
Definition before (x y : Z * Z) : bool := (x.1 <? y.1) || (x.1 =? y.1) && (y.2 <=? x.2).
Fixpoint heap_push (x : Z * Z) (h : list (Z * Z)) : list (Z * Z) :=
  match h with
  | [] => [x]
  | y :: h' => if before x y then x :: h else y :: heap_push x h'
  end.

Inductive Queue := ValidityQueue | OutputFaultQueue | TrailFaultQueue.

(** The loop's variables, what it received and sent, and the host. *)
Record Validator (S R : Type) := {
  v_host : S; v_agent : SyncAgent;
  proposal_validity_buffer : list (Z * Z); output_fault_buffer : list (Z * Z);
  trail_fault_buffer : list (Z * Z);
  last_proof_l1_head : gmap Z Z;
  inbox : list (Message R); outbox : list (Message R);
  computed_proof_buffer : list (Message R); sent : list Transaction }.
Arguments v_host {S R}. Arguments v_agent {S R}. Arguments proposal_validity_buffer {S R}.
Arguments output_fault_buffer {S R}. Arguments trail_fault_buffer {S R}.
Arguments last_proof_l1_head {S R}. Arguments inbox {S R}. Arguments outbox {S R}.
Arguments computed_proof_buffer {S R}. Arguments sent {S R}. Arguments Build_Validator {S R}.

(** The clock, randomness, L1 and L2 blocks, and sending a transaction: a failure
    or a timeout is an error. *)
Class ValidatorHost (S : Type) := {
  clock : S -> Z * S;
  random_up_to : Z -> S -> Z * S;
  l1_block_at : Z -> S -> BlockInfo * S;
  l2_hash_at : Z -> S -> Z * S;
  transact : Transaction -> St S unit;
}.

(** The arguments of the validator that its decisions use. *)
Record ValidateArgs := {
  va_final_l2_block : option Z; fast_forward_start : Z; fast_forward_target : Z;
  max_fault_proving_delay : Z; max_validity_proving_delay : Z }.

Section validator.
Context {S R : Type} `{Nodes S} `{OpNode S} `{ValidatorHost S} `{Kzg} `{Zkvm R} `{Receipts R}.
Abbreviation V := (Validator S R).

Definition queue (k : Queue) (v : V) : list (Z * Z) :=
  match k with
  | ValidityQueue => proposal_validity_buffer v
  | OutputFaultQueue => output_fault_buffer v
  | TrailFaultQueue => trail_fault_buffer v
  end.
Definition set_queue (k : Queue) (q : list (Z * Z)) (v : V) : V :=
  Build_Validator (v_host v) (v_agent v)
    (match k with ValidityQueue => q | _ => proposal_validity_buffer v end)
    (match k with OutputFaultQueue => q | _ => output_fault_buffer v end)
    (match k with TrailFaultQueue => q | _ => trail_fault_buffer v end)
    (last_proof_l1_head v) (inbox v) (outbox v) (computed_proof_buffer v) (sent v).
Definition set_last (m : gmap Z Z) (v : V) : V :=
  Build_Validator (v_host v) (v_agent v) (proposal_validity_buffer v) (output_fault_buffer v)
    (trail_fault_buffer v) m (inbox v) (outbox v) (computed_proof_buffer v) (sent v).
Definition set_mail (i o c : list (Message R)) (v : V) : V :=
  Build_Validator (v_host v) (v_agent v) (proposal_validity_buffer v) (output_fault_buffer v)
    (trail_fault_buffer v) (last_proof_l1_head v) i o c (sent v).
Definition set_host (s : S) (v : V) : V :=
  Build_Validator s (v_agent v) (proposal_validity_buffer v) (output_fault_buffer v)
    (trail_fault_buffer v) (last_proof_l1_head v) (inbox v) (outbox v) (computed_proof_buffer v) (sent v).
Definition set_agent (a : SyncAgent) (v : V) : V :=
  Build_Validator (v_host v) a (proposal_validity_buffer v) (output_fault_buffer v)
    (trail_fault_buffer v) (last_proof_l1_head v) (inbox v) (outbox v) (computed_proof_buffer v) (sent v).
Definition add_sent (tx : Transaction) (v : V) : V :=
  Build_Validator (v_host v) (v_agent v) (proposal_validity_buffer v) (output_fault_buffer v)
    (trail_fault_buffer v) (last_proof_l1_head v) (inbox v) (outbox v) (computed_proof_buffer v)
    (sent v ++ [tx]).

Definition modify (f : V -> V) : St V unit := fun v => (Ok tt, f v).
Definition on_host {A} (m : St S A) : St V A := fun v =>
  let '(r, s) := m (v_host v) in (r, set_host s v).
Definition asked {A} (q : S -> A * S) : St V A := on_host (fun s => let '(a, s) := q s in (Ok a, s)).
(** A [Result] that is matched on. *)
Definition tried {A} (m : St V A) : St V (option A) := fun v =>
  match m v with
  | (Ok a, v) => (Ok (Some a), v)
  | (Err _, v) => (Ok None, v)
  | (Panic w, v) => (Panic w, v)
  end.
Definition push (k : Queue) (time index : Z) : St V unit :=
  modify (fun v => set_queue k (heap_push (time, index) (queue k v)) v).
Definition push_back (m : Message R) : St V unit :=
  modify (fun v => set_mail (inbox v) (outbox v) (computed_proof_buffer v ++ [m]) v).
Definition send (m : Message R) : St V unit :=
  modify (fun v => set_mail (inbox v) (outbox v ++ [m]) (computed_proof_buffer v) v).
(** Every transaction that was sent is on record, confirmed or not. *)
Definition transacted (tx : Transaction) : St V unit :=
  _ ← modify (add_sent tx); on_host (transact tx).

(** ** processing.rs *)

(** An earlier child of the parent that satisfies [P] and whose proposer had not
    been eliminated before. *)
Definition predecessor_with (a : SyncAgent) (parent : Proposal) (proposal_index : Z) (P : Proposal -> bool) : bool :=
  existsb (fun p => match proposals a !! p with
      | None => false
      | Some predecessor => negb (was_proposer_eliminated_before a predecessor) && P predecessor
      end)
    (filter (fun p => p < proposal_index) (children_list parent)).

(** The proof that a new proposal calls for. *)
Inductive Plan := NoProof | PlanValidity (index max_delay : Z) | PlanFault (f : Fault).

(** The case of one output per proposal. *)
Definition plan_single (args : ValidateArgs) (a : SyncAgent) (parent proposal : Proposal) : Plan :=
  let is_prior_fault := predecessor_with a parent (index_ proposal)
    (fun p => negb (default false (is_correct p))) in
  match successor parent with
  | Some p =>
      if (p =? index_ proposal) && is_prior_fault then PlanValidity p (max_fault_proving_delay args)
      else if p =? index_ proposal then NoProof
      else if is_false (is_correct proposal) && negb is_prior_fault
      then PlanValidity p (max_fault_proving_delay args)
      else NoProof
  | None => NoProof
  end.

Definition plan_proposal (args : ValidateArgs) (a : SyncAgent) (proposal_index : Z) : St S Plan :=
  match proposals a !! proposal_index with
  | None => mret NoProof
  | Some proposal =>
      if negb (has_parent proposal) then mret NoProof
      else if negb (resolved_at proposal =? 0) then mret NoProof
      else match proposals a !! parent proposal with
      | None => mret NoProof
      | Some parent =>
          if (match va_final_l2_block args with Some f => f <=? output_block_number parent | None => false end)
          then mret NoProof
          else
            is_validity_proven ← fetch_is_successor_validity_proven parent;
            if is_validity_proven : bool then mret NoProof
            else match canonical proposal with
            | None => mret NoProof
            | Some is_proposal_canonical =>
                let fast_forward := (fast_forward_start args <=? output_block_number proposal) &&
                  (output_block_number proposal <=? fast_forward_target args) in
                if fast_forward && is_proposal_canonical
                then mret (PlanValidity proposal_index (max_validity_proving_delay args))
                else if fast_forward && bool_decide (is_Some (successor parent)) then mret NoProof
                else if proposal_output_count (deployment a) =? 1
                then mret (plan_single args a parent proposal)
                else if predecessor_with a parent proposal_index (fun p => signature p =? signature proposal)
                then mret NoProof
                else if bool_decide (is_correct proposal = Some true) then mret NoProof
                else
                  proof_status ← stall (contract parent) (ProofStatus (signature proposal));
                  if negb (proof_status =? 0) then mret NoProof
                  else match fault proposal with
                  | None => mret NoProof
                  | Some f => mret (PlanFault f)
                  end
            end
      end
  end.

Definition random_processing_time (max_seconds : Z) : St V Z :=
  random_wait ← asked (random_up_to max_seconds);
  current_time ← asked clock;
  lift (u64_add host current_time random_wait).

(** One round of the loop of [process_proposals]. *)
Definition process_proposal (args : ValidateArgs) (proposal_index : Z) : St V unit :=
  v ← get_st;
  plan ← on_host (plan_proposal args (v_agent v) proposal_index);
  match plan with
  | NoProof => mret tt
  | PlanValidity p max_delay => t ← random_processing_time max_delay; push ValidityQueue t p
  | PlanFault f =>
      t ← random_processing_time (max_fault_proving_delay args);
      push (if is_output f then OutputFaultQueue else TrailFaultQueue) t proposal_index
  end.

Fixpoint process_proposals (args : ValidateArgs) (loaded_proposals : list Z) : St V unit :=
  match loaded_proposals with
  | [] => mret tt
  | i :: l => _ ← process_proposal args i; process_proposals args l
  end.

(** ** requests.rs: what is asked of the prover

    The receiving ends of the channels stay open. *)

(** [get_next_block]: the block after the one with the hash. *)
Definition get_next_block (parent_hash : Z) : St V BlockInfo :=
  parent_number ← asked (l1_block_number parent_hash);
  n ← lift (u64_add host parent_number 1);
  asked (l1_block_at n).

Definition request_fault_proof (parent proposal : Proposal) (l1_head : Z) : St V unit :=
  v ← get_st;
  let a := v_agent v in
  match fault proposal with
  | None => lift (Err "Proposal does not diverge from canon.")
  | Some fault =>
      let divergence_point := Z.of_nat (divergence_point fault) in
      offset ← lift (u64_mul host (output_block_span (deployment a)) divergence_point);
      agreed_l2_head_number ← lift (u64_add host (output_block_number parent) offset);
      agreed_l2_head_hash ← asked (l2_hash_at agreed_l2_head_number);
      agreed_l2_output_root ← lift (ok_or "Output root for agreed block not in memory."
        (outputs a !! agreed_l2_head_number));
      claimed_l2_block_number ← lift (u64_add host agreed_l2_head_number (output_block_span (deployment a)));
      claimed_l2_output_root ← lift (ok_or "Output root for claimed block not in memory."
        (outputs a !! claimed_l2_block_number));
      send (MProposal (index_ proposal) None l1_head agreed_l2_head_hash agreed_l2_output_root
        claimed_l2_block_number claimed_l2_output_root)
  end.

(** The request for each blob names the block after the proposal's L1 head. *)
Fixpoint validated_blobs (l1_head : Z) (io_blobs : list (Z * BlobData)) : St V (list BlobFetchRequest) :=
  match io_blobs with
  | [] => mret []
  | (blob_hash, blob) :: io_blobs =>
      block ← get_next_block l1_head;
      blobs ← validated_blobs l1_head io_blobs;
      mret ({| block_ref := block; blob_hash := {| ibh_index := bd_index blob; ibh_hash := blob_hash |} |} :: blobs)
  end.

Definition request_validity_proof (parent proposal : Proposal) (l1_head : Z) : St V unit :=
  v ← get_st;
  let d := deployment (v_agent v) in
  precondition_validation_data ←
    (if 1 <? proposal_output_count d then
       blobs ← validated_blobs (Proposal.l1_head proposal) (io_blobs proposal);
       mret (Some (Validity (output_block_number parent) (proposal_output_count d) (output_block_span d) blobs))
     else mret None);
  agreed_l2_head_hash ← asked (l2_hash_at (output_block_number parent));
  send (MProposal (index_ proposal) precondition_validation_data l1_head agreed_l2_head_hash
    (output_root parent) (output_block_number proposal) (output_root proposal)).

(** ** dispatch.rs *)

(** The first known L1 head at a block from [number] on. *)
Definition first_head_from (number : Z) (heads : gmap Z (Z * Z)) : option (Z * Z) :=
  min_key (filter (fun kv => number <= fst kv) heads) ≫= fun n => heads !! n.

(** [get_next_l1_head]: the proposal's own head, and then one later head for each
    further request. *)
Definition get_next_l1_head (proposal : Proposal) : St V (option Z) :=
  v ← get_st;
  let a := v_agent v in
  l1_head ← (match last_proof_l1_head v !! index_ proposal with
    | None => mret (Some (Proposal.l1_head proposal))
    | Some last_block_no =>
        n ← lift (u64_add host last_block_no 1);
        mret (snd <$> first_head_from n (l1_heads a))
    end);
  match l1_head with
  | None => mret None
  | Some l1_head =>
      entry ← lift (unwrap "Missing l1 head from db" (l1_heads_inv a !! l1_head));
      _ ← modify (set_last (<[index_ proposal := snd entry]> (last_proof_l1_head v)));
      mret (Some l1_head)
  end.

(** At most [count] entries of a queue whose time has come, in order, each with
    the time at which it is to be tried again.  The loops of dispatch.rs and of
    trails.rs both begin with this. *)
Fixpoint drain_due (k : Queue) (handler : Z -> Z -> St V unit) (current_timestamp : Z) (count : nat) : St V unit :=
  match count with
  | O => mret tt
  | Datatypes.S count =>
      v ← get_st;
      match queue k v with
      | [] => mret tt
      | (next_time, proposal_index) :: buffer =>
          if current_timestamp <? next_time then mret tt
          else
            _ ← modify (set_queue k buffer);
            retry_time ← lift (u64_add host next_time 10);
            _ ← handler retry_time proposal_index;
            drain_due k handler current_timestamp count
      end
  end.

(** A proposal that is not in the agent's store is tried again unless it has been
    freed. *)
Definition retry_missing (k : Queue) (retry_time proposal_index missing : Z) : St V unit :=
  v ← get_st;
  if last_resolved_game (cursor (v_agent v)) <? missing then push k retry_time proposal_index else mret tt.

Definition dispatch_request (k : Queue) (is_fault : bool) (retry_time proposal_index : Z) : St V unit :=
  v ← get_st;
  let a := v_agent v in
  match proposals a !! proposal_index with
  | None => retry_missing k retry_time proposal_index proposal_index
  | Some proposal =>
      match proposals a !! parent proposal with
      | None => retry_missing k retry_time proposal_index (parent proposal)
      | Some parent =>
          proof_status ← on_host (stall (contract parent) (ProofStatus (signature proposal)));
          if negb (proof_status =? 0) then mret tt
          else
            l1_head ← get_next_l1_head proposal;
            match l1_head with
            | None => push k retry_time proposal_index
            | Some l1_head =>
                r ← tried (if is_fault then request_fault_proof parent proposal l1_head
                           else request_validity_proof parent proposal l1_head);
                match r with None => push k retry_time proposal_index | Some _ => mret tt end
            end
      end
  end.

Definition dispatch_proof_requests (k : Queue) (is_fault : bool) : St V unit :=
  current_timestamp ← asked clock;
  v ← get_st;
  drain_due k (dispatch_request k is_fault) current_timestamp (length (queue k v)).
End validator.

(** ** Which proposals are challenged *)

Section plan_spec.
Context {S : Type} `{Nodes S}.

(** A proposal that may still be decided, with its parent. *)
Record pending (a : SyncAgent) (i : Z) (p par : Proposal) : Prop := {
  pd_stored : proposals a !! i = Some p;
  pd_parent : proposals a !! parent p = Some par;
  pd_has_parent : has_parent p = true;
  pd_unresolved : resolved_at p = 0;
}.

(** An earlier child of the same parent, whose proposer was not eliminated before
    it, is like this. *)
Definition earlier_child (a : SyncAgent) (par : Proposal) (i : Z) (P : Proposal -> Prop) : Prop :=
  exists j q, j ∈ children par /\ j < i /\ proposals a !! j = Some q /\
    (forall round, eliminations a !! proposer q = Some round -> index_ q <= round) /\ P q.
(** It makes the same claims: one proof settles both. *)
Definition settled_with_earlier (a : SyncAgent) (par : Proposal) (i : Z) (p : Proposal) : Prop :=
  earlier_child a par i (fun q => signature q = signature p).

(** A contract answers with something else than zero. *)
Definition answers_nonzero (address : Z) (c : Call) : Prop := exists s : S, (eth_call address c s).1 <> 0.

Lemma earlier_child_iff a par i (P P' : Proposal -> Prop) :
  (forall q, P q <-> P' q) -> earlier_child a par i P <-> earlier_child a par i P'.
Proof. intros HP. unfold earlier_child. by setoid_rewrite HP. Qed.

Lemma not_eliminated_before a q :
  was_proposer_eliminated_before a q = false <->
  forall round, eliminations a !! proposer q = Some round -> index_ q <= round.
Proof.
  unfold was_proposer_eliminated_before. destruct (eliminations a !! proposer q) as [round|]; [|naive_solver].
  rewrite Z.ltb_ge. naive_solver.
Qed.

Lemma predecessor_with_spec a par i P :
  predecessor_with a par i P = true <-> earlier_child a par i (fun q => P q = true).
Proof.
  unfold predecessor_with, earlier_child. rewrite existsb_exists. unfold children_list.
  setoid_rewrite <-not_eliminated_before. split.
  - intros (j & Hj%list_elem_of_In & Hq). apply list_elem_of_filter in Hj as [Hlt Hj].
    rewrite merge_sort_Permutation, elem_of_elements in Hj. destruct (proposals a !! j) as [q|] eqn:Eq; [|done].
    bools. by exists j, q.
  - intros (j & q & Hj & Hlt & Hq & He & HP). exists j. rewrite Hq, He. split; [|done].
    apply list_elem_of_In, list_elem_of_filter. by rewrite merge_sort_Permutation, elem_of_elements.
Qed.

Lemma stall_nonzero address c (s s' : S) v : stall address c s = (Ok v, s') -> v <> 0 -> answers_nonzero address c.
Proof. intros Hs%stall_Ok Hv. exists s. by rewrite Hs. Qed.

Lemma proven_answers par (s s' : S) b :
  fetch_is_successor_validity_proven par s = (Ok b, s') -> b = true ->
  answers_nonzero (contract par) ValidChildSignature.
Proof.
  unfold fetch_is_successor_validity_proven. intros Hf ->. st_inv. eapply stall_nonzero; [done|].
  intros ->. done.
Qed.

Lemma unproven_answered par (s s' : S) :
  fetch_is_successor_validity_proven par s = (Ok false, s') -> answered (S := S) (contract par) ValidChildSignature 0.
Proof.
  unfold fetch_is_successor_validity_proven. intros Hf. st_inv. bools. subst. by eapply stall_answered.
Qed.

Lemma fault_incorrect p : fault p <> None -> is_correct p = Some false.
Proof. intros Hf. apply (proj1 (fault_spec p)). by right. Qed.

(** With one output per proposal, the first wrong child proves the successor. *)
Lemma plan_single_spec args a par p :
  match plan_single args a par p with
  | PlanValidity j max_delay => max_delay = max_fault_proving_delay args /\ successor par = Some j /\
      let wrong_before := earlier_child a par (index_ p) (fun q => is_correct q <> Some true) in
      (j = index_ p /\ wrong_before \/ j <> index_ p /\ is_correct p = Some false /\ ~ wrong_before)
  | NoProof => True
  | PlanFault _ => False
  end.
Proof.
  assert (Hprior : predecessor_with a par (index_ p) (fun p => negb (default false (is_correct p))) = true <->
    earlier_child a par (index_ p) (fun q => is_correct q <> Some true)).
  { rewrite predecessor_with_spec. apply earlier_child_iff. intros q. by destruct (is_correct q) as [[]|]. }
  unfold plan_single. revert Hprior. generalize (predecessor_with a par (index_ p) (fun p => negb (default false (is_correct p)))) as prior.
  intros prior Hprior. cbv zeta. destruct (successor par) as [j|]; [|done].
  destruct (Z.eqb_spec j (index_ p)) as [->|Hne]; cbn [andb].
  - destruct prior; cbn [andb]; [|done]. split_and!; auto. left. split; [done|]. by apply Hprior.
  - destruct (is_false (is_correct p) && _) eqn:E4; [|done]. bools. unfold is_false in *. bools.
    split_and!; auto. right. split_and!; [done..|]. intros Hw%Hprior. by destruct prior.
Qed.

End plan_spec.

(** ** L1 heads for repeated requests *)

Section heads_spec.
Context {S R : Type} `{Nodes S} `{OpNode S} `{ValidatorHost S} `{Kzg}.
Abbreviation V := (Validator S R).

Lemma min_key_Some {A} (m : gmap Z A) k :
  min_key m = Some k -> is_Some (m !! k) /\ forall j, is_Some (m !! j) -> k <= j.
Proof.
  unfold min_key. intros Hk.
  assert (Hl : forall l : list Z, match foldr (fun k o => Some (match o with None => k | Some k' => Z.min k k' end)) None l with
    | Some k => k ∈ l /\ forall j, j ∈ l -> k <= j | None => l = [] end).
  { induction l as [|x l IH]; [done|]. cbn. destruct (foldr _ _ l) as [k'|].
    - destruct IH as [Hin Hle]. split.
      + destruct (Z.min_spec x k') as [[_ ->]|[_ ->]]; [left|by right].
      + intros j [->|Hj]%elem_of_cons; [lia|]. specialize (Hle j Hj). lia.
    - subst. split; [left|]. intros j [->|Hj]%elem_of_cons; [lia|]. by apply elem_of_nil in Hj. }
  specialize (Hl (fst <$> map_to_list m)). rewrite Hk in Hl. destruct Hl as [Hin Hle]. split.
  - apply list_elem_of_fmap in Hin as ([k' v] & -> & Hin%elem_of_map_to_list). by exists v.
  - intros j [v Hv]. apply Hle, list_elem_of_fmap. exists (j, v). split; [done|]. by apply elem_of_map_to_list.
Qed.

Lemma min_key_None {A} (m : gmap Z A) : min_key m = None -> m = ∅.
Proof.
  unfold min_key. intros Hk. apply map_to_list_empty_iff. destruct (map_to_list m) as [|[k v] l]; [done|].
  by cbn in Hk.
Qed.

(** Where the heads are filed: each under its block's number, with an entry in the
    inverse map. *)
Definition heads_filed (number_of : Z -> Z) (a : SyncAgent) : Prop :=
  (forall n c h, l1_heads a !! n = Some (c, h) -> number_of h = n /\ is_Some (l1_heads_inv a !! h)) /\
  (forall h c n, l1_heads_inv a !! h = Some (c, n) -> number_of h = n).

(** The two operations that touch the maps keep them so. *)
Lemma heads_filed_sync number_of c h (w : S * SyncAgent) :
  (forall s, (l1_block_number h s).1 = number_of h) ->
  heads_filed number_of w.2 -> heads_filed number_of (sync_l1_head c h w).2.2.
Proof.
  intros Hn [H1' H2']. unfold sync_l1_head, on_node, mbind, St_bind, modify_agent.
  specialize (Hn w.1). destruct (l1_block_number h w.1) as [n s']. cbn in *. subst n.
  unfold heads_filed. cbn [with_l1_heads l1_heads l1_heads_inv].
  assert (Hinv : forall x, is_Some (l1_heads_inv w.2 !! x) -> is_Some (insert_vacant h (c, number_of h) (l1_heads_inv w.2) !! x)).
  { intros x Hx. unfold insert_vacant. destruct (l1_heads_inv w.2 !! h); [done|]. rewrite lookup_insert. by case_decide. }
  split.
  - intros n d k. unfold insert_vacant at 1. destruct (l1_heads w.2 !! number_of h) eqn:E.
    + intros [? ?]%H1'. auto.
    + rewrite lookup_insert. case_decide as Heq; [|intros [? ?]%H1'; auto]. intros [= <- <-]. split; [done|].
      unfold insert_vacant. destruct (l1_heads_inv w.2 !! h) eqn:Ei; [by rewrite Ei|]. by rewrite lookup_insert_eq.
  - intros k d n. unfold insert_vacant. destruct (l1_heads_inv w.2 !! h) eqn:E; [apply H2'|].
    rewrite lookup_insert. case_decide as Heq; [|apply H2']. intros [= <- <-]. by subst.
Qed.

Lemma heads_filed_prune number_of block_no a :
  heads_filed number_of a -> heads_filed number_of (prune_l1_heads block_no a).
Proof.
  intros [H1' H2']. unfold prune_l1_heads, heads_filed. cbn [with_l1_heads l1_heads l1_heads_inv].
  set (old := filter (fun kv => fst kv < block_no) (l1_heads a)).
  assert (Hold : forall kv, kv ∈ map_to_list old -> number_of kv.2.2 < block_no).
  { intros [n [c h]] Hin%elem_of_map_to_list. apply map_lookup_filter_Some in Hin as [Hin Hlt].
    destruct (H1' _ _ _ Hin) as [Hnum _]. cbn in Hlt |- *. lia. }
  assert (Hdel : forall l (m : gmap Z (Z * Z)) h, (forall kv : Z * (Z * Z), kv ∈ l -> number_of kv.2.2 < block_no) ->
    (forall x, foldr (fun kv m => delete kv.2.2 m) m l !! h = Some x -> m !! h = Some x) /\
    (block_no <= number_of h -> foldr (fun kv m => delete kv.2.2 m) m l !! h = m !! h)).
  { intros l m h Hl. induction l as [|kv l IH]; [done|]. destruct IH as [IH1 IH2]; [intros ? ?; apply Hl; by right|].
    cbn. split.
    - intros x [_ Hx]%lookup_delete_Some. auto.
    - intros Hge. rewrite lookup_delete_ne; [auto|]. intros Heq. specialize (Hl kv (list_elem_of_here _ _)).
      subst h. lia. }
  split.
  - intros n c h [Hn Hge]%map_lookup_filter_Some. destruct (H1' _ _ _ Hn) as [Hnum Hs]. split; [done|].
    change (block_no <= n) in Hge. destruct (Hdel _ (l1_heads_inv a) h Hold) as [_ ->]; [done|lia].
  - intros h c n Hl. destruct (Hdel _ (l1_heads_inv a) h Hold) as [Hd _]. eapply H2', Hd, Hl.
Qed.

(** The L1 heads of the requests for a proposal advance.  The first request
    uses the head of the proposal itself; every further one uses the first known
    head after the last one used, so none is used twice and none is skipped, and
    it is recorded; when no later head is known, nothing changes. *)
Theorem next_l1_head_spec number_of (p : Proposal) (v v' : V) r :
  heads_filed number_of (v_agent v) -> get_next_l1_head p v = (Ok r, v') ->
  match last_proof_l1_head v !! index_ p, r with
  | None, None => False
  | None, Some h => h = l1_head p /\
      v' = set_last (<[index_ p := number_of h]> (last_proof_l1_head v)) v
  | Some last, None => v' = v /\ forall n, last < n -> l1_heads (v_agent v) !! n = None
  | Some last, Some h => exists n c, last < n /\ l1_heads (v_agent v) !! n = Some (c, h) /\
      (forall m, last < m < n -> l1_heads (v_agent v) !! m = None) /\
      v' = set_last (<[index_ p := n]> (last_proof_l1_head v)) v
  end.
Proof.
  intros [Hf Hi] Hg. unfold get_next_l1_head in Hg. apply St_bind_Ok in Hg as (? & ? & [= <- <-] & Hg).
  cbv zeta in Hg. destruct (last_proof_l1_head v !! index_ p) as [last|] eqn:El.
  - apply St_bind_Ok in Hg as (h & v1 & Hh & Hg). st_inv.
    match goal with X : u64_add host last 1 = _ |- _ => apply (arith_checked host) in X as [-> _]; [|done] end.
    unfold first_head_from in Hg. destruct (min_key _) as [n|] eqn:Em; cbn [mbind option_bind] in Hg.
    + apply min_key_Some in Em as [[[c h] Hn%map_lookup_filter_Some] Hmin]. destruct Hn as [Hn Hle]. cbn in Hle.
      rewrite Hn in Hg. cbn in Hg. st_inv. ok_inv. unfold modify in *. simplify_eq.
      destruct (Hf _ _ _ Hn) as [Hnum _]. destruct x as [c' n']. match goal with X : l1_heads_inv _ !! _ = Some _ |- _ => pose proof (Hi _ _ _ X) as Hn' end. cbn [snd].
      exists n, c. split_and!; [lia|done| |by rewrite <-Hn', Hnum].
      intros m Hm. destruct (l1_heads (v_agent _) !! m) as [e|] eqn:Ee; [|done].
      assert (n <= m); [|lia]. apply Hmin. exists e. apply map_lookup_filter_Some. split; [done|cbn; lia].
    + cbn in Hg. st_inv. split; [done|]. intros n Hn. apply min_key_None in Em.
      destruct (l1_heads (v_agent _) !! n) as [e|] eqn:Ee; [|done]. exfalso.
      apply (f_equal (fun m => m !! n)) in Em. rewrite lookup_empty in Em.
      apply map_lookup_filter_None in Em as [Em|Em]; [congruence|]. apply (Em e Ee). cbn. lia.
  - st_inv. ok_inv. unfold modify in *. simplify_eq. destruct x as [c n]. split; [done|].
    match goal with X : l1_heads_inv _ !! _ = Some _ |- _ => by rewrite (Hi _ _ _ X) end.
Qed.
End heads_spec.

(** ** Concrete runs *)

(** Proposal 6 on top of the anchor, with a wrong first output. *)
Definition demo_wrong : Proposal :=
  {| contract := 500; p_treasury := 400; index_ := 6; parent := 5; proposer := 9; created_at := 1000;
     io_blobs := []; io_field_elements := [77]; trail_field_elements := [0; 0]; output_root := 2104;
     output_block_number := 104; l1_head := 8; signature := 0; children := ∅; successor := None;
     correct_io := [Some false]; correct_trail := [Some true; Some true]; correct_claim := Some true;
     correct_parent := Some true; canonical := Some false; resolved_at := 0 |}.
Definition demo_judge : SyncAgent :=
  {| deployment := demo_deployment; da_provider := demo_da; db := ∅; cursor := demo_cursor;
     outputs := {[ 100 := 2100; 102 := 2102; 104 := 2104 ]};
     proposals := {[ 5 := set_children {[6]} demo_anchor; 6 := demo_wrong ]}; eliminations := ∅;
     l1_heads := {[ 8 := (400, 8); 9 := (500, 9) ]}; l1_heads_inv := {[ 8 := (400, 8); 9 := (500, 9) ]} |}.
Definition demo_host : ValidatorHost unit := {|
  clock := fun s => (2000, s); random_up_to := fun m s => (m / 2, s);
  l1_block_at := fun n s => ({| bk_hash := n; bk_number := n; bk_parent_hash := n - 1; bk_timestamp := 12 * n |}, s);
  l2_hash_at := fun n s => (3000 + n, s); transact := fun _ s => (Ok tt, s) |}.
Definition demo_args : ValidateArgs := {|
  va_final_l2_block := None; fast_forward_start := 0; fast_forward_target := 0;
  max_fault_proving_delay := 10; max_validity_proving_delay := 20 |}.
Definition demo_validator (queued : list (Z * Z)) (used : gmap Z Z) : Validator unit unit :=
  Build_Validator tt demo_judge [] queued [] used [] [] [] [].

Lemma demo_judge_inv : props_inv (proposals demo_judge).
Proof.
  assert (Hl : forall k p, proposals demo_judge !! k = Some p ->
    (k = 5 /\ p = set_children {[6]} demo_anchor) \/ (k = 6 /\ p = demo_wrong)).
  { unfold demo_judge. cbn [proposals]. intros k p [[<- <-]|[Hk [<- <-]%lookup_singleton_Some]]%lookup_insert_Some; auto. }
  split.
  - by intros k p [[-> ->]|[-> ->]]%Hl.
  - intros k p [[-> ->]|[-> ->]]%Hl; split_and!; by try eexists.
  - by intros k p j [[-> ->]|[-> ->]]%Hl.
Qed.


Lemma demo_heads_filed : heads_filed id demo_judge.
Proof.
  assert (Hl : forall n x, ({[ 8 := (400, 8); 9 := (500, 9) ]} : gmap Z (Z * Z)) !! n = Some x ->
    (n = 8 /\ x = (400, 8)) \/ (n = 9 /\ x = (500, 9))).
  { intros n x [[<- <-]|[_ [<- <-]%lookup_singleton_Some]]%lookup_insert_Some; auto. }
  split.
  - intros n c h Hn%Hl. destruct Hn as [[-> ?]|[-> ?]]; simplify_eq; split; by try eexists.
  - intros h c n Hn%Hl. destruct Hn as [[-> ?]|[-> ?]]; by simplify_eq.
Qed.

(** The second request for proposal 6 uses the head of block 9. *)
Lemma next_l1_head_spec_witness :
  exists n c, 8 < n /\ l1_heads demo_judge !! n = Some (c, 9) /\
    (forall m, 8 < m < n -> l1_heads demo_judge !! m = None) /\
    demo_validator [] {[ 6 := 9 ]} = set_last (<[6 := n]> {[ 6 := 8 ]}) (demo_validator [] {[ 6 := 8 ]}).
Proof.
  assert (Hg : @get_next_l1_head unit unit demo_wrong (demo_validator [] {[ 6 := 8 ]}) =
    (Ok (Some 9), demo_validator [] {[ 6 := 9 ]})). { vm_compute. reflexivity. }
  pose proof (@next_l1_head_spec unit unit id demo_wrong (demo_validator [] {[ 6 := 8 ]})
    (demo_validator [] {[ 6 := 9 ]}) (Some 9) demo_heads_filed Hg) as Hn.
  cbn [last_proof_l1_head demo_validator index_ demo_wrong v_agent] in Hn.
  rewrite lookup_singleton_eq in Hn. exact Hn.
Defined.
