(* ===== verification/ValidatorSpec.v ===== *)
(** * crates/validator: what is requested, and that no request is lost

    A fault proof that is requested contradicts the proposal at its first wrong
    output; an entry of a queue stays there until its proof has been requested or
    is no longer needed. *)

From S2P Require Import Prelude Bytes Config Journal Blobs Precondition Stitching Deployment Proposal Agent Validator.
From stdpp Require Import sorting.
Open Scope Z_scope.

Section requests_spec.
Context {S R : Type} `{Nodes S} `{OpNode S} `{ValidatorHost S} `{Kzg}.
Abbreviation V := (Validator S R).

(** ** Fault proofs contradict the proposal *)

(** A game as the contracts let it be made, on top of its parent. *)
Record game_shape (a : SyncAgent) (par p : Proposal) : Prop := {
  gs_parent : has_parent p = true;
  gs_outputs : Z.of_nat (length (io_field_elements p)) = proposal_output_count (deployment a) - 1;
  gs_verdicts : length (correct_io p) = length (io_field_elements p);
  gs_block : output_block_number p =
    output_block_number par + proposal_output_count (deployment a) * output_block_span (deployment a);
  gs_parent_block : 0 <= output_block_number par;
  gs_span : 0 < output_block_span (deployment a);
}.

Lemma starting_block_shape a par p : game_shape a par p -> starting_block a p = output_block_number par.
Proof. intros Hg. unfold starting_block, sat_sub. rewrite (gs_block _ _ _ Hg). pose proof (gs_parent_block _ _ _ Hg). lia. Qed.

(** The commitment of a proposal at a position: an intermediate output by its
    field element, and the claim by the root itself. *)
Definition commits (p : Proposal) (position : nat) (root : Z) : Prop :=
  match io_field_elements p !! position with
  | Some fe => hash_to_fe root = fe
  | None => position = length (io_field_elements p) /\ root = output_root p
  end.

(** What the judgement says about the root that the agent holds for the block of
    a position. *)
Lemma judged_position a par q p correct i root :
  game_shape a par q -> assess_correctness a q = Ok (p, correct) ->
  (i <= length (io_field_elements q))%nat ->
  outputs a !! (output_block_number par + (Z.of_nat i + 1) * output_block_span (deployment a)) = Some root ->
  exists b, (if (i <? length (io_field_elements q))%nat then correct_io p !! i else Some (correct_claim p)) =
    Some (Some b) /\ (b = true <-> commits q i root).
Proof.
  intros Hg Ha Hi Hroot.
  destruct (assess_correctness_Ok _ _ _ _ Ha (gs_parent _ _ _ Hg)) as
    (io & trail & claim & parc & -> & _ & _ & (local & Hlocal & ->) & _ & _ & Hio & _).
  cbn [set_verdicts correct_io correct_claim]. unfold commits.
  destruct (Nat.ltb_spec i (length (io_field_elements q))) as [Hlt|Hge].
  - destruct (lookup_lt_is_Some_2 _ _ Hlt) as [fe Hfe]. rewrite Hfe.
    destruct (Hio _ _ Hfe) as (b & (_ & _ & h & Hh & ->)%judge_Ok & ->).
    rewrite (starting_block_shape _ _ _ Hg), Hroot in Hh. simplify_eq.
    eexists. split; [done|]. apply Z.eqb_eq.
  - assert (i = length (io_field_elements q)) as -> by lia.
    rewrite lookup_ge_None_2 by lia.
    replace (output_block_number par + (Z.of_nat (length (io_field_elements q)) + 1) * output_block_span (deployment a))
      with (output_block_number q) in Hroot by (rewrite (gs_block _ _ _ Hg), (gs_outputs _ _ _ Hg); lia).
    rewrite Hroot in Hlocal. simplify_eq.
    eexists. split; [done|]. rewrite Z.eqb_eq. tauto.
Qed.

(** The position of an output fault is the first wrong one. *)
Lemma output_fault_first p i :
  fault p = Some (Output i) -> length (correct_io p) = length (io_field_elements p) ->
  (i <= length (io_field_elements p))%nat /\
  (if (i <? length (io_field_elements p))%nat then correct_io p !! i else Some (correct_claim p)) = Some (Some false) /\
  forall j, (j < i)%nat -> correct_io p !! j <> Some (Some false).
Proof.
  intros Hf Hlen. pose proof (fault_spec p) as (_ & _ & Hs). rewrite Hf in Hs.
  destruct Hs as [_ [[Hi Hj]|(-> & Hc & Hio)]].
  - pose proof (lookup_lt_Some _ _ _ Hi). rewrite Hlen in *. rewrite (proj2 (Nat.ltb_lt _ _)) by done.
    split_and!; [lia|done|done].
  - rewrite Nat.ltb_irrefl. split_and!; [lia|congruence|]. intros j _ Hj. by apply Hio, list_elem_of_lookup_2 with j.
Qed.

(** C6. A requested fault proof contradicts the proposal.  If a proposal was
    judged to have an output fault and the output roots have not been revised
    since, the one message that is sent asks for a proof, without preconditions,
    over the span of blocks that ends at the first wrong commitment: the agreed
    root is what the proposal itself commits to just before (the node's root at
    the parent's block if there is nothing before), the claimed root is not what
    the proposal commits to. *)
Theorem fault_request_contradicts a0 q p correct par i l1_head (v v' : V) :
  let a := v_agent v in
  assess_correctness a0 q = Ok (p, correct) -> game_shape a0 par q ->
  fault p = Some (Output i) -> deployment a = deployment a0 -> outputs a ⊆ outputs a0 ->
  request_fault_proof par p l1_head v = (Ok tt, v') ->
  exists hash agreed claimed,
    outbox v' = outbox v ++ [MProposal (index_ p) None l1_head hash agreed
      (output_block_number par + (Z.of_nat i + 1) * output_block_span (deployment a)) claimed] /\
    outputs a !! (output_block_number par + Z.of_nat i * output_block_span (deployment a)) = Some agreed /\
    match i with O => True | Datatypes.S j => commits q j agreed end /\
    ~ commits q i claimed.
Proof.
  intros a Ha Hg Hf Hd Ho Hr. pose proof (assess_correctness_Ok _ _ _ _ Ha (gs_parent _ _ _ Hg)) as
    (io & trail & claim & parc & Hp & _ & _ & _ & Hlio & _).
  assert (Hlen : length (correct_io p) = length (io_field_elements p)).
  { subst p. cbn. rewrite Hlio. exact (gs_verdicts _ _ _ Hg). }
  assert (Hfe : io_field_elements p = io_field_elements q) by by subst p.
  destruct (output_fault_first _ _ Hf Hlen) as (Hi & Hwrong & Hbefore). rewrite Hfe in *.
  unfold request_fault_proof in Hr. apply St_bind_Ok in Hr as (? & ? & [= <- <-] & Hr). rewrite Hf in Hr.
  cbn [divergence_point] in Hr. fold a in Hr. st_inv.
  repeat match goal with X : _ host _ _ = Ok _ |- _ => apply (arith_checked host) in X as [-> _]; [|done] end.
  ok_inv.
  match goal with X : asked _ v = (Ok ?h, ?s) |- _ =>
    assert (outbox s = outbox v) as Hout by
      (unfold asked, on_host in X; destruct (l2_hash_at _ _); cbn in X; by simplify_eq);
    rename h into hash end.
  match goal with X : outputs a !! ?n = Some ?r, Y : outputs a !! (?n + _) = Some ?r' |- _ =>
    rename r into agreed, r' into claimed; rename X into Hagreed, Y into Hclaimed end.
  replace (output_block_number par + output_block_span (deployment a) * Z.of_nat i + output_block_span (deployment a))
    with (output_block_number par + (Z.of_nat i + 1) * output_block_span (deployment a)) in * by lia.
  rewrite (Z.mul_comm (output_block_span _)) in Hagreed.
  exists hash, agreed, claimed. split_and!.
  - unfold send, modify in Hr. simplify_eq. cbn. by rewrite Hout.
  - done.
  - destruct i as [|j]; [done|]. pose proof (lookup_weaken _ _ _ _ Hagreed Ho) as Hj.
    replace (Z.of_nat (Datatypes.S j)) with (Z.of_nat j + 1) in Hj by lia. rewrite Hd in Hj.
    destruct (judged_position _ _ _ _ _ j _ Hg Ha ltac:(lia) Hj) as (b & Hv & Hb).
    rewrite (proj2 (Nat.ltb_lt _ _)) in Hv by lia. apply Hb.
    specialize (Hbefore j (Nat.lt_succ_diag_r j)). rewrite Hv in Hbefore. by destruct b.
  - pose proof (lookup_weaken _ _ _ _ Hclaimed Ho) as Hc. rewrite Hd in Hc.
    destruct (judged_position _ _ _ _ _ i _ Hg Ha Hi Hc) as (b & Hv & Hb). rewrite Hwrong in Hv.
    intros ->%Hb. congruence.
Qed.
End requests_spec.

(** ** No request is lost *)

Section dispatch_spec.
Context {S R : Type} `{Nodes S} `{OpNode S} `{ValidatorHost S} `{Kzg}.
Abbreviation V := (Validator S R).

(** A queue is in the order in which it is served. *)
Definition in_order (h : list (Z * Z)) : Prop := StronglySorted (fun x y => before x y = true) h.

(** What serving a queue does to the rest: the agent is only read, the queue and
    the messages grow, and the queue stays in order. *)
Record grows (k : Queue) (v v' : V) : Prop := {
  gr_agent : v_agent v' = v_agent v;
  gr_queue : queue k v ⊆ queue k v';
  gr_order : in_order (queue k v) -> in_order (queue k v');
  gr_outbox : exists new, outbox v' = outbox v ++ new;
}.

#[local] Instance grows_preorder k : PreOrder (grows k).
Proof.
  split; [intros v; split; [done..|]; exists []; by rewrite app_nil_r|].
  intros u v w [? ? ? [n1 Ho1]] [? ? ? [n2 Ho2]]. split; [congruence|set_solver|auto|].
  exists (n1 ++ n2). by rewrite Ho2, Ho1, app_assoc.
Qed.

Lemma grows_eq k (v v' : V) new :
  v_agent v' = v_agent v -> queue k v' = queue k v -> outbox v' = outbox v ++ new -> grows k v v'.
Proof. intros Ha Hq Ho. split; [done|by rewrite Hq..|by exists new]. Qed.

Lemma heap_push_elem x h y : y ∈ heap_push x h <-> y = x \/ y ∈ h.
Proof.
  induction h as [|z h IH]; cbn; [rewrite elem_of_cons; done|].
  destruct (before x z); rewrite !elem_of_cons, ?IH; naive_solver.
Qed.

Lemma before_total x y : before x y = false -> before y x = true.
Proof.
  unfold before. rewrite orb_false_iff, andb_false_iff, orb_true_iff, andb_true_iff, !Z.ltb_lt, !Z.eqb_eq, !Z.leb_le,
    Z.ltb_ge, Z.eqb_neq, Z.leb_gt. lia.
Qed.

Lemma before_trans x y z : before x y = true -> before y z = true -> before x z = true.
Proof. unfold before. rewrite !orb_true_iff, !andb_true_iff, !Z.ltb_lt, !Z.eqb_eq, !Z.leb_le. lia. Qed.

Lemma heap_push_order x h : in_order h -> in_order (heap_push x h).
Proof.
  induction 1 as [|y h Hs IH Hy]; cbn; [repeat constructor|]. destruct (before x y) eqn:E.
  - constructor; [by constructor|]. constructor; [done|]. eapply Forall_impl; [exact Hy|]. intros z. by apply before_trans.
  - constructor; [done|]. apply List.Forall_forall. intros z [->|Hz]%list_elem_of_In%heap_push_elem; [by apply before_total|].
    rewrite List.Forall_forall in Hy. by apply Hy, list_elem_of_In.
Qed.

Lemma queue_push k t i (v : V) : queue k (set_queue k (heap_push (t, i) (queue k v)) v) = heap_push (t, i) (queue k v).
Proof. by destruct k. Qed.

Lemma push_grows k t i : always (grows k) (push (S := S) (R := R) k t i).
Proof.
  intros v. unfold push, modify. cbn [snd]. split; [done|rewrite queue_push..|].
  - intros x Hx. apply heap_push_elem. by right.
  - apply heap_push_order.
  - exists []. by rewrite app_nil_r.
Qed.
Lemma on_host_grows k {A} (m : St S A) : always (grows k) (on_host (R := R) m).
Proof.
  intros v. unfold on_host. destruct (m (v_host v)). apply grows_eq with []; [done|by destruct k|].
  cbn. by rewrite app_nil_r.
Qed.
Lemma asked_grows k {A} (q : S -> A * S) : always (grows k) (asked (R := R) q).
Proof. apply on_host_grows. Qed.
Lemma send_grows k m : always (grows k) (send (S := S) (R := R) m).
Proof. intros v. apply grows_eq with [m]; [done|by destruct k|done]. Qed.
Lemma tried_grows k {A} (m : St V A) : always (grows k) m -> always (grows k) (tried m).
Proof. intros Hm v. specialize (Hm v). unfold tried. by destruct (m v) as [[] ?]. Qed.
Lemma set_last_grows k m (v : V) : grows k v (set_last m v).
Proof. apply grows_eq with []; [done|by destruct k|]. cbn. by rewrite app_nil_r. Qed.

Hint Resolve push_grows on_host_grows asked_grows send_grows always_get always_lift always_ret grows_preorder : core.

Ltac grow := repeat first [solve [auto] | apply always_bind; [apply grows_preorder| |intros ?]].

Lemma request_fault_proof_grows k par p h : always (grows k) (request_fault_proof (R := R) par p h).
Proof.
  unfold request_fault_proof. destruct (fault p); grow.
Qed.

Lemma validated_blobs_grows k h blobs : always (grows k) (validated_blobs (S := S) (R := R) h blobs).
Proof.
  induction blobs as [|[bh b] blobs IH]; cbn [validated_blobs]; [auto|]. unfold get_next_block. grow.
Qed.

Lemma request_validity_proof_grows k par p h : always (grows k) (request_validity_proof (R := R) par p h).
Proof.
  unfold request_validity_proof. pose proof validated_blobs_grows. grow.
  apply always_if; grow.
Qed.

Definition request (is_fault : bool) (par p : Proposal) (h : Z) : St V unit :=
  if is_fault then request_fault_proof par p h else request_validity_proof par p h.

Lemma request_grows k is_fault par p h : always (grows k) (request is_fault par p h).
Proof. destruct is_fault; [apply request_fault_proof_grows|apply request_validity_proof_grows]. Qed.

(** A request that succeeds ends with its one message. *)
Lemma request_sends is_fault par p h (v v' : V) :
  request is_fault par p h v = (Ok tt, v') ->
  exists data hash agreed number claimed msgs, outbox v' =
    outbox v ++ msgs ++ [MProposal (index_ p) data h hash agreed number claimed].
Proof.
  assert (Hs : forall m (w w' : V), send m w = (Ok tt, w') -> grows ValidityQueue v w ->
    exists msgs, outbox w' = outbox v ++ msgs ++ [m]).
  { unfold send, modify. intros m w w' [= <-] [_ _ _ [msgs Ho]]. exists msgs. cbn. by rewrite Ho, app_assoc. }
  destruct is_fault; cbn [request]; unfold request_fault_proof, request_validity_proof; intros Hr.
  - apply St_bind_Ok in Hr as (? & ? & [= <- <-] & Hr). destruct (fault p); [|done]. st_inv.
    apply Hs in Hr as [msgs Hm]; [by do 6 eexists|]. eapply always_run; [|done]. apply asked_grows.
  - apply St_bind_Ok in Hr as (? & ? & [= <- <-] & Hr).
    apply St_bind_Ok in Hr as (data & v1 & Hd & Hr). apply St_bind_Ok in Hr as (hash & v2 & Hh & Hr).
    apply Hs in Hr as [msgs Hm]; [by do 6 eexists|]. trans v1; [|eapply always_run; [apply asked_grows|done]].
    eapply always_run; [|exact Hd]. apply always_if; [|auto]. apply always_bind; [done|apply validated_blobs_grows|auto].
Qed.

Lemma get_next_l1_head_grows k p : always (grows k) (get_next_l1_head (R := R) p).
Proof.
  unfold get_next_l1_head. grow.
  - destruct (_ !! _); grow.
  - match goal with |- context [match ?h with _ => _ end] => destruct h end; grow.
    intros v. apply set_last_grows.
Qed.

(** A proof is no longer needed when the proposal or its parent has been freed, or
    when the contract has a proof. *)
Definition no_longer_needed (a : SyncAgent) (i : Z) : Prop :=
  (proposals a !! i = None /\ i <= last_resolved_game (cursor a)) \/
  exists p, proposals a !! i = Some p /\
    ((proposals a !! parent p = None /\ parent p <= last_resolved_game (cursor a)) \/
     exists par, proposals a !! parent p = Some par /\ answers_nonzero (S := S) (contract par) (ProofStatus (signature p))).

Definition requested (a : SyncAgent) (msgs : list (Message R)) (i : Z) : Prop :=
  exists p data h hash agreed number claimed, proposals a !! i = Some p /\
    MProposal (index_ p) data h hash agreed number claimed ∈ msgs.

Lemma retry_missing_spec k t i missing (v v' : V) u :
  retry_missing k t i missing v = (Ok u, v') -> grows k v v' /\
  ((t, i) ∈ queue k v' \/ missing <= last_resolved_game (cursor (v_agent v))).
Proof.
  unfold retry_missing. intros Hr. apply St_bind_Ok in Hr as (? & ? & [= <- <-] & Hr).
  destruct (_ <? missing) eqn:E; bools.
  - split; [eapply always_run; [apply push_grows|done]|]. left. unfold push, modify in Hr. simplify_eq.
    rewrite queue_push. apply heap_push_elem. by left.
  - st_inv. split; [reflexivity|]. by right.
Qed.

Lemma push_spec k t i (v v' : V) u : push k t i v = (Ok u, v') -> grows k v v' /\ (t, i) ∈ queue k v'.
Proof.
  intros Hp. split; [eapply always_run; [apply push_grows|done]|]. unfold push, modify in Hp. simplify_eq.
  rewrite queue_push. apply heap_push_elem. by left.
Qed.

(** Handling one entry. *)
Lemma dispatch_request_spec k is_fault t i (v v' : V) u :
  dispatch_request k is_fault t i v = (Ok u, v') -> grows k v v' /\
  ((t, i) ∈ queue k v' \/ (exists new, outbox v' = outbox v ++ new /\ requested (v_agent v) new i) \/
   no_longer_needed (v_agent v) i).
Proof.
  unfold dispatch_request, no_longer_needed. intros Hr. apply St_bind_Ok in Hr as (? & ? & [= <- <-] & Hr).
  cbv zeta in Hr. destruct (proposals (v_agent v) !! i) as [p|] eqn:Ei.
  2:{ apply retry_missing_spec in Hr as [Hg Hr]. split; [done|]. destruct Hr; [by left|]. right; right. by left. }
  destruct (proposals (v_agent v) !! parent p) as [par|] eqn:Epar.
  2:{ apply retry_missing_spec in Hr as [Hg Hr]. split; [done|]. destruct Hr; [by left|]. right; right. right. eauto. }
  apply St_bind_Ok in Hr as (status & v1 & Hs & Hr).
  pose proof (always_run _ _ _ _ _ (on_host_grows k _) Hs) as G1.
  destruct (negb (status =? 0)) eqn:E; bools.
  { st_inv. split; [done|]. right; right. right. exists p. split; [done|]. right. exists par. split; [done|].
    unfold on_host in Hs. destruct (stall _ _ (v_host v)) as [r s'] eqn:Est. simplify_eq. by eapply stall_nonzero. }
  apply St_bind_Ok in Hr as (head & v2 & Hh & Hr).
  pose proof (always_run _ _ _ _ _ (get_next_l1_head_grows k p) Hh) as G2.
  destruct head as [h|].
  2:{ apply push_spec in Hr as [G3 ?]. split; [by etrans; [|etrans]|]. by left. }
  apply St_bind_Ok in Hr as (r & v3 & Ht & Hr). fold (request is_fault par p h) in Ht.
  pose proof (always_run _ _ _ _ _ (tried_grows k _ (request_grows k is_fault par p h)) Ht) as G3.
  destruct r as [[]|].
  2:{ apply push_spec in Hr as [G4 ?]. split; [by etrans; [|etrans; [|etrans]]|]. by left. }
  st_inv. split; [by etrans; [|etrans]|]. right; left.
  unfold tried in Ht. destruct (request is_fault par p h v2) as [[[]|?|?] w] eqn:Ereq; simplify_eq.
  apply request_sends in Ereq as (data & hash & agreed & number & claimed & msgs & Ho).
  destruct G1 as [_ _ _ [n1 Ho1]], G2 as [_ _ _ [n2 Ho2]].
  exists (n1 ++ n2 ++ msgs ++ [MProposal (index_ p) data h hash agreed number claimed]). split.
  - by rewrite Ho, Ho2, Ho1, <-!app_assoc.
  - exists p, data, h, hash, agreed, number, claimed. split; [done|]. rewrite !elem_of_app, list_elem_of_singleton. auto.
Qed.

(** Where an entry is: still in the queue, put off by ten seconds for each time it
    was tried, and not at all before its time; or, if its time had come, its proof
    has been requested or is no longer needed. *)
Definition accounted (k : Queue) (sent_before : list (Message R)) (now : Z) (v : V) (x : Z * Z) : Prop :=
  (exists n : nat, (x.1 + 10 * Z.of_nat n, x.2) ∈ queue k v /\ (now < x.1 -> n = 0%nat)) \/
  (x.1 <= now /\
    ((exists new, outbox v = sent_before ++ new /\ requested (v_agent v) new x.2) \/ no_longer_needed (v_agent v) x.2)).

Lemma accounted_grows k base now x (v v' : V) : grows k v v' -> accounted k base now v x -> accounted k base now v' x.
Proof.
  intros [Ha Hq _ [n Ho]] [(j & Hj & ?)|[Ht [(new & Hn & Hr)|Hn]]].
  - left. exists j. split; [by apply Hq|done].
  - right. split; [done|]. left. rewrite Ha. exists (new ++ n). split; [by rewrite Ho, Hn, app_assoc|].
    destruct Hr as (p & d & h & hh & a & nb & c & ? & Hin). exists p, d, h, hh, a, nb, c. split; [done|].
    rewrite elem_of_app. auto.
  - right. split; [done|]. right. by rewrite Ha.
Qed.

Lemma set_queue_same k q (v : V) : queue k (set_queue k q v) = q.
Proof. by destruct k. Qed.

Lemma drain_due_spec k is_fault now count base (v v' : V) u :
  drain_due k (dispatch_request k is_fault) now count v = (Ok u, v') ->
  (exists new, outbox v = base ++ new) -> in_order (queue k v) ->
  v_agent v' = v_agent v /\ in_order (queue k v') /\
  forall x, accounted k base now v x -> accounted k base now v' x.
Proof.
  revert v. induction count as [|count IH]; intros v Hd Hb Ho; cbn [drain_due] in Hd; [st_inv; by auto|].
  apply St_bind_Ok in Hd as (? & ? & [= <- <-] & Hd). destruct (queue k v) as [|[t i] q] eqn:Eq.
  { st_inv. by rewrite Eq. }
  destruct (now <? t) eqn:Et; bools; [st_inv; by rewrite Eq|].
  apply St_bind_Ok in Hd as (u1 & v1 & Hm & Hd). unfold modify in Hm. simplify_eq.
  apply St_bind_Ok in Hd as (retry & v1 & Hl & Hd). apply lift_Ok in Hl as [Hl ->].
  apply (arith_checked host) in Hl as [-> _]; [|done].
  apply St_bind_Ok in Hd as (u2 & v2 & Hr & Hd). apply dispatch_request_spec in Hr as [Hg Hx].
  set (v1 := set_queue k q v) in *.
  assert (Hq1 : queue k v1 = q) by apply set_queue_same.
  assert (Ho1 : in_order (queue k v1)) by (rewrite Hq1; by inversion Ho).
  destruct Hb as [old Hold]. assert (Hv1 : outbox v1 = base ++ old) by exact Hold.
  destruct (IH v2 Hd) as (Ha & Ho2 & Hacc).
  { destruct (gr_outbox _ _ _ Hg) as [new Hn]. exists (old ++ new). by rewrite Hn, Hv1, app_assoc. }
  { by apply Hg. }
  split_and!; [by rewrite Ha, (gr_agent _ _ _ Hg)|done|]. intros x Hax. apply Hacc.
  destruct Hax as [(n & Hn & Hz)|Hdone].
  2:{ apply (accounted_grows _ _ _ _ _ _ Hg). by right. }
  rewrite Eq in Hn. apply elem_of_cons in Hn as [Hn|Hn].
  2:{ apply (accounted_grows _ _ _ _ _ _ Hg). left. exists n. by rewrite Hq1. }
  simplify_eq. destruct Hx as [Hx|[(new & Hnew & Hreq)|Hneed]].
  - left. exists (Datatypes.S n). split; [|lia].
    by replace (x.1 + 10 * Z.of_nat (Datatypes.S n)) with (x.1 + 10 * Z.of_nat n + 10) by lia.
  - right. split; [lia|]. left. exists (old ++ new). rewrite (gr_agent _ _ _ Hg). split; [by rewrite Hnew, Hv1, app_assoc|].
    destruct Hreq as (p & d & h & hh & a & nb & c & ? & Hin). exists p, d, h, hh, a, nb, c. split; [done|].
    rewrite elem_of_app. auto.
  - right. split; [lia|]. right. by rewrite (gr_agent _ _ _ Hg).
Qed.

(** C36. No request is lost.  When the requests that are due have been dispatched,
    every entry of the queue is still there, put off by ten seconds for each time
    it was tried, or its proof has been asked of the prover, or it is no longer
    needed, because the proposal or its parent has been freed or the contract has
    a proof.  An entry whose time has not come is untouched.  The queue stays in
    the order in which it is served, and the agent is only read. *)
Theorem dispatch_loses_nothing k is_fault (v v' : V) :
  dispatch_proof_requests k is_fault v = (Ok tt, v') -> in_order (queue k v) ->
  v_agent v' = v_agent v /\ in_order (queue k v') /\
  Forall (accounted k (outbox v) (clock (v_host v)).1 v') (queue k v).
Proof.
  unfold dispatch_proof_requests, asked, on_host. intros Hd Ho. apply St_bind_Ok in Hd as (now & v1 & Hc & Hd).
  apply St_bind_Ok in Hd as (? & ? & [= <- <-] & Hd).
  destruct (clock (v_host v)) as [t s] eqn:Ec. simplify_eq. cbn [fst].
  apply drain_due_spec with (base := outbox v) in Hd as (Ha & Ho' & Hacc).
  - split_and!; [done|done|]. apply List.Forall_forall. intros x Hx%list_elem_of_In. apply Hacc. left. exists 0%nat.
    split; [|done]. replace (x.1 + 10 * Z.of_nat 0) with x.1 by lia. rewrite <-surjective_pairing. by destruct k.
  - exists []. by rewrite app_nil_r.
  - by destruct k.
Qed.
End dispatch_spec.

(** ** Concrete runs *)

Definition demo_unjudged : Proposal := set_verdicts [None] [None; None] None None demo_wrong.
Definition demo_request : Message unit := MProposal 6 None 8 3100 2100 102 2102.

Lemma fault_request_contradicts_witness :
  exists hash agreed claimed,
    [demo_request] = [] ++ [MProposal 6 None 8 hash agreed (100 + (Z.of_nat 0 + 1) * 2) claimed] /\
    outputs demo_judge !! (100 + Z.of_nat 0 * 2) = Some agreed /\ True /\ ~ commits demo_unjudged 0 claimed.
Proof.
  apply (@fault_request_contradicts unit unit demo_host demo_judge demo_unjudged
    (set_verdicts [Some false] [Some true; Some true] (Some true) (Some true) demo_unjudged) false demo_anchor 0 8
    (demo_validator [] ∅)
    (Build_Validator tt demo_judge [] [] [] ∅ [] [demo_request] [] [])).
  - vm_compute. reflexivity.
  - by split.
  - reflexivity.
  - reflexivity.
  - reflexivity.
  - vm_compute. reflexivity.
Defined.

(** The entry for proposal 6 is due and becomes a request; the one for proposal 9,
    which is not known yet, is put off; the last one is not due. *)
Lemma dispatch_loses_nothing_witness :
  let v := demo_validator [(1990, 6); (2000, 9); (2500, 6)] ∅ in
  let v' := Build_Validator tt demo_judge [] [(2010, 9); (2500, 6)] [] {[ 6 := 8 ]} [] [demo_request] [] [] in
  v_agent v' = v_agent v /\ in_order (queue OutputFaultQueue v') /\
  Forall (@accounted unit unit demo_nodes OutputFaultQueue [] 2000 v') (queue OutputFaultQueue v).
Proof.
  intros v v'.
  apply (@dispatch_loses_nothing unit unit demo_nodes demo_op_node demo_host OutputFaultQueue true v v').
  - vm_compute. reflexivity.
  - repeat constructor.
Defined.
