(* ===== verification/Demo.v ===== *)
(** * bin/cli/src/demo.rs

    The demonstration that proves a running rollup: as the safe head of the L2
    advances it cuts the chain into ranges of equal length, and asks for a proof
    of every nth of them. *)

From S2P Require Import Prelude Bytes Deployment Agent Validator.
Open Scope Z_scope.

Record DemoArgs := {
  starting_block_height : option Z; num_blocks_per_proof : Z; nth_proof_to_process : Z;
  demo_op_rpc_delay : Z;
}.

(** The nodes, and the channel to the task that runs the proofs: [received] are
    the messages that are waiting, [None] for a closed channel. *)
Class DemoHost (S R : Type) := {
  latest_l1_hash : S -> Z * S;
  l2_block_hash : Z -> S -> Z * S;
  send_message : Message R -> St S unit;
  received : S -> list (option (Message R)) * S;
}.

(** The local variables of [handle_blocks], and the requests so far. *)
Record Blocks (S R : Type) := {
  last_proven : option Z; last_wait : Z; proof_number : Z; requested : list (Message R); demo_host : S }.
Arguments last_proven {S R}. Arguments last_wait {S R}. Arguments proof_number {S R}.
Arguments requested {S R}. Arguments demo_host {S R}. Arguments Build_Blocks {S R}.

Section demo.
Context {S R : Type} `{OpNode S} `{DemoHost S R}.
Abbreviation D := (Blocks S R).

Definition at_demo_host {A} (m : St S A) : St D A := fun d =>
  let '(r, s) := m (demo_host d) in
  (r, Build_Blocks (last_proven d) (last_wait d) (proof_number d) (requested d) s).
Definition ask_host {A} (q : S -> A * S) : St D A := at_demo_host (fun s => let '(a, s) := q s in (Ok a, s)).
Definition set_proven (last : Z) : St D unit := fun d =>
  (Ok tt, Build_Blocks (Some last) (last_wait d) (proof_number d) (requested d) (demo_host d)).
Definition set_number (n : Z) : St D unit := fun d =>
  (Ok tt, Build_Blocks (last_proven d) (last_wait d) n (requested d) (demo_host d)).
Definition set_wait (wait : Z) : St D unit := fun d =>
  (Ok tt, Build_Blocks (last_proven d) wait (proof_number d) (requested d) (demo_host d)).
Definition request (msg : Message R) : St D unit :=
  _ ← (fun d => (Ok tt, Build_Blocks (last_proven d) (last_wait d) (proof_number d) (requested d ++ [msg]) (demo_host d)));
  at_demo_host (send_message msg).

(** One round of the loop that queues proofs, from a block that is proven. *)
Definition queue_one (args : DemoArgs) (l1_head agreed_l2_block_number : Z) : St D unit :=
  agreed_l2_block ← ask_host (l2_block_hash agreed_l2_block_number);
  agreed_l2_output_root ← ask_host (output_at_block agreed_l2_block_number);
  claimed_l2_block_number ← lift (u64_add host agreed_l2_block_number (num_blocks_per_proof args));
  claimed_l2_output_root ← ask_host (output_at_block claimed_l2_block_number);
  d ← get_st;
  _ ← (if proof_number d =? nth_proof_to_process args then
         _ ← request (MProposal agreed_l2_block_number None l1_head agreed_l2_block
                agreed_l2_output_root claimed_l2_block_number claimed_l2_output_root);
         set_number 0
       else mret tt);
  d ← get_st;
  n ← lift (u64_add host (proof_number d) 1);
  _ ← set_number n;
  set_proven claimed_l2_block_number.

(** The loop; whether it ended within the fuel. *)
Fixpoint queue_proofs (fuel : nat) (args : DemoArgs) (safe_l2_number l1_head : Z) : St D bool :=
  match fuel with
  | O => mret false
  | Datatypes.S fuel =>
      d ← get_st;
      last ← lift (unwrap "last_proven" (last_proven d));
      next ← lift (u64_add host last (num_blocks_per_proof args));
      if next <? safe_l2_number then
        _ ← queue_one args l1_head last; queue_proofs fuel args safe_l2_number l1_head
      else mret true
  end.

(** Completed proofs are only reported; the sum is computed for the report. *)
Fixpoint report (args : DemoArgs) (messages : list (option (Message R))) : outcome unit :=
  match messages with
  | [] | None :: _ => Ok tt
  | Some (MProof starting_block _) :: messages =>
      _ ← u64_add host starting_block (num_blocks_per_proof args); report args messages
  | Some _ :: messages => report args messages
  end.

(** One iteration; whether the loop that queues ended within the fuel. *)
Definition handle_blocks_round (fuel : nat) (args : DemoArgs) : St D bool :=
  status ← ask_host safe_l2_number;
  match status with
  | None => mret true
  | Some v =>
      let safe_l2_number := sat_sub v (demo_op_rpc_delay args) in
      l1_head ← ask_host latest_l1_hash;
      d ← get_st;
      _ ← (match last_proven d with
           | Some _ => mret tt
           | None =>
               covered ← lift (u64_mul host (nth_proof_to_process args) (num_blocks_per_proof args));
               covered ← lift (u64_add host covered 1);
               set_proven (sat_sub safe_l2_number covered)
           end);
      ended ← queue_proofs fuel args safe_l2_number l1_head;
      if negb ended then mret false
      else
        d ← get_st;
        last ← lift (unwrap "last_proven" (last_proven d));
        let wait := sat_sub (num_blocks_per_proof args) (sat_sub safe_l2_number last) in
        _ ← (if negb (wait =? last_wait d) then set_wait wait else mret tt);
        messages ← ask_host received;
        _ ← lift (report args messages);
        mret true
  end.

Definition handle_blocks_start (args : DemoArgs) (s : S) : D :=
  Build_Blocks (starting_block_height args) 0 1 [] s.

(** The states between the iterations of [handle_blocks]. *)
Inductive handles (args : DemoArgs) (s : S) : D -> Prop :=
| handles_start : handles args s (handle_blocks_start args s)
| handles_round fuel d d' : handles args s d -> handle_blocks_round fuel args d = (Ok true, d') -> handles args s d'.
End demo.

(** ** Which proofs are asked for *)

Section demo_spec.
Context {S R : Type} `{OpNode S} `{DemoHost S R}.
Abbreviation D := (Blocks S R).
Variable args : DemoArgs.
Abbreviation B := (num_blocks_per_proof args).
Abbreviation nth := (nth_proof_to_process args).

(** A request for the range from block [a], made when the safe head had passed its end. *)
Definition request_for (a : Z) (msg : Message R) : Prop :=
  exists (s0 s1 s2 s3 s4 : S) v, (safe_l2_number s0).1 = Some v /\ a + B < sat_sub v (demo_op_rpc_delay args) /\
    msg = MProposal a None (latest_l1_hash s1).1 (l2_block_hash a s2).1
            (output_at_block a s3).1 (a + B) (output_at_block (a + B) s4).1.

(** After [m] ranges from block [start]. *)
Record counted (start m : Z) (d : D) : Prop := {
  ct_range : 0 <= m;
  ct_proven : last_proven d = Some (start + m * B);
  ct_number : proof_number d = m `mod` nth + 1;
  ct_length : Z.of_nat (length (requested d)) = m / nth;
  ct_requests : forall (j : nat) msg, requested d !! j = Some msg ->
    request_for (start + ((Z.of_nat j + 1) * nth - 1) * B) msg;
}.

Definition covers (d : D) : Prop :=
  (last_proven d = None /\ proof_number d = 1 /\ requested d = []) \/ exists start m, counted start m d.

Lemma next_turn m n : 0 < n -> m `mod` n <> n - 1 -> (m + 1) / n = m / n /\ (m + 1) `mod` n = m `mod` n + 1.
Proof.
  intros Hn Hm. pose proof (Z.div_mod m n ltac:(lia)). pose proof (Z.mod_pos_bound m n Hn).
  split; symmetry; [apply (Z.div_unique _ _ _ (m `mod` n + 1))|apply (Z.mod_unique _ _ (m / n))]; lia.
Qed.
Lemma last_turn m n : 0 < n -> m `mod` n = n - 1 -> (m + 1) / n = m / n + 1 /\ (m + 1) `mod` n = 0.
Proof.
  intros Hn Hm. pose proof (Z.div_mod m n ltac:(lia)).
  split; symmetry; [apply (Z.div_unique _ _ _ 0)|apply (Z.mod_unique _ _ (m / n + 1))]; lia.
Qed.

(** A question leaves everything but the node as it is. *)
Lemma triple_ask_host {A} (P : D -> Prop) (q : S -> A * S) E :
  (forall d s, P d -> P (Build_Blocks (last_proven d) (last_wait d) (proof_number d) (requested d) s)) ->
  triple P (ask_host q) (fun a d => P d /\ exists s, (q s).1 = a) E.
Proof.
  intros HP d Hd. unfold ask_host, at_demo_host. destruct (q (demo_host d)) as [a s] eqn:E'.
  split; [by apply HP|]. exists (demo_host d). by rewrite E'.
Qed.

Lemma counted_host start m d s : counted start m d ->
  counted start m (Build_Blocks (last_proven d) (last_wait d) (proof_number d) (requested d) s).
Proof. by intros []. Qed.

Lemma counted_next start m d number sent :
  0 < nth -> counted start m d ->
  (if proof_number d =? nth then
     number = 1 /\ exists msg, sent = requested d ++ [msg] /\ request_for (start + m * B) msg
   else number = proof_number d + 1 /\ sent = requested d) ->
  forall w s, counted start (m + 1) (Build_Blocks (Some (start + m * B + B)) w number sent s).
Proof.
  intros Hn [Hm Hl Hp Hlen Hr] Hs w s. rewrite Hp in Hs.
  destruct (Z.eqb_spec (m `mod` nth + 1) nth) as [Heq|Hne].
  - destruct Hs as (-> & msg & -> & Hmsg).
    destruct (last_turn m nth) as [Hd Hmod]; [lia..|].
    split; cbn; [lia|f_equal; lia|lia|rewrite length_app; cbn; lia|].
    intros j msg' [Hj|[Hj Hj']]%lookup_app_Some; [by apply Hr|].
    apply list_lookup_singleton_Some in Hj' as [Hz <-].
    replace ((Z.of_nat j + 1) * nth - 1) with m; [done|].
    pose proof (Z.div_mod m nth ltac:(lia)). nia.
  - destruct Hs as [-> ->]. destruct (next_turn m nth) as [Hd Hmod]; [lia..|].
    split; cbn; [lia|f_equal; lia|lia|lia|done].
Qed.

Lemma ask_host_Ok {A} (q : S -> A * S) (d d' : D) a :
  ask_host q d = (Ok a, d') -> exists s, a = (q (demo_host d)).1 /\
    d' = Build_Blocks (last_proven d) (last_wait d) (proof_number d) (requested d) s.
Proof.
  unfold ask_host, at_demo_host. destruct (q (demo_host d)) as [b s]. intros [= <- <-]. by exists s.
Qed.

(** The safe head and the L1 head of an iteration. *)
Definition observed (safe l1_head : Z) : Prop :=
  (exists (s : S) v, (safe_l2_number s).1 = Some v /\ safe = sat_sub v (demo_op_rpc_delay args)) /\
  exists s : S, l1_head = (latest_l1_hash s).1.

Lemma queue_one_counted start m safe l1_head d d' :
  0 < nth -> observed safe l1_head -> start + m * B + B < safe -> counted start m d ->
  queue_one args l1_head (start + m * B) d = (Ok tt, d') -> counted start (m + 1) d'.
Proof.
  intros Hn [(s0 & v & Hv & ->) [s1 ->]] Hsafe Hc E. unfold queue_one in E.
  apply St_bind_Ok in E as (? & ? & (sa & -> & ->)%ask_host_Ok & E).
  apply St_bind_Ok in E as (? & ? & (sb & -> & ->)%ask_host_Ok & E).
  apply St_bind_Ok in E as (? & ? & [E1 ->]%lift_Ok & E).
  apply (arith_checked host) in E1 as [-> _]; [|done].
  apply St_bind_Ok in E as (? & ? & (sc & -> & ->)%ask_host_Ok & E). cbn [demo_host last_proven last_wait proof_number requested] in E.
  apply St_bind_Ok in E as (? & ? & [= <- <-] & E). cbn [proof_number] in E.
  apply St_bind_Ok in E as ([] & d2 & E2 & E).
  apply St_bind_Ok in E as (? & ? & [= <- <-] & E).
  apply St_bind_Ok in E as (n & ? & [E3 ->]%lift_Ok & E).
  apply (arith_checked host) in E3 as [-> _]; [|done]. injection E as <-.
  assert (request_for (start + m * B) (MProposal (start + m * B) None (latest_l1_hash s1).1
    (l2_block_hash (start + m * B) (demo_host d)).1 (output_at_block (start + m * B) sa).1
    (start + m * B + B) (output_at_block (start + m * B + B) sb).1)) as Hreq by (repeat eexists; eauto).
  apply counted_next with (d := d); [done..|].
  destruct (proof_number d =? nth) eqn:En.
  - apply St_bind_Ok in E2 as (? & ? & E2 & [= <-]).
    unfold request in E2. apply St_bind_Ok in E2 as (? & ? & [= <- <-] & E2). unfold at_demo_host in E2.
    destruct (send_message _ _) as [[[]|?|?] ?]; [|done..]. injection E2 as <- <-. cbn. eauto.
  - by injection E2 as <-.
Qed.

Lemma queue_proofs_counted fuel safe l1_head d b d' :
  0 < nth -> observed safe l1_head -> (exists start m, counted start m d) ->
  queue_proofs fuel args safe l1_head d = (Ok b, d') -> exists start m, counted start m d'.
Proof.
  intros Hn Ho. revert d. induction fuel as [|fuel IH]; intros d (start & m & Hc) E; cbn [queue_proofs] in E.
  - injection E as <- <-. eauto.
  - apply St_bind_Ok in E as (? & ? & [= <- <-] & E).
    apply St_bind_Ok in E as (last & ? & [El ->]%lift_Ok & E).
    rewrite (ct_proven _ _ _ Hc) in El. apply unwrap_Ok in El. injection El as <-.
    apply St_bind_Ok in E as (next & ? & [En ->]%lift_Ok & E).
    apply (arith_checked host) in En as [-> _]; [|done].
    destruct (Z.ltb_spec (start + m * B + B) safe); [|injection E as <- <-; eauto].
    apply St_bind_Ok in E as ([] & d1 & E1 & E). eapply IH; [|exact E].
    exists start, (m + 1). by eapply queue_one_counted.
Qed.

Lemma round_covers fuel d d' :
  0 < nth -> covers d -> handle_blocks_round fuel args d = (Ok true, d') -> covers d'.
Proof.
  intros Hn Hc E. unfold handle_blocks_round in E.
  apply St_bind_Ok in E as (status & d1 & (s1 & Es & ->)%ask_host_Ok & E).
  assert (Hc1 : covers (Build_Blocks (last_proven d) (last_wait d) (proof_number d) (requested d) s1)).
  { destruct Hc as [?|(start & m & ?)]; [by left|right]. exists start, m. by apply counted_host. }
  revert Hc1 E. generalize (Build_Blocks (last_proven d) (last_wait d) (proof_number d) (requested d) s1).
  intros d1 Hc1 E. destruct status as [v|]; [|by injection E as <-].
  apply St_bind_Ok in E as (l1 & d2 & (s2 & -> & ->)%ask_host_Ok & E).
  apply St_bind_Ok in E as (? & ? & [= <- <-] & E).
  apply St_bind_Ok in E as ([] & d3 & E3 & E). cbn [last_proven] in E3.
  assert (Ho : observed (sat_sub v (demo_op_rpc_delay args)) (latest_l1_hash (demo_host d1)).1).
  { split; [|by eexists]. exists (demo_host d), v. by rewrite <-Es. }
  assert (Hc3 : exists start m, counted start m d3).
  { destruct Hc1 as [(Hp & Hnum & Hreq)|(start & m & Hm)].
    - rewrite Hp in E3. apply St_bind_Ok in E3 as (? & ? & [_ ->]%lift_Ok & E3).
      apply St_bind_Ok in E3 as (c & ? & [_ ->]%lift_Ok & E3). injection E3 as <-.
      exists (sat_sub (sat_sub v (demo_op_rpc_delay args)) c), 0.
      split; cbn; [lia|f_equal; lia|by rewrite Z.mod_0_l by lia|by rewrite Hreq, Z.div_0_l by lia|].
      intros j msg. by rewrite Hreq.
    - rewrite (ct_proven _ _ _ Hm) in E3. injection E3 as <-. exists start, m. by destruct Hm. }
  apply St_bind_Ok in E as (b & d4 & E4 & E). apply queue_proofs_counted in E4 as (start & m & Hm); [|done..].
  destruct b; [|done]. right. exists start, m. cbn [negb] in E.
  apply St_bind_Ok in E as (? & ? & [= <- <-] & E).
  apply St_bind_Ok in E as (? & ? & [_ ->]%lift_Ok & E).
  apply St_bind_Ok in E as ([] & d5 & E5 & E).
  apply St_bind_Ok in E as (msgs & d6 & (s6 & -> & ->)%ask_host_Ok & E).
  apply St_bind_Ok in E as (? & ? & [_ ->]%lift_Ok & E). injection E as <-. apply counted_host.
  destruct (negb _); injection E5 as <-; [|done]. by destruct Hm.
Qed.

(** The demonstration covers the chain. Whatever the nodes answer over any number of
    iterations, the ranges it has gone through follow each other without a gap or an overlap,
    from the block where it started; of these exactly every nth is requested, in order, with
    the hashes and output roots that the nodes gave for its first block and its end, and only
    after the safe head had passed that end. *)
Theorem demo_covers_chain (s : S) d : 0 < nth -> handles args s d -> covers d.
Proof.
  intros Hn Hd. induction Hd as [|fuel d d' _ IH E]; [|by eapply round_covers].
  unfold covers, handle_blocks_start. cbn. destruct (starting_block_height args) as [start|]; [right|by left].
  exists start, 0. split; cbn; [lia|f_equal; lia|by rewrite Z.mod_0_l by lia|by rewrite Z.div_0_l by lia|done].
Qed.

Lemma queue_one_proven l1_head last d d' :
  queue_one args l1_head last d = (Ok tt, d') -> last_proven d' = Some (last + B).
Proof.
  intros E. unfold queue_one in E.
  apply St_bind_Ok in E as (? & ? & _ & E). apply St_bind_Ok in E as (? & ? & _ & E).
  apply St_bind_Ok in E as (? & ? & [E1 ->]%lift_Ok & E).
  apply (arith_checked host) in E1 as [-> _]; [|done].
  do 5 (apply St_bind_Ok in E as (? & ? & _ & E)). by injection E as <-.
Qed.

(** With ranges of at least one block the loop that queues ends: each round moves the proven
    block forward, and it stops at the safe head. *)
Lemma queue_proofs_ends fuel safe l1_head last d d' b :
  0 < B -> last_proven d = Some last -> (Z.to_nat (safe - last) < fuel)%nat ->
  queue_proofs fuel args safe l1_head d = (Ok b, d') -> b = true.
Proof.
  intros HB. revert d last. induction fuel as [|fuel IH]; intros d last Hl Hf E; [lia|].
  cbn [queue_proofs] in E. apply St_bind_Ok in E as (? & ? & [= <- <-] & E). rewrite Hl in E.
  apply St_bind_Ok in E as (? & ? & [[= <-] ->]%lift_Ok & E).
  apply St_bind_Ok in E as (next & ? & [En ->]%lift_Ok & E).
  apply (arith_checked host) in En as [-> _]; [|done].
  destruct (Z.ltb_spec (last + B) safe); [|by injection E].
  apply St_bind_Ok in E as ([] & d1 & E1 & E). apply queue_one_proven in E1.
  eapply IH; [exact E1| |exact E]. lia.
Qed.

(** With ranges of no blocks it does not end while the proven block is below the safe head. *)
Lemma queue_proofs_stuck fuel safe l1_head last d :
  B = 0 -> last_proven d = Some last -> last < safe ->
  (queue_proofs fuel args safe l1_head d).1 <> Ok true.
Proof.
  intros HB. revert d. induction fuel as [|fuel IH]; intros d Hl Hs; [done|]. intros Hr.
  destruct (queue_proofs _ _ _ _ d) as [r d'] eqn:E. cbn in Hr. subst r. cbn [queue_proofs] in E.
  apply St_bind_Ok in E as (? & ? & [= <- <-] & E). rewrite Hl in E.
  apply St_bind_Ok in E as (? & ? & [[= <-] ->]%lift_Ok & E).
  apply St_bind_Ok in E as (next & ? & [En ->]%lift_Ok & E).
  apply (arith_checked host) in En as [-> _]; [|done].
  destruct (Z.ltb_spec (last + B) safe); [|lia].
  apply St_bind_Ok in E as ([] & d1 & E1 & E). apply queue_one_proven in E1.
  apply (IH d1); [rewrite E1; f_equal; lia|done|by rewrite E].
Qed.
End demo_spec.

(** ** A run

    Ranges of two blocks, every second one proven; the safe head moves from block 10 to 15. *)
Module BlocksDemo.
#[export] Instance op : OpNode Z := {|
  output_at_block := fun n s => (1000 + n, s); safe_l2_number := fun s => (Some s, s + 5);
  l1_block_number := fun h s => (h, s) |}.
#[export] Instance host : DemoHost Z unit := {|
  latest_l1_hash := fun s => (77, s); l2_block_hash := fun n s => (2000 + n, s);
  send_message := fun _ s => (Ok tt, s); received := fun s => ([], s) |}.
Definition args : DemoArgs := {|
  starting_block_height := Some 4; num_blocks_per_proof := 2; nth_proof_to_process := 2;
  demo_op_rpc_delay := 0 |}.
Definition after_one : Blocks Z unit := Eval vm_compute in (handle_blocks_round 20 args (handle_blocks_start args 10)).2.
Definition after_two : Blocks Z unit := Eval vm_compute in (handle_blocks_round 20 args after_one).2.
Definition asked_for (a : Z) : Message unit :=
  MProposal a None 77 (2000 + a) (1000 + a) (a + 2) (1000 + (a + 2)).
End BlocksDemo.
#[local] Existing Instances BlocksDemo.op BlocksDemo.host.

Lemma demo_covers_chain_witness :
  requested BlocksDemo.after_two = [BlocksDemo.asked_for 6; BlocksDemo.asked_for 10] /\
  last_proven BlocksDemo.after_two = Some 14 /\ covers BlocksDemo.args BlocksDemo.after_two.
Proof.
  split; [vm_compute; reflexivity|]. split; [vm_compute; reflexivity|].
  apply (demo_covers_chain BlocksDemo.args (10 : Z)); [reflexivity|].
  assert (E1 : handle_blocks_round 20 BlocksDemo.args (handle_blocks_start BlocksDemo.args 10)
    = (Ok true, BlocksDemo.after_one)) by (vm_compute; reflexivity).
  assert (E2 : handle_blocks_round 20 BlocksDemo.args BlocksDemo.after_one
    = (Ok true, BlocksDemo.after_two)) by (vm_compute; reflexivity).
  exact (handles_round _ _ _ _ _ (handles_round _ _ _ _ _ (handles_start _ _) E1) E2).
Defined.
