(* ===== verification/Publish.v ===== *)
(** * crates/validator/src/proposals/{receipts,trails,mod}.rs

    Publishing proofs: receipts that come back from the prover become validity
    or output fault proofs on chain, trail faults are proved by an opening of a
    blob alone.  [handle_proposals] is the loop over all parts of the validator. *)

From S2P Require Import Prelude Bytes Config Journal Blobs Precondition Stitching Deployment Proposal Agent Validator.
Open Scope Z_scope.

Section publish.
Context {S R : Type} `{Nodes S} `{OpNode S} `{ValidatorHost S} `{Kzg} `{Zkvm R} `{Receipts R}.
Abbreviation V := (Validator S R).

(** ** receipts.rs *)

(** A commitment, and its opening unless that fails. *)
Definition opening (proposal : Proposal) (position : Z) : outcome (list bytes * list bytes) :=
  commitment ← io_commitment_for proposal position;
  match io_proof_for proposal position with
  | Ok io_proof => Ok ([commitment], [io_proof])
  | Err _ => Ok ([commitment], [])
  | Panic w => Panic w
  end.

Definition publish_validity (proposal_index : Z) (proposal parent : Proposal) (receipt : R)
    (proof_journal : ProofJournal) (l1_head_contract : Z) (child_index : nat) (encoded_seal : bytes) : St V unit :=
  v ← get_st;
  let d := deployment (v_agent v) in
  _ ← on_host (stall (contract proposal) BlobsHash);
  _ ← on_host (stall (contract proposal) ROLLUP_CONFIG_HASH);
  blocks ← lift (u64_mul host (proposal_output_count d) (output_block_span d));
  _ ← lift (u64_add host (output_block_number parent) blocks);
  r ← tried (transacted (ProveValidity (contract parent) (payout_recipient proof_journal) l1_head_contract
         child_index encoded_seal));
  match r with
  | Some _ => _ ← on_host (stall (contract parent) (ProvenAt (signature proposal))); mret tt
  | None => push_back (MProof proposal_index (Some receipt))
  end.

(** The transaction of an output fault; when it fails the proof is kept. *)
Definition submit_output_fault (proposal_index : Z) (proposal parent : Proposal) (receipt : R)
    (proof_journal : ProofJournal) (l1_head_contract : Z) (child_index : nat) (divergence_point : Z)
    (encoded_seal : bytes) (output_fe : Z) (commitments proofs : list bytes) : St V unit :=
  _ ← on_host (stall (contract parent) ROLLUP_CONFIG_HASH);
  r ← tried (transacted (ProveOutputFault (contract parent) (payout_recipient proof_journal)
         l1_head_contract child_index divergence_point encoded_seal
         (pj_agreed_l2_output_root proof_journal) (pj_claimed_l2_output_root proof_journal)
         output_fe commitments proofs));
  match r with
  | Some _ => _ ← on_host (stall (contract parent) (ProofStatus (signature proposal))); mret tt
  | None => push_back (MProof proposal_index (Some receipt))
  end.

(** The calls that compare the openings with the contract; only their panics
    matter. *)
Definition check_claimed (proposal : Proposal) (divergence_point output_fe : Z) (proof_journal : ProofJournal)
    (commitments proofs : list bytes) : St V unit :=
  if pj_claimed_l2_block_number proof_journal =? output_block_number proposal then mret tt
  else
    c ← lift (unwrap "commitments.last()" (list_last commitments));
    p ← lift (unwrap "proofs.last()" (list_last proofs));
    _ ← on_host (stall (contract proposal) (VerifyIntermediateOutput divergence_point output_fe c p));
    mret tt.
Definition check_agreed (proposal : Proposal) (divergence_point : Z) (proof_journal : ProofJournal)
    (commitments proofs : list bytes) : St V unit :=
  if divergence_point =? 0 then mret tt
  else
    c ← lift (unwrap "commitments.first()" (head commitments));
    p ← lift (unwrap "proofs.first()" (head proofs));
    _ ← on_host (stall (contract proposal) (VerifyIntermediateOutput (divergence_point - 1)
          (hash_to_fe (pj_agreed_l2_output_root proof_journal)) c p));
    mret tt.

Definition publish_output_fault (proposal_index : Z) (proposal parent : Proposal) (receipt : R)
    (proof_journal : ProofJournal) (l1_head_contract : Z) (child_index : nat) (encoded_seal : bytes) : St V unit :=
  v ← get_st;
  let d := deployment (v_agent v) in
  match fault proposal with
  | None => mret tt
  | Some fault =>
      let divergence_point := Z.of_nat (divergence_point fault) in
      output_fe ← lift (output_fe_at proposal divergence_point);
      _ ← asked (output_at_block (pj_claimed_l2_block_number proof_journal));
      next ← lift (u64_add host divergence_point 1);
      blocks ← lift (u64_mul host next (output_block_span d));
      _ ← lift (u64_add host (output_block_number parent) blocks);
      fault_proof_status ← on_host (stall (contract parent) (ProofStatus (signature proposal)));
      if negb (fault_proof_status =? 0) then mret tt
      else
        agreed ← lift (if 0 <? divergence_point then opening proposal (divergence_point - 1) else Ok ([], []));
        claimed ← lift (if negb (pj_claimed_l2_block_number proof_journal =? output_block_number proposal)
          then opening proposal divergence_point else Ok ([], []));
        let commitments := fst agreed ++ fst claimed in
        let proofs := snd agreed ++ snd claimed in
        _ ← check_claimed proposal divergence_point output_fe proof_journal commitments proofs;
        _ ← check_agreed proposal divergence_point proof_journal commitments proofs;
        submit_output_fault proposal_index proposal parent receipt proof_journal l1_head_contract
          child_index divergence_point encoded_seal output_fe commitments proofs
  end.

(** The receipt is verified against the image of the contract, but a failure is
    only logged. *)
Definition publish_proof (proposal_index : Z) (proposal parent : Proposal) (receipt : R) : St V unit :=
  v ← get_st;
  proof_journal ← lift (decode_packed (receipt_journal receipt));
  match l1_heads_inv (v_agent v) !! pj_l1_head proof_journal with
  | None => push_back (MProof proposal_index (Some receipt))
  | Some (l1_head_contract, _) =>
      encoded_seal ← tried (lift (encode_seal receipt));
      match encoded_seal with
      | None => mret tt
      | Some encoded_seal =>
          child_index ← lift (unwrap "Could not look up proposal's index in parent tournament"
            (child_index parent (index_ proposal)));
          if (pj_agreed_l2_output_root proof_journal =? output_root parent) &&
             (pj_claimed_l2_output_root proof_journal =? output_root proposal)
          then publish_validity proposal_index proposal parent receipt proof_journal l1_head_contract
                 child_index encoded_seal
          else publish_output_fault proposal_index proposal parent receipt proof_journal l1_head_contract
                 child_index encoded_seal
      end
  end.

(** A message waits as long as its proposal may still be loaded. *)
Definition keep_missing (m : Message R) (missing : Z) : St V unit :=
  v ← get_st;
  if last_resolved_game (cursor (v_agent v)) <? missing then push_back m else mret tt.

Definition publish_receipt_proof (proposal_index : Z) (receipt : option R) : St V unit :=
  v ← get_st;
  let a := v_agent v in
  match proposals a !! proposal_index with
  | None => keep_missing (MProof proposal_index receipt) proposal_index
  | Some proposal =>
      match proposals a !! parent proposal with
      | None => keep_missing (MProof proposal_index receipt) (parent proposal)
      | Some parent =>
          proven ← on_host (fetch_is_successor_validity_proven parent);
          if proven : bool then mret tt
          else
            _ ← on_host (stall (contract parent) FPVM_IMAGE_ID);
            match receipt with
            | None =>
                t ← asked clock;
                push (if default false (canonical proposal) || bool_decide (io_blobs proposal = [])
                      then ValidityQueue else OutputFaultQueue) t proposal_index
            | Some receipt => publish_proof proposal_index proposal parent receipt
            end
      end
  end.

Definition pop_front : St V (option (Message R)) := fun v =>
  match computed_proof_buffer v with
  | [] => (Ok None, v)
  | m :: ms => (Ok (Some m), set_mail (inbox v) (outbox v) ms v)
  end.

Fixpoint publish_computed (computed_proofs : nat) : St V unit :=
  match computed_proofs with
  | O => mret tt
  | Datatypes.S computed_proofs =>
      m ← pop_front;
      _ ← (match m with
           | Some (MProof proposal_index receipt) => publish_receipt_proof proposal_index receipt
           | _ => mret tt
           end);
      publish_computed computed_proofs
  end.

(** The proofs received so far are buffered, then each is tried once. *)
Definition publish_receipt_proofs : St V unit :=
  _ ← modify (fun v => set_mail [] (outbox v) (computed_proof_buffer v ++ inbox v) v);
  v ← get_st;
  publish_computed (length (computed_proof_buffer v)).

(** ** trails.rs *)

(** Unlike the other two loops, this one decides by the index of the proposal
    whether a missing parent has been freed. *)
Definition publish_trail_proof (validator_address retry_time proposal_index : Z) : St V unit :=
  v ← get_st;
  let a := v_agent v in
  match proposals a !! proposal_index with
  | None => retry_missing TrailFaultQueue retry_time proposal_index proposal_index
  | Some proposal =>
      match proposals a !! parent proposal with
      | None => retry_missing TrailFaultQueue retry_time proposal_index proposal_index
      | Some parent =>
          match fault proposal with
          | None => mret tt
          | Some fault =>
              let divergence_point := Z.of_nat (divergence_point fault) in
              output_fe ← lift (output_fe_at proposal divergence_point);
              fe_position ← lift (u64_sub host divergence_point 1);
              fault_proof_status ← on_host (stall (contract parent) (ProofStatus (signature proposal)));
              if negb (fault_proof_status =? 0) then mret tt
              else
                blob_commitment ← lift (io_commitment_for proposal fe_position);
                kzg_proof ← tried (lift (io_proof_for proposal fe_position));
                match kzg_proof with
                | None => mret tt
                | Some kzg_proof =>
                    _ ← on_host (stall (contract proposal)
                          (VerifyIntermediateOutput fe_position output_fe blob_commitment kzg_proof));
                    child_index ← lift (unwrap "Could not look up proposal's index in parent tournament"
                      (child_index parent (index_ proposal)));
                    r ← tried (transacted (ProveTrailFault (contract parent) validator_address child_index
                           divergence_point output_fe blob_commitment kzg_proof));
                    match r with
                    | Some _ =>
                        _ ← on_host (stall (contract parent) (ProofStatus (signature proposal))); mret tt
                    | None => push TrailFaultQueue retry_time proposal_index
                    end
                end
          end
      end
  end.

Definition publish_trail_proofs (validator_address : Z) : St V unit :=
  current_timestamp ← asked clock;
  v ← get_st;
  drain_due TrailFaultQueue (publish_trail_proof validator_address) current_timestamp
    (length (trail_fault_buffer v)).

(** ** mod.rs *)

Definition on_agent {A} (m : St (S * SyncAgent) A) : St V A := fun v =>
  let '(r, (s, a)) := m (v_host v, v_agent v) in (r, set_agent a (set_host s v)).

(** The proposals to process; [None] ends the loop. *)
Definition synchronized (args : ValidateArgs) (op_rpc_delay : Z) : St V (option (list Z)) := fun v =>
  match on_agent (sync op_rpc_delay (va_final_l2_block args)) v with
  | (Ok loaded_proposals, v) => (Ok (Some loaded_proposals), v)
  | (Err e, v) => (Ok (if contains FINAL_L2_BLOCK_RESOLVED e then None else Some []), v)
  | (Panic w, v) => (Panic w, v)
  end.

(** One iteration of the loop of [handle_proposals]; whether it goes on. *)
Definition handle_proposals_round (args : ValidateArgs) (op_rpc_delay validator_address : Z) : St V bool :=
  loaded_proposals ← synchronized args op_rpc_delay;
  match loaded_proposals with
  | None => mret false
  | Some loaded_proposals =>
      _ ← process_proposals args loaded_proposals;
      _ ← dispatch_proof_requests OutputFaultQueue true;
      _ ← dispatch_proof_requests ValidityQueue false;
      _ ← publish_receipt_proofs;
      _ ← publish_trail_proofs validator_address;
      mret true
  end.
End publish.

(** ** Every transaction is justified *)

Create HintDb keep.

Section justified.
Context {S R : Type} `{Nodes S} `{OpNode S} `{ValidatorHost S} `{Kzg} `{Zkvm R} `{Receipts R}.
Abbreviation V := (Validator S R).

(** A proposal and its parent, as the agent knows them, and the place of the
    proposal among the children: how many of them have a smaller index. *)
Definition child_of (a : SyncAgent) (i : Z) (p par : Proposal) (ci : nat) : Prop :=
  proposals a !! i = Some p /\ proposals a !! parent p = Some par /\
  index_ p ∈ children par /\ ci = size (filter (fun c => c < index_ p) (children par)).

(** The seal of a receipt: its own bytes behind the selector of the verifier. *)
Definition sealed_as (r : R) (seal : bytes) : Prop :=
  match inner r with
  | Fake s => seal = [Byte.xff; Byte.xff; Byte.xff; Byte.xff] ++ s
  | Groth16 parameters s => (4 <= length parameters)%nat /\ seal = take 4 parameters ++ s
  | OtherReceipt => False
  end.

(** A received proof, its journal, its seal and the contract of its L1 head. *)
Definition received (a : SyncAgent) (proofs : list (Message R)) (i : Z) (j : ProofJournal) (seal : bytes) (l1_head_contract : Z) : Prop :=
  exists r n, MProof i (Some r) ∈ proofs /\ decode_packed (receipt_journal r) = Ok j /\ sealed_as r seal /\
    l1_heads_inv a !! pj_l1_head j = Some (l1_head_contract, n).

(** What is submitted of a position: nothing if it is not [needed], and otherwise
    the commitment to the blob it is in, with an opening at its place in the blob
    unless there is none. *)
Definition submitted (needed : Prop) (p : Proposal) (position : Z) (commitments proofs : list bytes) : Prop :=
  (~ needed /\ commitments = [] /\ proofs = []) \/
  (needed /\ exists c, commitments = [c] /\
    ((exists w, proofs = [w] /\ opens_position p position c w) \/
     (proofs = [] /\ exists h b, io_blobs p !! Z.to_nat (position / 4096) = Some (h, b) /\
        c = bd_kzg_commitment b /\ ~ exists w, opened_at (bd_blob b) (position `mod` 4096) w))).

(** What each transaction rests on. *)
Definition justified (validator_address : Z) (a : SyncAgent) (received_proofs : list (Message R)) (tx : Transaction) : Prop :=
  match tx with
  | ProveValidity tournament payout l1_head_contract ci seal => exists i p par j,
      child_of a i p par ci /\ received a received_proofs i j seal l1_head_contract /\
      tournament = contract par /\ payout = payout_recipient j /\
      pj_agreed_l2_output_root j = output_root par /\ pj_claimed_l2_output_root j = output_root p
  | ProveOutputFault tournament payout l1_head_contract ci position seal agreed claimed output_fe commitments proofs =>
      exists i p par j f before_c before_w at_c at_w,
      child_of a i p par ci /\ received a received_proofs i j seal l1_head_contract /\
      tournament = contract par /\ payout = payout_recipient j /\
      agreed = pj_agreed_l2_output_root j /\ claimed = pj_claimed_l2_output_root j /\
      ~ (agreed = output_root par /\ claimed = output_root p) /\
      fault p = Some f /\ is_correct p = Some false /\
      position = Z.of_nat (divergence_point f) /\ faulty_position p position /\
      committed_elements p !! Z.to_nat position = Some output_fe /\
      submitted (0 < position) p (position - 1) before_c before_w /\
      submitted (pj_claimed_l2_block_number j <> output_block_number p) p position at_c at_w /\
      commitments = before_c ++ at_c /\ proofs = before_w ++ at_w
  | ProveTrailFault tournament recipient ci position output_fe commitment proof => exists i p par f,
      child_of a i p par ci /\ tournament = contract par /\ recipient = validator_address /\
      fault p = Some f /\ is_correct p = Some false /\
      position = Z.of_nat (divergence_point f) /\ faulty_position p position /\
      committed_elements p !! Z.to_nat position = Some output_fe /\
      opens_position p (position - 1) commitment proof
  end.

Lemma encode_seal_sealed r seal : encode_seal r = Ok seal -> sealed_as r seal.
Proof.
  unfold encode_seal, sealed_as. destruct (inner r) as [s|parameters s|]; [by intros <-%Ok_inj| |done].
  intros Hs. ok_inv. apply slice_Ok in E as [[_ Hl] ->]. subst. by rewrite drop_0.
Qed.

Lemma opening_submitted (b : bool) (needed : Prop) p position cs ws :
  (b = true <-> needed) -> (if b then opening p position else Ok ([], [])) = Ok (cs, ws) ->
  submitted needed p position cs ws.
Proof.
  intros Hb Ho. destruct b.
  - right. split; [by apply Hb|]. unfold opening in Ho. ok_inv. exists x.
    destruct (io_proof_for p position) as [w|e|e] eqn:Ew; [| |done]; apply Ok_inj in Ho; simplify_eq; (split; [done|]).
    + left. exists w. split; [done|]. by apply io_proof_for_Ok.
    + right. split; [done|]. by eapply io_proof_for_Err.
  - left. apply Ok_inj in Ho. simplify_eq. split_and!; [|done..]. rewrite <-Hb. done.
Qed.

(** The invariant of the parts of the loop that run after the synchronization. *)
Section kept.
Variables (address : Z) (a : SyncAgent) (proofs : list (Message R)) (base : list Transaction).

Definition orderly (v : V) : Prop :=
  v_agent v = a /\ computed_proof_buffer v ++ inbox v ⊆ proofs /\
  exists new, sent v = base ++ new /\ Forall (justified address a proofs) new.

Abbreviation kept := (preserves orderly).

Lemma kept_tried {A} (m : St V A) : kept m -> kept (tried m).
Proof. intros Hm v Hv. specialize (Hm v Hv). unfold tried. by destruct (m v) as [[] ?]. Qed.

(** Trying something that does not touch the state tells whether it failed. *)
Lemma kept_tried_lift {A B} (o : outcome A) (f : option A -> St V B) :
  (forall x, o = Ok x -> kept (f (Some x))) -> kept (f None) -> kept (tried (lift o) ≫= f).
Proof. intros Hs Hn v Hv. unfold tried, mbind, St_bind, lift. destruct o; [by apply Hs|by apply Hn|done]. Qed.

Lemma kept_on_host {A} (m : St S A) : kept (on_host m).
Proof. intros v Hv. unfold on_host. by destruct (m (v_host v)) as [[] ?]. Qed.
Lemma kept_asked {A} (q : S -> A * S) : kept (asked q).
Proof. apply kept_on_host. Qed.
Lemma kept_push k t i : kept (push k t i).
Proof. intros v Hv. unfold push, modify. by destruct k. Qed.
Lemma kept_send m : kept (send m).
Proof. by intros v Hv. Qed.
Lemma kept_set_last m : kept (modify (set_last m)).
Proof. by intros v Hv. Qed.
Lemma kept_set_queue k q : kept (modify (set_queue k q)).
Proof. intros v Hv. unfold modify. by destruct k. Qed.

Lemma kept_push_back m : m ∈ proofs -> kept (push_back m).
Proof.
  intros Hm v (Ha & Hp & Hs). split_and!; [done| |done]. cbn. intros x. specialize (Hp x).
  rewrite !elem_of_app, list_elem_of_singleton in *. naive_solver.
Qed.

Lemma kept_transacted tx : justified address a proofs tx -> kept (transacted tx).
Proof.
  intros Ht. unfold transacted. apply preserves_bind; [|intros _; apply kept_on_host].
  intros v (Ha & Hp & new & Hs & Hn). split_and!; [done|done|]. exists (new ++ [tx]). cbn. split.
  - by rewrite Hs, app_assoc.
  - apply Forall_app_2; [done|by constructor].
Qed.

Lemma kept_pop {A} (f : option (Message R) -> St V A) :
  (forall m, m ∈ proofs -> kept (f (Some m))) -> kept (f None) -> kept (pop_front ≫= f).
Proof.
  intros Hf Hn v Hv. unfold mbind, St_bind, pop_front. destruct (computed_proof_buffer v) as [|m ms] eqn:E; [by apply Hn|].
  destruct Hv as (Ha & Hp & Hs). rewrite E in Hp. apply (Hf m); [apply Hp; by left|].
  split_and!; [done| |done]. cbn. intros x Hx. apply Hp. by right.
Qed.

#[local] Hint Constants Opaque : keep.
#[local] Hint Resolve preserves_ret preserves_fail kept_on_host kept_asked kept_push kept_send kept_set_last kept_set_queue
  kept_push_back kept_transacted : keep.
Ltac keep := repeat match goal with
  | _ => solve [auto with keep nocore]
  | |- kept (get_st ≫= _) => apply preserves_get; intros ? ?
  | |- kept (lift _ ≫= _) => apply preserves_lift; intros ? ?
  | |- kept (_ ≫= _) => apply preserves_bind; [|intros ?]
  | |- kept (tried _) => apply kept_tried
  | |- kept (if ?b then _ else _) => destruct b eqn:?
  | |- kept (match ?x with _ => _ end) => destruct x eqn:?
  | |- kept _ => progress cbv zeta
  end.

(** *** The parts that send no transaction *)

Lemma kept_process args l : kept (process_proposals args l).
Proof.
  induction l as [|i l IH]; cbn [process_proposals]; [apply preserves_ret|]. unfold process_proposal, random_processing_time. keep.
Qed.

Lemma kept_validated_blobs h blobs : kept (validated_blobs h blobs).
Proof. induction blobs as [|[bh b] blobs IH]; cbn [validated_blobs]; [apply preserves_ret|]. unfold get_next_block. keep. Qed.

Lemma kept_retry_missing k t i m : kept (retry_missing k t i m).
Proof. unfold retry_missing. keep. Qed.

#[local] Hint Resolve kept_validated_blobs kept_retry_missing : keep.

Lemma kept_dispatch_request k is_fault t i : kept (dispatch_request k is_fault t i).
Proof.
  unfold dispatch_request, get_next_l1_head, request_fault_proof, request_validity_proof. keep.
Qed.

Lemma kept_drain k handler now count : (forall t i, kept (handler t i)) -> kept (drain_due k handler now count).
Proof. intros Hh. induction count as [|count IH]; cbn [drain_due]; keep. Qed.

Lemma kept_dispatch k is_fault : kept (dispatch_proof_requests k is_fault).
Proof. unfold dispatch_proof_requests. pose proof kept_drain. pose proof kept_dispatch_request. keep. Qed.

(** *** Publishing *)

Lemma kept_publish_validity i p par r j l1c ci seal :
  child_of a i p par ci -> MProof i (Some r) ∈ proofs -> received a proofs i j seal l1c ->
  pj_agreed_l2_output_root j = output_root par -> pj_claimed_l2_output_root j = output_root p ->
  kept (publish_validity i p par r j l1c ci seal).
Proof.
  intros Hc Hr Hj Ha Hcl. unfold publish_validity.
  assert (justified address a proofs (ProveValidity (contract par) (payout_recipient j) l1c ci seal))
    by (by exists i, p, par, j).
  keep.
Qed.

Lemma kept_publish_output_fault i p par r j l1c ci seal :
  child_of a i p par ci -> MProof i (Some r) ∈ proofs -> received a proofs i j seal l1c ->
  ~ (pj_agreed_l2_output_root j = output_root par /\ pj_claimed_l2_output_root j = output_root p) ->
  kept (publish_output_fault i p par r j l1c ci seal).
Proof.
  intros Hc Hr Hj Hn. unfold publish_output_fault, submit_output_fault, check_claimed, check_agreed. apply preserves_get. intros w _. cbv zeta.
  destruct (fault p) as [f|] eqn:Ef; [|apply preserves_ret].
  assert (is_correct p = Some false) by (apply fault_incorrect; congruence).
  apply preserves_lift. intros fe Hfe. apply preserves_bind; [apply kept_asked|intros _].
  do 3 (apply preserves_lift; intros ? _). apply preserves_bind; [apply kept_on_host|]. intros status.
  destruct (negb (status =? 0)); [apply preserves_ret|].
  apply preserves_lift. intros [before_c before_w] Hbefore%(opening_submitted _ (0 < Z.of_nat (divergence_point f)));
    [|apply Z.ltb_lt].
  apply preserves_lift.
  intros [at_c at_w] Hat%(opening_submitted _ (pj_claimed_l2_block_number j <> output_block_number p));
    [|rewrite negb_true_iff; apply Z.eqb_neq].
  cbn [fst snd].
  pose proof (kept_transacted (ProveOutputFault (contract par) (payout_recipient j) l1c ci
    (Z.of_nat (divergence_point f)) seal (pj_agreed_l2_output_root j) (pj_claimed_l2_output_root j) fe
    (before_c ++ at_c) (before_w ++ at_w))) as Htx.
  assert (justified address a proofs (ProveOutputFault (contract par) (payout_recipient j) l1c ci
    (Z.of_nat (divergence_point f)) seal (pj_agreed_l2_output_root j) (pj_claimed_l2_output_root j) fe
    (before_c ++ at_c) (before_w ++ at_w)))
    by (exists i, p, par, j, f, before_c, before_w, at_c, at_w; split_and!; try done; [by apply fault_position|];
        apply output_fe_at_Ok in Hfe; [by rewrite Nat2Z.id in Hfe |- *|lia]).
  keep.
Qed.

Lemma kept_publish_receipt_proof i r : MProof i r ∈ proofs -> kept (publish_receipt_proof i r).
Proof.
  intros Hr. unfold publish_receipt_proof, keep_missing, publish_proof. apply preserves_get. intros w (-> & _). cbv zeta.
  destruct (proposals a !! i) as [p|] eqn:Ei; [|keep].
  destruct (proposals a !! parent p) as [par|] eqn:Epar; [|keep].
  apply preserves_bind; [apply kept_on_host|]. intros []; [apply preserves_ret|].
  apply preserves_bind; [apply kept_on_host|]. intros _. destruct r as [r|]; [|keep].
  apply preserves_get. intros w' (-> & _). apply preserves_lift. intros j Hj.
  destruct (l1_heads_inv a !! _) as [[l1c n]|] eqn:El; [|keep].
  apply kept_tried_lift; [|keep]. intros seal Hs%encode_seal_sealed. apply preserves_lift. intros ci Hci%unwrap_Ok%child_index_Some.
  assert (child_of a i p par ci) by done.
  assert (received a proofs i j seal l1c) by by exists r, n.
  destruct (_ && _) eqn:E; bools; [by apply kept_publish_validity|].
  apply kept_publish_output_fault; [done..|]. intros [E1%Z.eqb_eq E2%Z.eqb_eq]. rewrite E1, E2 in E. by destruct E.
Qed.

Lemma kept_publish_computed n : kept (publish_computed n).
Proof.
  induction n as [|n IH]; cbn [publish_computed]; [apply preserves_ret|].
  apply kept_pop; [|keep]. intros [|i r] Hm; (apply preserves_bind; [|auto]); [apply preserves_ret|].
  by apply kept_publish_receipt_proof.
Qed.

Lemma kept_publish_receipt_proofs : kept publish_receipt_proofs.
Proof.
  unfold publish_receipt_proofs. pose proof kept_publish_computed. apply preserves_bind; [|intros _; keep].
  intros v (Ha & Hp & Hs). split_and!; [done| |done]. cbn. by rewrite app_nil_r.
Qed.

Lemma kept_publish_trail_proof t i : kept (publish_trail_proof address t i).
Proof.
  unfold publish_trail_proof. apply preserves_get. intros w (-> & _). cbv zeta.
  destruct (proposals a !! i) as [p|] eqn:Ei; [|keep].
  destruct (proposals a !! parent p) as [par|] eqn:Epar; [|keep].
  destruct (fault p) as [f|] eqn:Ef; [|keep].
  assert (is_correct p = Some false) by (apply fault_incorrect; congruence).
  apply preserves_lift. intros fe Hfe. apply preserves_lift. intros position Hpos.
  apply (arith_checked host) in Hpos as [-> _]; [|done].
  apply preserves_bind; [apply kept_on_host|]. intros status. destruct (negb _); [apply preserves_ret|].
  apply preserves_lift. intros commitment Hc. apply kept_tried_lift; [|keep]. intros proof Hproof.
  apply preserves_bind; [apply kept_on_host|]. intros _. apply preserves_lift. intros ci Hci%unwrap_Ok%child_index_Some.
  assert (justified address a proofs (ProveTrailFault (contract par) address ci (Z.of_nat (divergence_point f)) fe
    commitment proof))
    by (exists i, p, par, f; split_and!; try done; [by apply fault_position| |by apply io_proof_for_Ok];
        apply output_fe_at_Ok in Hfe; [by rewrite Nat2Z.id in Hfe |- *|lia]).
  keep.
Qed.

Lemma kept_publish_trail_proofs : kept (publish_trail_proofs address).
Proof. unfold publish_trail_proofs. pose proof kept_drain. pose proof kept_publish_trail_proof. keep. Qed.

Lemma kept_after_sync args l : kept (
  _ ← process_proposals args l;
  _ ← dispatch_proof_requests OutputFaultQueue true;
  _ ← dispatch_proof_requests ValidityQueue false;
  _ ← publish_receipt_proofs;
  _ ← publish_trail_proofs address;
  mret true).
Proof.
  pose proof kept_process. pose proof kept_dispatch. pose proof kept_publish_receipt_proofs.
  pose proof kept_publish_trail_proofs. keep.
Qed.
End kept.

(** C4. The validator sends nothing that is not justified.  Assume that a game's parent was created
    before it ([parents_first]) and that the agent's store satisfies its invariant.  Whatever the
    outcome of an iteration of the validator's loop, the store keeps its invariant, and each
    transaction sent rests on what the agent holds and on a proof that it received.  A validity
    proof has the parent's root as its agreed and the proposal's root as its claimed output.  An
    output fault proof is for a proposal that is incorrect, at the position of its fault (the first wrong
    trailing element, else the first wrong output, else the claim), with the element committed to
    there and the journal's two roots; it carries, before that position unless it is the first, and
    at it unless the journal claims the proposal's last block, the commitment of the blob that
    holds the position and its opening at the place of the position in the blob, which is left out
    only if there is none.  A
    trail fault proof opens the blob before the position of the fault and carries the element at it.
    Each is addressed to the contract of the parent, names the proposal by how many children of
    the parent have a smaller index and, if it uses a proof, carries its seal and pays whom it names. *)
Theorem round_transactions_justified args op_rpc_delay address (v v' : V) r :
  parents_first (S := S) -> props_inv (proposals (v_agent v)) ->
  handle_proposals_round args op_rpc_delay address v = (r, v') ->
  props_inv (proposals (v_agent v')) /\
  exists new, sent v' = sent v ++ new /\
    Forall (justified address (v_agent v') (computed_proof_buffer v ++ inbox v)) new.
Proof.
  intros Hpf Hinv. unfold handle_proposals_round, synchronized, mbind, St_bind at 1, on_agent.
  pose proof (triple_invariant _ _ (v_host v, v_agent v) (sync_inv op_rpc_delay (va_final_l2_block args) Hpf) Hinv) as Hsync.
  destruct (sync op_rpc_delay (va_final_l2_block args) (v_host v, v_agent v)) as [o [s a]].
  cbn [snd] in Hsync. unfold inv in Hsync. cbn [snd] in Hsync. set (w := set_agent a (set_host s v)).
  assert (Hdone : props_inv (proposals (v_agent w)) /\ exists new, sent w = sent v ++ new /\
    Forall (justified address (v_agent w) (computed_proof_buffer v ++ inbox v)) new).
  { split; [done|]. exists []. by rewrite app_nil_r. }
  assert (Hgo : forall l o v', (
    _ ← process_proposals args l; _ ← dispatch_proof_requests OutputFaultQueue true;
    _ ← dispatch_proof_requests ValidityQueue false; _ ← publish_receipt_proofs;
    _ ← publish_trail_proofs address; mret true) w = (o, v') ->
    props_inv (proposals (v_agent v')) /\ exists new, sent v' = sent v ++ new /\
      Forall (justified address (v_agent v') (computed_proof_buffer v ++ inbox v)) new).
  { intros l o' w' Hr.
    pose proof (kept_after_sync address a (computed_proof_buffer v ++ inbox v) (sent v) args l w) as Hk.
    rewrite Hr in Hk. assert (Hw : orderly address a (computed_proof_buffer v ++ inbox v) (sent v) w').
    { destruct o'; apply Hk; (split_and!; [done|done|]; exists []; by rewrite app_nil_r). }
    destruct Hw as (Ha & _ & Hs). rewrite Ha. done. }
  destruct o as [l|e|e]; [apply Hgo| |by intros [= <- <-]].
  destruct (contains _ e); [by intros [= <- <-]|apply Hgo].
Qed.
End justified.

(** ** Trail fault proofs open what is wrong *)

Section trail.
Context `{Kzg}.

(** A proposal as it is stored: loaded from its blobs, with verdicts on its
    trailing data. *)
Definition judged (p : Proposal) : Prop :=
  game_inv p /\ forall i fe, trail_field_elements p !! i = Some fe -> correct_trail p !! i = Some (Some (fe =? 0)).

(** The judgement of a loaded game makes it so, and what the agent does with the
    proposal afterwards keeps it. *)
Lemma assessed_judged a q p correct :
  game_inv q -> has_parent q = true -> assess_correctness a q = Ok (p, correct) -> judged p.
Proof.
  intros [Hio Htr] Hp Ha.
  destruct (assess_correctness_Ok _ _ _ _ Ha Hp) as (io & trail & claim & par & -> & _ & _ & _ & Hl1 & Hl2 & _ & Hjt).
  split; [|done]. unfold game_inv in *. cbn in *. by rewrite Hl1, Hl2.
Qed.
Lemma canonical_judged c p : judged p -> judged (set_canonical c p).
Proof. done. Qed.
Lemma links_judged s t p : judged p -> judged (set_links s t p).
Proof. done. Qed.
Lemma children_judged c p : judged p -> judged (set_children c p).
Proof. done. Qed.

(** What a trail fault proof shows, if the fault is one. *)
Definition opens_trail (a : SyncAgent) (tx : Transaction) : Prop :=
  match tx with
  | ProveTrailFault tournament _ ci position output_fe commitment _ => exists i p par f,
      child_of a i p par ci /\ tournament = contract par /\ fault p = Some f /\
      (is_trail f = true ->
       output_fe <> 0 /\ Z.of_nat (length (io_field_elements p)) <= position - 1 /\
       element_at (io_blobs p) (Z.to_nat (position - 1)) output_fe /\
       exists h b, io_blobs p !! Z.to_nat ((position - 1) / 4096) = Some (h, b) /\
         commitment = bd_kzg_commitment b /\ kzg_to_versioned_hash commitment = h)
  | _ => True
  end.

Lemma justified_opens_trail {R} `{Zkvm R} `{Receipts R} address a (proofs : list (Message R)) tx :
  (forall i p, proposals a !! i = Some p -> judged p) -> justified address a proofs tx -> opens_trail a tx.
Proof.
  destruct tx as [| |tournament recipient ci position output_fe commitment proof]; [done..|].
  intros Hall (i & p & par & f & Hc & Ht & _ & Hf & _ & Hpos & _ & Hfe & Hopen).
  exists i, p, par, f. split_and!; [done..|]. intros Htrail. destruct f as [|n]; [done|]. cbn [divergence_point] in Hpos.
  destruct (Hall i p (proj1 Hc)) as [[(Hh & fes & Hf' & Hcat & _) _] Hverdict]. cbn [blobs_ io_ trail_] in *.
  pose proof (fault_spec p) as (_ & _ & Hs). rewrite Hf in Hs. destruct Hs as (k & -> & Hk & _).
  assert (Hel : trail_field_elements p !! k = Some output_fe).
  { unfold committed_elements in Hfe. rewrite lookup_app_r in Hfe by lia.
    rewrite lookup_cons_ne_0 in Hfe by lia. rewrite <-Hfe. f_equal. lia. }
  destruct Hopen as (h & b & Hb & -> & _). split_and!; [|lia| |].
  - apply Hverdict in Hel. rewrite Hk in Hel. intros ->. by cbn in Hel.
  - eapply concat_fes_element; [exact Hf'|]. rewrite Hcat, lookup_app_r by lia. rewrite <-Hel. f_equal. lia.
  - exists h, b. split_and!; [done|done|]. rewrite List.Forall_forall in Hh.
    apply (Hh (h, b)). apply list_elem_of_In. by eapply list_elem_of_lookup_2.
Qed.

(** The trail fault proofs that are published show what is wrong.  If the
    stored proposals were loaded from their blobs and judged, each transaction
    sent for a trail fault submits the element of a blob of the proposal, at a
    position beyond the intermediate outputs, that is not zero; the commitment is
    that of the blob with the hash in the proposal. *)
Theorem trail_transactions_open {S R} `{Nodes S} `{OpNode S} `{ValidatorHost S} `{Zkvm R} `{Receipts R}
    address (v v' : Validator S R) r :
  (forall i p, proposals (v_agent v) !! i = Some p -> judged p) ->
  publish_trail_proofs address v = (r, v') ->
  exists new, sent v' = sent v ++ new /\ Forall (opens_trail (v_agent v)) new.
Proof.
  intros Hall Hr.
  pose proof (kept_publish_trail_proofs address (v_agent v) (computed_proof_buffer v ++ inbox v) (sent v) v) as Hk.
  rewrite Hr in Hk.
  assert (Hv : orderly address (v_agent v) (computed_proof_buffer v ++ inbox v) (sent v) v').
  { destruct r; apply Hk; (split_and!; [done|done|]; exists []; by rewrite app_nil_r). }
  destruct Hv as (_ & _ & new & Hs & Hn). exists new. split; [done|].
  eapply List.Forall_impl; [|exact Hn]. intros tx. by apply justified_opens_trail.
Qed.
End trail.

(** ** Concrete runs *)

Definition demo_receipts : Receipts (Z * bytes) := {| inner := fun _ => Groth16 (be_bytes 4 9) (be_bytes 1 1) |}.
(** A validity proof for proposal 6, up to block 104. *)
Definition demo_validity : ProofJournal := {|
  payout_recipient := 0xb0; precondition_hash := 1; pj_l1_head := 8;
  pj_agreed_l2_output_root := 2100; pj_claimed_l2_output_root := 2104;
  pj_claimed_l2_block_number := 104; pj_config_hash := 6; fpvm_image_id := 7 |}.
Definition demo_proof : Z * bytes := (7, encode_packed demo_validity).
Definition demo_publisher : Validator unit (Z * bytes) :=
  Build_Validator tt demo_judge [] [] [] ∅ [MProof 6 (Some demo_proof)] [] [] [].

Lemma round_transactions_justified_witness :
  let v' := (@handle_proposals_round unit (Z * bytes) demo_nodes demo_op_node demo_host demo_kzg demo_zkvm demo_receipts
    demo_args 0 9 demo_publisher).2 in
  props_inv (proposals (v_agent v')) /\
  exists new, sent v' = [] ++ new /\
    Forall (@justified (Z * bytes) demo_kzg demo_zkvm demo_receipts 9 (v_agent v') [MProof 6 (Some demo_proof)]) new.
Proof.
  intros v'.
  apply (@round_transactions_justified unit (Z * bytes) demo_nodes demo_op_node demo_host demo_kzg demo_zkvm demo_receipts
    demo_args 0 9 demo_publisher v' (@handle_proposals_round unit (Z * bytes) demo_nodes demo_op_node demo_host demo_kzg
      demo_zkvm demo_receipts demo_args 0 9 demo_publisher).1).
  - exact demo_parents_first.
  - exact demo_judge_inv.
  - apply surjective_pairing.
Defined.

(** A proposal with one intermediate output, 11, and 12 where its trail begins. *)
Definition demo_trailing : Proposal :=
  {| contract := 500; p_treasury := 400; index_ := 6; parent := 5; proposer := 9; created_at := 1000;
     io_blobs := [(77, demo_blob_data)]; io_field_elements := [11]; trail_field_elements := 12 :: demo_padding;
     output_root := 2104; output_block_number := 104; l1_head := 8; signature := 0; children := ∅; successor := None;
     correct_io := [Some true]; correct_trail := Some false :: replicate (length demo_padding) (Some true);
     correct_claim := Some true; correct_parent := Some true; canonical := Some false; resolved_at := 0 |}.
Definition demo_trail_agent : SyncAgent :=
  {| deployment := demo_deployment; da_provider := demo_da; db := ∅; cursor := demo_cursor; outputs := ∅;
     proposals := {[ 5 := set_children {[6]} demo_anchor; 6 := demo_trailing ]}; eliminations := ∅;
     l1_heads := ∅; l1_heads_inv := ∅ |}.

Lemma demo_trailing_judged : @judged demo_kzg demo_trailing.
Proof.
  split; [split|].
  - split; [by repeat constructor|]. exists [demo_outputs ++ demo_padding].
    cbn [blobs_ io_ trail_ demo_trailing io_blobs io_field_elements trail_field_elements correct_io length].
    split; [|split; [|split; [reflexivity|right; reflexivity]]].
    + constructor; [exact demo_holds|constructor].
    + cbn [concat]. rewrite app_nil_r. unfold demo_outputs. cbn [app]. reflexivity.
  - cbn [demo_trailing correct_trail trail_field_elements length]. by rewrite length_replicate.
  - cbn [demo_trailing correct_trail trail_field_elements]. intros [|i] fe; [by intros [= <-]|].
    unfold demo_padding. cbn [lookup list_lookup]. rewrite !lookup_replicate, length_replicate. by intros [-> ?].
Qed.

Definition demo_trail_validator : Validator unit (Z * bytes) :=
  Build_Validator tt demo_trail_agent [] [] [(1990, 6)] ∅ [] [] [] [].

Lemma trail_transactions_open_witness :
  exists new, sent (@publish_trail_proofs unit (Z * bytes) demo_nodes demo_host demo_kzg 9 demo_trail_validator).2 =
      [] ++ new /\
    Forall (@opens_trail demo_kzg demo_trail_agent) new.
Proof.
  apply (@trail_transactions_open demo_kzg unit (Z * bytes) demo_nodes demo_op_node demo_host demo_zkvm demo_receipts 9
    demo_trail_validator _
    (@publish_trail_proofs unit (Z * bytes) demo_nodes demo_host demo_kzg 9 demo_trail_validator).1).
  - cbn [v_agent demo_trail_validator]. unfold demo_trail_agent. cbn [proposals].
    intros i p [[<- <-]|[_ [<- <-]%lookup_singleton_Some]]%lookup_insert_Some; [|exact demo_trailing_judged].
    split; [split; [split; [constructor|]|done]|done]. exists []. by split_and!; [constructor|..|left].
  - apply surjective_pairing.
Defined.
