(* ===== verification/PublishSpec.v ===== *)
(** * crates/validator/src/proposals/receipts.rs: no proof is lost

    A proof that the validator has received is published, kept for a later
    iteration, or given up for a reason. *)

From S2P Require Import Prelude Bytes Config Journal Blobs Precondition Stitching Deployment Proposal Agent Validator ValidatorSpec Publish.
Open Scope Z_scope.

Section receipts.
Context {S R : Type} `{Nodes S} `{OpNode S} `{ValidatorHost S} `{Kzg} `{Zkvm R} `{Receipts R}.
Abbreviation V := (Validator S R).

(** What handling one message does to the rest. *)
Record extends (v v' : V) : Prop := {
  ex_agent : v_agent v' = v_agent v;
  ex_buffer : exists more, computed_proof_buffer v' = computed_proof_buffer v ++ more;
  ex_sent : exists new, sent v' = sent v ++ new;
  ex_queue : forall k, queue k v ⊆ queue k v';
}.

#[local] Instance extends_preorder : PreOrder extends.
Proof.
  split; [intros v; split; try done; exists []; by rewrite app_nil_r|].
  intros u v w [? [m1 Hm1] [n1 Hn1] ?] [? [m2 Hm2] [n2 Hn2] ?]. split; [congruence| | |set_solver].
  - exists (m1 ++ m2). by rewrite Hm2, Hm1, app_assoc.
  - exists (n1 ++ n2). by rewrite Hn2, Hn1, app_assoc.
Qed.

Lemma extends_eq (v v' : V) more new :
  v_agent v' = v_agent v -> computed_proof_buffer v' = computed_proof_buffer v ++ more ->
  sent v' = sent v ++ new -> (forall k, queue k v ⊆ queue k v') -> extends v v'.
Proof. intros. split; eauto. Qed.

Lemma on_host_extends {A} (m : St S A) : always extends (on_host (R := R) m).
Proof.
  intros v. unfold on_host. destruct (m (v_host v)). apply extends_eq with [] []; cbn; by rewrite ?app_nil_r.
Qed.
Lemma asked_extends {A} (q : S -> A * S) : always extends (asked (R := R) q).
Proof. apply on_host_extends. Qed.
Lemma push_extends k t i : always extends (push (S := S) (R := R) k t i).
Proof.
  intros v. unfold push, modify. apply extends_eq with [] []; cbn; rewrite ?app_nil_r; try done.
  intros k'. destruct k, k'; cbn; try done; intros x Hx; apply heap_push_elem; by right.
Qed.
Lemma push_back_extends m : always extends (push_back (S := S) (R := R) m).
Proof. intros v. apply extends_eq with [m] []; cbn; by rewrite ?app_nil_r. Qed.
Lemma transacted_extends tx : always extends (transacted (R := R) tx).
Proof.
  apply always_bind; [apply extends_preorder| |intros _; apply on_host_extends].
  intros v. apply extends_eq with [] [tx]; cbn; by rewrite ?app_nil_r.
Qed.
Lemma tried_extends {A} (m : St V A) : always extends m -> always extends (tried m).
Proof. intros Hm v. specialize (Hm v). unfold tried. by destruct (m v) as [[] ?]. Qed.

(** The transaction carries the proof. *)
Definition carries (r : R) (tx : Transaction) : Prop :=
  match tx with
  | ProveValidity _ _ _ _ seal | ProveOutputFault _ _ _ _ _ seal _ _ _ _ _ => encode_seal r = Ok seal
  | ProveTrailFault _ _ _ _ _ _ _ => False
  end.

(** The transaction went through, when it was sent. *)
Definition went_through (tx : Transaction) : Prop := exists (s s' : S) u, transact tx s = (Ok u, s').

(** The reasons for giving a message up. *)
Definition freed (a : SyncAgent) (i : Z) : Prop :=
  (proposals a !! i = None /\ i <= last_resolved_game (cursor a)) \/
  exists p, proposals a !! i = Some p /\ proposals a !! parent p = None /\ parent p <= last_resolved_game (cursor a).
Definition superseded (a : SyncAgent) (i : Z) (c : Proposal -> Call) : Prop := exists p par,
  proposals a !! i = Some p /\ proposals a !! parent p = Some par /\ answers_nonzero (S := S) (contract par) (c p).
Definition unusable (a : SyncAgent) (i : Z) (r : R) : Prop :=
  (exists e, encode_seal r = Err e) \/ exists p, proposals a !! i = Some p /\ fault p = None.

(** Where a message is. *)
Definition settled (base : list Transaction) (v : V) (m : Message R) : Prop :=
  m ∈ computed_proof_buffer v \/
  match m with
  | MProposal _ _ _ _ _ _ _ => True
  | MProof i receipt =>
      freed (v_agent v) i \/ superseded (v_agent v) i (fun _ => ValidChildSignature) \/
      match receipt with
      | None => exists t, (t, i) ∈ queue ValidityQueue v \/ (t, i) ∈ queue OutputFaultQueue v
      | Some r =>
          (exists new tx, sent v = base ++ new /\ tx ∈ new /\ carries r tx /\ went_through tx) \/
          superseded (v_agent v) i (fun p => ProofStatus (signature p)) \/ unusable (v_agent v) i r
      end
  end.

(** ** One message *)

Hint Resolve on_host_extends asked_extends push_extends push_back_extends transacted_extends tried_extends
  always_get always_lift always_ret extends_preorder : core.
Ltac extend := repeat match goal with
  | _ => solve [auto]
  | |- always _ (_ ≫= _) => apply always_bind; [apply extends_preorder| |intros ?]
  | |- always _ (if ?b then _ else _) => destruct b
  | |- always _ (match ?x with _ => _ end) => destruct x
  end.

(** A call that ends with the message kept, the proof sent, or for a reason. *)
Section ends.
Variables (a : SyncAgent) (m : Message R) (reason : Prop) (carry : Transaction -> Prop).

Definition ends (c : St V unit) : Prop := forall v u v', v_agent v = a -> c v = (Ok u, v') ->
  m ∈ computed_proof_buffer v' \/
  (exists new tx, sent v' = sent v ++ new /\ tx ∈ new /\ carry tx /\ went_through tx) \/ reason.

Lemma outcome_ends_bind {A} (c : St V A) f : always extends c -> (forall x, ends (f x)) -> ends (c ≫= f).
Proof.
  intros Hc Hf v u v' Ha Hr. apply St_bind_Ok in Hr as (x & w & Hcw & Hr).
  pose proof (always_run _ _ _ _ _ Hc Hcw) as [Hw _ [n Hn] _]. rewrite Ha in Hw.
  destruct (Hf x w u v' Hw Hr) as [?|[(new & tx & Hs & Htx)|?]]; [by left| |auto].
  right; left. exists (n ++ new), tx. rewrite Hs, Hn, app_assoc, elem_of_app. naive_solver.
Qed.
Lemma ends_get f : (forall v, v_agent v = a -> ends (f v)) -> ends (get_st ≫= f).
Proof. intros Hf v u v' Ha Hr. by apply (Hf v Ha v u v' Ha). Qed.
Lemma ends_lift {A} (o : outcome A) f : (forall x, o = Ok x -> ends (f x)) -> ends (lift o ≫= f).
Proof. intros Hf v u v' Ha Hr. apply St_bind_Ok in Hr as (x & w & [Ho ->]%lift_Ok & Hr). by apply (Hf x Ho v u v'). Qed.
Lemma ends_tried_lift {A} (o : outcome A) f :
  (forall x, o = Ok x -> ends (f (Some x))) -> (forall e, o = Err e -> ends (f None)) -> ends (tried (lift o) ≫= f).
Proof.
  intros Hs He v u v' Ha Hr. unfold tried, lift, mbind, St_bind in Hr. destruct o as [x|e|e]; [| |done].
  - by apply (Hs x eq_refl v u v').
  - by apply (He e eq_refl v u v').
Qed.
Lemma ends_stall address c f :
  (forall x, (x <> 0 -> answers_nonzero (S := S) address c) -> ends (f x)) -> ends (on_host (stall address c) ≫= f).
Proof.
  intros Hf v u v' Ha Hr. apply St_bind_Ok in Hr as (x & w & Hs & Hr).
  pose proof (always_run _ _ _ _ _ (on_host_extends _) Hs) as [Hw _ [n Hn] _]. rewrite Ha in Hw.
  assert (Hx : x <> 0 -> answers_nonzero (S := S) address c).
  { unfold on_host in Hs. destruct (stall _ _ (v_host v)) as [o s] eqn:E. intros ?. simplify_eq. by eapply stall_nonzero. }
  destruct (Hf x Hx w u v' Hw Hr) as [?|[(new & tx & Hsn & Htx)|?]]; [by left| |auto].
  right; left. exists (n ++ new), tx. rewrite Hsn, Hn, app_assoc, elem_of_app. naive_solver.
Qed.
Lemma ends_reason : reason -> ends (mret tt).
Proof. intros Hr v u v' _ _. auto. Qed.
Lemma ends_keep : ends (push_back m).
Proof. intros v u v' _ Hp. left. unfold push_back, modify in Hp. simplify_eq. cbn. rewrite elem_of_app, list_elem_of_singleton. auto. Qed.

(** A transaction that was tried is on record; if it did not go through, the
    proof is kept. *)
Lemma ends_transact {A} tx (c : St V A) : always extends c -> carry tx -> ends (
  r ← tried (transacted tx);
  match r with Some _ => _ ← c; mret tt | None => push_back m end).
Proof.
  intros Hc Htx v u v' Ha Hr. apply St_bind_Ok in Hr as (r & v1 & Ht & Hr).
  destruct r as [u'|]; [|left; unfold push_back, modify in Hr; simplify_eq; cbn;
    rewrite elem_of_app, list_elem_of_singleton; by right].
  right; left. assert (Hx : extends v1 v') by (eapply always_run; [|exact Hr]; extend).
  destruct (ex_sent _ _ Hx) as [more ->]. unfold tried, transacted, mbind, St_bind, modify in Ht.
  destruct (on_host (transact tx) (add_sent tx v)) as [[] w] eqn:Et; simplify_eq.
  assert (Hgo : went_through tx).
  { unfold on_host in Et. destruct (transact tx _) as [o s'] eqn:Ex. simplify_eq. by do 3 eexists. }
  pose proof (always_run _ _ _ _ _ (on_host_extends _) Et) as [_ _ [n Hn] _]. cbn in Hn.
  exists ([tx] ++ n ++ more), tx. rewrite Hn, <-!app_assoc. split; [done|]. split; [by left|by split].
Qed.
End ends.

Definition reasons (a : SyncAgent) (i : Z) (r : R) : Prop :=
  freed a i \/ superseded a i (fun _ => ValidChildSignature) \/
  superseded a i (fun p => ProofStatus (signature p)) \/ unusable a i r.

Lemma publish_validity_ends a i p par r j l1c ci seal :
  encode_seal r = Ok seal ->
  ends a (MProof i (Some r)) (reasons a i r) (carries r) (publish_validity i p par r j l1c ci seal).
Proof.
  intros Hs. unfold publish_validity. apply ends_get. intros v Ha. cbv zeta.
  do 2 (apply outcome_ends_bind; [auto|intros _]). do 2 (apply ends_lift; intros ? _). by apply ends_transact.
Qed.

Lemma publish_output_fault_ends a i p par r j l1c ci seal :
  proposals a !! i = Some p -> proposals a !! parent p = Some par -> encode_seal r = Ok seal ->
  ends a (MProof i (Some r)) (reasons a i r) (carries r) (publish_output_fault i p par r j l1c ci seal).
Proof.
  intros Hi Hpar Hs. unfold publish_output_fault, submit_output_fault, check_claimed, check_agreed. apply ends_get. intros v Ha. cbv zeta.
  destruct (fault p) as [f|] eqn:Ef; [|apply ends_reason; right; right; right; right; by exists p].
  apply ends_lift. intros fe _. apply outcome_ends_bind; [auto|intros _]. do 3 (apply ends_lift; intros ? _).
  apply ends_stall. intros status Hst. destruct (negb (status =? 0)) eqn:E; bools.
  { apply ends_reason. do 2 right; left. exists p, par. auto. }
  do 2 (apply ends_lift; intros ? _). do 3 (apply outcome_ends_bind; [extend|intros ?]). by apply ends_transact.
Qed.

Lemma publish_some_ends a i r :
  ends a (MProof i (Some r)) (reasons a i r) (carries r) (publish_receipt_proof i (Some r)).
Proof.
  unfold publish_receipt_proof, keep_missing, publish_proof. apply ends_get. intros v Ha. cbv zeta. rewrite Ha.
  destruct (proposals a !! i) as [p|] eqn:Ei.
  2:{ apply ends_get. intros w ->. destruct (_ <? i) eqn:E; bools; [apply ends_keep|]. apply ends_reason. left. by left. }
  destruct (proposals a !! parent p) as [par|] eqn:Epar.
  2:{ apply ends_get. intros w ->. destruct (_ <? parent p) eqn:E; bools; [apply ends_keep|]. apply ends_reason.
      left. right. eauto. }
  unfold fetch_is_successor_validity_proven.
  assert (Hassoc : forall f, ends a (MProof i (Some r)) (reasons a i r) (carries r)
      (on_host (stall (contract par) ValidChildSignature) ≫= fun x => f (negb (x =? 0))) ->
    ends a (MProof i (Some r)) (reasons a i r) (carries r)
      (on_host (x ← stall (contract par) ValidChildSignature; mret (negb (x =? 0))) ≫= f)).
  { intros f Hf w u w' Hw Hr. apply (Hf w u w' Hw). revert Hr. unfold on_host, stall, mbind, St_bind, mret, St_ret.
    by destruct (eth_call _ _ _). }
  apply Hassoc. apply ends_stall. intros x Hx. destruct (negb (x =? 0)) eqn:E; bools.
  { apply ends_reason. right; left. exists p, par. auto. }
  apply outcome_ends_bind; [auto|intros _]. apply ends_get. intros w Hw. apply ends_lift. intros j _.
  destruct (l1_heads_inv _ !! _) as [[l1c n]|]; [|apply ends_keep].
  apply ends_tried_lift; [|intros e He; apply ends_reason; do 3 right; left; by exists e].
  intros seal Hs. apply ends_lift. intros ci _. destruct (_ && _); [by apply publish_validity_ends|].
  by apply (publish_output_fault_ends a i p par).
Qed.

Lemma receipt_proof_extends i r : always extends (publish_receipt_proof i r).
Proof.
  unfold publish_receipt_proof, publish_proof, publish_validity, publish_output_fault, submit_output_fault, keep_missing, check_claimed,
    check_agreed. extend.
Qed.

Lemma publish_one i r (v v' : V) u :
  publish_receipt_proof i r v = (Ok u, v') -> settled (sent v) v' (MProof i r).
Proof.
  intros Hr. pose proof (ex_agent _ _ (always_run _ _ _ _ _ (receipt_proof_extends i r) Hr)) as Ha.
  unfold settled. rewrite Ha. destruct r as [r|].
  { destruct (publish_some_ends (v_agent v) i r v u v' eq_refl Hr) as [?|[?|[?|[?|[?|?]]]]]; auto 6. }
  unfold publish_receipt_proof, keep_missing in Hr. apply St_bind_Ok in Hr as (? & ? & [= <- <-] & Hr). cbv zeta in Hr.
  assert (Hkeep : forall missing, (v0 ← get_st; if last_resolved_game (cursor (v_agent v0)) <? missing
      then push_back (MProof i None) else mret tt) v = (Ok u, v') ->
    MProof i None ∈ computed_proof_buffer v' \/ missing <= last_resolved_game (cursor (v_agent v))).
  { intros missing Hm. apply St_bind_Ok in Hm as (? & ? & [= <- <-] & Hm). destruct (_ <? missing) eqn:E; bools; [|auto].
    left. unfold push_back, modify in Hm. simplify_eq. cbn. rewrite elem_of_app, list_elem_of_singleton. auto. }
  destruct (proposals (v_agent v) !! i) as [p|] eqn:Ei.
  2:{ destruct (Hkeep i Hr); [by left|]. right; left. by left. }
  destruct (proposals (v_agent v) !! parent p) as [par|] eqn:Epar.
  2:{ destruct (Hkeep (parent p) Hr); [by left|]. right; left. right. eauto. }
  apply St_bind_Ok in Hr as (proven & v1 & Hp & Hr). right; right. destruct proven.
  { left. exists p, par. split_and!; [done..|]. unfold on_host in Hp.
    destruct (fetch_is_successor_validity_proven par (v_host v)) as [o s] eqn:Ef. simplify_eq. by eapply proven_answers. }
  right. apply St_bind_Ok in Hr as (im & v2 & _ & Hr). apply St_bind_Ok in Hr as (t & v3 & _ & Hr). exists t.
  destruct (_ || _); apply push_spec in Hr as [_ ?]; auto.
Qed.

(** What serving the buffer does to the rest. *)
Definition advances (v v' : V) : Prop :=
  v_agent v' = v_agent v /\ (exists new, sent v' = sent v ++ new) /\ (forall k, queue k v ⊆ queue k v').

Lemma settled_advances base (v v' : V) m :
  advances v v' -> settled base v m -> m ∈ computed_proof_buffer v \/ settled base v' m.
Proof.
  intros (Ha & [new Hn] & Hq) [Hin|Hs]; [by left|right; right].
  destruct m as [|i [r|]]; rewrite ?Ha; [done| |].
  - destruct Hs as [|[|[(new' & tx & Hs & Htx & Hc)|]]]; [auto..| |auto]. do 2 right; left.
    exists (new' ++ new), tx. rewrite Hn, Hs, app_assoc, elem_of_app. auto.
  - destruct Hs as [|[|(t & Ht)]]; [auto..|]. do 2 right. exists t. destruct Ht; [left|right]; by apply Hq.
Qed.

Lemma publish_computed_spec n base (v v' : V) u :
  publish_computed n v = (Ok u, v') -> (n <= length (computed_proof_buffer v))%nat ->
  (exists old, sent v = base ++ old) ->
  advances v v' /\ (forall m, m ∈ drop n (computed_proof_buffer v) -> m ∈ computed_proof_buffer v') /\
  Forall (settled base v') (take n (computed_proof_buffer v)).
Proof.
  revert v. induction n as [|n IH]; intros v Hr Hn Hb; cbn [publish_computed] in Hr.
  { st_inv. unfold advances. split_and!; [done|by exists []; rewrite app_nil_r|done|done|constructor]. }
  apply St_bind_Ok in Hr as (m & v1 & Hp & Hr). unfold pop_front in Hp.
  destruct (computed_proof_buffer v) as [|m0 ms] eqn:Eb; [cbn in Hn; lia|]. cbn [length] in Hn.
  apply pair_equal_spec in Hp as [[= <-] <-].
  set (v1 := set_mail (inbox v) (outbox v) ms v) in *.
  apply St_bind_Ok in Hr as (u1 & v2 & Hm & Hr).
  assert (H12 : extends v1 v2 /\ settled (sent v1) v2 m0).
  { destruct m0 as [|i r]; [st_inv; split; [reflexivity|by right]|].
    split; [by eapply always_run; [apply receipt_proof_extends|]|by eapply publish_one]. }
  destruct H12 as [[Ha2 [more Hbuf] [new Hnew] Hq2] Hset]. destruct Hb as [old Hold].
  assert (Hbuf2 : computed_proof_buffer v2 = ms ++ more) by exact Hbuf.
  destruct (IH v2 Hr) as ((Ha & [new' Hs] & Hq) & Hdrop & Htake).
  { rewrite Hbuf2, length_app. lia. }
  { exists (old ++ new). rewrite Hnew. change (sent v1) with (sent v). by rewrite Hold, app_assoc. }
  assert (Hsettled : forall m, settled base v2 m -> settled base v' m).
  { intros m Hsm. destruct (settled_advances base v2 v' m) as [Hin|]; [by split_and!; [|exists new'|]|done| |done].
    rewrite <-(take_drop n), elem_of_app in Hin. destruct Hin as [Hin|Hin]; [|left; by apply Hdrop].
    rewrite List.Forall_forall in Htake. by apply Htake, list_elem_of_In. }
  unfold advances. split_and!.
  - by rewrite Ha, Ha2.
  - exists (new ++ new'). rewrite Hs, Hnew. change (sent v1) with (sent v). by rewrite app_assoc.
  - intros k. specialize (Hq k). specialize (Hq2 k). change (queue k v1) with (queue k v) in Hq2. set_solver.
  - cbn [drop]. intros m Hin. apply Hdrop. rewrite Hbuf2, drop_app, elem_of_app. by left.
  - cbn [take]. constructor.
    + apply Hsettled. change (sent v1) with (sent v) in Hset. destruct Hset as [|Hset]; [by left|right].
      destruct m0 as [|i [r|]]; [done| |done]. destruct Hset as [|[|[(nw & tx & Hsn & ?)|]]]; [auto..| |auto].
      do 2 right; left. exists (old ++ nw), tx. rewrite Hsn, Hold, app_assoc, elem_of_app. naive_solver.
    + rewrite Hbuf2, take_app_le in Htake by lia. done.
Qed.

(** C37. No proof is lost.  Each message from the prover, received before or during
    the call, is afterwards still in the buffer, or has been dealt with: a proof
    has been sent in a transaction that carries its seal and went through (one whose
    transaction fails is therefore in the buffer), or it is given up because
    the proposal or its parent has been freed, because the contract answered that it
    has a validity proof or a proof of the same claims, or because the receipt has no
    seal or the proposal no fault; the report that the L1 head was insufficient
    puts the proposal back into a queue. *)
Theorem proofs_accounted (v v' : V) :
  publish_receipt_proofs v = (Ok tt, v') ->
  v_agent v' = v_agent v /\ Forall (settled (sent v) v') (computed_proof_buffer v ++ inbox v).
Proof.
  unfold publish_receipt_proofs, modify. intros Hr. apply St_bind_Ok in Hr as (u & v1 & Hm & Hr). simplify_eq.
  apply St_bind_Ok in Hr as (? & ? & [= <- <-] & Hr).
  apply publish_computed_spec with (base := sent v) in Hr as ((Ha & _) & _ & Hall).
  - cbn in Ha, Hall. rewrite take_ge in Hall by done. done.
  - done.
  - exists []. cbn. by rewrite app_nil_r.
Qed.
End receipts.

(** ** A concrete run *)

(** The validity proof for proposal 6 becomes a transaction. *)
Lemma proofs_accounted_witness :
  let v' := Build_Validator tt demo_judge [] [] [] ∅ [] [] []
    [ProveValidity 400 0xb0 400 0 (be_bytes 4 9 ++ be_bytes 1 1)] in
  v_agent v' = demo_judge /\
  Forall (@settled unit (Z * bytes) demo_nodes demo_host demo_receipts [] v') [MProof 6 (Some demo_proof)].
Proof.
  intros v'.
  apply (@proofs_accounted unit (Z * bytes) demo_nodes demo_op_node demo_host demo_kzg demo_zkvm demo_receipts
    demo_publisher v').
  vm_compute. reflexivity.
Defined.
