(* ===== verification/Requests.v ===== *)
(** * crates/validator/src/{requests,tasks,validate}.rs

    Between the two tasks of the validator: a request becomes a task of the
    prover, the task is run, and its proof file is sent back. *)

From S2P Require Import Prelude Bytes Config Journal Blobs Precondition Oracle Executor L1Chain Core Stitching DA Witgen Payload Tasks TasksSpec Backend Worker Prover ProverSpec Preflight Deployment Proposal Agent Validator.
Open Scope Z_scope.

(** ** validate.rs: the flags that the validator ignores *)

Definition sanitized (a : ProvingArgs) : ProvingArgs :=
  {| payout_recipient_arg := payout_recipient_arg a; segment_limit := segment_limit a;
     max_block_derivations := max_block_derivations a; max_block_executions := max_block_executions a;
     max_witness_size := max_witness_size a; num_concurrent_preflights := num_concurrent_preflights a;
     skip_derivation_proof := false; skip_await_proof := false;
     hokulea_is_set := hokulea_is_set a; hana_is_set := hana_is_set a |}.

(** ** requests.rs: tasks *)

Record Task := {
  t_proposal_index : Z; prove_args : ProveArgs; precondition_args : PreconditionArgs; proof_file_name : Z }.

Section task_of.
Context `{Digests} `{Images}.
Variables (args : ProvingArgs) (validator_address : Z) (witness_endpoint : bool) (config : RollupConfig).

Definition recipient : Z := default validator_address (payout_recipient_arg args).

Definition with_payout (payout : Z) : ProvingArgs :=
  {| payout_recipient_arg := Some payout; segment_limit := segment_limit args;
     max_block_derivations := max_block_derivations args; max_block_executions := max_block_executions args;
     max_witness_size := max_witness_size args; num_concurrent_preflights := num_concurrent_preflights args;
     skip_derivation_proof := skip_derivation_proof args; skip_await_proof := skip_await_proof args;
     hokulea_is_set := hokulea_is_set args; hana_is_set := hana_is_set args |}.

Definition precondition_args_of (data : option PreconditionValidationData) : PreconditionArgs :=
  match data with
  | None => {| precondition_params := []; precondition_block_hashes := []; precondition_blob_hashes := [] |}
  | Some (Validity proposal_l2_head_number proposal_output_count output_block_span blobs) =>
      {| precondition_params := [proposal_l2_head_number; proposal_output_count; output_block_span];
         precondition_block_hashes := (fun r => bk_hash (block_ref r)) <$> blobs;
         precondition_blob_hashes := (fun r => ibh_hash (blob_hash r)) <$> blobs |}
  end.

(** The task of a request; any other message ends the loop. *)
Definition task_of {R} (m : Message R) : outcome (option Task) :=
  config_hash ← config_hash config;
  match m with
  | MProposal index data l1_head agreed_l2_head_hash agreed_l2_output_root claimed_l2_block_number
      claimed_l2_output_root =>
      let proof_journal :=
        {| payout_recipient := recipient; precondition_hash := default 0 (pvd_precondition_hash <$> data);
           pj_l1_head := l1_head; pj_agreed_l2_output_root := agreed_l2_output_root;
           pj_claimed_l2_output_root := claimed_l2_output_root;
           pj_claimed_l2_block_number := claimed_l2_block_number; pj_config_hash := config_hash;
           fpvm_image_id := Witgen.image_id args |} in
      Ok (Some {|
        t_proposal_index := index;
        prove_args := {|
          a_l1_head := l1_head; a_agreed_l2_output_root := agreed_l2_output_root;
          a_agreed_l2_head_hash := agreed_l2_head_hash; a_claimed_l2_output_root := claimed_l2_output_root;
          a_claimed_l2_block_number := claimed_l2_block_number; is_offline := false;
          enable_experimental_witness_endpoint := witness_endpoint; op_node_address := true;
          proving := with_payout recipient |};
        precondition_args := precondition_args_of data;
        proof_file_name := proof_id (Witgen.image_id args) (encode_packed proof_journal) |})
  | MProof _ _ => Ok None
  end.
End task_of.

(** ** tasks.rs: running a task *)

(** How a run of the prover's binary ends: its arguments cannot be printed (which
    panics), it cannot be started, it cannot be waited for, or it exits, with a
    code unless a signal killed it. *)
Inductive CliRun := NotPrinted | NotSpawned | WaitFailed | Exited (code : option Z).

(** The prover as a process or as a call, the proof files it leaves, and whether
    the two channels are open: their other ends are held by the other tasks of
    the validator, which may close them while a proof is made. *)
Class ProverRuns (W R : Type) := {
  run_cli : Task -> W -> CliRun * W;
  run_prove : Task -> W -> outcome unit * W;
  read_proof_file : Z -> W -> outcome R;
  proofs_open : W -> bool;
  tasks_open : W -> bool;
}.

(** The queue of tasks, the messages sent back, and the rest of the host. *)
Record Tasking (W R : Type) := { tk_host : W; tk_queue : list Task; tk_sent : list (Message R) }.
Arguments tk_host {W R}. Arguments tk_queue {W R}. Arguments tk_sent {W R}. Arguments Build_Tasking {W R}.

Section tasks.
Context {W R : Type} `{ProverRuns W R}.
Abbreviation TW := (Tasking W R).

(** A message or a task cannot be sent into a closed channel: this ends the
    handler. *)
Definition reply (m : Message R) : St TW unit := fun w =>
  if proofs_open (tk_host w)
  then (Ok tt, Build_Tasking (tk_host w) (tk_queue w) (tk_sent w ++ [m]))
  else (Err "sending into a closed channel", w).
Definition requeue (t : Task) : St TW unit := fun w =>
  if tasks_open (tk_host w)
  then (Ok tt, Build_Tasking (tk_host w) (tk_queue w ++ [t]) (tk_sent w))
  else (Err "task channel closed", w).

(** Whether the L1 head was insufficient.  A panic of the prover is caught when
    it is called; a binary that cannot be started ends the handler. *)
Definition insufficient_l1_data (kailua_cli : bool) (t : Task) : St TW bool := fun w =>
  if kailua_cli then
    let '(run, host) := run_cli t (tk_host w) in
    let w := Build_Tasking host (tk_queue w) (tk_sent w) in
    match run with
    | NotPrinted => (Panic "create_proving_args", w)
    | NotSpawned => (Err "Invoking prover", w)
    | WaitFailed => (Ok false, w)
    | Exited code => (Ok (default 0 code =? 111), w)
    end
  else
    let '(result, host) := run_prove t (tk_host w) in
    let w := Build_Tasking host (tk_queue w) (tk_sent w) in
    match result with
    | Ok _ => (Ok false, w)
    | Err e => (Ok (contains L1_HEAD_INSUFFICIENT e), w)
    | Panic _ => (Ok false, w)
    end.

Definition handle_task (kailua_cli : bool) (t : Task) : St TW unit :=
  insufficient ← insufficient_l1_data kailua_cli t;
  if negb insufficient && skip_stitching (proving (prove_args t)) then mret tt
  else
    w ← get_st;
    match read_proof_file (proof_file_name t) (tk_host w) with
    | Ok proof => reply (MProof (t_proposal_index t) (Some proof))
    | Err _ => if insufficient : bool then reply (MProof (t_proposal_index t) None) else requeue t
    | Panic p => lift (Panic p)
    end.

(** One iteration of [handle_proving_tasks], and whether the loop goes on.  A
    closed channel is read until it is empty; at an open one the handler waits. *)
Definition handle_proving_task (kailua_cli : bool) : St TW bool :=
  w ← get_st;
  match tk_queue w with
  | [] => mret (tasks_open (tk_host w))
  | t :: queue =>
      _ ← put_st (Build_Tasking (tk_host w) queue (tk_sent w));
      _ ← handle_task kailua_cli t;
      mret true
  end.

(** The prover said that the L1 head does not reach far enough. *)
Definition said_insufficient (kailua_cli : bool) (t : Task) (host host' : W) : Prop :=
  if kailua_cli then run_cli t host = (Exited (Some 111), host')
  else exists e, run_prove t host = (Err e, host') /\ contains L1_HEAD_INSUFFICIENT e = true.

Lemma insufficient_l1_data_spec kailua_cli t queue host sent :
  match insufficient_l1_data kailua_cli t (Build_Tasking host queue sent) with
  | (Ok b, v) => tk_queue v = queue /\ tk_sent v = sent /\
      (b = true <-> said_insufficient kailua_cli t host (tk_host v))
  | (Err _, v) => kailua_cli = true /\ run_cli t host = (NotSpawned, tk_host v) /\ tk_queue v = queue /\ tk_sent v = sent
  | (Panic _, v) => kailua_cli = true /\ run_cli t host = (NotPrinted, tk_host v)
  end.
Proof.
  unfold insufficient_l1_data, said_insufficient. cbn [tk_host tk_queue tk_sent]. destruct kailua_cli.
  - destruct (run_cli t host) as [[| | |[code|]] host'] eqn:E; cbn; try done; (split_and!; [done..|]);
      try (split; [done|congruence]). rewrite Z.eqb_eq. split; [by intros ->|congruence].
  - destruct (run_prove t host) as [[[]|e|p] host'] eqn:E; cbn; (split_and!; [done..|]);
      split; try done; try (intros (? & ? & ?); congruence); naive_solver.
Qed.

(** C39. A task is answered or retried. Take an iteration of the handler with a task at the head of the
    queue whose flags are those that the validator sets (no skipping). Unless it fails or panics, the
    handler goes on, and either one message for the proposal of the task has been sent: with the
    proof in its file if there is one, and otherwise with none, because the prover said that
    the L1 head is insufficient; or there is no proof, the prover did not say so, and the task is
    at the end of the queue again. The handler fails, and the task is then lost, neither answered nor in the
    queue, only if the prover's binary cannot be started, or if, after the prover ran, the channel that
    the message or the task is to be sent into is closed. It panics only if the arguments of the binary
    cannot be printed or reading the proof file panics. *)
Theorem task_answered_or_retried kailua_cli t queue (w : TW) :
  tk_queue w = t :: queue -> skip_stitching (proving (prove_args t)) = false ->
  match handle_proving_task kailua_cli w with
  | (Ok go_on, w') => go_on = true /\
      ((exists receipt, tk_queue w' = queue /\ proofs_open (tk_host w') = true /\
         tk_sent w' = tk_sent w ++ [MProof (t_proposal_index t) receipt] /\
         match receipt with
         | Some proof => read_proof_file (proof_file_name t) (tk_host w') = Ok proof
         | None => said_insufficient kailua_cli t (tk_host w) (tk_host w') /\
             exists e, read_proof_file (proof_file_name t) (tk_host w') = Err e
         end) \/
       ((exists e, read_proof_file (proof_file_name t) (tk_host w') = Err e) /\
        ~ said_insufficient kailua_cli t (tk_host w) (tk_host w') /\ tasks_open (tk_host w') = true /\
        tk_queue w' = queue ++ [t] /\ tk_sent w' = tk_sent w))
  | (Err _, w') => tk_queue w' = queue /\ tk_sent w' = tk_sent w /\
      ((kailua_cli = true /\ run_cli t (tk_host w) = (NotSpawned, tk_host w')) \/
       (proofs_open (tk_host w') = false /\
          (said_insufficient kailua_cli t (tk_host w) (tk_host w') \/
           exists proof, read_proof_file (proof_file_name t) (tk_host w') = Ok proof)) \/
       (tasks_open (tk_host w') = false /\ ~ said_insufficient kailua_cli t (tk_host w) (tk_host w') /\
          exists e, read_proof_file (proof_file_name t) (tk_host w') = Err e))
  | (Panic _, w') => (kailua_cli = true /\ run_cli t (tk_host w) = (NotPrinted, tk_host w')) \/
      exists p, read_proof_file (proof_file_name t) (tk_host w') = Panic p
  end.
Proof.
  intros Hq Hs. unfold handle_proving_task, mbind, St_bind at 1, get_st. rewrite Hq. unfold St_bind at 1, put_st.
  unfold handle_task, mbind, St_bind at 1 2.
  pose proof (insufficient_l1_data_spec kailua_cli t queue (tk_host w) (tk_sent w)) as Hi.
  destruct (insufficient_l1_data _ _ _) as [[b|e|e] v]; [|naive_solver..].
  destruct Hi as (Hqv & Hsv & Hb). rewrite Hs, andb_false_r. unfold St_bind, get_st, reply, requeue, lift.
  destruct (read_proof_file _ (tk_host v)) as [proof|e|e] eqn:E; [| |right; by exists e].
  - destruct (proofs_open (tk_host v)) eqn:Ep; cbn.
    + split; [done|]. left. exists (Some proof). by rewrite Hqv, Hsv.
    + rewrite Hqv, Hsv. split_and!; [done..|]. right; left. eauto.
  - destruct b.
    + destruct Hb as [Hb _]. destruct (proofs_open (tk_host v)) eqn:Ep; cbn.
      * split; [done|]. left. exists None. rewrite Hqv, Hsv. eauto 10.
      * rewrite Hqv, Hsv. split_and!; [done..|]. right; left. auto.
    + assert (Hn : ~ said_insufficient kailua_cli t (tk_host w) (tk_host v)) by (intros Hx; by apply Hb in Hx).
      destruct (tasks_open (tk_host v)) eqn:Ep; cbn.
      * split; [done|]. right. rewrite Hqv, Hsv. eauto 10.
      * rewrite Hqv, Hsv. split_and!; [done..|]. right; right. eauto.
Qed.
End tasks.

(** ** The file that is read is the file that is written *)

Section agreement.
Context {R : Type} `{Zkvm R} `{Digests} `{Images} `{L1Node} `{Pot} `{PreimageKeys}.
Variables (args : ProvingArgs) (validator_address : Z) (witness_endpoint : bool) (config : RollupConfig).

(** C38. The validator and the prover agree on a request.  Take the task that the
    validator makes of a request: if the prover can put together the precondition
    data of its arguments, their hash is the precondition hash that the validator
    expects, whatever blocks the node reports; and the journal that the prover
    then has to prove the request with has the fields of the request and is filed
    under the very name that the validator will read. *)
Theorem proof_file_agrees key_word store index data l1_head agreed_hash agreed number claimed t d store' :
  task_of args validator_address witness_endpoint config
    (MProposal (R := R) index data l1_head agreed_hash agreed number claimed) = Ok (Some t) ->
  fetch_precondition_data key_word (precondition_args t) store = (Ok d, store') ->
  exists data_hash ch, config_hash config = Ok ch /\
    let ph := default 0 (pvd_precondition_hash <$> data) in
    let journal :=
      {| payout_recipient := recipient args validator_address; precondition_hash := ph; pj_l1_head := l1_head;
         pj_agreed_l2_output_root := agreed; pj_claimed_l2_output_root := claimed;
         pj_claimed_l2_block_number := number; pj_config_hash := ch; fpvm_image_id := Witgen.image_id args |} in
    precondition_hashes d = Ok (ph, data_hash) /\
    request_journal (R := R) config ph data_hash (prove_args t) = Ok journal /\
    forall proofs snark,
      proof_file (R := R) (complete_task (prove_args t) config ph data_hash [] proofs snark) journal = proof_file_name t.
Proof.
  unfold task_of. intros Ht Hd. apply bind_Ok in Ht as (ch & Hch & Ht). apply Ok_inj in Ht. simplify_eq.
  apply fetch_precondition_data_spec in Hd. cbn [precondition_args] in Hd.
  assert (Hj : forall ph data_hash, request_journal (R := R) config ph data_hash
      {| a_l1_head := l1_head; a_agreed_l2_output_root := agreed; a_agreed_l2_head_hash := agreed_hash;
         a_claimed_l2_output_root := claimed; a_claimed_l2_block_number := number; is_offline := false;
         enable_experimental_witness_endpoint := witness_endpoint; op_node_address := true;
         proving := with_payout args (recipient args validator_address) |} =
    Ok {| payout_recipient := recipient args validator_address; precondition_hash := ph;
          pj_l1_head := l1_head; pj_agreed_l2_output_root := agreed; pj_claimed_l2_output_root := claimed;
          pj_claimed_l2_block_number := number; pj_config_hash := ch; fpvm_image_id := Witgen.image_id args |}).
  { intros ph dh. unfold request_journal, expected_journal, stitch_boot_info, journal_new. cbn. by rewrite Hch. }
  assert (Hhash : exists data_hash, precondition_hashes d = Ok (default 0 (pvd_precondition_hash <$> data), data_hash)).
  { destruct data as [[n c s blobs]|], d as [[n' c' s' requests]|]; cbn [precondition_args_of precondition_params
      precondition_block_hashes precondition_blob_hashes] in Hd.
    - destruct Hd as (Hp & _ & hash & bs & Hh & _). simplify_eq. by exists hash.
    - by destruct Hd as [? _].
    - by destruct Hd as [? _].
    - by exists 0. }
  destruct Hhash as [data_hash Hhash]. exists data_hash, ch. cbn [prove_args proof_file_name].
  split; [done|]. cbv zeta. split; [done|]. split; [apply Hj|]. intros proofs snark. reflexivity.
Qed.
End agreement.

(** ** Concrete runs *)

Definition demo_proving : ProvingArgs := sanitized (proving demo_request).
Definition demo_message : Message (Z * bytes) :=
  MProposal 6 (Some (Validity 4 3 2 [
    {| block_ref := {| bk_hash := 77; bk_number := 50; bk_parent_hash := 0; bk_timestamp := 600 |};
       blob_hash := {| ibh_index := 0; ibh_hash := 70 |} |}])) 8 3100 2100 104 2104.
Definition demo_task : Task :=
  match @task_of demo_digests demo_images demo_proving 9 false demo_config _ demo_message with
  | Ok (Some t) => t
  | _ => {| t_proposal_index := 0; prove_args := demo_request; precondition_args := demo_precondition_args;
            proof_file_name := 0 |}
  end.

Lemma demo_task_made :
  @task_of demo_digests demo_images demo_proving 9 false demo_config _ demo_message = Ok (Some demo_task).
Proof.
  unfold demo_task. destruct (@task_of _ _ _ _ _ _ _ demo_message) as [[t|]|e|e] eqn:E; [done|exfalso..];
    apply (f_equal is_ok) in E as E'; vm_compute in E'; try discriminate E'.
  revert E. unfold task_of. destruct (@config_hash _ _); [|done..]. done.
Qed.

Lemma proof_file_agrees_witness :
  exists data_hash ch, @config_hash demo_digests demo_config = Ok ch /\
    let ph := @validity_precondition_hash demo_digests 4 3 2 (@blobs_hash demo_digests [70]) in
    let journal :=
      {| payout_recipient := 66; precondition_hash := ph; pj_l1_head := 8; pj_agreed_l2_output_root := 2100;
         pj_claimed_l2_output_root := 2104; pj_claimed_l2_block_number := 104; pj_config_hash := ch;
         fpvm_image_id := @Witgen.image_id demo_images demo_proving |} in
    @request_journal (Z * bytes) demo_zkvm demo_digests demo_images demo_config ph data_hash (prove_args demo_task) = Ok journal.
Proof.
  destruct (@fetch_precondition_data demo_l1_node demo_digests demo_pot demo_keys key_data
    (precondition_args demo_task) demo_store) as [o store'] eqn:E.
  assert (Hd : exists d, o = Ok d).
  { apply (f_equal (fun x => is_ok x.1)) in E. cbn [fst] in E. destruct o as [d| |]; [by exists d|vm_compute in E; discriminate E..]. }
  destruct Hd as [d ->].
  pose proof (@proof_file_agrees (Z * bytes) demo_zkvm demo_digests demo_images demo_l1_node demo_pot demo_keys
    demo_proving 9 false demo_config key_data demo_store 6 _ 8 3100 2100 104 2104 demo_task d store' demo_task_made E)
    as (dh & ch & Hch & _ & Hj & _).
  exists dh, ch. exact (conj Hch Hj).
Defined.

(** The binary is started, but leaves no proof: the task is retried, until the
    channel of the tasks is closed. *)
Definition demo_runs : @ProverRuns bool (Z * bytes) := {|
  run_cli := fun _ w => (Exited (Some 1), w); run_prove := fun _ w => (Ok tt, w);
  read_proof_file := fun _ _ => Err "Failed to read file"; proofs_open := fun _ => true; tasks_open := id |}.

Lemma demo_task_flags : skip_stitching (proving (prove_args demo_task)) = false.
Proof. vm_compute. reflexivity. Qed.

Lemma task_answered_or_retried_witness :
  (exists w', @handle_proving_task bool (Z * bytes) demo_runs true (Build_Tasking true [demo_task] []) = (Ok true, w') /\
     tk_queue w' = [demo_task] /\ tk_sent w' = []) /\
  exists e w', @handle_proving_task bool (Z * bytes) demo_runs true (Build_Tasking false [demo_task] []) = (Err e, w') /\
     tk_queue w' = [] /\ tk_sent w' = [].
Proof.
  pose proof (fun host => @task_answered_or_retried bool (Z * bytes) demo_runs true demo_task []
    (Build_Tasking host [demo_task] []) eq_refl demo_task_flags) as Ht.
  assert (Hrun : forall host, @handle_proving_task bool (Z * bytes) demo_runs true (Build_Tasking host [demo_task] []) =
    if host then (Ok true, Build_Tasking true [demo_task] []) else (Err "task channel closed"%string, Build_Tasking false [] [])).
  { intros host. unfold handle_proving_task, handle_task, mbind, St_bind, get_st, put_st. cbn.
    rewrite demo_task_flags. by destruct host. }
  split.
  - specialize (Ht true). rewrite (Hrun true) in *. cbn in Ht. destruct Ht as [_ [(receipt & Hq & _)|(_ & _ & _ & Hq & Hs)]];
      [discriminate Hq|]. eexists. split; [reflexivity|]. split; [exact Hq|exact Hs].
  - specialize (Ht false). rewrite (Hrun false) in *. cbn in Ht. destruct Ht as (Hq & Hs & _).
    do 2 eexists. split; [reflexivity|]. split; [exact Hq|exact Hs].
Defined.
