(* ===== verification/Args.v ===== *)
(** * crates/prover/src/args.rs (printing), {hana,hokulea}/args.rs, the arguments
    of risczero/boundless.rs and sync's telemetry.rs, and create_proving_args of
    crates/validator/src/tasks.rs

    The validator starts the prover's binary and passes it a request as command
    line arguments.  What the binary reads back is stated with a reader of the
    usual syntax: an option is followed by its value, a flag stands alone. *)

From Stdlib Require Import SpecFloat Ascii DecimalString DecimalN DecimalFacts.
From S2P Require Import Prelude Bytes Witgen Floats Boundless Requests.
Open Scope Z_scope.

(** ** Values as text *)

(** [to_string] of an unsigned integer, and its [from_str]. *)
Definition show_uint (z : Z) : string := NilZero.string_of_uint (N.to_uint (Z.to_N z)).
Definition parse_uint (s : string) : option Z := (fun d => Z.of_N (N.of_uint d)) <$> NilZero.uint_of_string s.

(** [Display] and [FromStr] of the foreign types. *)
Class Display := {
  show_address : Z -> string; parse_address : string -> option Z;
  show_b256 : Z -> string; parse_b256 : string -> option Z;
  show_f64 : f64 -> string; parse_f64 : string -> option f64;
}.

(** [join(",")], and clap's value delimiter. *)
Fixpoint join (l : list string) : string :=
  match l with [] => "" | [x] => x | x :: l => (x +:+ "," +:+ join l)%string end.
Fixpoint split (s : string) : list string :=
  match s with
  | EmptyString => [EmptyString]
  | String c s =>
      if Ascii.eqb c ","%char then EmptyString :: split s
      else match split s with x :: l => String c x :: l | [] => [String c EmptyString] end
  end.
Fixpoint no_comma (s : string) : bool :=
  match s with EmptyString => true | String c s => negb (Ascii.eqb c ","%char) && no_comma s end.

(** ** The arguments *)

Record HanaArgs := {
  celestia_connection : option string; celestia_auth_token : option string; celestia_namespace : option string }.
Definition hana_is_set_ (h : HanaArgs) : bool :=
  bool_decide (is_Some (celestia_connection h)) && bool_decide (is_Some (celestia_auth_token h))
  && bool_decide (is_Some (celestia_namespace h)).
Definition hokulea_is_set_ (eigenda_proxy_address : option string) : bool :=
  bool_decide (is_Some eigenda_proxy_address).

Record CliProving := {
  payout_recipient_address : option Z; cli_segment_limit : Z; cli_max_block_derivations : Z;
  cli_max_block_executions : Z; cli_max_witness_size : Z; cli_num_concurrent_preflights : Z;
  num_concurrent_proofs : Z; num_concurrent_witgens : option Z; num_concurrent_r0vm : option Z;
  bypass_chain_registry : bool; cli_skip_derivation_proof : bool; cli_skip_await_proof : bool;
  clear_cache_data : bool; eigenda_proxy_address : option string; hana : HanaArgs;
}.
Record CliKona := {
  l1_head : Z; agreed_l2_head_hash : Z; agreed_l2_output_root : Z; claimed_l2_output_root : Z;
  claimed_l2_block_number : Z; l2_chain_id : option Z; l1_node_address : option string;
  l1_beacon_address : option string; l2_node_address : option string; data_dir : option PathBuf;
  native : bool; witness_endpoint : bool;
}.
Record BoundlessArgs := {
  market : option MarketProviderConfig; storage : option StorageProviderConfig; r2_domain_arg : option string }.
Record CliProve := {
  kona : CliKona; cli_op_node_address : option string; cli_proving : CliProving; boundless : BoundlessArgs;
  cli_precondition_params : list Z; cli_precondition_block_hashes : list Z;
  cli_precondition_blob_hashes : list Z; otlp_collector : option string;
}.

(** The part of [ProvingArgs] that the other files use. *)
Definition proving_of (a : CliProving) : ProvingArgs :=
  {| payout_recipient_arg := payout_recipient_address a; segment_limit := cli_segment_limit a;
     max_block_derivations := cli_max_block_derivations a;
     max_block_executions := cli_max_block_executions a; max_witness_size := cli_max_witness_size a;
     num_concurrent_preflights := cli_num_concurrent_preflights a;
     skip_derivation_proof := cli_skip_derivation_proof a; skip_await_proof := cli_skip_await_proof a;
     hokulea_is_set := hokulea_is_set_ (eigenda_proxy_address a); hana_is_set := hana_is_set_ (hana a) |}.

(** ** Printing *)

Section printing.
Context `{Display}.

(** [if let Some(x) = .. { extend(vec![name, x]) }], and [b.then(..)]. *)
Definition opt (name : string) (v : option string) : list string :=
  match v with Some v => [name; v] | None => [] end.
Definition flag (name : string) (b : bool) : list string := if b then [name] else [].

(** A path is printed with [to_str().unwrap()]. *)
Definition path_arg (name : string) (path : option PathBuf) : outcome (list string) :=
  match path with
  | Some path => s ← unwrap "to_str" (to_str path); Ok [name; s]
  | None => Ok []
  end.

Definition hokulea_to_arg_vec (eigenda_proxy_address : option string) : list string :=
  opt "--eigenda-proxy-address" eigenda_proxy_address.
Definition hana_to_arg_vec (h : HanaArgs) : list string :=
  opt "--celestia-connection" (celestia_connection h)
  ++ opt "--celestia-auth-token" (celestia_auth_token h)
  ++ opt "--celestia-namespace" (celestia_namespace h).
Definition telemetry_to_arg_vec (otlp_collector : option string) : list string :=
  opt "--otlp-collector" otlp_collector.

Definition proving_to_arg_vec (a : CliProving) : list string :=
  ["--segment-limit"; show_uint (cli_segment_limit a);
   "--max-witness-size"; show_uint (cli_max_witness_size a);
   "--num-concurrent-preflights"; show_uint (cli_num_concurrent_preflights a);
   "--num-concurrent-proofs"; show_uint (num_concurrent_proofs a)]%string
  ++ flag "--bypass-chain-registry" (bypass_chain_registry a)
  ++ flag "--skip-derivation-proof" (cli_skip_derivation_proof a)
  ++ flag "--skip-await-proof" (cli_skip_await_proof a)
  ++ opt "--payout-recipient-address" (show_address <$> payout_recipient_address a)
  ++ hokulea_to_arg_vec (eigenda_proxy_address a)
  ++ hana_to_arg_vec (hana a).

Definition storage_to_arg_vec (s : StorageProviderConfig) : outcome (list string) :=
  match storage_provider s with
  | StorageS3 =>
      access_key ← unwrap "s3_access_key" (s3_access_key s);
      secret_key ← unwrap "s3_secret_key" (s3_secret_key s);
      bucket ← unwrap "s3_bucket" (s3_bucket s);
      url ← unwrap "s3_url" (s3_url s);
      region ← unwrap "aws_region" (aws_region s);
      Ok (["--storage-provider"; "s3"; "--s3-access-key"; access_key; "--s3-secret-key"; secret_key;
           "--s3-bucket"; bucket; "--s3-url"; url; "--aws-region"; region]%string)
  | StoragePinata =>
      jwt ← unwrap "pinata_jwt" (pinata_jwt s);
      Ok (["--storage-provider"; "pinata"; "--pinata-jwt"; jwt]%string
          ++ opt "--pinata-api-url" (pinata_api_url s) ++ opt "--ipfs-gateway-url" (ipfs_gateway_url s))
  | StorageFile =>
      path ← path_arg "--file-path" (file_path s);
      Ok (["--storage-provider"; "file"]%string ++ path)
  | StorageOther => Panic "Unknown storage provider."
  end.

Definition market_to_arg_vec (m : MarketProviderConfig) (storage_provider_config : option StorageProviderConfig)
    : outcome (list string) :=
  let proving_args :=
    ["--boundless-rpc-url"; boundless_rpc_url m; "--boundless-wallet-key"; show_b256 (boundless_wallet_key m)]%string
    ++ opt "--boundless-chain-id" (show_uint <$> boundless_chain_id m)
    ++ opt "--boundless-market-address" (show_address <$> boundless_market_address m)
    ++ opt "--boundless-verifier-router-address" (show_address <$> boundless_verifier_router_address m)
    ++ opt "--boundless-set-verifier-address" (show_address <$> boundless_set_verifier_address m)
    ++ opt "--boundless-stake-token-address" (show_address <$> boundless_stake_token_address m)
    ++ opt "--boundless-order-stream-url" (boundless_order_stream_url m)
    ++ flag "--boundless-look-back" (boundless_look_back m)
    ++ opt "--boundless-assume-cycle-count" (show_uint <$> boundless_assume_cycle_count m)
    ++ ["--boundless-cycle-min-wei"; show_uint (boundless_cycle_min_wei m);
        "--boundless-cycle-max-wei"; show_uint (boundless_cycle_max_wei m);
        "--boundless-mega-cycle-stake"; show_uint (boundless_mega_cycle_stake m);
        "--boundless-order-bid-delay-factor"; show_f64 (boundless_order_bid_delay_factor m);
        "--boundless-order-ramp-up-factor"; show_f64 (boundless_order_ramp_up_factor m);
        "--boundless-order-lock-timeout-factor"; show_f64 (boundless_order_lock_timeout_factor m);
        "--boundless-order-expiry-factor"; show_f64 (boundless_order_expiry_factor m);
        "--boundless-order-check-interval"; show_uint (boundless_order_check_interval m)]%string in
  storage_args ← (match storage_provider_config with Some s => storage_to_arg_vec s | None => Ok [] end);
  Ok (proving_args ++ storage_args).

(** A list is printed unless it is empty. *)
Definition joined_arg (name : string) (show : Z -> string) (l : list Z) : list string :=
  match l with [] => [] | _ => [name; join (show <$> l)] end.

Definition to_arg_vec (a : CliProve) : outcome (list string) :=
  let k := kona a in
  data_dir_args ← path_arg "--data-dir" (data_dir k);
  boundless_args ← (match market (boundless a) with
    | Some m => market_to_arg_vec m (storage (boundless a)) | None => Ok [] end);
  Ok (["prove"; "--l1-head"; show_b256 (l1_head k);
       "--agreed-l2-head-hash"; show_b256 (agreed_l2_head_hash k);
       "--agreed-l2-output-root"; show_b256 (agreed_l2_output_root k);
       "--claimed-l2-output-root"; show_b256 (claimed_l2_output_root k);
       "--claimed-l2-block-number"; show_uint (claimed_l2_block_number k)]%string
      ++ opt "--l2-chain-id" (show_uint <$> l2_chain_id k)
      ++ opt "--l1-node-address" (l1_node_address k)
      ++ opt "--l1-beacon-address" (l1_beacon_address k)
      ++ opt "--l2-node-address" (l2_node_address k)
      ++ data_dir_args
      ++ opt "--op-node-address" (cli_op_node_address a)
      ++ proving_to_arg_vec (cli_proving a)
      ++ boundless_args
      ++ joined_arg "--precondition-params" show_uint (cli_precondition_params a)
      ++ joined_arg "--precondition-block-hashes" show_b256 (cli_precondition_block_hashes a)
      ++ joined_arg "--precondition-blob-hashes" show_b256 (cli_precondition_blob_hashes a)
      ++ telemetry_to_arg_vec (otlp_collector a)).

(** [create_proving_args] of the validator. *)
Definition verbosity_flag (verbosity : nat) : list string :=
  match verbosity with
  | O => []
  | _ => [String "-"%char (String.string_of_list_ascii (replicate verbosity "v"%char))]
  end.
Definition create_proving_args (a : CliProve) (verbosity : nat) : outcome (list string) :=
  args ← to_arg_vec a; Ok (args ++ ["--native"]%string ++ verbosity_flag verbosity).
End printing.

(** ** Reading *)

Definition flags : list string :=
  ["--bypass-chain-registry"; "--skip-derivation-proof"; "--skip-await-proof"; "--boundless-look-back"; "--native"]%string.
Definition is_flag (x : string) : bool := existsb (String.eqb x) flags || String.prefix "-v" x.

(** The options of a command line: an option takes the next word as its value. *)
Fixpoint read_options (l : list string) : gmap string string :=
  match l with
  | [] => ∅
  | x :: l =>
      if is_flag x then <[x := ""%string]> (read_options l)
      else match l with [] => ∅ | v :: l => <[x := v]> (read_options l) end
  end.

Section reading.
Context `{Display}.
Implicit Types m : gmap string string.

Definition optional {A} (parse : string -> option A) (o : option string) : option (option A) :=
  match o with Some s => Some <$> parse s | None => Some None end.
Definition present (o : option string) : bool := bool_decide (is_Some o).
Definition read_list (parse : string -> option Z) (o : option string) : option (list Z) :=
  match o with Some s => mapM parse (split s) | None => Some [] end.
(** [usize::MAX], the default of an absent limit. *)
Definition usize_MAX : Z := 2 ^ 64 - 1.

Definition read_proving m : option CliProving :=
  payout ← optional parse_address (m !! "--payout-recipient-address"%string);
  segment ← m !! "--segment-limit"%string ≫= parse_uint;
  witness ← m !! "--max-witness-size"%string ≫= parse_uint;
  preflights ← m !! "--num-concurrent-preflights"%string ≫= parse_uint;
  proofs ← m !! "--num-concurrent-proofs"%string ≫= parse_uint;
  Some {| payout_recipient_address := payout; cli_segment_limit := segment;
    cli_max_block_derivations := usize_MAX; cli_max_block_executions := usize_MAX;
    cli_max_witness_size := witness; cli_num_concurrent_preflights := preflights;
    num_concurrent_proofs := proofs; num_concurrent_witgens := None; num_concurrent_r0vm := None;
    bypass_chain_registry := present (m !! "--bypass-chain-registry"%string);
    cli_skip_derivation_proof := present (m !! "--skip-derivation-proof"%string);
    cli_skip_await_proof := present (m !! "--skip-await-proof"%string); clear_cache_data := false;
    eigenda_proxy_address := m !! "--eigenda-proxy-address"%string;
    hana := {| celestia_connection := m !! "--celestia-connection"%string;
               celestia_auth_token := m !! "--celestia-auth-token"%string;
               celestia_namespace := m !! "--celestia-namespace"%string |} |}.

Definition parse_provider (p : string) : option StorageProviderType :=
  if String.eqb p "s3" then Some StorageS3
  else if String.eqb p "pinata" then Some StoragePinata
  else if String.eqb p "file" then Some StorageFile else None.
Definition read_storage m : option (option StorageProviderConfig) :=
  match optional parse_provider (m !! "--storage-provider"%string) with
  | None => None
  | Some None => Some None
  | Some (Some p) =>
      Some (Some {| storage_provider := p; s3_access_key := m !! "--s3-access-key"%string;
        s3_secret_key := m !! "--s3-secret-key"%string; s3_bucket := m !! "--s3-bucket"%string;
        s3_url := m !! "--s3-url"%string; aws_region := m !! "--aws-region"%string;
        pinata_jwt := m !! "--pinata-jwt"%string; pinata_api_url := m !! "--pinata-api-url"%string;
        ipfs_gateway_url := m !! "--ipfs-gateway-url"%string; file_path := path_from <$> m !! "--file-path"%string |})
  end.

(** The group of the market is read if its two required options are there; its
    two switches are on by default. *)
Definition read_market m : option (option MarketProviderConfig) :=
  match m !! "--boundless-rpc-url"%string, m !! "--boundless-wallet-key"%string with
  | Some url, Some key =>
      key ← parse_b256 key;
      chain ← optional parse_uint (m !! "--boundless-chain-id"%string);
      address ← optional parse_address (m !! "--boundless-market-address"%string);
      router ← optional parse_address (m !! "--boundless-verifier-router-address"%string);
      verifier ← optional parse_address (m !! "--boundless-set-verifier-address"%string);
      token ← optional parse_address (m !! "--boundless-stake-token-address"%string);
      assume ← optional parse_uint (m !! "--boundless-assume-cycle-count"%string);
      min_wei ← m !! "--boundless-cycle-min-wei"%string ≫= parse_uint;
      max_wei ← m !! "--boundless-cycle-max-wei"%string ≫= parse_uint;
      stake ← m !! "--boundless-mega-cycle-stake"%string ≫= parse_uint;
      delay ← m !! "--boundless-order-bid-delay-factor"%string ≫= parse_f64;
      ramp ← m !! "--boundless-order-ramp-up-factor"%string ≫= parse_f64;
      lock ← m !! "--boundless-order-lock-timeout-factor"%string ≫= parse_f64;
      expiry ← m !! "--boundless-order-expiry-factor"%string ≫= parse_f64;
      interval ← m !! "--boundless-order-check-interval"%string ≫= parse_uint;
      Some (Some {| boundless_rpc_url := url; boundless_wallet_key := key; boundless_chain_id := chain;
        boundless_market_address := address; boundless_verifier_router_address := router;
        boundless_set_verifier_address := verifier; boundless_stake_token_address := token;
        boundless_order_stream_url := m !! "--boundless-order-stream-url"%string;
        boundless_look_back := true; boundless_assume_cycle_count := assume;
        boundless_cycle_min_wei := min_wei; boundless_cycle_max_wei := max_wei;
        boundless_mega_cycle_stake := stake; boundless_order_bid_delay_factor := delay;
        boundless_order_ramp_up_factor := ramp; boundless_order_lock_timeout_factor := lock;
        boundless_order_expiry_factor := expiry; boundless_order_check_interval := interval;
        boundless_enable_upload_caching := true; boundless_order_submission_cooldown := 12 |})
  | _, _ => Some None
  end.

Definition read_prove (l : list string) : option CliProve :=
  match l with
  | "prove"%string :: l =>
      let m := read_options l in
      l1_head ← m !! "--l1-head"%string ≫= parse_b256;
      head ← m !! "--agreed-l2-head-hash"%string ≫= parse_b256;
      agreed ← m !! "--agreed-l2-output-root"%string ≫= parse_b256;
      claimed ← m !! "--claimed-l2-output-root"%string ≫= parse_b256;
      number ← m !! "--claimed-l2-block-number"%string ≫= parse_uint;
      chain ← optional parse_uint (m !! "--l2-chain-id"%string);
      proving ← read_proving m;
      market_ ← read_market m;
      storage_ ← read_storage m;
      params ← read_list parse_uint (m !! "--precondition-params"%string);
      block_hashes ← read_list parse_b256 (m !! "--precondition-block-hashes"%string);
      blob_hashes ← read_list parse_b256 (m !! "--precondition-blob-hashes"%string);
      Some {| kona := {| l1_head := l1_head; agreed_l2_head_hash := head; agreed_l2_output_root := agreed;
                claimed_l2_output_root := claimed; claimed_l2_block_number := number; l2_chain_id := chain;
                l1_node_address := m !! "--l1-node-address"%string;
                l1_beacon_address := m !! "--l1-beacon-address"%string;
                l2_node_address := m !! "--l2-node-address"%string; data_dir := path_from <$> m !! "--data-dir"%string;
                native := present (m !! "--native"%string); witness_endpoint := false |};
              cli_op_node_address := m !! "--op-node-address"%string; cli_proving := proving;
              boundless := {| market := market_; storage := storage_; r2_domain_arg := m !! "--r2-domain"%string |};
              cli_precondition_params := params; cli_precondition_block_hashes := block_hashes;
              cli_precondition_blob_hashes := blob_hashes;
              otlp_collector := m !! "--otlp-collector"%string |}
  | _ => None
  end.
End reading.

(** ** What is passed on *)

(** The fields of a request that its command line carries; the others get the
    defaults of the reader. *)
Definition passed_storage (s : StorageProviderConfig) : StorageProviderConfig :=
  let s3 := match storage_provider s with StorageS3 => id | _ => fun _ => None end : option string -> option string in
  let pinata := match storage_provider s with StoragePinata => id | _ => fun _ => None end : option string -> option string in
  {| storage_provider := storage_provider s; s3_access_key := s3 (s3_access_key s);
     s3_secret_key := s3 (s3_secret_key s); s3_bucket := s3 (s3_bucket s); s3_url := s3 (s3_url s);
     aws_region := s3 (aws_region s); pinata_jwt := pinata (pinata_jwt s);
     pinata_api_url := pinata (pinata_api_url s); ipfs_gateway_url := pinata (ipfs_gateway_url s);
     file_path := match storage_provider s with StorageFile => file_path s | _ => None end |}.
Definition passed_market (m : MarketProviderConfig) : MarketProviderConfig :=
  {| boundless_rpc_url := boundless_rpc_url m; boundless_wallet_key := boundless_wallet_key m;
     boundless_chain_id := boundless_chain_id m; boundless_market_address := boundless_market_address m;
     boundless_verifier_router_address := boundless_verifier_router_address m;
     boundless_set_verifier_address := boundless_set_verifier_address m;
     boundless_stake_token_address := boundless_stake_token_address m;
     boundless_order_stream_url := boundless_order_stream_url m; boundless_look_back := true;
     boundless_assume_cycle_count := boundless_assume_cycle_count m;
     boundless_cycle_min_wei := boundless_cycle_min_wei m; boundless_cycle_max_wei := boundless_cycle_max_wei m;
     boundless_mega_cycle_stake := boundless_mega_cycle_stake m;
     boundless_order_bid_delay_factor := boundless_order_bid_delay_factor m;
     boundless_order_ramp_up_factor := boundless_order_ramp_up_factor m;
     boundless_order_lock_timeout_factor := boundless_order_lock_timeout_factor m;
     boundless_order_expiry_factor := boundless_order_expiry_factor m;
     boundless_order_check_interval := boundless_order_check_interval m;
     boundless_enable_upload_caching := true; boundless_order_submission_cooldown := 12 |}.
(** The storage provider is printed with the market. *)
Definition printed_storage (b : BoundlessArgs) : option StorageProviderConfig :=
  match market b with Some _ => storage b | None => None end.
Definition passed_boundless (b : BoundlessArgs) : BoundlessArgs :=
  {| market := passed_market <$> market b; storage := passed_storage <$> printed_storage b; r2_domain_arg := None |}.
Definition passed_proving (a : CliProving) : CliProving :=
  {| payout_recipient_address := payout_recipient_address a; cli_segment_limit := cli_segment_limit a;
     cli_max_block_derivations := usize_MAX; cli_max_block_executions := usize_MAX;
     cli_max_witness_size := cli_max_witness_size a;
     cli_num_concurrent_preflights := cli_num_concurrent_preflights a;
     num_concurrent_proofs := num_concurrent_proofs a; num_concurrent_witgens := None;
     num_concurrent_r0vm := None; bypass_chain_registry := bypass_chain_registry a;
     cli_skip_derivation_proof := cli_skip_derivation_proof a; cli_skip_await_proof := cli_skip_await_proof a;
     clear_cache_data := false; eigenda_proxy_address := eigenda_proxy_address a; hana := hana a |}.
Definition passed_on (a : CliProve) : CliProve :=
  let k := kona a in
  {| kona := {| l1_head := l1_head k; agreed_l2_head_hash := agreed_l2_head_hash k;
       agreed_l2_output_root := agreed_l2_output_root k; claimed_l2_output_root := claimed_l2_output_root k;
       claimed_l2_block_number := claimed_l2_block_number k; l2_chain_id := l2_chain_id k;
       l1_node_address := l1_node_address k; l1_beacon_address := l1_beacon_address k;
       l2_node_address := l2_node_address k; data_dir := data_dir k; native := true; witness_endpoint := false |};
     cli_op_node_address := cli_op_node_address a; cli_proving := passed_proving (cli_proving a);
     boundless := passed_boundless (boundless a);
     cli_precondition_params := cli_precondition_params a;
     cli_precondition_block_hashes := cli_precondition_block_hashes a;
     cli_precondition_blob_hashes := cli_precondition_blob_hashes a; otlp_collector := otlp_collector a |}.

(** ** Options and their words *)

(** An option or a flag, with the value that the reader should find. *)
Inductive item := Opt (name : string) (v : option string) | Flag (name : string) (b : bool).
Definition item_name (i : item) : string := match i with Opt n _ | Flag n _ => n end.
Definition item_value (i : item) : option string :=
  match i with Opt _ v => v | Flag _ b => if b then Some ""%string else None end.
Definition words (i : item) : list string := match i with Opt n v => opt n v | Flag n b => flag n b end.
Definition well_named (i : item) : bool :=
  match i with Opt n _ => negb (is_flag n) | Flag n _ => is_flag n end.
Fixpoint value_of (n : string) (l : list item) : option string :=
  match l with [] => None | i :: l => if String.eqb (item_name i) n then item_value i else value_of n l end.

Lemma read_words i rest :
  well_named i = true ->
  read_options (words i ++ rest) =
    match item_value i with Some v => <[item_name i := v]> (read_options rest) | None => read_options rest end.
Proof.
  destruct i as [n [v|]|n []]; cbn; intros Hn; try done.
  - apply negb_true_iff in Hn. by rewrite Hn.
  - by rewrite Hn.
Qed.

Lemma value_of_absent n l : n ∉ item_name <$> l -> value_of n l = None.
Proof.
  induction l as [|i l IH]; cbn; [done|]. rewrite not_elem_of_cons. intros [Hne Hn].
  rewrite (proj2 (String.eqb_neq _ _)) by done. auto.
Qed.

(** What the reader finds is what was printed. *)
Lemma read_items l n :
  NoDup (item_name <$> l) -> forallb well_named l = true ->
  read_options (concat (words <$> l)) !! n = value_of n l.
Proof.
  induction l as [|i l IH]; cbn [fmap list_fmap concat forallb value_of]; [intros; apply lookup_empty|].
  intros [Hni Hnd]%list.NoDup_cons [Hi Hl]%andb_true_iff. rewrite read_words by done.
  destruct (String.eqb_spec (item_name i) n) as [<-|Hne].
  - destruct (item_value i); [by rewrite lookup_insert_eq|]. rewrite IH by done. by apply value_of_absent.
  - destruct (item_value i); [rewrite lookup_insert_ne by done|]; by apply IH.
Qed.

(** ** Values and lists read back *)

Lemma parse_show_uint z : 0 <= z -> parse_uint (show_uint z) = Some z.
Proof.
  intros Hz. unfold parse_uint, show_uint. rewrite NilZero.usu.
  - cbn. by rewrite DecimalN.Unsigned.of_to, Z2N.id.
  - destruct (Z.to_N z); [done|apply DecimalPos.Unsigned.to_uint_nonnil].
Qed.

Lemma show_uint_no_comma z : no_comma (show_uint z) = true.
Proof.
  unfold show_uint. generalize (N.to_uint (Z.to_N z)). intros d.
  assert (H : forall d, no_comma (NilEmpty.string_of_uint d) = true) by (clear; induction d; done).
  destruct d; try apply H; done.
Qed.

Lemma split_no_comma x : no_comma x = true -> split x = [x].
Proof.
  induction x as [|c x IH]; cbn [split no_comma String.append]; [done|]. intros [Hc Hx]%andb_true_iff. apply negb_true_iff in Hc.
  by rewrite Hc, IH.
Qed.
Lemma split_comma x y : no_comma x = true -> split (x +:+ "," +:+ y) = x :: split y.
Proof.
  induction x as [|c x IH]; [done|]. cbn [no_comma]. intros [Hc Hx]%andb_true_iff.
  apply negb_true_iff in Hc. change (split (String c (x +:+ "," +:+ y)) = String c x :: split y).
  cbn [split]. by rewrite Hc, IH.
Qed.
Lemma split_join l :
  l <> [] -> Forall (fun x => no_comma x = true) l -> split (join l) = l.
Proof.
  intros Hl HF. induction HF as [|x l Hx HF IH]; [done|]. destruct l as [|y l].
  - by apply split_no_comma.
  - change (join (x :: y :: l)) with (x +:+ "," +:+ join (y :: l))%string. rewrite split_comma by done.
    by rewrite IH.
Qed.

(** ** The options of a request *)

(** The laws of the foreign types' printers and parsers. *)
Class DisplayLaws `{Display} := {
  parse_show_address a : parse_address (show_address a) = Some a;
  parse_show_b256 a : parse_b256 (show_b256 a) = Some a;
  parse_show_f64 a : parse_f64 (show_f64 a) = Some a;
  show_b256_no_comma a : no_comma (show_b256 a) = true;
}.

Section items.
Context `{Display}.

Definition joined (show : Z -> string) (l : list Z) : option string :=
  match l with [] => None | _ => Some (join (show <$> l)) end.

Definition proving_items (a : CliProving) : list item :=
  [Opt "--segment-limit" (Some (show_uint (cli_segment_limit a)));
   Opt "--max-witness-size" (Some (show_uint (cli_max_witness_size a)));
   Opt "--num-concurrent-preflights" (Some (show_uint (cli_num_concurrent_preflights a)));
   Opt "--num-concurrent-proofs" (Some (show_uint (num_concurrent_proofs a)));
   Flag "--bypass-chain-registry" (bypass_chain_registry a);
   Flag "--skip-derivation-proof" (cli_skip_derivation_proof a);
   Flag "--skip-await-proof" (cli_skip_await_proof a);
   Opt "--payout-recipient-address" (show_address <$> payout_recipient_address a);
   Opt "--eigenda-proxy-address" (eigenda_proxy_address a);
   Opt "--celestia-connection" (celestia_connection (hana a));
   Opt "--celestia-auth-token" (celestia_auth_token (hana a));
   Opt "--celestia-namespace" (celestia_namespace (hana a))].

Definition provider_name (p : StorageProviderType) : string :=
  match p with StorageS3 => "s3" | StoragePinata => "pinata" | StorageFile => "file" | StorageOther => "" end.
Definition storage_items (o : option StorageProviderConfig) : list item :=
  let from (f : StorageProviderConfig -> option string) : option string := (passed_storage <$> o) ≫= f in
  [Opt "--storage-provider" ((fun s => provider_name (storage_provider s)) <$> o);
   Opt "--s3-access-key" (from s3_access_key); Opt "--s3-secret-key" (from s3_secret_key);
   Opt "--s3-bucket" (from s3_bucket); Opt "--s3-url" (from s3_url); Opt "--aws-region" (from aws_region);
   Opt "--pinata-jwt" (from pinata_jwt); Opt "--pinata-api-url" (from pinata_api_url);
   Opt "--ipfs-gateway-url" (from ipfs_gateway_url); Opt "--file-path" (String.string_of_list_byte <$> ((passed_storage <$> o) ≫= file_path))].

Definition market_items (b : BoundlessArgs) : list item :=
  let mo : option MarketProviderConfig := market b in
  let some (f : MarketProviderConfig -> string) : option string := f <$> mo in
  let from {A} (show : A -> string) (f : MarketProviderConfig -> option A) : option string := show <$> (mo ≫= f) in
  [Opt "--boundless-rpc-url" (some boundless_rpc_url);
   Opt "--boundless-wallet-key" (some (fun m => show_b256 (boundless_wallet_key m)));
   Opt "--boundless-chain-id" (from show_uint boundless_chain_id);
   Opt "--boundless-market-address" (from show_address boundless_market_address);
   Opt "--boundless-verifier-router-address" (from show_address boundless_verifier_router_address);
   Opt "--boundless-set-verifier-address" (from show_address boundless_set_verifier_address);
   Opt "--boundless-stake-token-address" (from show_address boundless_stake_token_address);
   Opt "--boundless-order-stream-url" (mo ≫= boundless_order_stream_url);
   Flag "--boundless-look-back" (from_option boundless_look_back false mo);
   Opt "--boundless-assume-cycle-count" (from show_uint boundless_assume_cycle_count);
   Opt "--boundless-cycle-min-wei" (some (fun m => show_uint (boundless_cycle_min_wei m)));
   Opt "--boundless-cycle-max-wei" (some (fun m => show_uint (boundless_cycle_max_wei m)));
   Opt "--boundless-mega-cycle-stake" (some (fun m => show_uint (boundless_mega_cycle_stake m)));
   Opt "--boundless-order-bid-delay-factor" (some (fun m => show_f64 (boundless_order_bid_delay_factor m)));
   Opt "--boundless-order-ramp-up-factor" (some (fun m => show_f64 (boundless_order_ramp_up_factor m)));
   Opt "--boundless-order-lock-timeout-factor" (some (fun m => show_f64 (boundless_order_lock_timeout_factor m)));
   Opt "--boundless-order-expiry-factor" (some (fun m => show_f64 (boundless_order_expiry_factor m)));
   Opt "--boundless-order-check-interval" (some (fun m => show_uint (boundless_order_check_interval m)))]
  ++ storage_items (printed_storage b).

(** [-v] as often as asked, and once if not at all. *)
Definition verbosity_name (verbosity : nat) : string :=
  String "-" (String "v" (String.string_of_list_ascii (replicate (pred verbosity) "v"%char))).
Definition items (a : CliProve) (verbosity : nat) : list item :=
  let k := kona a in
  [Opt "--l1-head" (Some (show_b256 (l1_head k)));
   Opt "--agreed-l2-head-hash" (Some (show_b256 (agreed_l2_head_hash k)));
   Opt "--agreed-l2-output-root" (Some (show_b256 (agreed_l2_output_root k)));
   Opt "--claimed-l2-output-root" (Some (show_b256 (claimed_l2_output_root k)));
   Opt "--claimed-l2-block-number" (Some (show_uint (claimed_l2_block_number k)));
   Opt "--l2-chain-id" (show_uint <$> l2_chain_id k);
   Opt "--l1-node-address" (l1_node_address k); Opt "--l1-beacon-address" (l1_beacon_address k);
   Opt "--l2-node-address" (l2_node_address k); Opt "--data-dir" (String.string_of_list_byte <$> data_dir k);
   Opt "--op-node-address" (cli_op_node_address a)]
  ++ proving_items (cli_proving a) ++ market_items (boundless a)
  ++ [Opt "--precondition-params" (joined show_uint (cli_precondition_params a));
      Opt "--precondition-block-hashes" (joined show_b256 (cli_precondition_block_hashes a));
      Opt "--precondition-blob-hashes" (joined show_b256 (cli_precondition_blob_hashes a));
      Opt "--otlp-collector" (otlp_collector a); Flag "--native" true;
      Flag (verbosity_name verbosity) (bool_decide (verbosity <> 0%nat))].
End items.

(** ** The words printed are those of the options *)

Section printed.
Context `{Display}.

Lemma proving_words a : concat (words <$> proving_items a) = proving_to_arg_vec a.
Proof.
  unfold proving_items, proving_to_arg_vec, hokulea_to_arg_vec, hana_to_arg_vec.
  cbn [fmap list_fmap concat words opt app]. by rewrite app_nil_r.
Qed.

Lemma path_words name path l :
  path_arg name path = Ok l -> l = opt name (String.string_of_list_byte <$> path) /\ from_option utf8 true path = true.
Proof.
  destruct path as [path|]; cbn; [|by intros [= <-]]. unfold to_str. destruct (utf8 path); [|done]. by intros [= <-].
Qed.

Lemma storage_words s l :
  storage_to_arg_vec s = Ok l -> concat (words <$> storage_items (Some s)) = l.
Proof.
  destruct s as [p key secret bucket url region jwt api gateway file].
  unfold storage_to_arg_vec, unwrap. cbn [storage_provider]. intros Hs. destruct p; [..|discriminate Hs].
  - destruct key, secret, bucket, url, region; by inversion Hs.
  - destruct jwt; inversion Hs; subst. cbn. by rewrite app_nil_r.
  - apply bind_Ok in Hs as (path & Hp & Hs). apply Ok_inj in Hs as <-.
    apply path_words in Hp as [-> _]. destruct file; reflexivity.
Qed.

Lemma market_words m s d l :
  market_to_arg_vec m s = Ok l ->
  concat (words <$> market_items {| market := Some m; storage := s; r2_domain_arg := d |}) = l.
Proof.
  unfold market_to_arg_vec. intros Hl. unfold market_items. rewrite fmap_app, concat_app.
  unfold printed_storage. cbn [market storage]. destruct s as [s|].
  - destruct (storage_to_arg_vec s) as [words_|e|e] eqn:Hs; inversion Hl; subst.
    rewrite (storage_words _ _ Hs). cbn. by rewrite <- !app_assoc.
  - inversion Hl; subst. cbn. by rewrite <- !app_assoc.
Qed.

Lemma joined_words name show l : joined_arg name show l = opt name (joined show l).
Proof. by destruct l. Qed.

Lemma arg_words a verbosity l :
  create_proving_args a verbosity = Ok l -> l = "prove"%string :: concat (words <$> items a verbosity).
Proof.
  unfold create_proving_args, to_arg_vec. intros Hl.
  apply bind_Ok in Hl as (l' & (dir & [Hdir _]%path_words & (w & Hw & Hl')%bind_Ok)%bind_Ok & Hl).
  assert (concat (words <$> market_items (boundless a)) = w) as Hm.
  { destruct (boundless a) as [[m|] s d]; [by apply market_words|by apply Ok_inj in Hw]. }
  apply Ok_inj in Hl', Hl. subst l l' dir.
  unfold items. rewrite !fmap_app, !concat_app, proving_words, Hm, !joined_words.
  generalize (proving_to_arg_vec (cli_proving a)). intros v. unfold telemetry_to_arg_vec.
  assert (Hv : verbosity_flag verbosity ++ [] =
    words (Flag (verbosity_name verbosity) (bool_decide (verbosity <> 0%nat)))) by by destruct verbosity.
  cbn [fmap list_fmap concat words]. cbn [words] in Hv. rewrite app_nil_r in Hv. rewrite <- Hv.
  cbn [opt flag app]. rewrite <- !app_assoc, app_nil_r. done.
Qed.
End printed.

(** ** Reading them back *)

(** The integers of a request are unsigned. *)
Definition unsigned_market (m : MarketProviderConfig) : Prop :=
  Forall (Z.le 0) [boundless_cycle_min_wei m; boundless_cycle_max_wei m; boundless_mega_cycle_stake m;
                   boundless_order_check_interval m]
  /\ (forall z, boundless_chain_id m = Some z -> 0 <= z)
  /\ (forall z, boundless_assume_cycle_count m = Some z -> 0 <= z).
Definition unsigned (a : CliProve) : Prop :=
  let p := cli_proving a in
  Forall (Z.le 0) [claimed_l2_block_number (kona a); cli_segment_limit p; cli_max_witness_size p;
                   cli_num_concurrent_preflights p; num_concurrent_proofs p]
  /\ (forall z, l2_chain_id (kona a) = Some z -> 0 <= z)
  /\ Forall (Z.le 0) (cli_precondition_params a)
  /\ (forall m, market (boundless a) = Some m -> unsigned_market m).

Section read_back.
Context `{DisplayLaws}.

(** The names are the same for every request. *)
Definition nothing : CliProve :=
  {| kona := {| l1_head := 0; agreed_l2_head_hash := 0; agreed_l2_output_root := 0; claimed_l2_output_root := 0;
       claimed_l2_block_number := 0; l2_chain_id := None; l1_node_address := None; l1_beacon_address := None;
       l2_node_address := None; data_dir := None; native := false; witness_endpoint := false |};
     cli_op_node_address := None;
     cli_proving := {| payout_recipient_address := None; cli_segment_limit := 0; cli_max_block_derivations := 0;
       cli_max_block_executions := 0; cli_max_witness_size := 0; cli_num_concurrent_preflights := 0;
       num_concurrent_proofs := 0; num_concurrent_witgens := None; num_concurrent_r0vm := None;
       bypass_chain_registry := false; cli_skip_derivation_proof := false; cli_skip_await_proof := false;
       clear_cache_data := false; eigenda_proxy_address := None;
       hana := {| celestia_connection := None; celestia_auth_token := None; celestia_namespace := None |} |};
     boundless := {| market := None; storage := None; r2_domain_arg := None |}; cli_precondition_params := []; cli_precondition_block_hashes := [];
     cli_precondition_blob_hashes := []; otlp_collector := None |}.
Definition names : list string := Eval vm_compute in removelast (item_name <$> @items (Build_Display
  (fun _ => ""%string) (fun _ => None) (fun _ => ""%string) (fun _ => None) (fun _ => ""%string) (fun _ => None)) nothing 0).

Lemma names_of a v : item_name <$> items a v = names ++ [verbosity_name v].
Proof. reflexivity. Qed.

Lemma names_distinct v : NoDup (names ++ [verbosity_name v]).
Proof.
  apply list.NoDup_app. split; [|split].
  - apply (bool_decide_eq_true_1 (NoDup names)). vm_compute. reflexivity.
  - intros x Hx ->%list_elem_of_singleton. revert Hx. change (verbosity_name v ∉ names). unfold names.
    repeat (apply not_elem_of_cons; split; [discriminate|]). apply not_elem_of_nil.
  - apply NoDup_singleton.
Qed.

Lemma read_item a v n :
  read_options (concat (words <$> items a v)) !! n = value_of n (items a v).
Proof. apply read_items; [rewrite names_of; apply names_distinct|by destruct v as [|[|v]]]. Qed.

(** The values found are those of the request. *)
Ltac found Hm :=
  rewrite !Hm;
  lazy [value_of items proving_items market_items storage_items app item_name item_value String.eqb Ascii.eqb
        Bool.eqb verbosity_name negb eqb].

Lemma optional_show {A} (show : A -> string) parse (o : option A) :
  (forall x, o = Some x -> parse (show x) = Some x) -> optional parse (show <$> o) = Some o.
Proof. intros Hp. destruct o as [x|]; [|done]. cbn. by rewrite Hp. Qed.

Lemma read_list_joined show parse l :
  (forall x, no_comma (show x) = true) -> Forall (fun x => parse (show x) = Some x) l ->
  read_list parse (joined show l) = Some l.
Proof.
  intros Hc Hl. destruct l as [|x l]; [done|]. unfold joined, read_list. rewrite split_join; [|done|].
  - induction Hl as [|y k Hy Hk IH]; [done|]. cbn. rewrite Hy. cbn. by rewrite IH.
  - apply Forall_fmap, Forall_forall. intros; apply Hc.
Qed.

Lemma Some_bind {A B} (x : A) (f : A -> option B) : (Some x ≫= f) = f x.
Proof. done. Qed.
Lemma Some_fmap {A B} (f : A -> B) (x : A) : f <$> Some x = Some (f x).
Proof. done. Qed.
Lemma bind_uint {B} z (f : Z -> option B) : 0 <= z -> (parse_uint (show_uint z) ≫= f) = f z.
Proof. intros Hz. by rewrite parse_show_uint. Qed.
Lemma bind_parse {A B} (show : A -> string) parse x (f : A -> option B) :
  parse (show x) = Some x -> (parse (show x) ≫= f) = f x.
Proof. by intros ->. Qed.
Lemma bind_optional {A B} (show : A -> string) parse o (f : option A -> option B) :
  (forall x, o = Some x -> parse (show x) = Some x) -> (optional parse (show <$> o) ≫= f) = f o.
Proof. intros Hp. by rewrite optional_show. Qed.
Lemma bind_list {B} show parse l (f : list Z -> option B) :
  (forall x, no_comma (show x) = true) -> Forall (fun x => parse (show x) = Some x) l ->
  (read_list parse (joined show l) ≫= f) = f l.
Proof. intros ??. by rewrite read_list_joined. Qed.
Lemma present_flag (b : bool) : present (if b then Some ""%string else None) = b.
Proof. by destruct b. Qed.

Lemma read_proving_back a v m :
  (forall n, m !! n = value_of n (items a v)) -> unsigned a ->
  read_proving m = Some (passed_proving (cli_proving a)).
Proof.
  intros Hm (Hn & _). unfold read_proving. found Hm.
  rewrite !Forall_cons_iff in Hn. destruct_and! Hn.
  rewrite bind_optional by (intros; apply parse_show_address). cbn beta.
  rewrite !Some_bind. repeat (rewrite bind_uint by done; cbn beta). rewrite !present_flag.
  unfold passed_proving. by destruct (cli_proving a) as [?????????????? []].
Qed.

Lemma path_back (o : option PathBuf) : path_from <$> (String.string_of_list_byte <$> o) = o.
Proof. destruct o as [path|]; [|done]. cbn. unfold path_from. by rewrite String.list_byte_of_string_of_list_byte. Qed.

Lemma parse_provider_name p : p <> StorageOther -> parse_provider (provider_name p) = Some p.
Proof. by destruct p. Qed.

Lemma read_storage_back a v m :
  (forall n, m !! n = value_of n (items a v)) ->
  (forall s, printed_storage (boundless a) = Some s -> storage_provider s <> StorageOther) ->
  read_storage m = Some (storage (passed_boundless (boundless a))).
Proof.
  intros Hm Hs. unfold read_storage. found Hm. cbn [storage passed_boundless].
  destruct (printed_storage (boundless a)) as [s|]; [|done]. rewrite path_back.
  cbn. rewrite parse_provider_name by auto. cbn. by destruct s as [[] ?????????].
Qed.

Lemma read_market_back a v m :
  (forall n, m !! n = value_of n (items a v)) -> unsigned a ->
  read_market m = Some (market (passed_boundless (boundless a))).
Proof.
  intros Hm (_ & _ & _ & Hu). unfold read_market. found Hm. cbn [market passed_boundless].
  destruct (market (boundless a)) as [c|]; [|done]. destruct (Hu c eq_refl) as (Hn & Hc & Ha). clear Hm Hu.
  rewrite !Some_fmap, !Some_bind. cbn iota beta.
  rewrite (bind_parse show_b256 parse_b256) by apply parse_show_b256. cbn beta.
  rewrite (bind_optional show_uint) by (intros; apply parse_show_uint; auto). cbn beta.
  do 4 (rewrite bind_optional by (intros; apply parse_show_address); cbn beta).
  rewrite (bind_optional show_uint) by (intros; apply parse_show_uint; auto). cbn beta.
  rewrite !Forall_cons_iff in Hn. destruct_and! Hn.
  do 3 (rewrite bind_uint by done; cbn beta).
  do 4 (rewrite (bind_parse show_f64) by apply parse_show_f64; cbn beta).
  rewrite bind_uint by done; cbn beta.
  done.
Qed.

(** A storage provider is of a known kind and has the fields of this kind, and
    the path of a file provider is UTF-8. *)
Definition storage_complete (s : StorageProviderConfig) : bool :=
  match storage_provider s with
  | StorageS3 => present (s3_access_key s) && present (s3_secret_key s) && present (s3_bucket s)
                 && present (s3_url s) && present (aws_region s)
  | StoragePinata => present (pinata_jwt s)
  | StorageFile => from_option utf8 true (file_path s)
  | StorageOther => false
  end.
(** The directory is UTF-8, and with a market the storage provider is complete. *)
Definition complete (a : CliProve) : bool :=
  from_option utf8 true (data_dir (kona a)) &&
  match market (boundless a) with
  | Some _ => from_option storage_complete true (storage (boundless a))
  | None => true
  end.

Lemma path_printed name path :
  if from_option utf8 true path then exists l, path_arg name path = Ok l else exists w, path_arg name path = Panic w.
Proof. destruct path as [path|]; cbn; [|by eexists]. unfold to_str. destruct (utf8 path); cbn; by eexists. Qed.

Lemma storage_printed s :
  if storage_complete s then exists l, storage_to_arg_vec s = Ok l else exists w, storage_to_arg_vec s = Panic w.
Proof.
  destruct s as [p key secret bucket url region jwt api gateway file].
  unfold storage_complete, storage_to_arg_vec. cbn [storage_provider file_path].
  destruct p; [destruct key, secret, bucket, url, region| destruct jwt| |]; cbn; try by eexists.
  pose proof (path_printed "--file-path" file) as Hp. destruct (from_option utf8 true file), Hp as [l ->]; by eexists.
Qed.

Lemma printed a verbosity :
  if complete a then exists l, create_proving_args a verbosity = Ok l
  else exists w, create_proving_args a verbosity = Panic w.
Proof.
  unfold complete, create_proving_args, to_arg_vec, market_to_arg_vec.
  pose proof (path_printed "--data-dir" (data_dir (kona a))) as Hp.
  destruct (from_option utf8 true (data_dir (kona a))), Hp as [l ->]; cbn [andb]; [|by eexists].
  destruct (boundless a) as [[m|] [s|] d]; cbn [market storage from_option]; [|by eexists..].
  pose proof (storage_printed s) as Hs. destruct (storage_complete s), Hs as [l' ->]; by eexists.
Qed.

(** C19. A proving request is turned into the command line of the prover's binary, or this panics. It
    does not panic exactly if the data directory, if there is one, is a UTF-8 path, and, when
    there is a market and a storage provider (without a market the provider is ignored), the
    provider is of a known kind, has the fields its kind needs, and the path of a file provider is
    UTF-8. Assume that the integers are unsigned, as their types have it, and that the printers and
    parsers of the foreign types agree ([DisplayLaws]). Then a reader of the usual option syntax finds
    in the words the request that was meant: every field that is passed on has its value (the root
    claims, the limits, the precondition lists, the market and its storage provider), whatever the
    other fields and the verbosity are; [passed_on] says which fields are not passed on. *)
Theorem arguments_roundtrip a verbosity :
  unsigned a ->
  (if complete a then exists l, create_proving_args a verbosity = Ok l
   else exists w, create_proving_args a verbosity = Panic w)
  /\ forall l, create_proving_args a verbosity = Ok l -> read_prove l = Some (passed_on a).
Proof.
  intros Hu. split; [apply printed|]. intros l Hl.
  assert (Hc : forall s, printed_storage (boundless a) = Some s -> storage_provider s <> StorageOther).
  { intros s Hs Hp. pose proof (printed a verbosity) as Hpr. destruct (complete a) eqn:Hc; [|destruct Hpr; congruence].
    unfold complete, printed_storage in *. apply andb_true_iff in Hc as [_ Hc]. destruct (market (boundless a)); [|done].
    rewrite Hs in Hc. cbn in Hc. unfold storage_complete in Hc. by rewrite Hp in Hc. }
  apply arg_words in Hl as ->. pose proof (read_item a verbosity) as Hm.
  cbn [read_prove]. revert Hm. generalize (read_options (concat (words <$> items a verbosity))). intros m Hm.
  rewrite (read_proving_back a verbosity), (read_market_back a verbosity), (read_storage_back a verbosity) by done.
  destruct Hu as (Hn & Hch & Hp & _). rewrite !Forall_cons_iff in Hn. destruct_and! Hn. found Hm.
  rewrite !Some_bind.
  do 4 (rewrite (bind_parse show_b256) by apply parse_show_b256; cbn beta).
  rewrite bind_uint by done. cbn beta.
  rewrite (bind_optional show_uint) by (intros; apply parse_show_uint; auto). cbn beta. rewrite !Some_bind.
  rewrite bind_list; [cbn beta|apply show_uint_no_comma|].
  2: { revert Hp. apply Forall_impl, parse_show_uint. }
  do 2 (rewrite bind_list; [cbn beta|apply show_b256_no_comma|apply Forall_forall; intros; apply parse_show_b256]).
  by rewrite path_back.
Qed.
End read_back.

(** ** A request *)

Module ArgsDemo.
(** Foreign values as the decimal numbers of their codes. *)
Definition f64_code (x : f64) : bool + bool + unit + (bool * positive * Z) :=
  match x with
  | S754_zero s => inl (inl (inl s)) | S754_infinity s => inl (inl (inr s)) | S754_nan => inl (inr ())
  | S754_finite s m e => inr (s, m, e)
  end.
Definition f64_decode (c : bool + bool + unit + (bool * positive * Z)) : f64 :=
  match c with
  | inl (inl (inl s)) => S754_zero s | inl (inl (inr s)) => S754_infinity s | inl (inr ()) => S754_nan
  | inr (s, m, e) => S754_finite s m e
  end.
#[export] Instance f64_eq_dec : EqDecision f64.
Proof. solve_decision. Defined.
#[export] Instance f64_countable : Countable f64.
Proof. refine (inj_countable' f64_code f64_decode _). by intros []. Defined.

Definition show_code {A} `{Countable A} (x : A) : string := show_uint (Zpos (encode x)).
Definition parse_code {A} `{Countable A} (s : string) : option A := parse_uint s ≫= fun z => decode (Z.to_pos z).
Lemma parse_show_code {A} `{Countable A} (x : A) : parse_code (show_code x) = Some x.
Proof. unfold parse_code, show_code. rewrite parse_show_uint by done. apply decode_encode. Qed.

#[export] Instance codes : Display :=
  {| show_address := show_code; parse_address := parse_code; show_b256 := show_code; parse_b256 := parse_code;
     show_f64 := show_code; parse_f64 := parse_code |}.
#[export] Instance codes_laws : DisplayLaws.
Proof. split; intros; try apply parse_show_code. apply show_uint_no_comma. Qed.

Definition storage : StorageProviderConfig :=
  {| storage_provider := StorageS3; s3_access_key := Some "key"%string; s3_secret_key := Some "secret"%string;
     s3_bucket := Some "bucket"%string; s3_url := Some "https://s3"%string; aws_region := Some "eu"%string;
     pinata_jwt := Some "unused"%string; pinata_api_url := None; ipfs_gateway_url := None; file_path := None |}.
Definition market : MarketProviderConfig :=
  {| boundless_rpc_url := "http://rpc"; boundless_wallet_key := 77; boundless_chain_id := Some 8453;
     boundless_market_address := Some 5; boundless_verifier_router_address := None;
     boundless_set_verifier_address := None; boundless_stake_token_address := None;
     boundless_order_stream_url := Some "wss://orders"%string; boundless_look_back := false;
     boundless_assume_cycle_count := Some 1000000; boundless_cycle_min_wei := 100000;
     boundless_cycle_max_wei := 200000; boundless_mega_cycle_stake := 1500;
     boundless_order_bid_delay_factor := f64_lit 1 10; boundless_order_ramp_up_factor := f64_lit 1 4;
     boundless_order_lock_timeout_factor := f64_lit 3 1; boundless_order_expiry_factor := f64_lit 10 1;
     boundless_order_check_interval := 12; boundless_enable_upload_caching := false;
     boundless_order_submission_cooldown := 60 |}.
Definition request : CliProve :=
  {| kona := {| l1_head := 1; agreed_l2_head_hash := 2; agreed_l2_output_root := 3; claimed_l2_output_root := 4;
       claimed_l2_block_number := 100; l2_chain_id := Some 10; l1_node_address := Some "http://l1"%string;
       l1_beacon_address := None; l2_node_address := Some "http://l2"%string; data_dir := Some (path_from "/tmp/0");
       native := false; witness_endpoint := false |};
     cli_op_node_address := Some "http://op"%string;
     cli_proving := {| payout_recipient_address := Some 9; cli_segment_limit := 21; cli_max_block_derivations := 7;
       cli_max_block_executions := 8; cli_max_witness_size := 2684354560; cli_num_concurrent_preflights := 4;
       num_concurrent_proofs := 1; num_concurrent_witgens := Some 3; num_concurrent_r0vm := None;
       bypass_chain_registry := true; cli_skip_derivation_proof := false; cli_skip_await_proof := true;
       clear_cache_data := true; eigenda_proxy_address := None;
       hana := {| celestia_connection := Some "http://da"%string; celestia_auth_token := None;
                  celestia_namespace := None |} |};
     boundless := {| Args.market := Some market; Args.storage := Some storage; r2_domain_arg := Some "r2"%string |}; cli_precondition_params := [100; 1; 4];
     cli_precondition_block_hashes := [11; 12]; cli_precondition_blob_hashes := []; otlp_collector := None |}.
End ArgsDemo.

#[local] Existing Instances ArgsDemo.codes ArgsDemo.codes_laws.
Example arguments_roundtrip_witness :
  exists l, create_proving_args ArgsDemo.request 2 = Ok l /\ list.last l = Some "-vv"%string
    /\ read_prove l = Some (passed_on ArgsDemo.request) /\ passed_on ArgsDemo.request <> ArgsDemo.request.
Proof.
  assert (Hu : unsigned ArgsDemo.request).
  { split; [repeat constructor; discriminate|]. split; [intros z [= <-]; discriminate|].
    split; [repeat constructor; discriminate|]. intros m [= <-].
    split; [repeat constructor; discriminate|]. split; intros z [= <-]; discriminate. }
  destruct (arguments_roundtrip ArgsDemo.request 2 Hu) as [_ Hr].
  eexists. split; [vm_compute; reflexivity|]. split; [reflexivity|]. split.
  - apply Hr. vm_compute. reflexivity.
  - discriminate.
Defined.
