(* ===== verification/Bench.v ===== *)
(** * bin/cli/src/bench.rs

    The benchmark: windows of blocks are ranked by their transactions, as the L2
    node counts them, and the busiest ones are proven. *)

From Stdlib Require Import Ascii Sorted.
From S2P Require Import Prelude Args.
Open Scope Z_scope.

Record BenchArgs := {
  bench_start : Z; bench_length : Z; bench_range : Z; bench_count : Z;
  bench_eth_rpc_url : string; bench_beacon_rpc_url : string; bench_op_geth_url : string;
  bench_op_node_url : string; bench_data_dir : option string;
}.
Record CandidateBlock := { txn_count : Z; block_number : Z }.
(** [just] with its arguments, and the file its output goes to. *)
Record Command := { c_args : list string; c_output : string }.

(** The node, the version of risc0, the files that are opened and the commands
    that are run. *)
Class BenchHost (S : Type) := {
  block_transaction_count : Z -> St S (option Z);
  risc0_version : outcome string;
  open_output : string -> St S unit;
  run_command : Command -> St S unit;
}.

Section bench.
Context {S : Type} `{BenchHost S}.
(** A heap pops a maximal element; which one of several is left open. *)
Variable tie : list CandidateBlock -> nat.

(** ** Scanning, with the cache of counts *)
Abbreviation Scan := (S * gmap Z Z)%type.

Definition cached_count (block_number : Z) : St Scan Z := fun '(s, cache) =>
  match cache !! block_number with
  | Some count => (Ok count, (s, cache))
  | None =>
      match block_transaction_count block_number s with
      | (Ok (Some x), s) => (Ok x, (s, <[block_number := x]> cache))
      | (Ok None, s) => (Panic "Failed to fetch transaction count", (s, cache))
      | (Err e, s) => (Err e, (s, cache))
      | (Panic w, s) => (Panic w, (s, cache))
      end
  end.
(** The windows's blocks from offset [i] on. *)
Fixpoint window_count (block_number i txn_count : Z) (blocks : nat) : St Scan Z :=
  match blocks with
  | O => mret txn_count
  | Datatypes.S blocks =>
      n ← lift (u64_add host block_number i);
      x ← cached_count n;
      txn_count ← lift (u64_add host txn_count x);
      window_count block_number (i + 1) txn_count blocks
  end.
Fixpoint scan (args : BenchArgs) (block_number_ : Z) (candidates : nat) : St Scan (list CandidateBlock) :=
  match candidates with
  | O => mret []
  | Datatypes.S candidates =>
      count ← window_count block_number_ 0 0 (Z.to_nat (bench_length args));
      rest ← scan args (block_number_ + 1) candidates;
      mret ({| txn_count := count; block_number := block_number_ |} :: rest)
  end.

(** [BinaryHeap::pop]. *)
Fixpoint top (heap : list CandidateBlock) : Z :=
  match heap with [] => 0 | c :: heap => Z.max (txn_count c) (top heap) end.
Definition pop (heap : list CandidateBlock) : option (CandidateBlock * list CandidateBlock) :=
  let maxima := filter (fun c => txn_count c = top heap) heap in
  match maxima !! (tie heap `mod` length maxima)%nat with
  | Some c => Some (c, filter (fun d => block_number d <> block_number c) heap)
  | None => None
  end.

(** ** Proving *)
Definition verbosity_level (verbosity : nat) : string :=
  match verbosity with
  | O => EmptyString
  | _ => String "-"%char (String.string_of_list_ascii (replicate verbosity "v"%char))
  end.
Definition output_file_name (version : string) (c : CandidateBlock) (end_ : Z) : string :=
  ("bench-risc0-" +:+ version +:+ "-" +:+ show_uint (block_number c) +:+ "-" +:+ show_uint end_ +:+ "-" +:+
   show_uint (txn_count c) +:+ ".out")%string.
Definition prove_command (args : BenchArgs) (verbosity : nat) (data_dir version : string) (end_ : Z) (c : CandidateBlock)
    : Command :=
  {| c_args := ["prove"; show_uint (block_number c); show_uint (bench_length args); bench_eth_rpc_url args;
                bench_beacon_rpc_url args; bench_op_geth_url args; bench_op_node_url args; data_dir; "debug";
                verbosity_level verbosity]%string;
     c_output := output_file_name version c end_ |}.

(** The node, and the commands that were started. *)
Abbreviation Runs := (S * list Command)%type.
Definition start_command (c : Command) : St Runs unit := fun '(s, started) =>
  let '(r, s) := run_command c s in (r, (s, started ++ [c])).
Definition bench_one (args : BenchArgs) (verbosity : nat) (c : CandidateBlock) : St Runs unit :=
  end_ ← lift (u64_add host (block_number c) (bench_length args));
  version ← lift risc0_version;
  _ ← on_fst (open_output (output_file_name version c end_));
  data_dir ← lift (unwrap "data_dir" (bench_data_dir args));
  start_command (prove_command args verbosity data_dir version end_ c).
Fixpoint bench_top (args : BenchArgs) (verbosity : nat) (heap : list CandidateBlock) (count : nat) : St Runs unit :=
  match count with
  | O => mret tt
  | Datatypes.S count =>
      match pop heap with
      | None => mret tt
      | Some (c, heap) => _ ← bench_one args verbosity c; bench_top args verbosity heap count
      end
  end.

Definition benchmark (args : BenchArgs) (verbosity : nat) : St Runs unit := fun '(s, started) =>
  match u64_add host (bench_start args) (bench_range args) with
  | Ok bench_end =>
      match scan args (bench_start args) (Z.to_nat (bench_end - bench_start args)) (s, ∅) with
      | (Ok heap, (s, _)) => bench_top args verbosity heap (Z.to_nat (bench_count args)) (s, started)
      | (Err e, (s, _)) => (Err e, (s, started))
      | (Panic w, (s, _)) => (Panic w, (s, started))
      end
  | Err e => (Err e, (s, started))
  | Panic w => (Panic w, (s, started))
  end.
End bench.

(** ** Which windows are proven *)

Section bench_spec.
Context {S : Type} `{BenchHost S}.
Variable tie : list CandidateBlock -> nat.

(** A number of transactions that the node gave for a block. *)
Definition counted (n v : Z) : Prop := exists s s' : S, block_transaction_count n s = (Ok (Some v), s').
(** The transactions of [blocks] blocks from [b] on. *)
Fixpoint total (count : Z -> Z) (b : Z) (blocks : nat) : Z :=
  match blocks with O => 0 | Datatypes.S blocks => count b + total count (b + 1) blocks end.
Definition candidates (count : Z -> Z) (start : Z) (n blocks : nat) : list CandidateBlock :=
  (fun i => {| txn_count := total count (start + Z.of_nat i) blocks; block_number := start + Z.of_nat i |}) <$> seq 0 n.

Definition cache_ok (cache : gmap Z Z) : Prop := forall n v, cache !! n = Some v -> counted n v.
Definition count_in (cache : gmap Z Z) (n : Z) : Z := default 0 (cache !! n).

Lemma cached_count_Ok n s cache x s' cache' :
  cached_count n (s, cache) = (Ok x, (s', cache')) -> cache_ok cache ->
  cache_ok cache' /\ cache ⊆ cache' /\ cache' !! n = Some x.
Proof.
  unfold cached_count. destruct (cache !! n) as [count|] eqn:En.
  - intros [= <- <- <-]. done.
  - destruct (block_transaction_count n s) as [[[y|]|e|w] t] eqn:Eb; try done.
    intros [= <- <- <-] Hc. split_and!; [|by apply insert_subseteq|by rewrite lookup_insert_eq].
    intros m v [[<- <-]|[_ Hm]]%lookup_insert_Some; [by exists s, t|by apply Hc].
Qed.

Lemma total_ext count count' b blocks :
  (forall n, b <= n < b + Z.of_nat blocks -> count n = count' n) -> total count b blocks = total count' b blocks.
Proof.
  revert b. induction blocks as [|k IH]; intros b Hc; cbn [total]; [done|].
  rewrite Hc by lia. f_equal. apply IH. intros n Hn. apply Hc. lia.
Qed.

(** What a scan leaves: a larger cache, with the blocks of the windows. *)
Record scanned (cache cache' : gmap Z Z) (b e : Z) : Prop := {
  sc_ok : cache_ok cache';
  sc_more : cache ⊆ cache';
  sc_all : forall n, b <= n < e -> is_Some (cache' !! n);
}.
Lemma scanned_same cache b e : cache_ok cache -> e <= b -> scanned cache cache b e.
Proof. intros Hc He. split; [done|done|lia]. Qed.
Lemma scanned_trans c1 c2 c3 b m n e : scanned c1 c2 b m -> scanned c2 c3 n e -> n <= m -> scanned c1 c3 b e.
Proof.
  intros [_ H12 Ha] [Hc H23 Hb] Hn. split; [done|by etrans|]. intros i Hi. destruct (decide (i < m)).
  - destruct (Ha i ltac:(lia)) as [v Hv]. exists v. by eapply lookup_weaken.
  - apply Hb. lia.
Qed.
Lemma count_in_more (c c' : gmap Z Z) n : c ⊆ c' -> is_Some (c !! n) -> count_in c n = count_in c' n.
Proof. intros Hs [v Hv]. unfold count_in. rewrite Hv. by rewrite (lookup_weaken _ _ _ _ Hv Hs). Qed.

Lemma window_count_Ok b i t blocks s cache r s' cache' :
  window_count b i t blocks (s, cache) = (Ok r, (s', cache')) -> cache_ok cache -> 0 <= t ->
  scanned cache cache' (b + i) (b + i + Z.of_nat blocks) /\ 0 <= r /\
  r = t + total (count_in cache') (b + i) blocks.
Proof.
  revert i t s cache. induction blocks as [|blocks IH]; intros i t s cache E Hc Ht; cbn [window_count total] in *.
  { injection E as <- <- <-. split_and!; [apply scanned_same; [done|lia]|done|lia]. }
  apply St_bind_Ok in E as (n & ? & [En ->]%lift_Ok & E). apply (arith_checked host) in En as [-> _]; [|done].
  apply St_bind_Ok in E as (x & [s1 c1] & Ex & E). apply cached_count_Ok in Ex as (Hc1 & Hs1 & Hx); [|done].
  apply St_bind_Ok in E as (t' & ? & [Et ->]%lift_Ok & E). apply (arith_checked host) in Et as [-> [Ht' _]]; [|done].
  apply IH in E as (Hs & Hr & ->); [|done..].
  assert (Hn : count_in cache' (b + i) = x) by (unfold count_in; by rewrite (lookup_weaken _ _ _ _ Hx (sc_more _ _ _ _ Hs))).
  split_and!; [|done|rewrite Hn; replace (b + i + 1) with (b + (i + 1)) by lia; lia].
  replace (b + i + Z.of_nat (Datatypes.S blocks)) with (b + (i + 1) + Z.of_nat blocks) by lia.
  apply scanned_trans with (c2 := c1) (m := b + i + 1) (n := b + (i + 1)); [|done|lia].
  split; [done..|]. intros m Hm. replace m with (b + i) by lia. by eexists.
Qed.

(** How far [n] windows reach. *)
Definition reach (n blocks : nat) : Z :=
  match n, blocks with O, _ | _, O => 0 | _, _ => Z.of_nat n + Z.of_nat blocks - 1 end.

Lemma candidates_more c c' b n blocks :
  c ⊆ c' -> (forall i, b <= i < b + reach n blocks -> is_Some (c !! i)) ->
  candidates (count_in c) b n blocks = candidates (count_in c') b n blocks.
Proof.
  intros Hs Hc. apply list_fmap_ext. intros i j [-> Hi]%lookup_seq. f_equal. apply total_ext.
  intros m Hm. apply count_in_more; [done|]. apply Hc. destruct n, blocks; cbn [reach]; lia.
Qed.
Lemma candidates_cons count b n blocks :
  candidates count b (Datatypes.S n) blocks =
  {| txn_count := total count b blocks; block_number := b |} :: candidates count (b + 1) n blocks.
Proof.
  unfold candidates. cbn [seq fmap list_fmap]. f_equal; [by rewrite Z.add_0_r|].
  rewrite <-fmap_S_seq, <-list_fmap_compose. apply list_fmap_ext. intros i j _. cbn [compose].
  by replace (b + Z.of_nat (Datatypes.S j)) with (b + 1 + Z.of_nat j) by lia.
Qed.

Lemma scan_Ok args b n s cache heap s' cache' :
  let blocks := Z.to_nat (bench_length args) in
  scan args b n (s, cache) = (Ok heap, (s', cache')) -> cache_ok cache ->
  scanned cache cache' b (b + reach n blocks) /\ heap = candidates (count_in cache') b n blocks /\
  Forall (fun c => 0 <= txn_count c) heap.
Proof.
  intros blocks. revert b s cache heap. induction n as [|n IH]; intros b s cache heap E Hc; cbn [scan] in E.
  { injection E as <- <- <-. split_and!; [apply scanned_same; [done|cbn; lia]|done|done]. }
  apply St_bind_Ok in E as (count & [s1 c1] & Ew & E). apply window_count_Ok in Ew as (Hw & Hpos & ->); [|done..].
  rewrite Z.add_0_r, Z.add_0_l in *. fold blocks in Hw, Hpos, E.
  apply St_bind_Ok in E as (rest & [s2 c2] & Er & E). injection E as <- <- <-.
  apply IH in Er as (Hs & -> & Hf); [|by destruct Hw].
  rewrite candidates_cons. split_and!; [| |by constructor].
  - destruct Hw as [_ H01 Hw], Hs as [Hc2 H12 Hs]. split; [done|by etrans|]. intros i Hi.
    destruct (decide (i < b + Z.of_nat blocks)).
    + destruct (Hw i ltac:(lia)) as [v Hv]. exists v. by eapply lookup_weaken.
    + apply Hs. destruct n, blocks; cbn [reach] in *; lia.
  - do 2 f_equal. apply total_ext. intros m Hm. apply count_in_more; [apply Hs|]. apply Hw. lia.
Qed.

Lemma top_spec heap :
  Forall (fun c => 0 <= txn_count c) heap ->
  (forall c, c ∈ heap -> txn_count c <= top heap) /\ (heap <> [] -> exists c, c ∈ heap /\ txn_count c = top heap).
Proof.
  induction 1 as [|c heap Hc _ [IH1 IH2]]; cbn [top].
  { split; [by intros c ?%not_elem_of_nil|done]. }
  split.
  - intros d [->|Hd]%elem_of_cons; [lia|]. specialize (IH1 d Hd). lia.
  - intros _. destruct (Z.max_spec (txn_count c) (top heap)) as [[Hlt ->]|[Hge ->]]; [|by exists c; split; [left|]].
    destruct heap as [|d heap]; [cbn in *; lia|]. destruct IH2 as (e & He & Heq); [done|]. exists e. split; [by right|done].
Qed.

Lemma filter_id {A} (P : A -> Prop) `{!forall x, Decision (P x)} l : Forall P l -> filter P l = l.
Proof. induction 1 as [|x l Hx _ IH]; [done|]. by rewrite filter_cons_True, IH. Qed.

Lemma without_one heap c :
  NoDup (block_number <$> heap) -> c ∈ heap -> c :: filter (fun d => block_number d <> block_number c) heap ≡ₚ heap.
Proof.
  induction heap as [|d heap IH]; [by intros _ ?%not_elem_of_nil|]. intros [Hd Hn]%list.NoDup_cons [->|Hc]%elem_of_cons.
  - rewrite filter_cons_False by tauto. f_equiv. rewrite filter_id; [done|].
    apply list.Forall_forall. intros e He Heq. apply Hd. rewrite <-Heq. by apply list_elem_of_fmap_2.
  - rewrite filter_cons_True; [|intros Heq; apply Hd; rewrite Heq; by apply list_elem_of_fmap_2].
    rewrite Permutation_swap. f_equiv. by apply IH.
Qed.

(** A popped element is a maximal one. *)
Lemma pop_Some heap c rest :
  Forall (fun c => 0 <= txn_count c) heap -> NoDup (block_number <$> heap) -> pop tie heap = Some (c, rest) ->
  c :: rest ≡ₚ heap /\ Forall (fun d => txn_count d <= txn_count c) rest.
Proof.
  intros Hf Hn. unfold pop. destruct (_ !! _) as [d|] eqn:Ed; [|done]. intros [= -> <-].
  apply list_elem_of_lookup_2, list_elem_of_filter in Ed as [Ht Hc]. split; [by apply without_one|].
  apply list.Forall_forall. intros d [_ Hd]%list_elem_of_filter. rewrite Ht. by apply top_spec.
Qed.
Lemma pop_None heap : Forall (fun c => 0 <= txn_count c) heap -> pop tie heap = None -> heap = [].
Proof.
  intros Hf. unfold pop. destruct (_ !! _) as [d|] eqn:Ed; [done|]. intros _.
  destruct heap as [|c heap]; [done|]. destruct (proj2 (top_spec _ Hf)) as (d & Hd & Ht); [done|]. exfalso.
  apply lookup_ge_None in Ed. assert (Hl : d ∈ filter (fun e => txn_count e = top (c :: heap)) (c :: heap)) by by apply list_elem_of_filter.
  destruct (filter _ _) as [|x l]; [by apply not_elem_of_nil in Hl|].
  pose proof (Nat.mod_upper_bound (tie (c :: heap)) (length (x :: l)) ltac:(done)). lia.
Qed.

(** The command that proves a window. *)
Definition proves (args : BenchArgs) (verbosity : nat) (c : CandidateBlock) (cmd : Command) : Prop :=
  exists data_dir version, bench_data_dir args = Some data_dir /\ risc0_version = Ok version /\
    cmd = prove_command args verbosity data_dir version (block_number c + bench_length args) c.

Lemma bench_one_starts args verbosity c s started r s' started' :
  bench_one args verbosity c (s, started) = (r, (s', started')) ->
  (started' = started /\ r <> Ok tt) \/ exists cmd, proves args verbosity c cmd /\ started' = started ++ [cmd].
Proof.
  unfold bench_one, mbind, St_bind, lift, on_fst, start_command.
  destruct (u64_add _ _ _) as [e|?|?] eqn:Ee; [|intros [= <- <- <-]; by left..].
  apply (arith_checked host) in Ee as [-> _]; [|done].
  destruct risc0_version as [version|?|?] eqn:Ev; [|intros [= <- <- <-]; by left..].
  destruct (open_output _ s) as [[[]|?|?] s1]; [|intros [= <- <- <-]; by left..].
  destruct (bench_data_dir args) as [data_dir|] eqn:Ed; cbn [unwrap]; [|intros [= <- <- <-]; by left].
  destruct (run_command _ s1) as [r' s2]. intros [= <- <- <-]. right. eexists. split; [|done].
  by exists data_dir, version.
Qed.

(** The windows of the commands that were started are the busiest ones, in order. *)
Record ranked (heap picks rest : list CandidateBlock) : Prop := {
  rk_all : picks ++ rest ≡ₚ heap;
  rk_sorted : StronglySorted (fun c d => txn_count d <= txn_count c) picks;
  rk_rest : forall c d, c ∈ picks -> d ∈ rest -> txn_count d <= txn_count c;
}.
Lemma ranked_none heap : ranked heap [] heap.
Proof. split; [done|constructor|by intros c d ?%not_elem_of_nil]. Qed.
Lemma ranked_pop heap c heap' picks rest :
  c :: heap' ≡ₚ heap -> Forall (fun d => txn_count d <= txn_count c) heap' -> ranked heap' picks rest ->
  ranked heap (c :: picks) rest.
Proof.
  intros Hp Hf [Ha Hs Hr]. rewrite <-Ha, Forall_app in Hf. destruct Hf as [Hf1 Hf2]. split.
  - cbn. by rewrite Ha.
  - by constructor.
  - intros x d [->|Hx]%elem_of_cons Hd; [|by apply Hr]. by apply (proj1 (list.Forall_forall _ _) Hf2).
Qed.

Lemma bench_top_ranked args verbosity heap count s started r s' started' :
  Forall (fun c => 0 <= txn_count c) heap -> NoDup (block_number <$> heap) ->
  bench_top tie args verbosity heap count (s, started) = (r, (s', started')) ->
  exists picks rest cmds, started' = started ++ cmds /\ ranked heap picks rest /\
    Forall2 (proves args verbosity) picks cmds /\ (r = Ok tt -> length picks = Nat.min count (length heap)).
Proof.
  revert heap s started. induction count as [|count IH]; intros heap s started Hf Hn E; cbn [bench_top] in E.
  { injection E as <- <- <-. exists [], heap, []. rewrite app_nil_r. split_and!; [done|apply ranked_none|constructor|done]. }
  destruct (pop tie heap) as [[c heap']|] eqn:Ep.
  2:{ injection E as <- <- <-. apply pop_None in Ep as ->; [|done].
    exists [], [], []. rewrite app_nil_r. split_and!; [done|apply ranked_none|constructor|done]. }
  apply pop_Some in Ep as [Hp Hle]; [|done..].
  assert (Hf' : Forall (fun c => 0 <= txn_count c) (c :: heap')) by by rewrite Hp.
  assert (Hn' : NoDup (block_number <$> c :: heap')) by by rewrite Hp.
  apply Forall_cons_iff in Hf' as [_ Hf']. apply list.NoDup_cons in Hn' as [_ Hn'].
  unfold mbind, St_bind in E. destruct (bench_one args verbosity c (s, started)) as [r1 [s1 started1]] eqn:E1.
  apply bench_one_starts in E1 as [[-> Hr1]|(cmd & Hcmd & ->)].
  - exists [], heap, []. rewrite app_nil_r. destruct r1 as [[]|e|w]; [done|injection E as <- <- <-..];
      (split_and!; [done|apply ranked_none|constructor|done]).
  - destruct r1 as [[]|e|w]; [|injection E as <- <- <-; exists [c], heap', [cmd];
      (split_and!; [done|by eapply ranked_pop, ranked_none|by repeat constructor|done])..].
    apply IH in E as (picks & rest & cmds & -> & Hk & Hc & Hl); [|done..].
    exists (c :: picks), rest, (cmd :: cmds). rewrite <-app_assoc.
    split_and!; [done|by eapply ranked_pop|by constructor|]. intros Hr. cbn. by rewrite (Hl Hr), <-Hp.
Qed.

Lemma candidates_distinct count start n blocks : NoDup (block_number <$> candidates count start n blocks).
Proof.
  unfold candidates. rewrite <-list_fmap_compose. apply NoDup_fmap_2; [|apply NoDup_seq].
  intros i j. cbn. lia.
Qed.

(** The benchmark takes the busiest windows. If anything is started, or the run succeeds, there
    is one number of transactions for each block of the scanned windows, which the L2 node gave for
    it, although windows overlap; the commands that were started prove, each once and in descending
    order, windows that have at least as many transactions as every window left out, and a
    successful run proves the number that was asked for, or all there are. *)
Theorem benchmark_busiest args verbosity (s : S) r s' started :
  benchmark tie args verbosity (s, []) = (r, (s', started)) -> started <> [] \/ r = Ok tt ->
  let n := Z.to_nat (bench_range args) in
  let blocks := Z.to_nat (bench_length args) in
  exists count picks rest,
    (forall b, bench_start args <= b < bench_start args + reach n blocks -> counted b (count b)) /\
    ranked (candidates count (bench_start args) n blocks) picks rest /\
    Forall2 (proves args verbosity) picks started /\
    (r = Ok tt -> length picks = Nat.min (Z.to_nat (bench_count args)) n).
Proof.
  intros E Hs n blocks. unfold benchmark in E. destruct (u64_add _ _ _) as [bench_end|e|w] eqn:Ee;
    [|injection E as <- <- <-; by destruct Hs..].
  apply (arith_checked host) in Ee as [-> _]; [|done]. rewrite Z.add_simpl_l in E. fold n in E.
  destruct (scan args (bench_start args) n (s, ∅)) as [[heap|e|w] [s1 cache]] eqn:Ec;
    [|injection E as <- <- <-; by destruct Hs..].
  apply scan_Ok in Ec as ([Hok _ Hall] & -> & Hf); [|by intros ? ? ?%lookup_empty_Some].
  apply bench_top_ranked in E as (picks & rest & cmds & -> & Hk & Hc & Hl); [|done|apply candidates_distinct].
  exists (count_in cache), picks, rest. split_and!; [|done|done|].
  - intros b [v Hv]%Hall. unfold count_in. rewrite Hv. by apply Hok.
  - intros Hr. rewrite (Hl Hr). unfold candidates. by rewrite length_fmap, length_seq.
Qed.
End bench_spec.

(** ** A run: windows of two blocks, the two busiest of four *)
Module BenchDemo.
#[export] Instance host_ : BenchHost unit := {|
  block_transaction_count := fun n s => (Ok (Some (if n =? 12 then 30 else 1)), s);
  risc0_version := Ok "3.0"%string; open_output := fun _ s => (Ok tt, s); run_command := fun _ s => (Ok tt, s) |}.
Definition args : BenchArgs := {|
  bench_start := 10; bench_length := 2; bench_range := 4; bench_count := 2; bench_eth_rpc_url := "l1";
  bench_beacon_rpc_url := "beacon"; bench_op_geth_url := "l2"; bench_op_node_url := "node";
  bench_data_dir := Some "data"%string |}.
End BenchDemo.
#[local] Existing Instance BenchDemo.host_.

Lemma benchmark_busiest_witness :
  exists started, benchmark (fun _ => 0%nat) BenchDemo.args 0 (tt, []) = (Ok tt, (tt, started)) /\
    exists count picks rest, ranked (candidates count 10 4 2) picks rest /\
      Forall2 (proves BenchDemo.args 0) picks started /\ length picks = 2%nat.
Proof.
  assert (Hr : (benchmark (fun _ => 0%nat) BenchDemo.args 0 (tt, [])).1 = Ok tt) by (vm_compute; reflexivity).
  destruct (benchmark (fun _ => 0%nat) BenchDemo.args 0 (tt, [])) as [r [[] started]] eqn:E. cbn [fst] in Hr. subst r.
  destruct (benchmark_busiest (fun _ => 0%nat) BenchDemo.args 0 tt (Ok tt) tt started E (or_intror eq_refl))
    as (count & picks & rest & _ & Hk & Hp & Hl).
  exists started. split; [reflexivity|]. exists count, picks, rest. split_and!; [exact Hk|exact Hp|exact (Hl eq_refl)].
Defined.
