(* ===== verification/Proposer.v ===== *)
(** * crates/proposer/src/{propose,resolve,fetch}.rs

    The proposer's loop: it resolves the successor of the last resolved proposal
    when that can be done, and proposes the outputs that it knows on top of the
    canonical tip. *)

From S2P Require Import Prelude Bytes Config Blobs Precondition Deployment Proposal Agent.
Open Scope Z_scope.

(** ** Transactions and the host *)

Inductive ProposerTx :=
| Propose (treasury root_claim : Z) (extra_data : bytes) (value : Z) (sidecar : option BlobTransactionSidecar)
| PruneChildren (tournament limit : Z)
| Resolve (game : Z).

(** The timestamp of the latest L1 block, a balance, and sending a transaction. *)
Class ProposerHost (S : Type) := {
  latest_timestamp : S -> Z * S;
  get_balance : Z -> S -> Z * S;
  send_tx : ProposerTx -> St S unit;
}.

Record Proposer (S : Type) := {
  p_host : S; p_agent : SyncAgent; prioritize_proposing : bool; p_sent : list ProposerTx }.
Arguments p_host {S}. Arguments p_agent {S}. Arguments prioritize_proposing {S}. Arguments p_sent {S}.
Arguments Build_Proposer {S}.

Definition ELIMINATIONS_LIMIT : Z := 128.

Section proposer.
Context {S : Type} `{Nodes S} `{OpNode S} `{ProposerHost S} `{Kzg}.
Abbreviation P := (Proposer S).

Definition at_host {A} (m : St S A) : St P A := fun p =>
  let '(r, s) := m (p_host p) in (r, Build_Proposer s (p_agent p) (prioritize_proposing p) (p_sent p)).
Definition ask {A} (q : S -> A * S) : St P A := at_host (fun s => let '(a, s) := q s in (Ok a, s)).
Definition record_tx (tx : ProposerTx) : St P unit := fun p =>
  (Ok tt, Build_Proposer (p_host p) (p_agent p) (prioritize_proposing p) (p_sent p ++ [tx])).
Definition set_priority (b : bool) : St P unit := fun p =>
  (Ok tt, Build_Proposer (p_host p) (p_agent p) b (p_sent p)).
(** Every transaction that was sent is on record, confirmed or not. *)
Definition sends (tx : ProposerTx) : St P unit := _ ← record_tx tx; at_host (send_tx tx).
(** A [Result] that is matched on. *)
Definition matched {A} (m : St P A) : St P (option A) := fun p =>
  match m p with
  | (Ok a, p) => (Ok (Some a), p)
  | (Err _, p) => (Ok None, p)
  | (Panic w, p) => (Panic w, p)
  end.

(** ** fetch.rs *)

Definition fetch_vanguard (a : SyncAgent) : St P Z := at_host (stall (treasury (deployment a)) Vanguard).
Definition fetch_vanguard_advantage (a : SyncAgent) : St P Z :=
  at_host (stall (treasury (deployment a)) VanguardAdvantage).
Definition fetch_participation_bond (a : SyncAgent) : St P Z :=
  at_host (stall (treasury (deployment a)) ParticipationBond).
Definition fetch_paid_bond (a : SyncAgent) (address : Z) : St P Z :=
  at_host (stall (treasury (deployment a)) (PaidBonds address)).
Definition fetch_current_challenger_duration (proposal : Proposal) : St P Z :=
  chain_time ← ask latest_timestamp;
  at_host (stall (contract proposal) (ChallengerDuration chain_time)).

(** ** resolve.rs *)

(** The loop that prunes the children of the parent: whether the rest can be
    pruned with the resolution.  It has no bound of its own; [None] is a loop that
    is still going. *)
Fixpoint prune_children (fuel : nat) (tournament : Z) : St P (option bool) :=
  match fuel with
  | O => mret None
  | Datatypes.S fuel =>
      result ← matched (at_host (eth_call_prune tournament ELIMINATIONS_LIMIT));
      match result with
      | None => mret (Some false)
      | Some survivor =>
          if negb (survivor =? 0) then mret (Some true)
          else
            r ← matched (sends (PruneChildren tournament ELIMINATIONS_LIMIT));
            match r with
            | Some _ => prune_children fuel tournament
            | None => mret (Some false)
            end
      end
  end.

(** The same loop before the resolution call, where a failure is propagated. *)
Fixpoint prune_before_resolve (fuel : nat) (tournament : Z) : St P bool :=
  match fuel with
  | O => mret false
  | Datatypes.S fuel =>
      survivor ← at_host (eth_call_prune tournament ELIMINATIONS_LIMIT);
      if negb (survivor =? 0) then mret true
      else _ ← sends (PruneChildren tournament ELIMINATIONS_LIMIT); prune_before_resolve fuel tournament
  end.

Definition resolve_proposal (fuel : nat) (proposal : Proposal) : St P unit :=
  parent_tournament ← at_host (stall (contract proposal) ParentGame);
  pruned ← prune_before_resolve fuel parent_tournament;
  if negb pruned then lift (Panic "still pruning")
  else sends (Resolve (contract proposal)).

(** Whether the transaction went through. *)
Definition submit_resolution (fuel : nat) (unresolved_successor : Proposal) : St P bool :=
  r ← matched (resolve_proposal fuel unresolved_successor);
  match r with Some _ => mret true | None => mret false end.

Definition resolve_next_pending_proposal (fuel : nat) : St P bool :=
  p ← get_st;
  let a := p_agent p in
  resolved_parent ← lift (ok_or "Last resolved proposal missing from database."
    (proposals a !! last_resolved_game (cursor a)));
  match successor resolved_parent with
  | None => mret false
  | Some unresolved_successor_index =>
      unresolved_successor ← lift (ok_or "Unresolved successor missing from database."
        (proposals a !! unresolved_successor_index));
      finality ← at_host (fetch_finality unresolved_successor);
      if default false finality then mret false
      else
        challenger_duration ← fetch_current_challenger_duration unresolved_successor;
        is_validity_proven ← at_host (fetch_is_successor_validity_proven resolved_parent);
        if negb is_validity_proven && (0 <? challenger_duration) then mret false
        else
          can_resolve ←
            (if has_parent unresolved_successor then prune_children fuel (contract resolved_parent)
             else mret (Some true));
          match can_resolve with
          | None => lift (Panic "still pruning")
          | Some false => mret false
          | Some true =>
              survives ← matched (at_host (fetch_parent_tournament_survivor_status unresolved_successor));
              if negb (default false (default None survives)) then mret false
              else
                submit_resolution fuel unresolved_successor
          end
  end.

(** ** propose.rs *)

(** The field elements of the intermediate outputs, as far as they are known. *)
Fixpoint gather_outputs (a : SyncAgent) (height i : Z) (count : nat) : outcome (list Z) :=
  match count with
  | O => Ok []
  | Datatypes.S count =>
      offset ← u64_mul host i (output_block_span (deployment a));
      io_block_number ← u64_add host height offset;
      match outputs a !! io_block_number with
      | None => Ok []
      | Some output_hash =>
          rest ← gather_outputs a height (i + 1) count; Ok (hash_to_fe output_hash :: rest)
      end
  end.

Definition extra_data (block_number parent_index dupe_counter : Z) : bytes :=
  be_bytes 8 block_number ++ be_bytes 8 parent_index ++ be_bytes 8 dupe_counter.

(** Whether a game that was made is in the agent's store as a correct proposal in
    good standing. *)
Definition honest_duplicate (a : SyncAgent) (index : Z) : bool :=
  match proposals a !! index with
  | Some p => default false (is_correct p) && negb (was_proposer_eliminated_before a p)
  | None => false
  end.

(** The loop over duplication counters: [Some None] gives up, [None] is a loop that
    is still going. *)
Fixpoint find_dupe_counter (fuel : nat) (a : SyncAgent) (block_number root parent_index dupe_counter : Z)
    : St P (option (option bytes)) :=
  match fuel with
  | O => mret None
  | Datatypes.S fuel =>
      let data := extra_data block_number parent_index dupe_counter in
      dupe_game_address ← at_host (stall (factory (deployment a)) (Games KAILUA_GAME_TYPE root data));
      if dupe_game_address =? 0 then mret (Some (Some data))
      else
        dupe_game_index ← at_host (stall_u64 dupe_game_address GameIndex);
        if next_factory_index (cursor a) <=? dupe_game_index then mret (Some None)
        else if honest_duplicate a dupe_game_index then mret (Some None)
        else
          next ← lift (u64_add host dupe_counter 1);
          find_dupe_counter fuel a block_number root parent_index next
  end.

(** The collateral and the transaction; a failure puts proposing first in the
    next iteration. *)
Definition submit_proposal (a : SyncAgent) (proposer_address proposed_output_root : Z) (extra_data : bytes)
    (sidecar : BlobTransactionSidecar) : St P unit :=
  bond_value ← fetch_participation_bond a;
  paid_in ← fetch_paid_bond a proposer_address;
  balance ← ask (get_balance proposer_address);
  let owed_collateral := sat_sub bond_value paid_in in
  if balance <? owed_collateral then mret tt
  else
    r ← matched (sends (Propose (treasury (deployment a)) proposed_output_root extra_data owed_collateral
           (if bool_decide (sc_blobs sidecar = []) then None else Some sidecar)));
    match r with Some _ => mret tt | None => set_priority true end.

(** The part of an iteration that proposes; [None] means that nothing is proposed
    ([continue]). *)
Definition propose_on_tip (fuel : nat) (final_l2_block : option Z) (proposer_address : Z) (a : SyncAgent)
    (canonical_tip : Proposal) : St P unit :=
  if (match final_l2_block with Some f => f <=? output_block_number canonical_tip | None => false end) then mret tt
  else
    blocks ← lift (blocks_per_proposal (deployment a));
    proposed_block_number ← lift (u64_add host (output_block_number canonical_tip) blocks);
    if last_output_index (cursor a) <? output_block_number canonical_tip then mret tt
    else if last_output_index (cursor a) <? proposed_block_number then mret tt
    else
      chain_time ← ask latest_timestamp;
      min_proposal_time ← lift (min_proposal_time (deployment a) proposed_block_number);
      if chain_time <? min_proposal_time then mret tt
      else
        vanguard ← fetch_vanguard a;
        vanguard_advantage_timeout ←
          (if requires_vanguard_advantage canonical_tip proposer_address vanguard then
             vanguard_advantage ← fetch_vanguard_advantage a;
             lift (u64_add host min_proposal_time vanguard_advantage)
           else mret min_proposal_time);
        if chain_time <? vanguard_advantage_timeout then mret tt
        else match outputs a !! proposed_block_number with
        | None => mret tt
        | Some proposed_output_root =>
            io_field_elements ← lift (gather_outputs a (output_block_number canonical_tip) 1
              (Z.to_nat (proposal_output_count (deployment a) - 1)));
            expected ← lift (u64_sub host (proposal_output_count (deployment a)) 1);
            if negb (Z.of_nat (length io_field_elements) =? expected) then mret tt
            else
              sidecar ← matched (lift (create_sidecar io_field_elements));
              match sidecar with
              | None => mret tt
              | Some sidecar =>
                  unique ← find_dupe_counter fuel a proposed_block_number proposed_output_root
                    (index_ canonical_tip) 0;
                  match unique with
                  | None => lift (Panic "still counting")
                  | Some None => mret tt
                  | Some (Some data) =>
                      submit_proposal a proposer_address proposed_output_root data sidecar
                  end
              end
        end.

(** One iteration of the loop of [propose] after the synchronization. *)
Definition propose_round (fuel : nat) (final_l2_block : option Z) (proposer_address : Z) : St P unit :=
  p ← get_st;
  _ ← (if prioritize_proposing p then mret None else matched (resolve_next_pending_proposal fuel));
  _ ← set_priority false;
  p ← get_st;
  let a := p_agent p in
  latest_game_impl_addr ← at_host (stall (factory (deployment a)) (GameImpls KAILUA_GAME_TYPE));
  if negb (latest_game_impl_addr =? game (deployment a)) then mret tt
  else
    canonical_tip ← lift (ok_or "Canonical tip proposal missing from database!" (canonical_tip a));
    propose_on_tip fuel final_l2_block proposer_address a canonical_tip.

Definition at_agent {A} (m : St (S * SyncAgent) A) : St P A := fun p =>
  let '(r, (s, a)) := m (p_host p, p_agent p) in (r, Build_Proposer s a (prioritize_proposing p) (p_sent p)).

(** One iteration; whether the loop goes on. *)
Definition propose_iteration (fuel : nat) (op_rpc_delay : Z) (final_l2_block : option Z) (proposer_address : Z)
    : St P bool := fun p =>
  match at_agent (sync op_rpc_delay final_l2_block) p with
  | (Err e, p) =>
      if contains FINAL_L2_BLOCK_RESOLVED e then (Ok false, p)
      else (_ ← propose_round fuel final_l2_block proposer_address; mret true) p
  | (Ok _, p) => (_ ← propose_round fuel final_l2_block proposer_address; mret true) p
  | (Panic w, p) => (Panic w, p)
  end.
End proposer.

(** ** What the proposer sends *)

Create HintDb proposing.

Section justified.
Context {S : Type} `{Nodes S} `{OpNode S} `{ProposerHost S} `{Kzg}.
Abbreviation P := (Proposer S).

(** The outputs that a proposal on the tip commits to, by the agent's own. *)
Record proposed_outputs (a : SyncAgent) (tip : Proposal) (number root : Z) (fes : list Z) : Prop := {
  po_number : number = output_block_number tip + proposal_output_count (deployment a) * output_block_span (deployment a);
  po_root : outputs a !! number = Some root;
  po_count : Z.of_nat (length fes) = proposal_output_count (deployment a) - 1;
  po_fes : forall i fe, fes !! i = Some fe -> exists h,
    outputs a !! (output_block_number tip + (Z.of_nat i + 1) * output_block_span (deployment a)) = Some h /\
    h `mod` BLS_MODULUS = fe;
}.

(** Any proposal with those contents matches the agent's outputs. *)
Lemma proposed_outputs_match a tip number root fes p :
  proposed_outputs a tip number root fes -> 0 <= output_block_number tip ->
  output_root p = root -> output_block_number p = number -> io_field_elements p = fes ->
  Forall (fun fe => fe = 0) (trail_field_elements p) -> matches_outputs a p.
Proof.
  intros [Hn Hr Hc Hf] Htip <- Hp <- Ht. split_and!; [by rewrite Hp| |done]. intros i fe Hi.
  assert (starting_block a p = output_block_number tip) as -> by (unfold starting_block, sat_sub; lia). by apply Hf.
Qed.

Lemma gather_outputs_Ok a height i count fes :
  gather_outputs a height i count = Ok fes ->
  forall k fe, fes !! k = Some fe -> exists h,
    outputs a !! (height + (i + Z.of_nat k) * output_block_span (deployment a)) = Some h /\ hash_to_fe h = fe.
Proof.
  revert i fes. induction count as [|count IH]; intros i fes; cbn [gather_outputs]; [by intros [= <-]|].
  intros Hg. ok_inv. apply (arith_checked host) in E as [-> _], E0 as [-> _]; [|done..].
  destruct (outputs a !! _) as [h|] eqn:Eh; ok_inv; [|by subst].
  subst. intros [|k] fe; cbn.
  - intros [= <-]. exists h. by rewrite Z.add_0_r.
  - intros Hk. destruct (IH _ _ E _ _ Hk) as (h' & Hh & <-). exists h'. split; [|done]. rewrite <-Hh. f_equal. lia.
Qed.

(** The answer of a contract, at some point. *)
Abbreviation says contract call value := (answered (S := S) contract call value).

(** The proposer has to let the vanguard go first: the treasury names another
    one, and nothing is proposed on the tip yet. *)
Definition yields_to (vanguard address : Z) (tip : Proposal) : Prop :=
  vanguard <> 0 /\ vanguard <> address /\ children tip = ∅.

(** Enough time has passed for the tip to be extended by the proposer: the
    block is due by the latest block of L1 and, if the vanguard comes first, its
    advantage is over. *)
Definition timely (a : SyncAgent) (address : Z) (tip : Proposal) (number : Z) : Prop :=
  exists (s : S) vanguard,
    let min := genesis_time (deployment a) + number * dep_block_time (deployment a) + 1 in
    let now := (latest_timestamp s).1 in
    min <= now /\ says (treasury (deployment a)) Vanguard vanguard /\
    (yields_to vanguard address tip ->
     exists advantage, says (treasury (deployment a)) VanguardAdvantage advantage /\ min + advantage <= now).

(** The game is what its parent's tournament would leave, pruning all children. *)
Definition survives (p : Proposal) : Prop :=
  index_ p = parent p \/
  contract p <> 0 /\ exists (s1 s2 s3 s4 : S) tournament count,
    eth_call (contract p) ParentGame s1 = (tournament, s2) /\ eth_call tournament ChildCount s2 = (count, s3) /\
    eth_call_prune tournament (count * 2 `mod` 2 ^ 256) s3 = (Ok (contract p), s4).

(** What each transaction rests on. *)
Definition warranted (address : Z) (final_l2_block : option Z) (a : SyncAgent) (tx : ProposerTx) : Prop :=
  match tx with
  | Propose treasury' root data value sidecar => exists tip number fes blobs counter bond paid (s : S),
      canonical_tip a = Some tip /\ treasury' = treasury (deployment a) /\
      says (factory (deployment a)) (GameImpls 1337) (game (deployment a)) /\
      proposed_outputs a tip number root fes /\ sidecar_of fes blobs /\
      (forall p, 0 <= output_block_number tip -> output_root p = root -> output_block_number p = number ->
         io_field_elements p = fes -> Forall (fun fe => fe = 0) (trail_field_elements p) -> matches_outputs a p) /\
      sidecar = (if bool_decide (sc_blobs blobs = []) then None else Some blobs) /\
      data = be_bytes 8 number ++ be_bytes 8 (index_ tip) ++ be_bytes 8 counter /\
      says (factory (deployment a)) (Games 1337 root data) 0 /\
      output_block_number tip <= last_output_index (cursor a) /\ number <= last_output_index (cursor a) /\
      timely a address tip number /\
      match final_l2_block with Some final => output_block_number tip < final | None => True end /\
      says (treasury (deployment a)) ParticipationBond bond /\ says (treasury (deployment a)) (PaidBonds address) paid /\
      value = Z.max 0 (bond - paid) /\ value <= (get_balance address s).1
  | PruneChildren tournament limit => limit = 128 /\ exists par i p,
      proposals a !! last_resolved_game (cursor a) = Some par /\ successor par = Some i /\ proposals a !! i = Some p /\
      (tournament = contract par \/ says (contract p) ParentGame tournament)
  | Resolve game => exists par i p status,
      proposals a !! last_resolved_game (cursor a) = Some par /\ successor par = Some i /\ proposals a !! i = Some p /\
      game = contract p /\ says (contract p) Status status /\ status <> 2 /\ survives p /\
      ((exists proven, says (contract par) ValidChildSignature proven /\ proven <> 0) \/
       (exists time duration, says (contract p) (ChallengerDuration time) duration /\ duration <= 0))
  end.

Section steps.
Variables (address : Z) (final_l2_block : option Z) (a : SyncAgent) (base : list ProposerTx).

Definition careful (p : P) : Prop :=
  p_agent p = a /\ exists new, p_sent p = base ++ new /\ Forall (warranted address final_l2_block a) new.
Abbreviation kept := (preserves careful).

Lemma at_host_kept {A} (m : St S A) : kept (at_host m).
Proof. intros p Hp. unfold at_host. by destruct (m (p_host p)) as [[] ?]. Qed.
Lemma ask_kept {A} (q : S -> A * S) : kept (ask q).
Proof. apply at_host_kept. Qed.
Lemma matched_kept {A} (m : St P A) : kept m -> kept (matched m).
Proof. intros Hm p Hp. specialize (Hm p Hp). unfold matched. by destruct (m p) as [[] ?]. Qed.
Lemma set_priority_kept b : kept (set_priority b).
Proof. by intros p Hp. Qed.

Lemma sends_kept tx : warranted address final_l2_block a tx -> kept (sends tx).
Proof.
  intros Ht. apply preserves_bind; [|intros _; apply at_host_kept]. intros p (Ha & new & Hs & Hn).
  split; [done|]. exists (new ++ [tx]). cbn. rewrite Hs, app_assoc. split; [done|]. apply Forall_app_2; [done|by constructor].
Qed.

(** A query, with what its answer says. *)
Lemma at_host_bind_kept {A B} (m : St S A) (f : A -> St P B) :
  (forall x s s', m s = (Ok x, s') -> kept (f x)) -> kept (at_host m ≫= f).
Proof.
  intros Hf p Hp. unfold mbind, St_bind, at_host. destruct (m (p_host p)) as [[x|?|?] s] eqn:E; [|done..]. by apply (Hf x _ s E).
Qed.
Lemma ask_bind_kept {A B} (q : S -> A * S) (f : A -> St P B) :
  (forall s, kept (f (q s).1)) -> kept (ask q ≫= f).
Proof.
  intros Hf. apply at_host_bind_kept. intros x s s' Hx. destruct (q s) as [x' t] eqn:E. simplify_eq.
  specialize (Hf s). by rewrite E in Hf.
Qed.
Lemma stall_bind_kept {B} c k (f : Z -> St P B) :
  (forall s, kept (f (eth_call c k s).1)) -> kept (at_host (stall c k) ≫= f).
Proof.
  intros Hf. apply at_host_bind_kept. intros x s s' Hx%stall_Ok. specialize (Hf s). by rewrite Hx in Hf.
Qed.

#[local] Hint Constants Opaque : proposing.
#[local] Hint Resolve preserves_ret preserves_fail at_host_kept ask_kept set_priority_kept sends_kept : proposing.
Ltac propose := repeat match goal with
  | _ => solve [auto with proposing nocore]
  | |- kept (lift _ ≫= _) => apply preserves_lift; intros ? ?
  | |- kept (_ ≫= _) => apply preserves_bind; [|intros ?]
  | |- kept (matched _) => apply matched_kept
  | |- kept (if ?b then _ else _) => destruct b eqn:?
  | |- kept (match ?x with _ => _ end) => destruct x eqn:?
  end.

Lemma prune_children_kept fuel tournament :
  warranted address final_l2_block a (PruneChildren tournament ELIMINATIONS_LIMIT) -> kept (prune_children fuel tournament).
Proof. intros Ht. induction fuel as [|fuel IH]; cbn [prune_children]; propose. Qed.

Lemma prune_before_resolve_kept fuel tournament :
  warranted address final_l2_block a (PruneChildren tournament ELIMINATIONS_LIMIT) ->
  kept (prune_before_resolve fuel tournament).
Proof. intros Ht. induction fuel as [|fuel IH]; cbn [prune_before_resolve]; propose. Qed.

Lemma duration_bind_kept {B} p (f : Z -> St P B) :
  (forall s time, kept (f (eth_call (contract p) (ChallengerDuration time) s).1)) ->
  kept (fetch_current_challenger_duration p ≫= f).
Proof.
  intros Hf q Hq. unfold fetch_current_challenger_duration, mbind, St_bind, ask, at_host, stall.
  destruct (latest_timestamp (p_host q)) as [time s]. cbn [p_host].
  destruct (eth_call _ _ s) as [d s'] eqn:E. specialize (Hf s time). rewrite E in Hf. by apply Hf.
Qed.

Lemma fetch_finality_Ok p (s s' : S) f :
  fetch_finality p s = (Ok f, s') -> default false f = false ->
  exists status, says (contract p) Status status /\ status <> 2.
Proof.
  unfold fetch_finality. intros Hf Hd. st_inv.
  match goal with X : stall _ _ _ = (Ok ?x, _) |- _ => apply stall_answered in X; exists x end.
  split; [done|]. unfold parse_finality in Hf. intros ->. cbn in Hf. simplify_eq.
Qed.

Lemma proven_Ok par (s s' : S) b :
  fetch_is_successor_validity_proven par s = (Ok b, s') -> b = true ->
  exists proven, says (contract par) ValidChildSignature proven /\ proven <> 0.
Proof.
  unfold fetch_is_successor_validity_proven. intros Hf ->. st_inv.
  match goal with X : stall _ _ _ = (Ok ?x, _) |- _ => apply stall_answered in X; exists x end. by bools.
Qed.

Lemma survivor_Ok p (s s' : S) :
  fetch_parent_tournament_survivor_status p s = (Ok (Some true), s') -> survives p.
Proof.
  unfold fetch_parent_tournament_survivor_status, fetch_parent_tournament_survivor, has_parent, survives. intros Hf.
  destruct (index_ p =? parent p) eqn:Ei; cbn [negb] in Hf; bools; [by left|right]. st_inv.
  repeat match goal with X : stall _ _ _ = (Ok _, _) |- _ => apply stall_Ok in X end.
  subst. match goal with X : context [if ?x =? 0 then _ else _] |- _ => destruct (x =? 0) eqn:Ez end; bools; cbn in Hf;
    [done|]. injection Hf as Hf. bools. subst. split; [done|]. by do 6 eexists.
Qed.

Lemma matched_bind_kept {A B} (m : St S A) (f : option A -> St P B) :
  (forall x s s', m s = (Ok x, s') -> kept (f (Some x))) -> kept (f None) -> kept (matched (at_host m) ≫= f).
Proof.
  intros Hf Hn p Hp. unfold mbind, St_bind, matched, at_host. destruct (m (p_host p)) as [[x|?|?] s] eqn:E; [| |done].
  - by apply (Hf x _ s E).
  - by apply Hn.
Qed.

Lemma resolve_proposal_kept fuel par i p :
  proposals a !! last_resolved_game (cursor a) = Some par -> successor par = Some i -> proposals a !! i = Some p ->
  warranted address final_l2_block a (Resolve (contract p)) -> kept (resolve_proposal fuel p).
Proof.
  intros Hpar Hi Hp Hw. unfold resolve_proposal. apply stall_bind_kept. intros s.
  apply preserves_bind; [|intros []; cbn [negb]; propose].
  apply prune_before_resolve_kept. split; [done|]. exists par, i, p. split_and!; try done. right. by exists s.
Qed.

Lemma resolve_next_kept fuel : kept (resolve_next_pending_proposal fuel).
Proof.
  unfold resolve_next_pending_proposal. apply preserves_get. intros w (-> & _). cbv zeta.
  apply preserves_lift. intros par Hpar%ok_or_Ok. destruct (successor par) as [i|] eqn:Ei; [|propose].
  apply preserves_lift. intros p Hp%ok_or_Ok. apply at_host_bind_kept. intros f s s' Hf.
  destruct (default false f) eqn:Ef; [propose|]. pose proof (fetch_finality_Ok _ _ _ _ Hf Ef) as Hst.
  apply duration_bind_kept. intros s1 time. apply at_host_bind_kept. intros proven s2 s3 Hproven.
  destruct (negb proven && _) eqn:Eg; [propose|].
  assert (Hw : (exists proven, says (contract par) ValidChildSignature proven /\ proven <> 0) \/
    (exists time duration, says (contract p) (ChallengerDuration time) duration /\ duration <= 0)).
  { apply andb_false_iff in Eg as [Eg|Eg]; bools; [left; by eapply proven_Ok|right; exists time; eexists].
    split; [by exists s1|done]. }
  apply preserves_bind.
  { destruct (has_parent p); [|propose]. apply prune_children_kept. split; [done|]. exists par, i, p. auto. }
  intros [[]|]; [|propose..]. apply matched_bind_kept; [|cbn; propose]. intros survives s4 s5 Hs.
  destruct survives as [[]|]; cbn; [|propose..].
  unfold submit_resolution. apply preserves_bind; [|intros ?; propose].
  apply matched_kept, resolve_proposal_kept with par i; [done..|].
  destruct Hst as (status & Hst & Hne). exists par, i, p, status. split_and!; try done. by eapply survivor_Ok.
Qed.

Lemma find_dupe_counter_kept {B} fuel number root parent c (f : option (option bytes) -> St P B) :
  kept (f None) -> kept (f (Some None)) ->
  (forall c s, (eth_call (factory (deployment a)) (Games KAILUA_GAME_TYPE root (extra_data number parent c)) s).1 = 0 ->
     kept (f (Some (Some (extra_data number parent c))))) ->
  kept (find_dupe_counter fuel a number root parent c ≫= f).
Proof.
  intros H1' H2' H3'. revert c. induction fuel as [|fuel IH]; intros c q Hq; [by apply H1'|].
  cbn [find_dupe_counter]. unfold mbind, St_bind at 1 2, at_host at 1.
  destruct (stall _ _ (p_host q)) as [[x|?|?] s] eqn:Es; [|done..]. apply stall_Ok in Es.
  destruct (x =? 0) eqn:Ex; bools.
  { apply (H3' c (p_host q)); [by rewrite Es|done]. }
  unfold St_bind at 1, at_host at 1. cbn [p_host p_agent prioritize_proposing p_sent].
  destruct (stall_u64 x GameIndex s) as [[idx|?|?] s1]; [|done..].
  destruct (_ <=? idx); [by apply H2'|]. destruct (honest_duplicate a idx); [by apply H2'|].
  unfold St_bind at 1, lift. destruct (u64_add host c 1) as [c'|?|?]; [|done..]. by apply (IH c').
Qed.

Lemma vanguard_bind_kept {B} (required : bool) min (f : Z -> St P B) :
  (forall t, ((exists advantage, says (treasury (deployment a)) VanguardAdvantage advantage /\ t = min + advantage) \/
              (required = false /\ t = min)) -> kept (f t)) ->
  kept ((if required then
           vanguard_advantage ← fetch_vanguard_advantage a; lift (u64_add host min vanguard_advantage)
         else mret min) ≫= f).
Proof.
  intros Hf. destruct required; intros q Hq; [|apply Hf; [by right|done]].
  unfold fetch_vanguard_advantage, mbind, St_bind, at_host, stall, lift.
  destruct (eth_call _ _ (p_host q)) as [x s] eqn:E. destruct (u64_add host min x) as [t|?|?] eqn:Ea; [|done..].
  apply (arith_checked host) in Ea as [-> _]; [|done]. apply Hf; [|done]. left. exists x.
  split; [|done]. exists (p_host q). by rewrite E.
Qed.

Lemma propose_on_tip_kept fuel tip :
  canonical_tip a = Some tip -> says (factory (deployment a)) (GameImpls 1337) (game (deployment a)) -> kept (propose_on_tip fuel final_l2_block address a tip).
Proof.
  intros Htip Himpl. unfold propose_on_tip.
  destruct (match final_l2_block with Some _ => _ | None => false end) eqn:Efinal; [propose|].
  assert (Hfinal : match final_l2_block with Some final => output_block_number tip < final | None => True end).
  { destruct final_l2_block; [by bools|done]. }
  apply preserves_lift. intros blocks Hb. apply (arith_checked host) in Hb as [-> _]; [|done].
  apply preserves_lift. intros number Hn. apply (arith_checked host) in Hn as [-> _]; [|done].
  set (number := output_block_number tip + proposal_output_count (deployment a) * output_block_span (deployment a)).
  destruct (_ <? output_block_number tip) eqn:Esafe; bools; [propose|].
  destruct (last_output_index (cursor a) <? number) eqn:El; bools; [propose|].
  apply ask_bind_kept. intros s. apply preserves_lift. intros min Hmin.
  destruct (_ <? min) eqn:Et; bools; [propose|].
  unfold fetch_vanguard. apply stall_bind_kept. intros s1. set (vanguard := (eth_call _ Vanguard s1).1).
  apply vanguard_bind_kept. intros timeout Htimeout.
  destruct (_ <? timeout) eqn:Ev; bools; [propose|].
  assert (Htimely : timely a address tip number).
  { unfold min_proposal_time in Hmin. ok_inv.
    apply (arith_checked host) in E as [-> _], E0 as [-> _], Hmin as [-> _]; [|done..].
    exists s, vanguard. split_and!; [done|by exists s1|]. intros (Hv1 & Hv2 & Hch).
    destruct Htimeout as [(advantage & Hadv & ->)|[Hr _]]; [by exists advantage|].
    unfold requires_vanguard_advantage in Hr. rewrite (proj2 (Z.eqb_neq _ _) Hv1), (proj2 (Z.eqb_neq _ _) Hv2) in Hr.
    by rewrite bool_decide_true in Hr. }
  destruct (outputs a !! number) as [root|] eqn:Eroot; [|propose].
  apply preserves_lift. intros fes Hfes. apply preserves_lift. intros expected Hexp.
  apply (arith_checked host) in Hexp as [-> _]; [|done].
  destruct (Z.of_nat (length fes) =? _) eqn:Elen; bools; cbn [negb]; [|propose].
  assert (Hpo : proposed_outputs a tip number root fes).
  { split; [done|done|done|]. intros i fe Hi. destruct (gather_outputs_Ok _ _ _ _ _ Hfes i fe Hi) as (h & Hh & Hfe).
    exists h. split; [|done]. rewrite <-Hh. f_equal. lia. }
  intros q Hq. unfold mbind, St_bind at 1, matched at 1, lift at 1.
  destruct (create_sidecar fes) as [blobs|e|e] eqn:Esc; [|done..]. apply create_sidecar_of in Esc. revert q Hq.
  apply find_dupe_counter_kept; [propose..|]. intros c s2 Hfree.
  unfold submit_proposal, fetch_participation_bond, fetch_paid_bond. apply stall_bind_kept. intros s3. apply stall_bind_kept. intros s4.
  apply ask_bind_kept. intros s5. destruct (_ <? sat_sub _ _) eqn:Ebal; bools; [propose|].
  apply preserves_bind; [|intros ?; propose]. apply matched_kept, sends_kept.
  pose proof (fun p => proposed_outputs_match a tip number root fes p Hpo).
  exists tip, number, fes, blobs, c, (eth_call (treasury (deployment a)) ParticipationBond s3).1,
    (eth_call (treasury (deployment a)) (PaidBonds address) s4).1, s5.
  split_and!; try done; [by exists s2|by exists s3|by exists s4].
Qed.

Lemma propose_round_kept fuel : kept (propose_round fuel final_l2_block address).
Proof.
  unfold propose_round. apply preserves_get. intros w _. apply preserves_bind.
  { destruct (prioritize_proposing w); [propose|]. apply matched_kept, resolve_next_kept. }
  intros _. apply preserves_bind; [propose|]. intros _. apply preserves_get. intros w' (-> & _). cbv zeta.
  apply stall_bind_kept. intros s. destruct (negb _) eqn:Eimpl; [propose|]. bools.
  apply preserves_lift. intros tip Htip%ok_or_Ok. apply propose_on_tip_kept; [done|by exists s].
Qed.
End steps.


(** ** The duplication counter *)

(** A game with the counter exists, is known, and does not count. *)
Definition skipped (a : SyncAgent) (number root parent counter : Z) : Prop :=
  exists (s s' : S) address index,
    (eth_call (factory (deployment a)) (Games KAILUA_GAME_TYPE root (extra_data number parent counter)) s).1 = address /\
    address <> 0 /\ (eth_call address GameIndex s').1 = index /\
    index < next_factory_index (cursor a) /\ honest_duplicate a index = false.

(** C40. The loop over duplication counters ends at the first counter that has no
    game, or at one whose game counts.  If it gives data for a proposal, they are
    those of a counter without a game, and every smaller counter has a game that
    is known to be wrong, freed or of an eliminated proposer.  If it gives up, some
    counter, after such ones only, has a game that is not known yet or an honest
    one.  If it is still going after [fuel] rounds, all of the first [fuel]
    counters have games that do not count; so if one of them has no game, it is
    not still going. *)
Theorem find_dupe_counter_spec fuel a number root parent counter (p p' : P) result :
  find_dupe_counter fuel a number root parent counter p = (Ok result, p') ->
  p_sent p' = p_sent p /\
  match result with
  | Some (Some data) => exists n : nat, (n < fuel)%nat /\
      data = extra_data number parent (counter + Z.of_nat n) /\
      (exists s : S, (eth_call (factory (deployment a)) (Games KAILUA_GAME_TYPE root data) s).1 = 0) /\
      forall k : nat, (k < n)%nat -> skipped a number root parent (counter + Z.of_nat k)
  | Some None => exists (n : nat) (s s' : S) address index, (n < fuel)%nat /\
      (eth_call (factory (deployment a))
        (Games KAILUA_GAME_TYPE root (extra_data number parent (counter + Z.of_nat n))) s).1 = address /\
      address <> 0 /\ (eth_call address GameIndex s').1 = index /\
      (next_factory_index (cursor a) <= index \/ honest_duplicate a index = true) /\
      forall k : nat, (k < n)%nat -> skipped a number root parent (counter + Z.of_nat k)
  | None => forall k : nat, (k < fuel)%nat -> skipped a number root parent (counter + Z.of_nat k)
  end.
Proof.
  revert counter p. induction fuel as [|fuel IH]; intros counter p Hr; cbn [find_dupe_counter] in Hr.
  { unfold mret, St_ret in Hr. simplify_eq. split; [done|]. lia. }
  unfold mbind, St_bind at 1, at_host at 1, stall in Hr.
  destruct (eth_call _ (Games _ _ _) (p_host p)) as [address s] eqn:Eg.
  destruct (address =? 0) eqn:Ea; bools.
  { unfold mret, St_ret in Hr. simplify_eq. split; [done|]. exists 0%nat. cbn [Z.of_nat]. rewrite Z.add_0_r.
    split_and!; [lia|done|exists (p_host p); by rewrite Eg|lia]. }
  unfold St_bind at 1, at_host at 1, stall_u64, mbind, St_bind, stall, lift, to_u64 in Hr. cbn [p_host p_agent p_sent prioritize_proposing] in Hr.
  destruct (eth_call address GameIndex s) as [index s'] eqn:Ei. destruct (fits 64 index); [|done].
  assert (Hnow : forall k : nat, counter + Z.of_nat (Datatypes.S k) = counter + 1 + Z.of_nat k) by lia.
  destruct (next_factory_index (cursor a) <=? index) eqn:En; bools; [|destruct (honest_duplicate a index) eqn:Eh].
  1,2: unfold mret, St_ret in Hr; simplify_eq; split; [done|]; exists 0%nat, (p_host p), s, address, index;
    cbn [Z.of_nat]; rewrite Z.add_0_r, Eg, Ei; split_and!; [lia|done|done|done|auto|lia].
  destruct (u64_add host counter 1) as [next|?|?] eqn:Eadd; [|done..].
  apply (arith_checked host) in Eadd as [-> _]; [|done].
  assert (Hskip : skipped a number root parent (counter + Z.of_nat 0)).
  { exists (p_host p), s, address, index. cbn [Z.of_nat]. rewrite Z.add_0_r, Eg, Ei. auto. }
  assert (Hall : forall n : nat, (forall k : nat, (k < n)%nat -> skipped a number root parent (counter + 1 + Z.of_nat k)) ->
    forall k : nat, (k < Datatypes.S n)%nat -> skipped a number root parent (counter + Z.of_nat k)).
  { intros n Hn [|k] Hk; [done|]. rewrite Hnow. apply Hn. lia. }
  destruct (IH _ _ Hr) as [Hs Hres]. split; [done|]. destruct result as [[data|]|]; [| |by apply Hall].
  - destruct Hres as (n & Hn & Hd & Hfree & Hk). exists (Datatypes.S n). rewrite Hnow. split_and!; [lia|done|done|by apply Hall].
  - destruct Hres as (n & t & t' & ad & ix & Hn & Hg & Hne & Hix & Hc & Hk). exists (Datatypes.S n), t, t', ad, ix.
    rewrite Hnow. split_and!; [lia|done|done|done|done|by apply Hall].
Qed.
End justified.

(** ** Concrete runs *)

Definition demo_chain : ProposerHost unit := {|
  latest_timestamp := fun s => (5000, s); get_balance := fun _ s => (100, s); send_tx := fun _ s => (Ok tt, s) |}.
Definition demo_proposer : Proposer unit := Build_Proposer tt demo_agent true [].


(** No game has counter 0. *)
Lemma find_dupe_counter_spec_witness :
  [] = p_sent demo_proposer /\ exists n : nat, (n < 1)%nat /\
    extra_data 104 5 0 = extra_data 104 5 (0 + Z.of_nat n) /\
    (exists s : unit, (@eth_call unit demo_nodes (factory demo_deployment)
       (Games KAILUA_GAME_TYPE 2104 (extra_data 104 5 0)) s).1 = 0) /\
    forall k : nat, (k < n)%nat -> @skipped unit demo_nodes demo_agent 104 2104 5 (0 + Z.of_nat k).
Proof.
  apply (@find_dupe_counter_spec unit demo_nodes 1 demo_agent 104 2104 5 0 demo_proposer demo_proposer
    (Some (Some (extra_data 104 5 0)))).
  reflexivity.
Defined.
