(* ===== verification/Faulty.v ===== *)
(** * bin/cli/src/fault.rs

    The tool that publishes a proposal with one wrong output, to test that the
    validator finds it. *)

From S2P Require Import Prelude Bytes Config Blobs Deployment Proposal Agent Proposer.
Open Scope Z_scope.

Record FaultArgs := { fault_offset : Z; fault_parent : Z }.

(** What is proposed. *)
Record Faulty := { f_number : Z; f_root : Z; f_elements : list Z }.

Section faulty.
Context {S : Type} `{Nodes S} `{OpNode S} `{ProposerHost S} `{Kzg} `{Digests}.

Definition output_at (n : Z) : St S Z := fun s => let '(h, s) := output_at_block n s in (Ok h, s).

(** The field elements from output [i] on. *)
Fixpoint faulty_outputs (faulty_root_claim parent_block_number span proposed normalized i : Z) (count : nat)
    : St S (list Z) :=
  match count with
  | O => mret []
  | Datatypes.S count =>
      offset ← lift (u64_mul host i span);
      io_block_number ← lift (u64_add host parent_block_number offset);
      output_hash ← (if io_block_number =? normalized then mret faulty_root_claim
                     else if io_block_number <? proposed then output_at io_block_number else mret 0);
      rest ← faulty_outputs faulty_root_claim parent_block_number span proposed normalized (i + 1) count;
      mret (hash_to_fe output_hash :: rest)
  end.

(** The number of games stands for the wrong root. *)
Definition faulty_proposal (args : FaultArgs) (games_count parent_block_number output_count span : Z)
    : St S Faulty :=
  proposal_block_count ← lift (u64_mul host output_count span);
  offset ← lift (u64_mul host (fault_offset args) span);
  faulty_block_number ← lift (u64_add host parent_block_number offset);
  proposed_block_number ← lift (u64_add host parent_block_number proposal_block_count);
  root ← (if proposed_block_number =? faulty_block_number then mret games_count
          else output_at proposed_block_number);
  let is_output_fault := faulty_block_number <=? proposed_block_number in
  back ← lift (u64_mul host (if is_output_fault then 0 else 1) span);
  normalized ← lift (u64_sub host faulty_block_number back);
  elements ← faulty_outputs games_count parent_block_number span proposed_block_number normalized 1
               (Z.to_nat (FIELD_ELEMENTS_PER_BLOB - 1));
  mret {| f_number := proposed_block_number; f_root := root; f_elements := elements |}.

(** The loop over duplication counters; [None] if it is still going. *)
Fixpoint free_extra_data (fuel : nat) (factory number root parent dupe_counter : Z) : St S (option bytes) :=
  match fuel with
  | O => mret None
  | Datatypes.S fuel =>
      let data := extra_data number parent dupe_counter in
      dupe_game_address ← stall factory (Games KAILUA_GAME_TYPE root data);
      if dupe_game_address =? 0 then mret (Some data)
      else next ← lift (u64_add host dupe_counter 1); free_extra_data fuel factory number root parent next
  end.

(** The nodes, and the transactions that were sent. *)
Abbreviation W := (S * list ProposerTx)%type.
(** The result of sending is only logged. *)
Definition submit_proposal (tx : ProposerTx) : St W unit := fun '(s, sent) =>
  match send_tx tx s with
  | (Panic w, s) => (Panic w, (s, sent ++ [tx]))
  | (_, s) => (Ok tt, (s, sent ++ [tx]))
  end.

(** [fault], with the fetched configuration; [false] if it is still counting. *)
Definition fault (fuel : nat) (config : RollupConfig) (args : FaultArgs) (tester_address : Z) : St W bool :=
  _ ← lift (expect "Configuration hash derivation error" (config_hash config));
  factory ← on_fst (stall (l1_system_config_address config) DisputeGameFactory);
  game ← on_fst (stall factory (GameImpls KAILUA_GAME_TYPE));
  treasury ← on_fst (stall game KAILUA_TREASURY);
  output_count ← on_fst (stall game PROPOSAL_OUTPUT_COUNT);
  span ← on_fst (stall game OUTPUT_BLOCK_SPAN);
  games_count ← on_fst (stall factory GameCount);
  parent ← on_fst (fun s => let '((_, proxy), s) := game_at_index factory (fault_parent args) s in (Ok proxy, s));
  parent_block_number ← on_fst (stall_u64 parent L2BlockNumber);
  f ← on_fst (faulty_proposal args games_count parent_block_number output_count span);
  sidecar ← lift (create_sidecar (f_elements f));
  data ← on_fst (free_extra_data fuel factory (f_number f) (f_root f) (fault_parent args) 0);
  match data with
  | None => mret false
  | Some data =>
      bond_value ← on_fst (stall treasury ParticipationBond);
      paid_in ← on_fst (stall treasury (PaidBonds tester_address));
      _ ← submit_proposal (Propose treasury (f_root f) data (sat_sub bond_value paid_in)
             (if bool_decide (sc_blobs sidecar = []) then None else Some sidecar));
      mret true
  end.
End faulty.

(** ** The fault that the validator finds *)

Section found.
Context {S : Type} `{Nodes S} `{OpNode S} `{ProposerHost S} `{Kzg} `{Digests}.
Context (truth : Z -> Z) (honest : forall n (s : S), (output_at_block n s).1 = truth n).

(** Output [i] of a faulty proposal, counted from one. *)
Definition faulty_element (root parent span proposed normalized i : Z) : Z :=
  hash_to_fe (if parent + i * span =? normalized then root
              else if parent + i * span <? proposed then truth (parent + i * span) else 0).

Lemma output_at_Ok n (s s' : S) h : output_at n s = (Ok h, s') -> h = truth n.
Proof. unfold output_at. specialize (honest n s). destruct (output_at_block n s). by intros [= <- _]. Qed.

Lemma faulty_outputs_spec root parent span proposed normalized i count (s : S) fes s' :
  faulty_outputs root parent span proposed normalized i count s = (Ok fes, s') ->
  fes = (fun j => faulty_element root parent span proposed normalized (i + Z.of_nat j)) <$> seq 0 count.
Proof.
  revert i s fes s'. induction count as [|count IH]; intros i s fes s' E; cbn [faulty_outputs] in E.
  { by injection E as <- _. }
  apply St_bind_Ok in E as (? & ? & [E1 ->]%lift_Ok & E). apply (arith_checked host) in E1 as [-> _]; [|done].
  apply St_bind_Ok in E as (? & ? & [E1 ->]%lift_Ok & E). apply (arith_checked host) in E1 as [-> _]; [|done].
  apply St_bind_Ok in E as (h & s1 & Eh & E). apply St_bind_Ok in E as (rest & s2 & Er & E).
  injection E as <- _. apply IH in Er as ->. cbn [seq fmap list_fmap]. f_equal.
  - unfold faulty_element. rewrite Z.add_0_r.
    destruct (_ =? _); [by injection Eh as <-|]. destruct (_ <? _); [by apply output_at_Ok in Eh as ->|by injection Eh as <-].
  - rewrite <-fmap_S_seq, <-list_fmap_compose. apply list_fmap_ext. intros k j _. cbn. f_equal. lia.
Qed.

(** The position of the wrong element, counted from one. *)
Definition fault_position (count offset : Z) : Z := if offset <=? count then offset else offset - 1.

(** The elements are right but for that position. *)
Definition planted (f : Faulty) (games parent count span offset : Z) : Prop :=
  forall j fe, f_elements f !! j = Some fe ->
    fe = hash_to_fe (if Z.of_nat j + 1 =? fault_position count offset then games
                     else if Z.of_nat j + 1 <? count then truth (parent + (Z.of_nat j + 1) * span) else 0).

Lemma faulty_proposal_Ok args games parent count span (s : S) f s' :
  0 < span -> faulty_proposal args games parent count span s = (Ok f, s') ->
  f_number f = parent + count * span /\
  f_root f = (if fault_offset args =? count then games else truth (parent + count * span)) /\
  length (f_elements f) = Z.to_nat (FIELD_ELEMENTS_PER_BLOB - 1) /\
  planted f games parent count span (fault_offset args).
Proof.
  intros Hs E. unfold faulty_proposal in E.
  do 4 (apply St_bind_Ok in E as (? & ? & [E1 ->]%lift_Ok & E); apply (arith_checked host) in E1 as [-> _]; [|done]).
  apply St_bind_Ok in E as (root & s1 & Er & E).
  do 2 (apply St_bind_Ok in E as (? & ? & [E1 ->]%lift_Ok & E); apply (arith_checked host) in E1 as [-> _]; [|done]).
  apply St_bind_Ok in E as (fes & s2 & Ef & E). injection E as <- _. cbn [f_number f_root f_elements].
  apply faulty_outputs_spec in Ef as ->. rewrite length_fmap, length_seq. split_and!; [done| |done|].
  - destruct (Z.eqb_spec (fault_offset args) count) as [Heq|Hne].
    + rewrite Heq, Z.eqb_refl in Er. by injection Er as <-.
    + rewrite (proj2 (Z.eqb_neq _ _)) in Er by nia. by apply output_at_Ok in Er.
  - intros j fe (k & -> & Hk)%list_lookup_fmap_Some. apply lookup_seq in Hk as [-> _].
    rewrite Nat.add_0_l. unfold faulty_element, fault_position. f_equal.
    replace (1 + Z.of_nat j) with (Z.of_nat j + 1) by lia. generalize (Z.of_nat j + 1) as i. intros i.
    set (k := fault_offset args) in *.
    assert (Hl : (parent + i * span <? parent + count * span) = (i <? count))
      by (apply eq_true_iff_eq; rewrite !Z.ltb_lt; nia).
    assert (Hk : (parent + k * span <=? parent + count * span) = (k <=? count))
      by (apply eq_true_iff_eq; rewrite !Z.leb_le; nia).
    rewrite Hl, Hk. destruct (k <=? count).
    + assert ((parent + i * span =? parent + k * span - 0 * span) = (i =? k)) as ->
        by (apply eq_true_iff_eq; rewrite !Z.eqb_eq; nia). done.
    + assert ((parent + i * span =? parent + k * span - 1 * span) = (i =? k - 1)) as ->
        by (apply eq_true_iff_eq; rewrite !Z.eqb_eq; nia). done.
Qed.

(** A proposal with the contents of [f], as a game loads it: its intermediate outputs are the
    first elements of its blob, the others (and the padding) are its trail. *)
Record holds (f : Faulty) (count : Z) (p : Proposal) : Prop := {
  h_root : output_root p = f_root f;
  h_number : output_block_number p = f_number f;
  h_io : io_field_elements p = take (Z.to_nat (count - 1)) (f_elements f);
  h_trail : exists n, trail_field_elements p = drop (Z.to_nat (count - 1)) (f_elements f) ++ replicate n 0;
}.
(** The verdicts of an agent with the node's outputs. *)
Record judged_by_node (parent span : Z) (p : Proposal) : Prop := {
  j_claim : correct_claim p = Some (truth (output_block_number p) =? output_root p);
  j_io : correct_io p = imap (fun i fe => Some (hash_to_fe (truth (parent + (Z.of_nat i + 1) * span)) =? fe))
           (io_field_elements p);
  j_trail : correct_trail p = (fun fe => Some (fe =? 0)) <$> trail_field_elements p;
}.
(** The number of games can be told from the node's outputs and from nothing. *)
Definition distinct (games : Z) : Prop :=
  hash_to_fe games <> 0 /\ forall n, hash_to_fe (truth n) <> hash_to_fe games.

Lemma io_verdict f count games parent span offset p (j : nat) b :
  planted f games parent count span offset ->
  distinct games -> holds f count p -> judged_by_node parent span p -> correct_io p !! j = Some (Some b) ->
  Z.of_nat j + 1 < count /\ b = negb (Z.of_nat j + 1 =? fault_position count offset).
Proof.
  intros Hf [_ Hd] [_ _ Hio _] [_ Hjio _] Hj. rewrite Hjio, Hio in Hj.
  rewrite list_lookup_imap in Hj. apply fmap_Some in Hj as (fe & Hfe & Hb).
  apply lookup_take_Some in Hfe as [Hfe Hlt]. apply Hf in Hfe as ->. injection Hb as ->.
  split; [lia|]. destruct (_ =? fault_position _ _); cbn [negb]; [by apply Z.eqb_neq|].
  rewrite (proj2 (Z.ltb_lt _ _)) by lia. apply Z.eqb_refl.
Qed.

Lemma trail_verdict f count games parent span offset p (j : nat) b :
  planted f games parent count span offset ->
  0 < count -> fault_position count offset <= Z.of_nat (length (f_elements f)) ->
  distinct games -> holds f count p -> judged_by_node parent span p -> correct_trail p !! j = Some (Some b) ->
  b = negb (count + Z.of_nat j =? fault_position count offset).
Proof.
  intros Hf Hc Hpos [Hz _] [_ _ _ [n Htr]] [_ _ Hjtr] Hj. rewrite Hjtr, Htr in Hj.
  apply list_lookup_fmap_Some in Hj as (fe & Hb & Hfe). injection Hb as ->.
  apply lookup_app_Some in Hfe as [Hfe|[Hge Hfe]].
  - rewrite lookup_drop in Hfe. apply Hf in Hfe as ->.
    replace (Z.of_nat (Z.to_nat (count - 1) + j) + 1) with (count + Z.of_nat j) by lia.
    destruct (_ =? fault_position _ _); cbn [negb]; [by apply Z.eqb_neq|].
    by rewrite (proj2 (Z.ltb_ge _ _)) by lia.
  - apply lookup_replicate in Hfe as [-> _]. rewrite length_drop in Hge. cbn.
    symmetry. apply negb_true_iff, Z.eqb_neq. lia.
Qed.

Lemma io_judged f count parent span p (j : nat) :
  holds f count p -> judged_by_node parent span p -> (j < Z.to_nat (count - 1))%nat ->
  (j < length (f_elements f))%nat -> exists b, correct_io p !! j = Some (Some b).
Proof.
  intros [_ _ Hio _] [_ Hjio _] Hj Hl. rewrite Hjio, Hio, list_lookup_imap, lookup_take_lt by done.
  destruct (lookup_lt_is_Some_2 _ _ Hl) as [fe ->]. by eexists.
Qed.
Lemma trail_judged f count parent span p (j : nat) :
  holds f count p -> judged_by_node parent span p -> (Z.to_nat (count - 1) + j < length (f_elements f))%nat ->
  exists b, correct_trail p !! j = Some (Some b).
Proof.
  intros [_ _ _ [n Htr]] [_ _ Hjtr] Hl. rewrite Hjtr, Htr, list_lookup_fmap, lookup_app_l by (rewrite length_drop; lia).
  rewrite lookup_drop. destruct (lookup_lt_is_Some_2 _ _ Hl) as [fe ->]. by eexists.
Qed.

(** Where the validator finds the fault. *)
Definition expected_fault (count offset : Z) : Fault :=
  if offset <? count then Output (Z.to_nat (offset - 1)) else Trail (Z.to_nat (fault_position count offset)).

Lemma planted_fault f games parent count span offset p :
  length (f_elements f) = Z.to_nat (FIELD_ELEMENTS_PER_BLOB - 1) -> planted f games parent count span offset ->
  0 < count -> 0 < offset -> fault_position count offset < FIELD_ELEMENTS_PER_BLOB -> distinct games ->
  holds f count p -> judged_by_node parent span p -> Proposal.fault p = Some (expected_fault count offset).
Proof.
  intros Hlen Hf Hc Ho Hpos Hd Hh Hj. change FIELD_ELEMENTS_PER_BLOB with 4096 in *.
  pose proof (fun j b => io_verdict f count games parent span offset p j b Hf Hd Hh Hj) as Hio.
  pose proof (fun j b => trail_verdict f count games parent span offset p j b Hf Hc ltac:(lia) Hd Hh Hj) as Htr.
  unfold Proposal.fault, expected_fault. destruct (Z.ltb_spec offset count) as [Hlt|Hge].
  - assert (fault_position count offset = offset) as Hk by (unfold fault_position; rewrite (proj2 (Z.leb_le _ _)); lia).
    rewrite Hk in *. rewrite (proj2 (first_false_None (correct_trail p))).
    2:{ intros (j & Hn)%list_elem_of_lookup_1. apply Htr in Hn. symmetry in Hn. apply negb_false_iff, Z.eqb_eq in Hn. lia. }
    rewrite (proj2 (first_false_Some (correct_io p) (Z.to_nat (offset - 1)))); [done|]. split.
    + destruct (io_judged f count parent span p (Z.to_nat (offset - 1)) Hh Hj) as [b Hb]; [lia..|].
      rewrite Hb. apply Hio in Hb as [_ ->]. by rewrite (proj2 (Z.eqb_eq _ _)) by lia.
    + intros j Hlt' Hn. apply Hio in Hn as [_ Hn]. symmetry in Hn. apply negb_false_iff, Z.eqb_eq in Hn. lia.
  - set (k := fault_position count offset) in *.
    assert (Hk : count <= k) by (unfold k, fault_position; destruct (Z.leb_spec offset count); lia).
    assert (Hl : length (io_field_elements p) = Z.to_nat (count - 1))
      by (rewrite (h_io _ _ _ Hh), length_take; lia).
    rewrite (proj2 (first_false_Some (correct_trail p) (Z.to_nat (k - count)))).
    + rewrite Hl. do 2 f_equal. lia.
    + split.
      * destruct (trail_judged f count parent span p (Z.to_nat (k - count)) Hh Hj) as [b Hb]; [lia|].
        rewrite Hb. apply Htr in Hb as ->. by rewrite (proj2 (Z.eqb_eq _ _)) by lia.
      * intros j Hlt' Hn. apply Htr in Hn. symmetry in Hn. apply negb_false_iff, Z.eqb_eq in Hn. lia.
Qed.

Lemma sidecar_nonempty fes sc : fes <> [] -> create_sidecar fes = Ok sc -> sc_blobs sc <> [].
Proof.
  intros Hf Hs He. apply blob_sidecar_blobs in Hs. rewrite He in Hs.
  destruct (sidecar_blobs_spec (length fes) fes []) as (fs & n & Hr & _ & _ & Hc); [cbn; lia|].
  rewrite Hr in Hs. cbn [app] in Hs. destruct fs; [|discriminate Hs]. cbn in Hc. rewrite drop_0 in Hc. by destruct fes.
Qed.

Lemma faulty_elements_nonempty args games parent count span (s s' : S) f :
  faulty_proposal args games parent count span s = (Ok f, s') -> f_elements f <> [].
Proof.
  unfold faulty_proposal. intros E. do 4 (apply St_bind_Ok in E as (? & ? & _ & E)).
  apply St_bind_Ok in E as (? & ? & _ & E). do 2 (apply St_bind_Ok in E as (? & ? & _ & E)).
  apply St_bind_Ok in E as (fes & ? & Ef & E). injection E as <- _. apply faulty_outputs_spec in Ef as ->.
  cbn [f_elements]. intros Hnil%(f_equal length). rewrite length_fmap, length_seq in Hnil. done.
Qed.

Lemma free_extra_data_Ok fuel factory number root parent counter (s s' : S) data :
  free_extra_data fuel factory number root parent counter s = (Ok (Some data), s') ->
  exists c, data = extra_data number parent c.
Proof.
  revert counter s. induction fuel as [|fuel IH]; intros counter s E; [done|]. cbn [free_extra_data] in E.
  apply St_bind_Ok in E as (address & s1 & _ & E). destruct (address =? 0).
  - injection E as <- _. by eexists.
  - apply St_bind_Ok in E as (? & ? & _ & E). by eapply IH.
Qed.

(** The treasury of the game, the number of games, the block of the parent, and the count and the
    span of the outputs, as the chain answered them. *)
Definition asked (config : RollupConfig) (args : FaultArgs) (treasury games parent count span : Z) : Prop :=
  exists factory game,
    answered (l1_system_config_address config) DisputeGameFactory factory /\
    answered factory (GameImpls KAILUA_GAME_TYPE) game /\ answered game KAILUA_TREASURY treasury /\
    answered factory GameCount games /\ answered game PROPOSAL_OUTPUT_COUNT count /\
    answered game OUTPUT_BLOCK_SPAN span /\
    exists s : S, answered (game_at_index factory (fault_parent args) s).1.2 L2BlockNumber parent.

(** The planted fault is found. Whatever the tool sends is one proposal with the blob of its
    outputs, made from what the chain answered. Let a game be loaded with these contents and be
    judged by a node that answers as the tool's did, and let the number of games stand out from the
    true outputs. Then the fault that the validator reports is the wrong output: the intermediate
    output at the given offset, or the trailing element that the offset stands for, one earlier. At
    the offset of the root claim itself, though, it is the first trailing element. *)
Theorem injected_fault_found fuel config args tester (s s' : S) b sent :
  fault fuel config args tester (s, []) = (Ok b, (s', sent)) ->
  exists treasury games parent count span f sc (s1 s2 : S),
    asked config args treasury games parent count span /\
    faulty_proposal args games parent count span s1 = (Ok f, s2) /\ create_sidecar (f_elements f) = Ok sc /\
    (if b then exists data value counter, sent = [Propose treasury (f_root f) data value (Some sc)] /\
       data = extra_data (f_number f) (fault_parent args) counter
     else sent = []) /\
    forall p, 0 < span -> 0 < count -> 0 < fault_offset args ->
      fault_position count (fault_offset args) < FIELD_ELEMENTS_PER_BLOB -> distinct games ->
      holds f count p -> judged_by_node parent span p ->
      Proposal.fault p = Some (expected_fault count (fault_offset args)).
Proof.
  unfold fault. intros E. apply St_bind_Ok in E as (? & ? & [_ ->]%lift_Ok & E).
  apply St_bind_Ok in E as (factory & ? & (? & Ef1%stall_answered & ->)%on_fst_Ok & E).
  apply St_bind_Ok in E as (game & ? & (? & Ef2%stall_answered & ->)%on_fst_Ok & E).
  apply St_bind_Ok in E as (treasury & ? & (? & Ef3%stall_answered & ->)%on_fst_Ok & E).
  apply St_bind_Ok in E as (count & ? & (? & Ef4%stall_answered & ->)%on_fst_Ok & E).
  apply St_bind_Ok in E as (span & ? & (? & Ef5%stall_answered & ->)%on_fst_Ok & E).
  apply St_bind_Ok in E as (games & ? & (s6 & Ef6%stall_answered & ->)%on_fst_Ok & E).
  apply St_bind_Ok in E as (parent & ? & (? & Ef7 & ->)%on_fst_Ok & E).
  apply St_bind_Ok in E as (number & ? & (s1 & Ef8%stall_u64_answered & ->)%on_fst_Ok & E).
  apply St_bind_Ok in E as (f & ? & (s2 & Ef & ->)%on_fst_Ok & E).
  apply St_bind_Ok in E as (sc & ? & [Esc ->]%lift_Ok & E).
  apply St_bind_Ok in E as (data & ? & (s3 & Ed & ->)%on_fst_Ok & E).
  exists treasury, games, number, count, span, f, sc, s1, s2. split.
  { exists factory, game. split_and!; try done. exists s6. destruct (game_at_index _ _ _) as [[ty proxy] ?].
    by injection Ef7 as -> _. }
  split; [exact Ef|]. split; [done|]. split.
  - destruct data as [data|]; [|by injection E as <- _ <-].
    apply free_extra_data_Ok in Ed as [counter ->].
    apply St_bind_Ok in E as (bond & ? & (? & _ & ->)%on_fst_Ok & E).
    apply St_bind_Ok in E as (paid & ? & (? & _ & ->)%on_fst_Ok & E).
    apply St_bind_Ok in E as ([] & [s5 sent'] & Es & E). injection E as <- -> ->.
    unfold submit_proposal in Es.
    rewrite bool_decide_false in Es by (eapply sidecar_nonempty; [|exact Esc]; by eapply faulty_elements_nonempty).
    destruct (send_tx _ _) as [[]?]; [injection Es as _ <-..|discriminate Es]; cbn; eauto 10.
  - intros p Hspan Hc Ho Hpos Hd Hh Hj. apply faulty_proposal_Ok in Ef as (_ & _ & Hlen & Hf); [|done].
    by eapply planted_fault.
Qed.
End found.

(** ** A run

    Proposals of four outputs, two blocks each; the third game gets a wrong second output. *)
Module FaultyDemo.
#[export] Instance nodes : Nodes unit := {|
  eth_call := fun contract c s =>
    (match c with
     | DisputeGameFactory => 10 | GameImpls _ => 20 | KAILUA_TREASURY => 30 | PROPOSAL_OUTPUT_COUNT => 4
     | OUTPUT_BLOCK_SPAN => 2 | GameCount => 3 | L2BlockNumber => 100 | ParticipationBond => 50 | _ => 0
     end, s);
  game_at_index := fun _ _ s => ((1337, 500), s);
  eth_call_prune := fun _ _ s => (Ok 0, s);
  beacon_sidecars := fun _ s => ([], s) |}.
#[export] Instance op : OpNode unit := {|
  output_at_block := fun n s => (1000, s); safe_l2_number := fun s => (None, s); l1_block_number := fun h s => (h, s) |}.
#[export] Instance host : ProposerHost unit := {|
  latest_timestamp := fun s => (0, s); get_balance := fun _ s => (0, s); send_tx := fun _ s => (Ok tt, s) |}.
#[export] Instance kzg : Kzg := demo_kzg.
#[export] Instance digests : Digests := demo_digests.
Definition args : FaultArgs := {| fault_offset := 2; fault_parent := 1 |}.
Definition truth (_ : Z) : Z := 1000.

(** A game with the contents that were sent, judged by the node. *)
Definition loaded (f : Faulty) : Proposal :=
  let io := take 3 (f_elements f) in
  let trail := drop 3 (f_elements f) ++ replicate 1 0 in
  {| contract := 600; p_treasury := 30; index_ := 3; parent := 1; proposer := 9; created_at := 0; io_blobs := [];
     io_field_elements := io; trail_field_elements := trail; output_root := f_root f;
     output_block_number := f_number f; l1_head := 0; signature := 0; children := ∅; successor := None;
     correct_io := imap (fun i fe => Some (hash_to_fe (truth (100 + (Z.of_nat i + 1) * 2)) =? fe)) io;
     correct_trail := (fun fe => Some (fe =? 0)) <$> trail;
     correct_claim := Some (truth (f_number f) =? f_root f); correct_parent := Some true;
     canonical := None; resolved_at := 0 |}.
End FaultyDemo.
#[local] Existing Instances FaultyDemo.nodes FaultyDemo.op FaultyDemo.host FaultyDemo.kzg FaultyDemo.digests.

Lemma injected_fault_found_witness :
  exists f sc data value, (fault 3 demo_config FaultyDemo.args 9 (tt, [])).2.2 =
      [Propose 30 (f_root f) data value (Some sc)] /\
    Proposal.fault (FaultyDemo.loaded f) = Some (Output 1).
Proof.
  assert (Hb : (fault 3 demo_config FaultyDemo.args 9 (tt, [])).1 = Ok true) by (vm_compute; reflexivity).
  destruct (fault 3 demo_config FaultyDemo.args 9 (tt, [])) as [r [s' sent]] eqn:E. cbn [fst] in Hb. subst r.
  assert (Hh : forall n (s : unit), (@output_at_block unit FaultyDemo.op n s).1 = FaultyDemo.truth n) by reflexivity.
  destruct (injected_fault_found (S := unit) FaultyDemo.truth Hh 3 demo_config FaultyDemo.args 9 tt s' true sent E)
    as (treasury & games & parent & count & span & f & sc & s1 & s2 & Ha & _ & _ & (data & value & c & Hs & _) & Hfound).
  destruct Ha as (? & ? & [? <-] & [? <-] & [? <-] & [? <-] & [? <-] & [? <-] & [? [? <-]]).
  exists f, sc, data, value. split; [exact Hs|]. apply Hfound; try reflexivity.
  - split; [vm_compute; discriminate|]. intros n. vm_compute. discriminate.
  - split; try reflexivity. by exists 1%nat.
  - by split.
Defined.
