(* ===== verification/Cli.v ===== *)
(** * bin/cli/src/{bonsai,config,export}.rs

    The commands that stand for themselves: the proof of a session that was
    started before is fetched, checked and filed; the configuration of a rollup
    is reported; the programs of the guests are written out. *)

From S2P Require Import Prelude Bytes Config RollupSource Stitching Witgen Tasks Runs Backend Deployment.
Open Scope Z_scope.

(** ** bonsai.rs *)

Record SessionStats := { segments : Z; total_cycles : Z; cycles : Z }.
Record SessionStatusRes := {
  res_status : string; res_receipt_url : option string; res_stats : option SessionStats }.
Record KailuaSessionStats := {
  ks_segments : Z; ks_total_cycles : Z; ks_user_cycles : Z; ks_paging_cycles : Z; ks_reserved_cycles : Z }.
Record KailuaProveInfo (R : Type) := { pi_receipt : R; pi_stats : KailuaSessionStats }.
Arguments pi_receipt {R}. Arguments pi_stats {R}. Arguments Build_KailuaProveInfo {R}.

(** What [save_to_bincoded_file] leaves: no file was created; a file that was
    cut short, with what is read from it, if anything; or all of it. *)
Inductive Saved (R : Type) := NotCreated | CutShort (content : option R) | Complete.
Arguments NotCreated {R}. Arguments CutShort {R}. Arguments Complete {R}.

(** The SDK of the service, bincode and the file system. *)
Class BonsaiSessions (N R : Type) := {
  sdk_from_env : outcome unit;
  session_res : string -> N -> outcome SessionStatusRes * N;
  sdk_download : string -> N -> outcome bytes * N;
  bincode_receipt : bytes -> outcome R;
  save_receipt : Z -> R -> N -> Saved R * N;
}.

Section bonsai.
Context {N R : Type} `{Zkvm R} `{Digests} `{Images} `{BonsaiSessions N R}.
Abbreviation W := (World N R).

(** [?] on an [anyhow::Result]. *)
Definition orelse_return {X A} (o : outcome A) : Run X A := once (lift_at (map_err OtherError o)).
Definition ask_node {A} (q : N -> outcome A * N) : Run W A :=
  o ← ask (fun w : W => let '(o, n) := q (node w) in (o, {| proof_files := proof_files w; node := n |}));
  orelse_return o.

(** One round of the loop: [Some] proof, or [None] if the workflow has failed. *)
Definition session_round (session_id : string) : Run W (unit + option (KailuaProveInfo R)) :=
  res ← ask_node (session_res session_id);
  if bool_decide (res_status res = "RUNNING") then mret (inl tt)
  else if negb (bool_decide (res_status res = "SUCCEEDED")) then mret (inr None)
  else
    receipt_url ← orelse_return (ok_or "API error, missing receipt on completed session" (res_receipt_url res));
    stats ← orelse_return (ok_or "Missing stats object on Bonsai status res" (res_stats res));
    receipt_buf ← ask_node (sdk_download receipt_url);
    receipt ← orelse_return (bincode_receipt receipt_buf);
    _ ← orelse_return (receipt_verify KONA_ID receipt);
    mret (inr (Some {| pi_receipt := receipt; pi_stats := {|
      ks_segments := segments stats; ks_total_cycles := total_cycles stats; ks_user_cycles := cycles stats;
      ks_paging_cycles := 0; ks_reserved_cycles := 0 |} |})).
Definition await_session (session_id : string) : Run W (option (KailuaProveInfo R)) :=
  loop (fun _ => session_round session_id) tt.

(** [save_to_bincoded_file], whose error is only logged. *)
Definition put_receipt (file : Z) (receipt : R) (w : W) : W :=
  let '(saved, n) := save_receipt file receipt (node w) in
  {| proof_files := match saved with
     | NotCreated => proof_files w
     | CutShort content => partial_alter (fun _ => content) file (proof_files w)
     | Complete => <[file := receipt]> (proof_files w)
     end; node := n |}.

Definition file_receipt (receipt : R) : Run W unit :=
  let file := proof_id KONA_ID (receipt_journal receipt) in
  prior ← try_run (once (read_bincoded_file file));
  match prior with
  | inl prior_receipt =>
      match receipt_verify KONA_ID prior_receipt with
      | Ok _ => mret tt
      | Err _ => ask (fun w => (tt, put_receipt file receipt w))
      | Panic why => once (lift_at (Crashed why))
      end
  | inr _ => ask (fun w => (tt, put_receipt file receipt w))
  end.

Definition bonsai (session_id : string) : Run W unit :=
  _ ← orelse_return sdk_from_env;
  info ← await_session session_id;
  match info with None => mret tt | Some info => file_receipt (pi_receipt info) end.
End bonsai.

Section bonsai_spec.
Context {N R : Type} `{Zkvm R} `{Digests} `{Images} `{BonsaiSessions N R}.
Abbreviation W := (World N R).
Implicit Types w : W.

Definition filed (F : gmap Z R) w : Prop := proof_files w = F.

Lemma return_filed F {A} (o : outcome A) : ensures (filed F) (orelse_return o) (fun _ => filed F).
Proof. by apply ensures_once. Qed.

Lemma ask_node_filed F {A} (q : N -> outcome A * N) : ensures (filed F) (ask_node q) (fun _ => filed F).
Proof.
  eapply (ensures_bind _ _ _ (fun _ => filed F)); [| |done..].
  - apply ensures_ask. intros w Hw. by destruct (q (node w)).
  - intros ?. apply return_filed.
Qed.

(** A session leaves the files alone, and its proof was verified. *)
Definition session_post (F : gmap Z R) (o : attempt (unit + option (KailuaProveInfo R))) w : Prop :=
  filed F w /\ match o with
    | Done (inr (Some info)) => receipt_verify KONA_ID (pi_receipt info) = Ok tt | _ => True end.

Lemma session_round_post F session_id : ensures (filed F) (session_round session_id) (session_post F).
Proof.
  unfold session_round.
  eapply (ensures_bind _ _ _ (fun _ => filed F)); [apply ask_node_filed| |done..]. intros res.
  apply ensures_if; intros _; [by apply ensures_ret|]. apply ensures_if; intros _; [by apply ensures_ret|].
  eapply (ensures_bind _ _ _ (fun _ => filed F)); [apply return_filed| |done..]. intros url.
  eapply (ensures_bind _ _ _ (fun _ => filed F)); [apply return_filed| |done..]. intros stats.
  eapply (ensures_bind _ _ _ (fun _ => filed F)); [apply ask_node_filed| |done..]. intros buf.
  eapply (ensures_bind _ _ _ (fun _ => filed F)); [apply return_filed| |done..]. intros receipt.
  eapply (ensures_bind _ _ _ (fun o w => filed F w /\ (o = Done tt -> receipt_verify KONA_ID receipt = Ok tt))).
  - apply ensures_once. intros w Hw. split; [done|]. cbn.
    by destruct (receipt_verify KONA_ID receipt) as [[]|?|?].
  - intros []. apply ensures_ret. intros w [Hw Hv]. split; [done|]. cbn. auto.
  - by intros e w [Hw _].
  - by intros why w [Hw _].
Qed.

Lemma await_session_post F session_id :
  ensures (filed F) (await_session session_id) (fun o w => filed F w /\
    match o with Done (Some info) => receipt_verify KONA_ID (pi_receipt info) = Ok tt | _ => True end).
Proof.
  apply (ensures_loop (fun _ => filed F)). intros [].
  eapply ensures_conseq; [apply session_round_post|done|]. by intros [[[]|a]|e|why] w [Hw Hv].
Qed.

(** What the command does to the proof files: nothing, or it saves a receipt that was verified
    against the image of the guest under the name of its journal, where no receipt was that
    verifies. *)
Theorem bonsai_files session_id fuel w o w' :
  bonsai session_id fuel w = Some (o, w') ->
  proof_files w' = proof_files w \/
  exists r n, o = Done tt /\ receipt_verify KONA_ID r = Ok tt /\
    (forall r', proof_files w !! proof_id KONA_ID (receipt_journal r) = Some r' ->
       receipt_verify KONA_ID r' <> Ok tt) /\
    w' = put_receipt (proof_id KONA_ID (receipt_journal r)) r {| proof_files := proof_files w; node := n |}.
Proof.
  unfold bonsai, mbind at 1, Run_bind at 1, orelse_return, once, lift_at.
  destruct sdk_from_env as [[]|?|?]; cbn; [|intros [= <- <-]; by left..].
  unfold mbind, Run_bind. destruct (await_session session_id fuel w) as [[oi w1]|] eqn:Ew; [|done].
  apply (await_session_post (proof_files w)) in Ew as [Hw Hv]; [|done]. red in Hw.
  destruct oi as [[info|]|e|why]; [|intros [= <- <-]; by left..].
  cbn in Hv. set (r := pi_receipt info) in *. unfold file_receipt, mbind, Run_bind, try_run, once.
  unfold read_bincoded_file, mbind, Pr_bind, world, lift_at. cbn. rewrite Hw.
  destruct (proof_files w !! proof_id KONA_ID (receipt_journal r)) as [r'|] eqn:El; cbn;
    [destruct (receipt_verify KONA_ID r') as [[]|?|?] eqn:Er|]; cbn; intros [= <- <-];
    try (by left); right; exists r, (node w1);
    (split; [done|]; split; [done|]; split; [congruence|]); destruct w1; cbn in Hw; by subst.
Qed.

(** A receipt that verifies stays where it is. *)
Theorem bonsai_keeps_valid session_id fuel w o w' f r :
  bonsai session_id fuel w = Some (o, w') ->
  proof_files w !! f = Some r -> receipt_verify KONA_ID r = Ok tt ->
  proof_files w' !! f = Some r.
Proof.
  intros [->|(r' & n & _ & _ & Hp & ->)]%bonsai_files Hf Hv; [done|].
  assert (proof_id KONA_ID (receipt_journal r') <> f) by (intros <-; by eapply Hp).
  unfold put_receipt. destruct (save_receipt _ _ _) as [[|content|] n']; cbn;
    [done|by rewrite lookup_partial_alter_ne|by rewrite lookup_insert_ne].
Qed.

(** *** The command ends *)

Lemma mono_ask_node {A} (q : N -> outcome A * N) : run_mono (ask_node (R := R) q).
Proof. unfold ask_node, orelse_return. apply mono_bind; [apply mono_ask|intros ?; apply mono_once]. Qed.

Lemma mono_session_round session_id : run_mono (session_round session_id).
Proof.
  unfold session_round. apply mono_bind; [apply mono_ask_node|]. intros res.
  apply mono_if; [apply mono_ret|]. apply mono_if; [apply mono_ret|].
  unfold orelse_return. mono. apply mono_ask_node.
Qed.

Definition settled (o : outcome SessionStatusRes) : Prop :=
  match o with Ok res => res_status res <> "RUNNING"%string | _ => True end.

(** A round that has its answer uses no more fuel. *)
Lemma session_round_answers session_id w :
  exists o w1, ends (session_round session_id) w (o, w1) /\
    (settled (session_res session_id (node w)).1 -> o <> Done (inl tt)) /\
    (o = Done (inl tt) -> node w1 = (session_res session_id (node w)).2).
Proof.
  unfold session_round, ends, ask_node, orelse_return, mbind, Run_bind, ask, once, lift_at.
  destruct (session_res session_id (node w)) as [[res|e|why] n]; cbn;
    [|eexists _, _; split; [by exists O|done]..].
  case_bool_decide as Hs.
  { eexists _, _. split; [by exists O|]. done. }
  destruct (negb _); [eexists _, _; split; [by exists O|done]|].
  destruct (res_receipt_url res) as [url|]; cbn; [|eexists _, _; split; [by exists O|done]].
  destruct (res_stats res) as [stats|]; cbn; [|eexists _, _; split; [by exists O|done]].
  destruct (sdk_download url n) as [[buf|?|?] n1]; cbn; [|eexists _, _; split; [by exists O|done]..].
  destruct (bincode_receipt buf) as [r|?|?]; cbn; [|eexists _, _; split; [by exists O|done]..].
  destruct (receipt_verify KONA_ID r); cbn; eexists _, _; (split; [by exists O|done]).
Qed.

Lemma mono_file_receipt r : run_mono (file_receipt (N := N) r).
Proof.
  apply mono_bind; [apply mono_try, mono_once|].
  intros [r'|?]; [destruct (receipt_verify KONA_ID r')|]; apply mono_once.
Qed.

Lemma mono_await session_id (u : unit) :
  run_mono (info ← await_session session_id; match info with None => mret tt | Some info => file_receipt (pi_receipt info) end).
Proof.
  apply mono_bind; [apply mono_loop; intros; apply mono_session_round|].
  intros [info|]; [apply mono_file_receipt|apply mono_ret].
Qed.

Lemma file_receipt_ends r w : exists q, ends (file_receipt r) w q.
Proof.
  unfold file_receipt, ends, mbind, Run_bind, try_run, once, ask, mret, Run_ret.
  destruct (read_bincoded_file _ w) as [[r'|?|?] w']; [destruct (receipt_verify KONA_ID r')|..]; by eexists _, O.
Qed.

(** The command ends if the session does not run for ever: as soon as the service answers with
    another status, or does not answer. *)
Theorem bonsai_ends session_id w :
  eventually settled (session_res session_id) (node w) -> exists r, ends (bonsai session_id) w r.
Proof.
  intros Hev. assert (Ha : exists r, ends (await_session session_id) w r).
  { remember (node w) as n eqn:En. revert w En.
    induction Hev as [n Hs|n _ IH]; intros w ->;
      destruct (session_round_answers session_id w) as ([[[]|a]|e|why] & w1 & Hr & Hset & Hnode).
    1: by destruct (Hset Hs eq_refl).
    all: try (eexists; apply ends_loop; [intros; apply mono_session_round|]; eexists _, _; split; [exact Hr|reflexivity]).
    destruct (IH w1 (eq_sym (Hnode eq_refl))) as [r' Hr'].
    exists r'. eapply ends_loop_continue; [intros; apply mono_session_round|exact Hr|exact Hr']. }
  apply ends_some_bind; [apply mono_once|apply mono_await| |].
  { eexists. apply ends_once. }
  intros [] y Hy. apply ends_once_inv in Hy. injection Hy as _ ->.
  apply ends_some_bind; [apply mono_loop; intros; apply mono_session_round| |done|].
  { intros [info|]; [apply mono_file_receipt|apply mono_ret]. }
  intros [info|] y' _; [apply file_receipt_ends|eexists; apply ends_ret].
Qed.
End bonsai_spec.

(** ** config.rs *)

(** What is printed, one constructor for each kind of line. *)
Inductive Line :=
| ConfigMismatch
| Risc0Version (version : string)
| ImageIdLine (label : string) (id : Z)
| ElfLine (label : string) (bytes_len : Z)
| ControlRoot (root : bytes)
| ControlId (id : bytes)
| RiscZeroVerifier (address : option Z)
| GenesisTimestamp (time : Z)
| BlockTime (time : Z)
| RollupConfigHash (hash : Z)
| DisputeGameFactoryLine (address : Z)
| OptimismPortalLine (address : Z)
| GameTypeLine (game_type : Z).

(** The programs of the guests, and what risc0 says of programs and of itself. *)
Class Programs := {
  KONA_ELF : bytes; HOKULEA_ELF : bytes; DA_HOKULEA_ELF : bytes; HANA_ELF : bytes;
  elf_image_id : bytes -> outcome Z;
  risc0_get_version : outcome string;
  ALLOWED_CONTROL_ROOT : bytes; BN254_IDENTITY_CONTROL_ID : bytes;
}.

Record ConfigArgs := {
  ca_op_node_url : string; ca_op_geth_url : string; ca_eth_rpc_url : string; ca_bypass_chain_registry : bool }.

(** The verifier contract of a chain. *)
Definition verifier_address (l1_chain_id : Z) : option Z :=
  let shared := 0x0b144e07a0826182b6b59788c34b32bfa86fb711 in
  match l1_chain_id with
  | 1 => Some 0x8EaB2D97Dfce405A1692a21b3ff3A172d593D319
  | 11155111 => Some 0x925d8331ddc0a1F0d96E68CF073DFE1d92b69187
  | 17000 => Some 0xf70aBAb028Eb6F4100A24B203E113D94E87DE93C
  | 560048 => Some 0x32Db7dc407AC886807277636a1633A1381748DD8
  | 42161 | 421614 | 43114 | 43113 | 8453 | 84532 | 10 => Some shared
  | 11155420 => Some 0xB369b4dd27FBfb59921d3A4a3D23AC2fc32FB908
  | 59144 => Some shared
  | 59141 => Some 0x27983ee173aD10E171D17C9c5C14d5baFE997609
  | 1101 => Some shared
  | _ => None
  end.

(** The node, and what was printed so far. *)
Record Report (N : Type) := { rp_node : N; rp_lines : list Line }.
Arguments rp_node {N}. Arguments rp_lines {N}. Arguments Build_Report {N}.

Section config.
Context {N : Type} `{Nodes N} `{ConfigSource N} `{Digests} `{Images} `{Programs}.
Abbreviation RP := (Report N).

Definition println (l : Line) : St RP unit := fun s => (Ok tt, Build_Report (rp_node s) (rp_lines s ++ [l])).
Definition at_node {A} (m : St N A) : St RP A := fun s =>
  let '(a, n) := m (rp_node s) in (a, Build_Report n (rp_lines s)).

Definition report_image_id (stored_image_id : Z) (stored_elf : bytes) (label : string) : St RP unit :=
  _ ← println (ImageIdLine label stored_image_id);
  computed_image_id ← lift (expect "compute_image_id" (elf_image_id stored_elf));
  if computed_image_id =? stored_image_id
  then println (ElfLine label (Z.of_nat (length stored_elf)))
  else lift (Panic "assertion `left == right` failed").

Definition fpvm_images : list (Z * bytes * string) :=
  [(KONA_ID, KONA_ELF, "KAILUA_FPVM_KONA"); (HOKULEA_ID, HOKULEA_ELF, "KAILUA_FPVM_HOKULEA");
   (DA_HOKULEA_ID, DA_HOKULEA_ELF, "KAILUA_DA_HOKULEA"); (HANA_ID, HANA_ELF, "KAILUA_FPVM_HANA")]%string.
Fixpoint report_images (images : list (Z * bytes * string)) : St RP unit :=
  match images with
  | [] => mret tt
  | (image_id, elf, label) :: images => _ ← report_image_id image_id elf label; report_images images
  end.

(** The warning about a configuration that is not the registry's. *)
Definition check_registry (config : RollupConfig) (rollup_config_hash : Z) : St RP unit :=
  match load_registry_config (l2_chain_id config) with
  | None => mret tt
  | Some registry_config =>
      registry_config_hash ← lift (expect "Registry config hash derivation error" (config_hash registry_config));
      if rollup_config_hash =? registry_config_hash then mret tt else println ConfigMismatch
  end.

Definition config (args : ConfigArgs) : St RP unit :=
  cfg ← at_node (fetch_rollup_config (ca_op_node_url args) (ca_op_geth_url args) None
                      (ca_bypass_chain_registry args));
  rollup_config_hash ← lift (expect "Configuration hash derivation error" (config_hash cfg));
  _ ← check_registry cfg rollup_config_hash;
  version ← lift risc0_get_version;
  _ ← println (Risc0Version version);
  _ ← report_images fpvm_images;
  _ ← println (ControlRoot ALLOWED_CONTROL_ROOT);
  _ ← println (ControlId (rev BN254_IDENTITY_CONTROL_ID));
  _ ← println (RiscZeroVerifier (verifier_address (l1_chain_id cfg)));
  _ ← println (GenesisTimestamp (l2_time (genesis cfg)));
  _ ← println (BlockTime (block_time cfg));
  _ ← println (RollupConfigHash rollup_config_hash);
  _ ← lift (url_ok (ca_eth_rpc_url args));
  portal_address ← at_node (stall (l1_system_config_address cfg) OptimismPortal);
  dgf_address ← at_node (stall (l1_system_config_address cfg) DisputeGameFactory);
  _ ← println (DisputeGameFactoryLine dgf_address);
  _ ← println (OptimismPortalLine portal_address);
  println (GameTypeLine KAILUA_GAME_TYPE).
End config.

(** ** export.rs *)

(** Creating a file in the data directory and writing to it: what it holds then,
    or nothing if it could not be created. *)
Class ExportHost (N : Type) := {
  path_join : string -> string -> string;
  write_program : string -> bytes -> N -> option bytes * N;
}.

Section export.
Context {N : Type} `{Programs} `{ExportHost N}.

Definition export_programs : list (bytes * string) :=
  [(KONA_ELF, "kailua-fpvm-kona.bin"); (HOKULEA_ELF, "kailua-fpvm-hokulea.bin");
   (DA_HOKULEA_ELF, "kailua-da-hokulea.bin"); (HANA_ELF, "kailua-fpvm-hana.bin")]%string.

(** The image ids, and errors, are only logged. *)
Definition export_one (data_dir : string) (files : gmap string bytes * N) (program : bytes * string)
    : gmap string bytes * N :=
  let '(elf, file_name) := program in
  let file_path := path_join data_dir file_name in
  let '(content, n) := write_program file_path elf (snd files) in
  (match content with Some content => <[file_path := content]> (fst files) | None => fst files end, n).
Definition export (data_dir : string) (files : gmap string bytes) (n : N) : gmap string bytes * N :=
  fold_left (export_one data_dir) export_programs (files, n).
End export.

(** ** What is reported and written *)

Section report_spec.
Context {N : Type} `{Nodes N} `{ConfigSource N} `{Digests} `{Images} `{Programs}.
Abbreviation RP := (Report N).
Implicit Types s : RP.

Lemma println_Ok l s u s' :
  println l s = (Ok u, s') <-> s' = Build_Report (rp_node s) (rp_lines s ++ [l]) /\ u = tt.
Proof. unfold println. destruct u. naive_solver. Qed.

Lemma at_node_Ok {A} (m : St N A) s a s' :
  at_node m s = (Ok a, s') <-> exists n, m (rp_node s) = (Ok a, n) /\ s' = Build_Report n (rp_lines s).
Proof. unfold at_node. destruct (m (rp_node s)). naive_solver. Qed.

(** The lines of a program, and whether it has the image id that is reported. *)
Definition image_lines (i : Z * bytes * string) : list Line :=
  let '(id, elf, label) := i in [ImageIdLine label id; ElfLine label (Z.of_nat (length elf))].
Definition image_matches (i : Z * bytes * string) : Prop := elf_image_id i.1.2 = Ok i.1.1.

Lemma report_images_Ok images s u s' :
  report_images images s = (Ok u, s') ->
  Forall image_matches images /\ s' = Build_Report (rp_node s) (rp_lines s ++ concat (map image_lines images)).
Proof.
  revert s. induction images as [|[[id elf] label] images IH]; intros s; cbn.
  { intros [= _ <-]. rewrite app_nil_r. by destruct s. }
  intros ([] & s1 & Hi & Hr)%St_bind_Ok. unfold report_image_id in Hi.
  apply St_bind_Ok in Hi as (? & s2 & [-> _]%println_Ok & Hi).
  apply St_bind_Ok in Hi as (id' & s3 & [Hid ->]%lift_Ok & Hi).
  destruct (id' =? id) eqn:E; [|by apply lift_Ok in Hi as [? _]]. bools. subst id'.
  apply println_Ok in Hi as [-> _]. apply IH in Hr as [Hf ->]. cbn.
  split; [constructor; [|done]|by rewrite <-!app_assoc].
  unfold image_matches. cbn. by destruct (elf_image_id elf).
Qed.

(** The registry has another configuration for the chain. *)
Definition registry_differs (c : RollupConfig) (h : Z) : Prop :=
  exists r g, load_registry_config (l2_chain_id c) = Some r /\ config_hash r = Ok g /\ g <> h.

Lemma check_registry_Ok c h s u s' :
  check_registry c h s = (Ok u, s') ->
  exists warning, s' = Build_Report (rp_node s) (rp_lines s ++ warning) /\
    ((registry_differs c h /\ warning = [ConfigMismatch]) \/ (~ registry_differs c h /\ warning = [])).
Proof.
  unfold check_registry, registry_differs. destruct (load_registry_config (l2_chain_id c)) as [r|].
  - intros (g & s1 & [Hg ->]%lift_Ok & Hr)%St_bind_Ok.
    assert (Hg' : config_hash r = Ok g) by (by destruct (config_hash r)).
    destruct (h =? g) eqn:E; bools.
    + injection Hr as _ <-. exists []. rewrite app_nil_r. split; [by destruct s|]. right. split; [|done].
      intros (r' & g' & [= <-] & ? & ?). congruence.
    + apply println_Ok in Hr as [-> _]. eexists. split; [done|]. left. split; [|done]. eexists _, _.
      split; [done|]. split; [done|]. congruence.
  - intros [= _ <-]. exists []. rewrite app_nil_r. split; [by destruct s|]. right. split; [|done].
    by intros (? & ? & ? & _).
Qed.

(** What the command prints. A report that is complete shows the hash of the configuration that
    was fetched, with a warning exactly if the registry's configuration of the chain has another
    hash; image ids that the programs have; and the factory of the dispute games that the agents
    look up for this configuration. *)
Theorem config_report args s u s' :
  config args s = (Ok u, s') ->
  exists c h n version portal dgf warning,
    fetch_rollup_config (ca_op_node_url args) (ca_op_geth_url args) None (ca_bypass_chain_registry args)
      (rp_node s) = (Ok c, n) /\
    config_hash c = Ok h /\
    ((registry_differs c h /\ warning = [ConfigMismatch]) \/ (~ registry_differs c h /\ warning = [])) /\
    Forall image_matches fpvm_images /\
    answered (S := N) (l1_system_config_address c) DisputeGameFactory dgf /\
    answered (S := N) (l1_system_config_address c) OptimismPortal portal /\
    rp_lines s' = rp_lines s ++ warning ++ [Risc0Version version] ++ concat (map image_lines fpvm_images) ++
      [ControlRoot ALLOWED_CONTROL_ROOT; ControlId (rev BN254_IDENTITY_CONTROL_ID);
       RiscZeroVerifier (verifier_address (l1_chain_id c)); GenesisTimestamp (l2_time (genesis c));
       BlockTime (block_time c); RollupConfigHash h; DisputeGameFactoryLine dgf; OptimismPortalLine portal;
       GameTypeLine KAILUA_GAME_TYPE].
Proof.
  unfold config. intros (c & s1 & (n & Hf & ->)%at_node_Ok & Hr)%St_bind_Ok.
  apply St_bind_Ok in Hr as (h & ? & [Hh ->]%lift_Ok & Hr).
  apply St_bind_Ok in Hr as (? & s2 & (warning & -> & Hw)%check_registry_Ok & Hr).
  apply St_bind_Ok in Hr as (version & ? & [_ ->]%lift_Ok & Hr).
  apply St_bind_Ok in Hr as (? & ? & [-> _]%println_Ok & Hr).
  apply St_bind_Ok in Hr as (? & ? & [Hi ->]%report_images_Ok & Hr).
  do 6 (apply St_bind_Ok in Hr as (? & ? & [-> _]%println_Ok & Hr)).
  apply St_bind_Ok in Hr as (? & ? & [_ ->]%lift_Ok & Hr).
  apply St_bind_Ok in Hr as (portal & ? & (n1 & Hp%stall_answered & ->)%at_node_Ok & Hr).
  apply St_bind_Ok in Hr as (dgf & ? & (n2 & Hd%stall_answered & ->)%at_node_Ok & Hr).
  do 2 (apply St_bind_Ok in Hr as (? & ? & [-> _]%println_Ok & Hr)).
  apply println_Ok in Hr as [-> _].
  exists c, h, n, version, portal, dgf, warning. cbn [rp_lines rp_node].
  split_and!; [done|by destruct (config_hash c)|done|done|done|done|]. by rewrite <-!app_assoc.
Qed.
End report_spec.

Section export_spec.
Context {N : Type} `{Programs} `{ExportHost N}.

(** Every program is found under its name if its file could be written in full, and no other
    path is touched. *)
Theorem export_writes data_dir (files : gmap string bytes) (n : N) :
  Inj (=) (=) (path_join data_dir) ->
  (forall path content n, (write_program path content n).1 = Some content) ->
  (forall elf file_name, (elf, file_name) ∈ export_programs ->
     (export data_dir files n).1 !! path_join data_dir file_name = Some elf) /\
  (forall path, (forall elf file_name, (elf, file_name) ∈ export_programs -> path <> path_join data_dir file_name) ->
     (export data_dir files n).1 !! path = files !! path).
Proof.
  intros Hj Hw. unfold export.
  assert (Hk : forall l m, base.NoDup l.*2 ->
    (forall elf name, (elf, name) ∈ l -> (fold_left (export_one data_dir) l m).1 !! path_join data_dir name = Some elf) /\
    (forall path, (forall elf name, (elf, name) ∈ l -> path <> path_join data_dir name) ->
      (fold_left (export_one data_dir) l m).1 !! path = m.1 !! path)).
  { induction l as [|[elf name] l IH]; intros [m k] Hn; [split; [by intros ?? ?%not_elem_of_nil|done]|].
    apply list.NoDup_cons in Hn as [Hx Hn]. cbn.
    pose proof (Hw (path_join data_dir name) elf k) as E.
    destruct (write_program _ _ _) as [content k']. cbn in E. subst content.
    destruct (IH (<[path_join data_dir name := elf]> m, k') Hn) as [Hin Hout]. split.
    - intros elf' name' [[= -> ->]|Hl]%elem_of_cons; [|by apply Hin].
      rewrite Hout; [apply lookup_insert_eq|]. intros elf' name' Hl Heq%Hj. subst name'.
      apply Hx. apply list_elem_of_fmap. by exists (elf', name).
    - intros path Hp. rewrite Hout by (intros; eapply Hp; right; done).
      apply lookup_insert_ne. intros <-. eapply Hp; [left|done]. }
  apply Hk. cbn. repeat constructor; cbn; set_solver.
Qed.
End export_spec.

(** ** A concrete session

    Its state counts the queries: the session runs for a while and succeeds, and
    its receipt is filed once. *)
Module CliDemo.
#[export] Instance zkvm : Zkvm Z := {|
  receipt_journal := fun r => be_bytes 2 r;
  receipt_verify := fun _ r => ensure (r =? 3) "verification";
  journal_digest := from_be_bytes; env_verify := fun _ _ => Ok tt |}.
#[export] Instance sessions : BonsaiSessions Z Z := {|
  sdk_from_env := Ok tt;
  session_res := fun _ n => (Ok (if n <? 2
    then {| res_status := "RUNNING"; res_receipt_url := None; res_stats := None |}
    else {| res_status := "SUCCEEDED"; res_receipt_url := Some "url"%string;
            res_stats := Some {| segments := 1; total_cycles := 2; cycles := 1 |} |}), n + 1);
  sdk_download := fun _ n => (Ok (be_bytes 2 3), n); bincode_receipt := fun b => Ok (from_be_bytes b);
  save_receipt := fun _ _ n => (Complete, n + 100) |}.
Definition file `{Digests} `{Images} : Z := proof_id KONA_ID (be_bytes 2 3).
End CliDemo.
#[local] Existing Instances demo_digests demo_images CliDemo.zkvm CliDemo.sessions.

Example session_is_filed :
  bonsai "id" 3%nat {| proof_files := ∅; node := 0 |} =
  Some (Done tt, {| proof_files := {[CliDemo.file := 3]}; node := 103 |}).
Proof. vm_compute. reflexivity. Qed.

Example filed_once :
  bonsai "id" 3%nat {| proof_files := {[CliDemo.file := 3]}; node := 0 |} =
  Some (Done tt, {| proof_files := {[CliDemo.file := 3]}; node := 3 |}).
Proof. vm_compute. reflexivity. Qed.
